(* ===== verification/_CoqProject ===== *)
-Q . S2P
Prelude.v
Prog.v
Types.v
Text.v
Paths.v
Strconv.v
StrconvFacts.v
Config.v
ConfigFacts.v
Logging.v
Db.v
Hoare.v
ControllerStore.v
Columns.v
Lifecycle.v
Selector.v
Transport.v
Secrets.v
Reconciler.v
ReconcilerFacts.v
Token.v
Inventory.v
AgentInventory.v
AgentRunner.v
AgentRunnerFacts.v
LogBatcher.v
LogCapture.v
AgentClient.v
AgentServer.v
AgentServerFacts.v
InventoryFacts.v
Scheduler.v
SchedulerFacts.v
ApiStore.v
ApiResources.v
Http.v
JobHandlers.v
Auth.v
ResourceHandlers.v
Server.v
Process.v
Vocab.v
Refinement.v
System.v
Integrity.v
Liveness.v
Queue.v
Statuses.v
Registry.v
Dormant.v
Platform.v
Sharing.v
Grain.v
Cancellation.v
ApiFacts.v
Messages.v
Access.v
Lifetime.v
ProcessFacts.v
AgentClientFacts.v
LogFacts.v
Journey.v
Samples.v
Witnesses.v
AgentWitnesses.v
PlatformWitnesses.v
SharingWitnesses.v
GrainWitnesses.v
AccessWitnesses.v
