(* ===== verification/Prelude.v ===== *)
(** * AOP: a verification of the Ansible orchestration platform

    The repository runs Ansible playbooks on remote agents.  Its parts, and how
    they interact:

    - the API server (api/): users manage projects, templates, credentials,
      schedules, workflows and jobs over HTTP; agents register, send heartbeats,
      log lines and results;
    - the controller (controller/): a loop that assigns pending jobs to agents
      and times jobs out (internal/reconciler), a loop that fetches inventories
      from git (inventory/), and a cron scheduler that creates jobs
      (internal/scheduler);
    - the agent (agent/): accepts dispatched jobs over HTTP, runs git and
      ansible-playbook, and reports back to the API server;
    - PostgreSQL (migrations/): the only state shared by API servers and
      controllers;
    - pkg/types, pkg/transport: the data and the interfaces they share.

    ** How code is represented

    Sequential Go code that talks to the outside is a tree of interactions
    ([prog] in Prog.v): a statement sent to the database, an HTTP request, a
    command, a file operation.  [run] executes a tree alone on a world with a
    list of the environment's answers; [sys_step] interleaves any number of trees
    over one world, one interaction at a time.  Errors are values of [result].  A
    SQL statement is a function on the database ([Stmt] in Db.v), with NULLs,
    foreign keys and their delete actions, unique and not-null constraints; a
    statement that fails changes nothing.  Code that is concurrent inside one
    process (the agent) is a step function over the state its goroutines share.
    The names are those of the source; two methods of the same name are told
    apart by their file ([ApiStore.CreateJob], [ControllerStore.CreateJob]).

    ** The files

    Shared: Prelude (Go errors and results, notations, tactics, lemmas), Prog
    (programs), Text (the functions of strings, bufio and path/filepath on
    bytes), Paths (what Join and Clean make of clean names), Strconv (strconv.Atoi, time.ParseDuration, encoding/hex and
    os.Getenv), Types (pkg/types), Config (the three internal/config packages),
    Logging (the level and form buildLogger gives the log), Db (the tables of migrations/, statements, the interactions of the servers
    and their effect), Hoare (triples).

    Controller: ControllerStore (controller/internal/store/store.go), Columns (its
    scan functions, with the jsonb columns), Selector
    (controller/selector/leastbusy.go, the class [AgentSelector]), Transport
    (controller/transport/rest.go, the class [AgentTransport]), Secrets
    (api/internal/secrets, controller/internal/secrets, the class
    [SecretsProvider]), Reconciler (controller/internal/reconciler), Inventory
    (controller/inventory/gitfile.go), Scheduler (controller/internal/scheduler).
    The reconciler is written and verified against the classes, whose laws the
    instances discharge.

    API server: ApiStore and ApiResources (api/internal/store), Http
    (api/internal/handler/{handler,respond}.go, net/http), JobHandlers, Auth and
    ResourceHandlers (api/internal/{handler,auth,middleware}), Server
    (api/internal/server: the routes with their middleware; a request gives its
    response and the goroutines it leaves behind, which are those of
    TouchAPIToken).

    Agent: AgentInventory, AgentRunner and LogBatcher (agent/internal/runner),
    AgentServer and LogCapture (agent/internal/server), AgentClient
    (agent/internal/apiclient).

    Programs: Process (the Run methods of the controller's three goroutines with
    their tickers, internal/store/store.go's Connect, api/internal/server's New,
    and the main functions of api/cmd, controller/cmd and agent/cmd).

    Theorems about one component stand in its file or in the file with the suffix
    Facts; AgentClientFacts and LogFacts join the agent to the server that answers
    it.  Lifecycle, Vocab, Refinement, Token, System, Integrity, Statuses,
    Registry, Dormant and Liveness verify the servers together, Queue the order in
    which jobs are taken, Access what a request may change, Messages what agents
    are told and Lifetime a job from its request to its end, Platform and Journey
    the servers with the agents.  Sharing is the agent once more, one interaction with the host at
    a time, Grain the servers with such agents, their hosts and their crashes, and
    Cancellation what a cancelled context makes of a job there.  Samples has
    concrete libraries and a small deployment; Witnesses, AgentWitnesses,
    PlatformWitnesses, SharingWitnesses, GrainWitnesses and AccessWitnesses apply
    the theorems to it.

    ** What is shown

    - The whole server side (System, Integrity), for every interleaving of any
      number of controllers and API servers: the abstract life cycle of jobs
      ([job_evolves] in Lifecycle) is respected, by showing that every statement
      of the vocabularies [api_stmt] and [controller_stmt] respects it
      (Refinement) and that the programs send no other statement (Vocab); a job is
      sent at most once, and to an address of the agent it is assigned to, by a
      logic of tokens (Token); primary keys,
      foreign keys, unique columns and the status columns of jobs stay consistent;
      every status column holds only the values that are set (Statuses); agents are
      never forgotten, and never offline once online (Registry); no history of
      statuses, approval or user is ever added (Dormant); every job
      ends, whether or not its agent answers (Liveness); no job waits for ever,
      since the queue is first in, first out and every tick takes fifty jobs out
      of it (Queue); what is sent to an agent is the payload specified by the job
      requested, over rows that were stored, and every job a user requests ends
      (Lifetime); agents are sent dispatches and nothing else, so no cancellation
      reaches them, and a result replaces it (Messages).  What can be spawned is
      the main functions, the goroutines they start with whatever their tickers
      and contexts deliver, one request on any route, and the TouchAPIToken of a
      request that came with an API token.
    - Servers and agents together (Platform): agents start and stop at any time, a
      dispatch request is lost or reaches its agent once; a job is executed and
      reported at most once over all agents, by the one it is assigned to; a cancel
      request reaches exactly the job it names; and the result of a run, posted by
      the agent's client, becomes the stored status of its job (Journey).
    - The dispatch loop (ReconcilerFacts): with a database that answers, every
      fetched job leaves pending; the payload refines a pure specification over
      the rows; stuck jobs and only they are failed; one pass uses one agent.
    - Queries: the queue is first in, first out and limited; available agents are
      the idle, fresh, online ones; the selector is equivalent to its
      specification; a transition is an atomic compare-and-set; rows are read back
      as the values written, and no jsonb column makes a read fail (Columns).
    - Scheduler: the map and the cron runner stay in bijection; what is and what
      is not registered; a firing entry creates a pending job.
    - Access: over all routes, nothing changes without the credential of the
      route's group, a protected route answers 401 without it, and an agent
      changes only its own row, the jobs assigned to it and their logs; a GET
      writes nothing but the time an API token was last used, in a goroutine.
    - API: authentication of users and agents, results, cancellation, logs,
      approvals, credentials, workflows, each on every branch; encryption and
      decryption are inverse.
    - Programs (ConfigFacts, ProcessFacts): which environments each Load accepts,
      what it reports of the others and what its result guarantees; which programs
      start, and what they start; how the goroutines run and when they panic; a
      credential and a login session carried from one process to another.
    - Inventories: what an agent writes, the controller's INI parser reads back,
      for names and values that are words.
    - Agent: a job leaves no file when os.RemoveAll succeeds, and no secret when
      os.Remove succeeds; it reveals no key or password whatever the host does; a
      run either gives up before the playbook or reports the exit code its process
      was given, and whether its context was cancelled (Run_ends, over the
      conversation of Run with the host); a job cancelled once its playbook is
      due and before it has been waited for is reported cancelled, with whatever
      code the killed process had (Cancellation).  Over the whole platform, with
      agents that stop or crash between any two interactions, jobs whose commands
      stay out of the directories of others do not touch each other's files, and
      only interrupted jobs and those whose RemoveAll failed leave any
      (Grain, by the lemmas of Sharing).  The counter, the capacity and
      cancellation in every interleaving of the agent's goroutines.  Every log
      line is posted at the next tick or flush, through the client and the handler
      it becomes a row of job_logs, unless calls of onLog overlap, which can lose
      lines; a registered client is recognised by the API server in every later
      state and the results it posts are stored.

    ** Bounds and termination

    Programs are finite trees and step functions are total, so every [run] ends
    and a triple is total correctness.  A loop that receives from a ticker and a
    context is a function of the list of what it receives, and ends in [Waiting]
    when that list does: the theorems quantify over it.  The only fuel is that of
    [TrimLeftSpace] in Text, the length of the string, which suffices because each
    round drops a byte; the scanner goroutines are run for the number of steps
    they have left ([steps_left], [go_left]), after which they are shown to have
    read everything.  A scan stops at a line of 64 KiB as bufio.Scanner does.  GetPendingJobs
    returns at most 50 rows and ListJobs at most 200, as in the SQL.  Times are
    nanoseconds as unbounded integers; a sequence number must fit the 32 bits of
    its column ([int4_ok]); the integers Load parses have 64 bits, with the errors
    of strconv and time for those that do not fit; other integers are not bounded
    because the code only compares or counts them.

    ** Parameters

    What the code takes from libraries is a type class without definitions here:
    uuid, AES-GCM, SHA-256, bcrypt, JWT, JSON, net/url, cron parsing, the
    collation of text, the order of iteration over Go maps, fmt's [%s].  Laws used
    by a theorem are a class of their own ([CryptoLaws], [MapOrderLaws],
    [CronFieldLaws], ...) and hold of the instances in Samples.

    ** What is not modelled

    The bytes of HTTP messages and of JSON bodies (a request carries its decoded
    value, or a parameter decodes it); chi's matching of paths, which is the
    library's (a request names its route); timeouts of connections; the log lines
    of the programs themselves; what happens inside the connection pool;
    workflow_node_runs, which no code writes; the interfaces of
    pkg/types/interfaces.go, which nothing implements or calls; constructors that
    only fill a struct; the web interface.  The playbook and git are the host's
    answers: which files they write, what they print and how they exit is
    arbitrary (in the theorem on jobs that share a host, the commands of one job
    stay out of the directories of the others, and its other conditions are stated
    there).  A job's output reaches the host
    model in one interaction; how its lines are captured, batched, posted and
    stored is modelled apart (LogCapture, LogBatcher, LogFacts).  In Platform a
    job runs in one step of the listener's model, taken when Run returns; every
    run of Grain is one of Platform (the lemma grain_refines), and a run that
    waits for ever is one that takes no further step.
    A statement that is answered with an error never changed the database: a
    commit whose acknowledgement is lost is not modelled.  PostgreSQL refuses text
    that holds a NUL or is not UTF-8, and encoding/json replaces what is not UTF-8:
    the first is an error among the answers of the database, the second is left
    out, so the laws of JSON are about text that is valid.
    Platform and Grain assume that only controllers send dispatch requests, since
    the listener authenticates nobody, and that a request is not duplicated on its
    way; each address has a host of its own.  Numbers inside JSON values are kept
    as their text, where Go reads a float64. *)
From stdpp Require Export prelude strings gmap sorting list.
From Stdlib Require Export ZArith NArith Lia.

(** Everything the development shares and that is not about one component:
    the error values of the Go code, notations, tactics, hint databases and
    the lemmas on options, lists and sorting the components use. *)

Declare Scope aop_scope.
Delimit Scope aop_scope with aop.
Open Scope aop_scope.

Create HintDb aop discriminated.

(** ** Go values *)

(** A Go [error].  [ErrNotFound] and [ErrConflict] are the sentinel values of
    api/internal/store, compared by identity; [ErrNoRows] is pgx.ErrNoRows;
    [ErrText s] any other error whose message is [s]; [ErrWrap p e] the value
    of fmt.Errorf("p: %w", e). *)
Inductive error : Type :=
| ErrNotFound
| ErrConflict
| ErrNoRows
| ErrText (msg : string)
| ErrWrap (prefix : string) (err : error).

#[export] Instance error_eq_dec : EqDecision error.
Proof. solve_decision. Defined.

(** The method Error() of a Go error value. *)
Fixpoint Error (e : error) : string :=
  match e with
  | ErrNotFound => "not found"
  | ErrConflict => "conflict"
  | ErrNoRows => "no rows in result set"
  | ErrText m => m
  | ErrWrap p e' => p +:+ ": " +:+ Error e'
  end.

(** errors.Is(e, target): some error of the unwrap chain is the target. *)
Fixpoint errors_Is (e target : error) : bool :=
  bool_decide (e = target) ||
  match e with ErrWrap _ e' => errors_Is e' target | _ => false end.

(** A Go result pair [(T, error)] of which callers use the value only when the
    error is nil. *)
Inductive result (A : Type) : Type :=
| Ok (a : A)
| Err (e : error).
Arguments Ok {A} a.
Arguments Err {A} e.

Definition is_Ok {A} (r : result A) : Prop := ∃ a, r = Ok a.

#[export] Instance result_ret : MRet result := λ A, @Ok A.
#[export] Instance result_bind : MBind result := λ A B f r,
  match r with Ok a => f a | Err e => Err e end.
#[export] Instance result_fmap : FMap result := λ A B f r,
  match r with Ok a => Ok (f a) | Err e => Err e end.

(** [map_err f r]: [r] with its error, if any, replaced by [f] of it. *)
Definition map_err {A} (f : error → error) (r : result A) : result A :=
  match r with Ok a => Ok a | Err e => Err (f e) end.

Lemma result_bind_Ok {A B} (r : result A) (f : A → result B) b :
  r ≫= f = Ok b ↔ ∃ a, r = Ok a ∧ f a = Ok b.
Proof. destruct r as [a|e]; simpl; naive_solver. Qed.

Lemma map_err_Ok {A} f (r : result A) a : map_err f r = Ok a ↔ r = Ok a.
Proof. destruct r; simpl; naive_solver. Qed.

(** ** Tactics *)

(** Case analysis on every [match] of the goal, with simplification. *)
Ltac split_matches := repeat (case_match; simplify_eq/=; try done).

(** Unpack conjunctions and existentials of every hypothesis. *)
Ltac unpack :=
  repeat match goal with
  | H : _ ∧ _ |- _ => destruct H
  | H : ∃ _, _ |- _ => destruct H
  end.

(** ** Lists *)

Lemma Forall_take_drop {A} (P : A → Prop) n l :
  Forall P l → Forall P (take n l) ∧ Forall P (drop n l).
Proof. intros H. split; [by apply Forall_take|by apply Forall_drop]. Qed.

Lemma elem_of_take_inv {A} (x : A) n l : x ∈ take n l → x ∈ l.
Proof. rewrite <-(take_drop n l) at 2. rewrite elem_of_app. auto. Qed.

(** Elements that a prefix of a sorted list leaves out are above the prefix. *)
Lemma Sorted_take_drop {A} (R : relation A) `{!Transitive R} n l x y :
  Sorted R l → x ∈ take n l → y ∈ drop n l → R x y.
Proof.
  intros Hs%Sorted_StronglySorted; [|done]. revert n.
  induction Hs as [|a l Hs IH Ha]; intros n Hx Hy.
  - rewrite take_nil in Hx. by apply not_elem_of_nil in Hx.
  - destruct n as [|n]; simpl in *; [by apply not_elem_of_nil in Hx|].
    apply elem_of_cons in Hx as [->|Hx]; [|by apply (IH n)].
    rewrite Forall_forall in Ha. apply Ha.
    rewrite <-(take_drop n l), elem_of_app. auto.
Qed.

Lemma elem_of_merge_sort {A} (R : relation A) `{!∀ x y, Decision (R x y)} l x :
  x ∈ merge_sort R l ↔ x ∈ l.
Proof. by rewrite merge_sort_Permutation. Qed.

(** The values of a map, in the order of its internal enumeration. *)
Definition map_vals {K V} `{Countable K} (m : gmap K V) : list V := (map_to_list m).*2.

Lemma elem_of_map_vals {K V} `{Countable K} (m : gmap K V) v :
  v ∈ map_vals m ↔ ∃ k, m !! k = Some v.
Proof.
  unfold map_vals. rewrite list_elem_of_fmap. split.
  - intros ([k v'] & -> & Hin). exists k. by apply elem_of_map_to_list.
  - intros [k Hk]. exists (k, v). split; [done|]. by apply elem_of_map_to_list.
Qed.

Lemma NoDup_map_vals {K V} `{Countable K} (key : V → K) (m : gmap K V) :
  (∀ k v, m !! k = Some v → key v = k) → NoDup (map_vals m).
Proof.
  intros Hkey. apply NoDup_fmap_2_strong; [|apply NoDup_map_to_list].
  intros [k1 v1] [k2 v2] H1%elem_of_map_to_list H2%elem_of_map_to_list ?; simplify_eq/=.
  by rewrite <-(Hkey _ _ H1), <-(Hkey _ _ H2).
Qed.

(** The [n] first elements of a list, when something is left out, are [n]. *)
Lemma length_take_drop_elem {A} (x : A) n l : x ∈ drop n l → length (take n l) = n.
Proof.
  intros Hx. rewrite length_take. apply Nat.min_l.
  assert (drop n l ≠ []) as Hne by (intros E; rewrite E in Hx; by apply not_elem_of_nil in Hx).
  destruct (decide (n ≤ length l)); [done|]. rewrite drop_ge in Hne by lia. done.
Qed.

Lemma elem_of_take_or_drop {A} (x : A) n l : x ∈ l → x ∈ take n l ∨ x ∈ drop n l.
Proof. rewrite <-(take_drop n l) at 1. by rewrite elem_of_app. Qed.

Lemma Sorted_take {A} (R : relation A) n l : Sorted R l → Sorted R (take n l).
Proof.
  intros Hs. revert n. induction Hs as [|a l Hs IH Ha]; intros [|n]; simpl; try constructor.
  - apply IH.
  - destruct Ha; [rewrite take_nil; constructor|]. destruct n; by constructor.
Qed.

Lemma filter_all {A} (P : A → Prop) `{!∀ x, Decision (P x)} l : Forall P l → filter P l = l.
Proof. induction 1; [done|]. rewrite filter_cons_True by done. by f_equal. Qed.

Lemma filter_none {A} (P : A → Prop) `{!∀ x, Decision (P x)} l :
  Forall (λ x, ¬ P x) l → filter P l = [].
Proof. induction 1; [done|]. by rewrite filter_cons_False. Qed.

(** If at most one element of a list satisfies [P], its index is unique. *)
Lemma filter_one_lookup {A} (P : A → Prop) `{!∀ x, Decision (P x)} (l : list A) i j x y :
  length (filter P l) ≤ 1 → l !! i = Some x → l !! j = Some y → P x → P y → i = j.
Proof.
  assert (∀ (l : list A) k z, l !! k = Some z → P z → 1 ≤ length (filter P l)) as Hin.
  { intros l' k z Hk Hz. assert (z ∈ filter P l') as Hf.
    { apply list_elem_of_filter. split; [done|]. by eapply list_elem_of_lookup_2. }
    destruct (filter P l'); [by apply not_elem_of_nil in Hf|]. cbn. lia. }
  revert i j. induction l as [|z l IH]; intros i j Hle Hi Hj Hx Hy; [done|].
  rewrite filter_cons in Hle. destruct i as [|i], j as [|j]; cbn in Hi, Hj; [done|..];
    simplify_eq; rewrite ?decide_True in Hle by done; cbn in Hle.
  - pose proof (Hin l j y Hj Hy). lia.
  - pose proof (Hin l i x Hi Hx). lia.
  - f_equal. apply IH; [|done..]. case_decide; cbn in Hle; lia.
Qed.

Lemma map_vals_union {K V} `{Countable K} (m1 m2 : gmap K V) :
  m1 ##ₘ m2 → map_vals (m1 ∪ m2) ≡ₚ map_vals m1 ++ map_vals m2.
Proof.
  unfold map_vals. induction m1 as [|k v m Hk IH] using map_ind; intros Hd.
  - by rewrite (left_id_L ∅ (∪)), map_to_list_empty.
  - apply map_disjoint_insert_l in Hd as [Hk2 Hd].
    rewrite <-insert_union_l, !map_to_list_insert;
      [|done|by apply lookup_union_None]. simpl. by rewrite IH.
Qed.

Lemma map_vals_list_to_map {K V} `{Countable K} (l : list (K * V)) :
  NoDup l.*1 → map_vals (list_to_map l : gmap K V) ≡ₚ l.*2.
Proof. intros Hnd. unfold map_vals. by rewrite map_to_list_to_map. Qed.

(** Concatenation of strings. *)
#[export] Instance append_assoc : Assoc (=) String.append.
Proof.
  intros a b c. induction a as [|x a IH]; [done|].
  change (String x (a +:+ (b +:+ c)) = String x ((a +:+ b) +:+ c)). by rewrite IH.
Qed.

#[export] Instance append_nil_r : RightId (=) EmptyString String.append.
Proof.
  intros a. induction a as [|x a IH]; [done|].
  change (String x (a +:+ EmptyString) = String x a). by rewrite IH.
Qed.

#[export] Instance append_nil_l : LeftId (=) EmptyString String.append.
Proof. by intros a. Qed.

Lemma length_append a b : String.length (a +:+ b) = String.length a + String.length b.
Proof. induction a as [|c a IH]; [done|]. simpl. f_equal. exact IH. Qed.

Lemma append_cancel_r (s1 s2 t : string) : s1 +:+ t = s2 +:+ t → s1 = s2.
Proof.
  intros E. assert (String.length s1 = String.length s2) as Hlen
    by (apply (f_equal String.length) in E; rewrite !length_append in E; lia).
  revert s2 E Hlen. induction s1 as [|c s1 IH]; intros [|c2 s2] E Hlen; try done.
  cbn in *. injection E as -> E. f_equal. apply IH; [done|lia].
Qed.

(** UPDATE of one row: changed if it is there. *)
Lemma alter_Some {K V} `{Countable K} (f : V → V) (i : K) (m : gmap K V) v :
  m !! i = Some v → alter f i m = <[i := f v]> m.
Proof.
  intros Hi. apply map_eq. intros j. destruct (decide (i = j)) as [<-|Hne].
  - by rewrite lookup_alter_eq, lookup_insert_eq, Hi.
  - by rewrite lookup_alter_ne, lookup_insert_ne.
Qed.

Lemma alter_None {K V} `{Countable K} (f : V → V) (i : K) (m : gmap K V) :
  m !! i = None → alter f i m = m.
Proof. intros Hi. apply alter_id. intros. congruence. Qed.

(** ** net/http: status codes *)

Definition StatusOK : Z := 200.
Definition StatusCreated : Z := 201.
Definition StatusAccepted : Z := 202.
Definition StatusNoContent : Z := 204.
Definition StatusBadRequest : Z := 400.
Definition StatusUnauthorized : Z := 401.
Definition StatusForbidden : Z := 403.
Definition StatusNotFound : Z := 404.
Definition StatusConflict : Z := 409.
Definition StatusInternalServerError : Z := 500.
