(* ===== verification/Prog.v ===== *)
(** * Programs as trees of external interactions

    The Go code under api/, controller/ and agent/ is sequential code that
    talks to PostgreSQL, to other processes over HTTP and to its host.  It is
    embedded as a tree: a leaf returns a value, a node performs one external
    interaction [e : E X] and continues with its answer [x : X].  The same tree
    is run alone ([run]) and interleaved with other programs over a shared
    world ([sys_step]), one interaction at a time. *)
From S2P Require Import Prelude.

Inductive prog (E : Type → Type) (A : Type) : Type :=
| Ret (a : A)
| Vis {X : Type} (e : E X) (k : X → prog E A).
Arguments Ret {E A} a.
Arguments Vis {E A X} e k.

Fixpoint prog_bind {E A B} (f : A → prog E B) (p : prog E A) : prog E B :=
  match p with
  | Ret a => f a
  | Vis e k => Vis e (λ x, prog_bind f (k x))
  end.

#[export] Instance prog_ret E : MRet (prog E) := λ A, @Ret E A.
#[export] Instance prog_mbind E : MBind (prog E) := λ A B, @prog_bind E A B.

(** One interaction. *)
Definition trigger {E X} (e : E X) : prog E X := Vis e Ret.

(** [x, err := p; if err != nil { h }; k] of the Go code. *)
Notation "'try' x <- p 'catch' e => h ;; k" :=
  (prog_bind (λ r, match r with Ok x => k | Err e => h end) p)
  (at level 10, x pattern, p at level 99, e name, h at level 99, k at level 200)
  : aop_scope.

(** [p] with the error it returns, if any, wrapped: the Go idiom
    [if err != nil { return fmt.Errorf("msg: %w", err) }]. *)
Definition wrap_err {E A} (msg : string) (p : prog E (result A)) : prog E (result A) :=
  p ≫= λ r, mret (map_err (ErrWrap msg) r).

(** [for _, x := range xs { f(x) }]. *)
Fixpoint for_each {E A} (xs : list A) (f : A → prog E unit) : prog E unit :=
  match xs with
  | [] => mret ()
  | x :: xs => f x ≫= λ _, for_each xs f
  end.

(** [for _, x := range xs { if err := f(x); err != nil { return err } }]. *)
Fixpoint for_each_err {E A} (xs : list A) (f : A → prog E (result unit)) : prog E (result unit) :=
  match xs with
  | [] => mret (Ok ())
  | x :: xs => try _ <- f x catch e => mret (Err e) ;; for_each_err xs f
  end.

(** ** Predicates on all interactions of a program *)

Section all_events.
Context {E : Type → Type} (P : ∀ X, E X → Prop).

(** Every interaction the program can perform, whatever the answers of the
    earlier ones, satisfies [P]. *)
Fixpoint all_events {A} (p : prog E A) : Prop :=
  match p with
  | Ret _ => True
  | Vis e k => P _ e ∧ ∀ x, all_events (k x)
  end.

Lemma all_events_bind {A B} (p : prog E A) (f : A → prog E B) :
  all_events p → (∀ a, all_events (f a)) → all_events (p ≫= f).
Proof. intros Hp Hf. induction p as [a|X e k IH]; simpl in *; naive_solver. Qed.

Lemma all_events_prog_bind {A B} (p : prog E A) (f : A → prog E B) :
  all_events p → (∀ a, all_events (f a)) → all_events (prog_bind f p).
Proof. apply all_events_bind. Qed.

Lemma all_events_for_each {A} (xs : list A) (f : A → prog E unit) :
  (∀ x, x ∈ xs → all_events (f x)) → all_events (for_each xs f).
Proof.
  induction xs as [|x xs IH]; intros Hf; simpl; [done|].
  apply all_events_bind; [apply Hf; set_solver|].
  intros _. apply IH. intros y Hy. apply Hf. set_solver.
Qed.

Lemma all_events_for_each_err {A} (xs : list A) (f : A → prog E (result unit)) :
  (∀ x, x ∈ xs → all_events (f x)) → all_events (for_each_err xs f).
Proof.
  induction xs as [|x xs IH]; intros Hf; simpl; [done|].
  apply all_events_bind; [apply Hf; set_solver|].
  intros [[]|e]; simpl; [|done]. apply IH. intros y Hy. apply Hf. set_solver.
Qed.

Lemma all_events_wrap_err {A} msg (p : prog E (result A)) :
  all_events p → all_events (wrap_err msg p).
Proof. intros Hp. by apply all_events_bind. Qed.

Lemma all_events_trigger {X} (e : E X) : P X e → all_events (trigger e).
Proof. done. Qed.
End all_events.

Lemma all_events_impl {E A} (P Q : ∀ X, E X → Prop) (p : prog E A) :
  (∀ X e, P X e → Q X e) → all_events P p → all_events Q p.
Proof. intros HPQ. induction p as [a|X e k IH]; simpl; naive_solver. Qed.

(** Everything the program can return satisfies [Q]. *)
Fixpoint returns {E A} (Q : A → Prop) (p : prog E A) : Prop :=
  match p with
  | Ret a => Q a
  | Vis _ k => ∀ x, returns Q (k x)
  end.

Lemma returns_any {E A} (p : prog E A) : returns (λ _, True) p.
Proof. induction p; simpl; auto. Qed.

Lemma returns_bind {E A B} (Q : A → Prop) (R : B → Prop) (p : prog E A) (f : A → prog E B) :
  returns Q p → (∀ a, Q a → returns R (f a)) → returns R (p ≫= f).
Proof. intros Hp Hf. induction p as [a|X e k IH]; simpl in *; naive_solver. Qed.

Lemma all_events_bind_returns {E A B} (P : ∀ X, E X → Prop) (Q : A → Prop) (p : prog E A) (f : A → prog E B) :
  all_events P p → returns Q p → (∀ a, Q a → all_events P (f a)) → all_events P (p ≫= f).
Proof. intros Hp Hq Hf. induction p as [a|X e k IH]; simpl in *; naive_solver. Qed.

(** Reduce a goal about all interactions of a program to its statements. *)
Ltac solve_events :=
  repeat
    lazymatch goal with
    | |- ∀ _, _ => intros ?
    | |- all_events _ (prog_bind _ _) => apply all_events_prog_bind
    | |- all_events _ (_ ≫= _) => apply all_events_bind
    | |- all_events _ (for_each _ _) => apply all_events_for_each
    | |- all_events _ (for_each_err _ _) => apply all_events_for_each_err
    | |- all_events _ (wrap_err _ _) => apply all_events_wrap_err
    | |- all_events _ (trigger _) => apply all_events_trigger
    | |- all_events _ (mret _) => exact I
    | |- all_events _ (match _ with _ => _ end) => case_match
    end; try solve [eauto with aop].

#[export] Hint Resolve all_events_bind all_events_for_each all_events_for_each_err
  all_events_wrap_err all_events_trigger : aop.

(** ** Running one program, and interleaving many *)

Section semantics.
Context {E : Type → Type} {Answer W : Type}.
(** The effect of one interaction on the world, given the environment's answer. *)
Context (perform : ∀ X, Answer → E X → W → X * W).
(** The answer when the supplied ones are used up. *)
Context (default_answer : Answer).

(** One answer of the list is consumed per interaction. *)
Fixpoint run {A} (p : prog E A) (ans : list Answer) (w : W) : A * (list Answer * W) :=
  match p with
  | Ret a => (a, (ans, w))
  | Vis e k =>
      let '(x, w') := perform _ (hd default_answer ans) e w in
      run (k x) (tl ans) w'
  end.

Lemma run_bind {A B} (p : prog E A) (f : A → prog E B) ans w :
  run (p ≫= f) ans w =
  let '(a, (ans', w')) := run p ans w in run (f a) ans' w'.
Proof.
  revert ans w. induction p as [a|X e k IH]; intros ans w; simpl; [done|].
  destruct (perform _ _ _ _) as [x w']. apply IH.
Qed.

(** A reflexive and transitive relation between worlds that every permitted
    interaction respects relates the ends of a run. *)
Lemma run_respects (R : relation W) `{!PreOrder R} (P : ∀ X, E X → Prop) {A} (p : prog E A) :
  (∀ X a e w, P X e → R w (perform X a e w).2) →
  all_events P p → ∀ ans w, R w (run p ans w).2.2.
Proof.
  intros HR. induction p as [a|X e k IH]; simpl; intros Hp ans w; [reflexivity|].
  destruct Hp as [He Hk].
  specialize (HR X (hd default_answer ans) e w He).
  destruct (perform _ _ _ _) as [x w']; simpl in *.
  etransitivity; [exact HR|]. by apply IH.
Qed.

Lemma run_invariant (I : W → Prop) (P : ∀ X, E X → Prop) {A} (p : prog E A) :
  (∀ X a e w, P X e → I w → I (perform X a e w).2) →
  all_events P p → ∀ ans w, I w → I (run p ans w).2.2.
Proof.
  intros HI. induction p as [a|X e k IH]; simpl; intros Hp ans w Hw; [done|].
  destruct Hp as [He Hk].
  specialize (HI X (hd default_answer ans) e w He Hw).
  destruct (perform _ _ _ _) as [x w']; simpl in *. by apply IH.
Qed.

(** Threads started by [Spawn], and changes of the world by [Env] that no
    modelled thread makes (time passing). *)
Context (Spawn : prog E unit → Prop) (Env : relation W).

Inductive sys_step : relation (W * list (prog E unit)) :=
| step_event w ts i X (e : E X) (k : X → prog E unit) a :
    ts !! i = Some (Vis e k) →
    sys_step (w, ts) ((perform X a e w).2, <[i := k (perform X a e w).1]> ts)
| step_spawn w ts p : Spawn p → sys_step (w, ts) (w, ts ++ [p])
| step_env w w' ts : Env w w' → sys_step (w, ts) (w', ts).

Definition sys_reach : relation (W * list (prog E unit)) := rtc sys_step.

(** Interleaved programs all of whose interactions are permitted respect [R]. *)
Lemma sys_respects (R : relation W) `{!PreOrder R} (P : ∀ X, E X → Prop) s s' :
  (∀ X a e w, P X e → R w (perform X a e w).2) →
  (∀ p, Spawn p → all_events P p) →
  (∀ w w', Env w w' → R w w') →
  sys_reach s s' → Forall (all_events P) s.2 → R s.1 s'.1.
Proof.
  intros HR HS HE Hs. induction Hs as [s|s1 s2 s3 Hstep _ IH]; intros Hts; [reflexivity|].
  destruct Hstep as [w ts i X e k a Hi|w ts p Hp|w w' ts Hw]; simpl in *.
  - pose proof (Forall_lookup_1 _ _ _ _ Hts Hi) as [He Hk].
    etransitivity; [by apply HR|]. apply IH.
    by apply Forall_insert.
  - apply IH. rewrite Forall_app, Forall_singleton. auto.
  - etransitivity; [by apply HE|]. by apply IH.
Qed.

Lemma sys_invariant (I : W → Prop) (P : ∀ X, E X → Prop) s s' :
  (∀ X a e w, P X e → I w → I (perform X a e w).2) →
  (∀ p, Spawn p → all_events P p) →
  (∀ w w', Env w w' → I w → I w') →
  sys_reach s s' → Forall (all_events P) s.2 → I s.1 → I s'.1.
Proof.
  intros HI HS HE Hs. induction Hs as [s|s1 s2 s3 Hstep _ IH]; intros Hts Hw; [done|].
  destruct Hstep as [w ts i X e k a Hi|w ts p Hp|w w' ts Hw']; simpl in *.
  - pose proof (Forall_lookup_1 _ _ _ _ Hts Hi) as [He Hk].
    apply IH; [by apply Forall_insert|by apply HI].
  - apply IH; [|done]. rewrite Forall_app, Forall_singleton. auto.
  - apply IH; [done|by eapply HE].
Qed.

(** The threads keep to the permitted interactions. *)
Lemma sys_threads (P : ∀ X, E X → Prop) s s' :
  (∀ p, Spawn p → all_events P p) → sys_reach s s' →
  Forall (all_events P) s.2 → Forall (all_events P) s'.2.
Proof.
  intros HS Hs. induction Hs as [s|s1 s2 s3 Hstep _ IH]; intros Hts; [done|]. apply IH.
  destruct Hstep as [w ts i X e k a Hi|w ts p Hp|w w' ts Hw]; cbn in *; [|by rewrite Forall_app, Forall_singleton; auto|done].
  apply Forall_insert; [done|]. by pose proof (Forall_lookup_1 _ _ _ _ Hts Hi) as [_ Hk].
Qed.

(** A sequential run is one of the interleavings: the program alone. *)
Lemma run_sys_reach (p : prog E unit) ans w ts1 ts2 :
  sys_reach (w, ts1 ++ p :: ts2)
            ((run p ans w).2.2, ts1 ++ Ret (run p ans w).1 :: ts2).
Proof.
  revert ans w. induction p as [a|X e k IH]; intros ans w; simpl; [apply rtc_refl|].
  eapply rtc_l.
  - apply (step_event _ _ (length ts1) _ e k (hd default_answer ans)).
    by rewrite list_lookup_middle.
  - rewrite insert_app_r_alt, Nat.sub_diag by done; simpl.
    destruct (perform _ _ _ _) as [x w'] eqn:?; simpl. apply IH.
Qed.
End semantics.

(** The steps of a path lie between its ends. *)
Lemma rtc_between {A} (R : relation A) x z :
  rtc R x z → rtc (λ a b, R a b ∧ rtc R x a ∧ rtc R a z) x z.
Proof.
  intros Hxz. assert (∀ y, rtc R x y → rtc R y z → rtc (λ a b, R a b ∧ rtc R x a ∧ rtc R a z) y z) as Hgen;
    [|by apply Hgen].
  intros y Hxy Hyz. induction Hyz as [y|y1 y2 y3 Hs Hyz IH]; [done|].
  eapply rtc_l; [split; [exact Hs|split; [done|by eapply rtc_l]]|]. apply IH; [done|by eapply rtc_r].
Qed.

(** os.Environ: the environment of a process. *)
Class OsEnv := { os_Environ : list string }.
