(* ===== verification/Types.v ===== *)
(** * Shared domain types: pkg/types

    The structs, enumerations and value methods of pkg/types.  A Go string type
    with named constants (JobStatus, AgentStatus, ...) is a string here too: a
    database column or a JSON body may hold any text, and the code compares it
    with the constants.  A nil-able pointer is an [option]; a [map[string]any]
    is a finite map to [json] values; a [time.Time] is an instant in
    nanoseconds. *)
From S2P Require Import Prelude.

Abbreviation uuid := N.
Abbreviation Time := Z.
Abbreviation Duration := Z.

(** uuid.Nil *)
Definition uuid_Nil : uuid := 0%N.

(** github.com/google/uuid: printing and parsing of identifiers. *)
Class UuidLib := {
  uuid_String : uuid → string;
  uuid_Parse : string → result uuid;
}.

(** The documented law of that package: Parse reads back what String prints. *)
Class UuidLaws `{UuidLib} := {
  uuid_Parse_String : ∀ u, uuid_Parse (uuid_String u) = Ok u;
}.

(** A value decoded from JSON into [any]; a number is kept as its text. *)
Inductive json : Type :=
| JNull
| JBool (b : bool)
| JNum (lit : string)
| JStr (s : string)
| JArr (l : list json)
| JObj (l : list (string * json)).

Abbreviation vars := (gmap string json).

(** ** Job (job.go) *)

Abbreviation JobStatus := string (only parsing).
Definition JobStatusPending : JobStatus := "pending".
Definition JobStatusDispatched : JobStatus := "dispatched".
Definition JobStatusRunning : JobStatus := "running".
Definition JobStatusSuccess : JobStatus := "success".
Definition JobStatusFailed : JobStatus := "failed".
Definition JobStatusCancelled : JobStatus := "cancelled".

(** JobStatus.IsTerminal *)
Definition IsTerminal (s : JobStatus) : bool :=
  bool_decide (s = JobStatusSuccess ∨ s = JobStatusFailed ∨ s = JobStatusCancelled).

(** The transition table; a key that is absent reads as the empty slice. *)
Definition ValidTransitions : gmap string (list JobStatus) :=
  {[ JobStatusPending := [JobStatusDispatched; JobStatusFailed];
     JobStatusDispatched := [JobStatusRunning; JobStatusFailed; JobStatusCancelled];
     JobStatusRunning := [JobStatusSuccess; JobStatusFailed; JobStatusCancelled];
     JobStatusSuccess := [];
     JobStatusFailed := [];
     JobStatusCancelled := [] ]}.

Definition CanTransitionTo (s next : JobStatus) : bool :=
  existsb (λ allowed, bool_decide (allowed = next)) (default [] (ValidTransitions !! s)).

Record Job := {
  Job_ID : uuid;
  Job_TemplateID : uuid;
  Job_AgentID : option uuid;
  Job_WorkflowRunID : option uuid;
  Job_Status : JobStatus;
  Job_CreatedAt : Time;
  Job_UpdatedAt : Time;
  Job_StartedAt : option Time;
  Job_EndedAt : option Time;
  Job_ExtraVars : vars;
  Job_Facts : vars;
  Job_FailureReason : option string;
}.

Record JobStatusEvent := {
  JobStatusEvent_ID : uuid;
  JobStatusEvent_JobID : uuid;
  JobStatusEvent_FromStatus : JobStatus;
  JobStatusEvent_ToStatus : JobStatus;
  JobStatusEvent_Timestamp : Time;
  JobStatusEvent_Reason : string;
}.

Record JobLogLine := {
  JobLogLine_Seq : Z;
  JobLogLine_Line : string;
  JobLogLine_Stream : string;
}.

(** ** Agent (agent.go) *)

Abbreviation AgentStatus := string (only parsing).
Definition AgentStatusOnline : AgentStatus := "online".
Definition AgentStatusOffline : AgentStatus := "offline".
Definition AgentStatusDraining : AgentStatus := "draining".

Record Agent := {
  Agent_ID : uuid;
  Agent_Name : string;
  Agent_Address : string;
  Agent_Status : AgentStatus;
  Agent_Labels : gmap string string;
  Agent_Capacity : Z;
  Agent_RunningJobs : Z;
  Agent_LastHeartbeatAt : option Time;
  Agent_RegisteredAt : Time;
  Agent_UpdatedAt : Time;
}.

(** time.Since: the difference of two instants, saturated to an int64. *)
Definition time_Since (now t : Time) : Duration :=
  Z.max (- 2 ^ 63) (Z.min (2 ^ 63 - 1) (now - t)).

Definition IsAvailable (now : Time) (a : Agent) (heartbeatTTL : Duration) : bool :=
  if negb (bool_decide (Agent_Status a = AgentStatusOnline)) then false
  else match Agent_LastHeartbeatAt a with
  | None => false
  | Some hb =>
      if bool_decide (time_Since now hb > heartbeatTTL)%Z then false
      else if bool_decide (0 < Agent_Capacity a)%Z
              && bool_decide (Agent_Capacity a <= Agent_RunningJobs a)%Z then false
      else true
  end.

Record AgentHeartbeat := {
  AgentHeartbeat_AgentID : uuid;
  AgentHeartbeat_RunningJobs : Z;
  AgentHeartbeat_Version : string;
}.

(** ** Credential (credential.go) *)

Abbreviation CredentialKind := string (only parsing).
Definition CredentialKindSSHKey : CredentialKind := "ssh_key".
Definition CredentialKindHTTPSToken : CredentialKind := "https_token".
Definition CredentialKindVaultPassword : CredentialKind := "vault_password".
Definition CredentialKindMachineUser : CredentialKind := "machine_user".

Record Credential := {
  Credential_ID : uuid;
  Credential_Name : string;
  Credential_Kind : CredentialKind;
  Credential_Description : string;
  Credential_EncryptedData : list Byte.byte;
  Credential_CreatedAt : Time;
  Credential_UpdatedAt : Time;
}.

Record CredentialSecret := {
  CredentialSecret_Kind : CredentialKind;
  CredentialSecret_Fields : gmap string string;
}.

(** ** Inventory and projects (Inventory.go) *)

Record InventoryHost := {
  InventoryHost_ID : uuid;
  InventoryHost_ProjectID : uuid;
  InventoryHost_Hostname : string;
  InventoryHost_Groups : list string;
  InventoryHost_Vars : vars;
  InventoryHost_CreatedAt : Time;
  InventoryHost_UpdatedAt : Time;
}.

Abbreviation InventorySyncStatus := string (only parsing).
Definition InventorySyncStatusOK : InventorySyncStatus := "ok".
Definition InventorySyncStatusFailed : InventorySyncStatus := "failed".
Definition InventorySyncStatusPending : InventorySyncStatus := "pending".

Record Project := {
  Project_ID : uuid;
  Project_Name : string;
  Project_RepoURL : string;
  Project_Branch : string;
  Project_InventoryPath : string;
  Project_CredentialID : option uuid;
  Project_SyncStatus : InventorySyncStatus;
  Project_LastSyncedAt : option Time;
  Project_SyncError : option string;
  Project_CreatedAt : Time;
  Project_UpdatedAt : Time;
}.

(** What the controller sends to an agent (job.go). *)
Record JobPayload := {
  JobPayload_JobID : uuid;
  JobPayload_TemplateID : uuid;
  JobPayload_Playbook : string;
  JobPayload_Inventory : list InventoryHost;
  JobPayload_ExtraVars : vars;
  JobPayload_Credentials : list CredentialSecret;
  JobPayload_CallbackURL : string;
  JobPayload_RepoURL : string;
  JobPayload_RepoBranch : string;
}.

(** ** Templates and schedules (template.go) *)

Record JobTemplate := {
  JobTemplate_ID : uuid;
  JobTemplate_Name : string;
  JobTemplate_Description : string;
  JobTemplate_ProjectID : uuid;
  JobTemplate_Playbook : string;
  JobTemplate_CredentialID : option uuid;
  JobTemplate_DefaultExtraVars : vars;
  JobTemplate_CreatedAt : Time;
  JobTemplate_UpdatedAt : Time;
}.

Record Schedule := {
  Schedule_ID : uuid;
  Schedule_Name : string;
  Schedule_TemplateID : uuid;
  Schedule_CronExpr : string;
  Schedule_Timezone : string;
  Schedule_Enabled : bool;
  Schedule_ExtraVars : vars;
  Schedule_LastRunAt : option Time;
  Schedule_NextRunAt : option Time;
  Schedule_CreatedAt : Time;
  Schedule_UpdatedAt : Time;
}.

(** ** Users (user.go) *)

Record User := {
  User_ID : uuid;
  User_Email : string;
  User_PasswordHash : string;
  User_CreatedAt : Time;
  User_UpdatedAt : Time;
}.

Record APIToken := {
  APIToken_ID : uuid;
  APIToken_UserID : uuid;
  APIToken_Name : string;
  APIToken_TokenHash : string;
  APIToken_CreatedAt : Time;
  APIToken_LastUsedAt : option Time;
  APIToken_ExpiresAt : option Time;
}.

(** ** Workflows (workflow.go) *)

Record Workflow := {
  Workflow_ID : uuid;
  Workflow_Name : string;
  Workflow_Description : string;
  Workflow_CreatedAt : Time;
  Workflow_UpdatedAt : Time;
}.

Abbreviation WorkflowNodeKind := string (only parsing).
Definition WorkflowNodeKindJobTemplate : WorkflowNodeKind := "job_template".
Definition WorkflowNodeKindApproval : WorkflowNodeKind := "approval".
Definition WorkflowNodeKindSubWorkflow : WorkflowNodeKind := "sub_workflow".

Record WorkflowNode := {
  WorkflowNode_ID : uuid;
  WorkflowNode_WorkflowID : uuid;
  WorkflowNode_Kind : WorkflowNodeKind;
  WorkflowNode_ResourceID : option uuid;
  WorkflowNode_Label : string;
  WorkflowNode_ExtraVars : vars;
  WorkflowNode_CreatedAt : Time;
  WorkflowNode_UpdatedAt : Time;
}.

Abbreviation EdgeCondition := string (only parsing).
Definition EdgeConditionOnSuccess : EdgeCondition := "on_success".
Definition EdgeConditionOnFailure : EdgeCondition := "on_failure".
Definition EdgeConditionAlways : EdgeCondition := "always".

Record WorkflowEdge := {
  WorkflowEdge_ID : uuid;
  WorkflowEdge_WorkflowID : uuid;
  WorkflowEdge_SourceNodeID : uuid;
  WorkflowEdge_TargetNodeID : uuid;
  WorkflowEdge_Condition : EdgeCondition;
}.

Abbreviation WorkflowRunStatus := string (only parsing).
Definition WorkflowRunStatusPending : WorkflowRunStatus := "pending".
Definition WorkflowRunStatusRunning : WorkflowRunStatus := "running".
Definition WorkflowRunStatusSuccess : WorkflowRunStatus := "success".
Definition WorkflowRunStatusFailed : WorkflowRunStatus := "failed".
Definition WorkflowRunStatusCancelled : WorkflowRunStatus := "cancelled".

(** WorkflowRunStatus.IsTerminal *)
Definition WorkflowRun_IsTerminal (s : WorkflowRunStatus) : bool :=
  bool_decide (s = WorkflowRunStatusSuccess ∨ s = WorkflowRunStatusFailed
               ∨ s = WorkflowRunStatusCancelled).

Record WorkflowRun := {
  WorkflowRun_ID : uuid;
  WorkflowRun_WorkflowID : uuid;
  WorkflowRun_Status : WorkflowRunStatus;
  WorkflowRun_Context : vars;
  WorkflowRun_CreatedAt : Time;
  WorkflowRun_UpdatedAt : Time;
  WorkflowRun_StartedAt : option Time;
  WorkflowRun_EndedAt : option Time;
}.

Abbreviation WorkflowNodeRunStatus := string (only parsing).
Definition WorkflowNodeRunStatusWaiting : WorkflowNodeRunStatus := "waiting".
Definition WorkflowNodeRunStatusRunning : WorkflowNodeRunStatus := "running".
Definition WorkflowNodeRunStatusSuccess : WorkflowNodeRunStatus := "success".
Definition WorkflowNodeRunStatusFailed : WorkflowNodeRunStatus := "failed".
Definition WorkflowNodeRunStatusSkipped : WorkflowNodeRunStatus := "skipped".
Definition WorkflowNodeRunStatusCancelled : WorkflowNodeRunStatus := "cancelled".

Record WorkflowNodeRun := {
  WorkflowNodeRun_ID : uuid;
  WorkflowNodeRun_WorkflowRunID : uuid;
  WorkflowNodeRun_NodeID : uuid;
  WorkflowNodeRun_Status : WorkflowNodeRunStatus;
  WorkflowNodeRun_JobID : option uuid;
  WorkflowNodeRun_CreatedAt : Time;
  WorkflowNodeRun_UpdatedAt : Time;
  WorkflowNodeRun_StartedAt : option Time;
  WorkflowNodeRun_EndedAt : option Time;
}.

Abbreviation ApprovalStatus := string (only parsing).
Definition ApprovalStatusPending : ApprovalStatus := "pending".
Definition ApprovalStatusApproved : ApprovalStatus := "approved".
Definition ApprovalStatusDenied : ApprovalStatus := "denied".

Record ApprovalRequest := {
  ApprovalRequest_ID : uuid;
  ApprovalRequest_WorkflowRunID : uuid;
  ApprovalRequest_NodeID : uuid;
  ApprovalRequest_Status : ApprovalStatus;
  ApprovalRequest_ReviewedBy : option uuid;
  ApprovalRequest_ReviewNote : option string;
  ApprovalRequest_CreatedAt : Time;
  ApprovalRequest_ResolvedAt : option Time;
}.

Record WorkflowContext := {
  WorkflowContext_RunID : string;
  WorkflowContext_Facts : vars;
}.

(** WorkflowContext.Merge: [for k, v := range facts { c.Facts[k] = v }]. *)
Definition WorkflowContext_Merge (c : WorkflowContext) (facts : vars) : WorkflowContext :=
  {| WorkflowContext_RunID := WorkflowContext_RunID c;
     WorkflowContext_Facts :=
       map_fold (λ k v acc, <[k := v]> acc) (WorkflowContext_Facts c) facts |}.

(** ** Facts about the enumerations and value methods *)

(** The rows of [ValidTransitions] as a list of pairs. *)
Definition transition_pairs : list (string * string) :=
  [(JobStatusPending, JobStatusDispatched); (JobStatusPending, JobStatusFailed);
   (JobStatusDispatched, JobStatusRunning); (JobStatusDispatched, JobStatusFailed);
   (JobStatusDispatched, JobStatusCancelled); (JobStatusRunning, JobStatusSuccess);
   (JobStatusRunning, JobStatusFailed); (JobStatusRunning, JobStatusCancelled)].

Lemma ValidTransitions_elem s l n :
  ValidTransitions !! s = Some l → n ∈ l → (s, n) ∈ transition_pairs.
Proof.
  unfold ValidTransitions. rewrite !lookup_insert, lookup_singleton.
  intros H Hn. unfold transition_pairs.
  repeat (case_decide; [simplify_eq; set_solver|]). done.
Qed.

Lemma CanTransitionTo_pairs s n : CanTransitionTo s n = true ↔ (s, n) ∈ transition_pairs.
Proof.
  split.
  - unfold CanTransitionTo. rewrite existsb_exists.
    intros (x & Hx%list_elem_of_In & ->%bool_decide_eq_true).
    destruct (ValidTransitions !! s) as [l|] eqn:Hl; simpl in Hx; [|by apply not_elem_of_nil in Hx].
    by eapply ValidTransitions_elem.
  - unfold transition_pairs. rewrite !elem_of_cons, elem_of_nil.
    intros H. repeat destruct H as [H|H]; simplify_eq; done.
Qed.

Lemma IsTerminal_iff s :
  IsTerminal s = true ↔ s = JobStatusSuccess ∨ s = JobStatusFailed ∨ s = JobStatusCancelled.
Proof. apply bool_decide_eq_true. Qed.

Lemma IsTerminal_false s :
  IsTerminal s = false ↔ s ≠ JobStatusSuccess ∧ s ≠ JobStatusFailed ∧ s ≠ JobStatusCancelled.
Proof. unfold IsTerminal. rewrite bool_decide_eq_false. naive_solver. Qed.

(** Number of transitions a job can still make. *)
Definition lifecycle_rank (s : JobStatus) : nat :=
  if decide (s = JobStatusPending) then 3
  else if decide (s = JobStatusDispatched) then 2
  else if decide (s = JobStatusRunning) then 1 else 0.

Lemma CanTransitionTo_rank s n :
  CanTransitionTo s n = true → lifecycle_rank n < lifecycle_rank s.
Proof.
  rewrite CanTransitionTo_pairs. unfold transition_pairs. rewrite !elem_of_cons, elem_of_nil.
  intros H. repeat destruct H as [H|H]; simplify_eq; vm_compute; lia.
Qed.

(** The declared job state machine terminates and ends only in terminal
    states: a status allows no transition exactly when it is terminal or not one
    of the six statuses, and a chain of [n] allowed transitions has [n <= 3]. *)
Lemma lifecycle_terminates s :
  ((∀ n, CanTransitionTo s n = false) ↔
     IsTerminal s = true ∨
     s ∉ [JobStatusPending; JobStatusDispatched; JobStatusRunning]) ∧
  ∀ n s', nsteps (λ a b, CanTransitionTo a b = true) n s s' → n ≤ 3.
Proof.
  split.
  - split.
    + intros H. destruct (decide (s ∈ [JobStatusPending; JobStatusDispatched; JobStatusRunning]))
        as [Hin|]; [|by right].
      specialize (H JobStatusFailed). exfalso.
      rewrite !elem_of_cons, elem_of_nil in Hin.
      repeat destruct Hin as [Hin|Hin]; simplify_eq; by vm_compute in H.
    + intros Hs n. apply not_true_iff_false. rewrite CanTransitionTo_pairs.
      unfold transition_pairs. rewrite !elem_of_cons, elem_of_nil, IsTerminal_iff in *.
      intros H. repeat destruct H as [H|H]; simplify_eq; set_solver.
  - intros n s' H.
    assert (n + lifecycle_rank s' ≤ lifecycle_rank s).
    { induction H as [|n a b c Hab _ IH]; [lia|]. apply CanTransitionTo_rank in Hab. lia. }
    unfold lifecycle_rank in *. repeat case_decide; lia.
Qed.

(** An agent is available exactly when it is online, has a heartbeat not
    older than the TTL, and is below its capacity; a capacity of 0 (or less)
    sets no limit. *)
Lemma IsAvailable_spec now a ttl :
  IsAvailable now a ttl = true ↔
  Agent_Status a = AgentStatusOnline ∧
  (∃ hb, Agent_LastHeartbeatAt a = Some hb ∧ (time_Since now hb <= ttl)%Z) ∧
  (Agent_Capacity a <= 0 ∨ Agent_RunningJobs a < Agent_Capacity a)%Z.
Proof.
  unfold IsAvailable. case_bool_decide as Hs; simpl.
  2: { split; [done|]. by intros [? _]. }
  destruct (Agent_LastHeartbeatAt a) as [hb|].
  2: { split; [done|]. by intros (_ & (? & ? & _) & _). }
  repeat case_bool_decide; simpl; split; try done; intros.
  all: first [by split_and!; eauto; lia | destruct_and!; unpack; simplify_eq; lia].
Qed.

Lemma WorkflowContext_Merge_facts c facts :
  WorkflowContext_Facts (WorkflowContext_Merge c facts) = facts ∪ WorkflowContext_Facts c.
Proof.
  simpl. induction facts as [|k v m Hk Hf IH] using map_first_key_ind.
  - by rewrite map_fold_empty, (left_id_L ∅ (∪)).
  - rewrite map_fold_insert_first_key by done. rewrite IH. by rewrite insert_union_l.
Qed.
