(* ===== verification/Text.v ===== *)
(** * Go strings

    A Go string is a sequence of bytes, as is [string] here.  The functions of
    the packages strings, bufio and path/filepath that the code uses, on UTF-8
    text: white space is the Unicode property White_Space, whose encodings have
    one to three bytes. *)
From S2P Require Import Prelude.

Abbreviation byte_of c := (Ascii.N_of_ascii c).

(** ** Characters *)

(** The one-byte white space: \t \n \v \f \r and space. *)
Definition ascii_space (c : Ascii.ascii) : bool :=
  let n := byte_of c in ((9 <=? n) && (n <=? 13) || (n =? 32))%N.

(** U+0085 and U+00A0 *)
Definition space2 (a b : Ascii.ascii) : bool :=
  ((byte_of a =? 194) && ((byte_of b =? 133) || (byte_of b =? 160)))%N.

(** U+1680, U+2000 to U+200A, U+2028, U+2029, U+202F, U+205F and U+3000 *)
Definition space3 (a b c : Ascii.ascii) : bool :=
  let '(a, b, c) := (byte_of a, byte_of b, byte_of c) in
  ((a =? 225) && (b =? 154) && (c =? 128)
   || (a =? 226) && (b =? 128) &&
      ((128 <=? c) && (c <=? 138) || (c =? 168) || (c =? 169) || (c =? 175))
   || (a =? 226) && (b =? 129) && (c =? 159)
   || (a =? 227) && (b =? 128) && (c =? 128))%N.

(** A string as a sequence of white-space characters ([None], one per
    character) and other bytes.  White space starts with a byte that starts a
    character, so decoding rune by rune finds the same occurrences. *)
Fixpoint units (s : string) : list (option Ascii.ascii) :=
  match s with
  | EmptyString => []
  | String a s1 =>
      if ascii_space a then None :: units s1
      else match s1 with
      | EmptyString => [Some a]
      | String b s2 =>
          if space2 a b then None :: units s2
          else match s2 with
          | EmptyString => Some a :: units s1
          | String c s3 => if space3 a b c then None :: units s3 else Some a :: units s1
          end
      end
  end.

(** ** strings.Fields *)

(** The fields of a sequence of units, given the field being read. *)
Fixpoint fields_loop (cur : string) (us : list (option Ascii.ascii)) : list string :=
  match us with
  | [] => if bool_decide (cur = EmptyString) then [] else [cur]
  | None :: us => if bool_decide (cur = EmptyString) then fields_loop EmptyString us
                  else cur :: fields_loop EmptyString us
  | Some c :: us => fields_loop (cur +:+ String c EmptyString) us
  end.

Definition Fields (s : string) : list string := fields_loop EmptyString (units s).

(** ** strings.TrimSpace *)

(** The number of bytes of the white-space character a string starts with. *)
Definition space_len (s : string) : option nat :=
  match s with
  | EmptyString => None
  | String a s1 =>
      if ascii_space a then Some 1
      else match s1 with
      | EmptyString => None
      | String b s2 =>
          if space2 a b then Some 2
          else match s2 with
          | EmptyString => None
          | String c _ => if space3 a b c then Some 3 else None
          end
      end
  end.

Fixpoint drop_str (n : nat) (s : string) : string :=
  match n, s with
  | S n, String _ s => drop_str n s
  | _, _ => s
  end.

Fixpoint take_str (n : nat) (s : string) : string :=
  match n, s with
  | S n, String c s => String c (take_str n s)
  | _, _ => EmptyString
  end.

Fixpoint TrimLeft_fuel (fuel : nat) (s : string) : string :=
  match fuel with
  | O => s
  | S fuel => match space_len s with
              | Some n => TrimLeft_fuel fuel (drop_str n s)
              | None => s
              end
  end.

(** Every iteration drops a byte, so the length is enough fuel. *)
Definition TrimLeftSpace (s : string) : string := TrimLeft_fuel (String.length s) s.

(** All that is left of [s] is white space. *)
Definition all_space (s : string) : bool :=
  forallb (λ u, match u with None => true | Some _ => false end) (units s).

Fixpoint TrimRightSpace (s : string) : string :=
  if all_space s then EmptyString
  else match s with
       | EmptyString => EmptyString
       | String c s => String c (TrimRightSpace s)
       end.

Definition TrimSpace (s : string) : string := TrimRightSpace (TrimLeftSpace s).

(** ** Prefixes, suffixes, substrings *)

Definition HasPrefix (s p : string) : bool := String.prefix p s.

Fixpoint HasSuffix (s p : string) : bool :=
  bool_decide (s = p) || match s with EmptyString => false | String _ s => HasSuffix s p end.

(** strings.Index of a one-byte substring. *)
Fixpoint IndexByte (s : string) (c : Ascii.ascii) : option nat :=
  match s with
  | EmptyString => None
  | String a s => if bool_decide (a = c) then Some 0 else S <$> IndexByte s c
  end.

(** strings.Contains of a one-byte substring. *)
Definition ContainsByte (s : string) (c : Ascii.ascii) : bool := bool_decide (is_Some (IndexByte s c)).

Definition TrimPrefix (s prefix : string) : string :=
  if HasPrefix s prefix then drop_str (String.length prefix) s else s.

(** strings.Split for a one-byte separator: at least one piece. *)
Fixpoint SplitByte (sep : Ascii.ascii) (s : string) : list string :=
  match s with
  | EmptyString => [EmptyString]
  | String c s =>
      if bool_decide (c = sep) then EmptyString :: SplitByte sep s
      else match SplitByte sep s with
           | [] => [String c EmptyString]
           | p :: ps => String c p :: ps
           end
  end.

(** strings.Join *)
Fixpoint Join (sep : string) (l : list string) : string :=
  match l with
  | [] => EmptyString
  | [x] => x
  | x :: l => x +:+ sep +:+ Join sep l
  end.

(** ** bufio.Scanner with ScanLines *)

Definition LF : Ascii.ascii := Ascii.ascii_of_N 10.
Definition CR : Ascii.ascii := Ascii.ascii_of_N 13.
Definition equals_sign : Ascii.ascii := Ascii.ascii_of_N 61.
Definition colon : Ascii.ascii := Ascii.ascii_of_N 58.

(** dropCR *)
Fixpoint dropCR (s : string) : string :=
  match s with
  | EmptyString => EmptyString
  | String c EmptyString => if bool_decide (c = CR) then EmptyString else s
  | String c s => String c (dropCR s)
  end.

(** The pieces between newlines, without the empty one after a final newline. *)
Definition raw_lines (s : string) : list string :=
  let l := SplitByte LF s in
  match last l with
  | Some EmptyString => removelast l
  | _ => l
  end.

(** bufio.MaxScanTokenSize: a line of that many bytes overflows the buffer. *)
Definition MaxScanTokenSize : N := 65536.

(** The lines the scanner yields, and scanner.Err(). *)
Fixpoint scan_lines (ls : list string) : list string * option error :=
  match ls with
  | [] => ([], None)
  | l :: ls =>
      if (MaxScanTokenSize <=? N.of_nat (String.length l))%N
      then ([], Some (ErrText "bufio.Scanner: token too long"))
      else let '(rest, e) := scan_lines ls in (dropCR l :: rest, e)
  end.

Definition Scan (s : string) : list string * option error := scan_lines (raw_lines s).

(** ** path/filepath on Unix *)

Definition slash : Ascii.ascii := Ascii.ascii_of_N 47.

(** Clean's elements: the result so far is kept reversed. *)
Fixpoint clean_elems (rooted : bool) (out : list string) (elems : list string) : list string :=
  match elems with
  | [] => rev out
  | e :: elems =>
      if bool_decide (e = EmptyString ∨ e = ".") then clean_elems rooted out elems
      else if bool_decide (e = "..") then
        match out with
        | o :: out' => if bool_decide (o = "..") then clean_elems rooted (".." :: out) elems
                       else clean_elems rooted out' elems
        | [] => clean_elems rooted (if rooted then [] else [".."]) elems
        end
      else clean_elems rooted (e :: out) elems
  end.

Definition Clean (path : string) : string :=
  let rooted := HasPrefix path "/" in
  let p := (if rooted then "/" else EmptyString)
           +:+ Join "/" (clean_elems rooted [] (SplitByte slash path)) in
  if bool_decide (p = EmptyString) then "." else p.

Fixpoint filepath_Join (elem : list string) : string :=
  match elem with
  | [] => EmptyString
  | e :: elem => if bool_decide (e = EmptyString) then filepath_Join elem
                 else Clean (Join "/" (e :: elem))
  end.

(** ** Facts about prefixes *)

Lemma drop_str_app p s : drop_str (String.length p) (p +:+ s) = s.
Proof. induction p as [|c p IH]; simpl; [by destruct s|exact IH]. Qed.

Lemma HasPrefix_app p s : HasPrefix (p +:+ s) p = true.
Proof.
  unfold HasPrefix. induction p as [|c p IH]; simpl; [by destruct s|].
  by destruct (Ascii.ascii_dec c c).
Qed.

Lemma TrimPrefix_app p s : TrimPrefix (p +:+ s) p = s.
Proof. unfold TrimPrefix. by rewrite HasPrefix_app, drop_str_app. Qed.
