(* ===== verification/Paths.v ===== *)
(** * Paths: what path/filepath's Join makes of clean elements

    The directory of a job, the files in it, and why the directories of two jobs
    do not overlap. *)
From S2P Require Import Prelude.
From S2P Require Import Text.

(** ** Splitting at a byte *)

Lemma SplitByte_not_nil c s : SplitByte c s ≠ [].
Proof. destruct s as [|d s]; simpl; [done|]. case_bool_decide; [done|]. by destruct (SplitByte c s). Qed.

Lemma SplitByte_app c a b : SplitByte c (a +:+ String c b) = SplitByte c a ++ SplitByte c b.
Proof.
  induction a as [|d a IH]; simpl; [by rewrite bool_decide_eq_true_2|].
  rewrite IH. case_bool_decide; [done|]. pose proof (SplitByte_not_nil c a). by destruct (SplitByte c a).
Qed.

(** A part of a path: no slash in it. *)
Definition unsplit (s : string) : Prop := SplitByte slash s = [s].

Lemma SplitByte_parts s : Forall unsplit (SplitByte slash s).
Proof.
  induction s as [|d s IH]; simpl; [by repeat constructor|]. case_bool_decide as Hd.
  - constructor; [done|exact IH].
  - destruct (SplitByte slash s) as [|p ps] eqn:E; [by apply SplitByte_not_nil in E|].
    apply Forall_cons in IH as [Hp Hps]. constructor; [|done]. unfold unsplit in *. simpl.
    by rewrite bool_decide_eq_false_2, Hp.
Qed.

Lemma unsplit_app a b : unsplit (a +:+ b) → unsplit b.
Proof.
  induction a as [|d a IH]; simpl; [done|]. unfold unsplit in *. simpl. case_bool_decide as Hd; [by destruct (SplitByte slash (a +:+ b))|].
  destruct (SplitByte slash (a +:+ b)) as [|p ps] eqn:E; [by apply SplitByte_not_nil in E|].
  intros [= -> ->]. by apply IH.
Qed.

Lemma unsplit_no_slash a b : ¬ unsplit (a +:+ String slash b).
Proof.
  intros Hu%unsplit_app. unfold unsplit in Hu.
  assert (SplitByte slash (String slash b) = [EmptyString] ++ SplitByte slash b) as E by apply (SplitByte_app slash EmptyString b).
  rewrite E in Hu.
  apply (f_equal length) in Hu. rewrite length_app in Hu. pose proof (SplitByte_not_nil slash b).
  destruct (SplitByte slash b); simpl in Hu; [done|lia].
Qed.

Lemma Join_cons x l : l ≠ [] → Join "/" (x :: l) = x +:+ "/" +:+ Join "/" l.
Proof. by destruct l. Qed.

Lemma Join_snoc l x : l ≠ [] → Join "/" (l ++ [x]) = Join "/" l +:+ "/" +:+ x.
Proof.
  induction l as [|y l IH]; intros Hl; [done|]. destruct l as [|z l]; [done|].
  rewrite <-app_comm_cons, !Join_cons by done. rewrite IH by done. by rewrite !append_assoc.
Qed.

Lemma SplitByte_Join l : l ≠ [] → Forall unsplit l → SplitByte slash (Join "/" l) = l.
Proof.
  induction l as [|x l IH]; intros Hl Hu; [done|]. apply Forall_cons in Hu as [Hx Hall].
  destruct l as [|y l]; [exact Hx|]. rewrite Join_cons by done.
  change ("/" +:+ Join "/" (y :: l)) with (String slash (Join "/" (y :: l))).
  rewrite SplitByte_app, Hx, IH by done. done.
Qed.

(** ** Clean *)

(** A name in a directory. *)
Definition plain (s : string) : Prop := s ≠ EmptyString ∧ s ≠ "." ∧ s ≠ ".." ∧ unsplit s.

(** The elements of a clean path. *)
Definition clean_list (rooted : bool) (l : list string) : Prop :=
  ∃ n names, l = replicate n ".." ++ names ∧ Forall plain names ∧ (rooted = true → n = 0).

Lemma clean_elems_snoc rooted out l x : plain x → clean_elems rooted out (l ++ [x]) = clean_elems rooted out l ++ [x].
Proof.
  intros (H1 & H2 & H3 & _). revert out. induction l as [|e l IH]; intros out; simpl.
  - rewrite !bool_decide_eq_false_2 by naive_solver. done.
  - repeat case_match; apply IH.
Qed.

Lemma clean_elems_names rooted out names : Forall plain names → clean_elems rooted out names = rev out ++ names.
Proof.
  intros Hn. revert out. induction Hn as [|x names (H1 & H2 & H3 & _) _ IH]; intros out; simpl; [by rewrite app_nil_r|].
  rewrite !bool_decide_eq_false_2 by naive_solver. rewrite IH. simpl. by rewrite <-app_assoc.
Qed.

(** Cleaning a clean list changes nothing. *)
Lemma clean_elems_clean rooted l : clean_list rooted l → clean_elems rooted [] l = l.
Proof.
  intros (n & names & -> & Hn & Hr). destruct rooted; [rewrite Hr by done; by apply (clean_elems_names true [])|].
  assert (∀ k, clean_elems false (replicate k "..") (replicate n ".." ++ names) = replicate (k + n) ".." ++ names) as Hgen;
    [|apply (Hgen 0)].
  clear Hr. induction n as [|n IH]; intros k; simpl.
  - rewrite clean_elems_names by done. rewrite Nat.add_0_r. f_equal.
    rewrite rev_alt. apply reverse_replicate.
  - rewrite Nat.add_succ_r. destruct k as [|k]; simpl; [apply (IH 1)|apply (IH (S (S k)))].
Qed.

Lemma clean_list_snoc rooted l x : clean_list rooted l → plain x → clean_list rooted (l ++ [x]).
Proof.
  intros (n & names & -> & Hn & Hr) Hx. exists n, (names ++ [x]). split; [by rewrite app_assoc|].
  split; [|done]. apply Forall_app. split; [done|]. by constructor.
Qed.

Lemma clean_list_unsplit rooted l : clean_list rooted l → Forall unsplit l.
Proof.
  intros (n & names & -> & Hn & _). apply Forall_app. split; [by apply Forall_replicate|].
  eapply Forall_impl; [exact Hn|]. by intros x (_ & _ & _ & Hx).
Qed.

(** What Clean has put out so far, the last first. *)
Lemma clean_elems_list rooted out l :
  Forall unsplit l → clean_list rooted (rev out) → clean_list rooted (clean_elems rooted out l).
Proof.
  intros Hl. revert out. induction Hl as [|e l He Hl IH]; intros out Hout; simpl; [done|].
  case_bool_decide as H1; [by apply IH|]. case_bool_decide as H2.
  - subst e. destruct out as [|o out].
    + apply IH. destruct rooted; [by exists 0, []|by exists 1, []].
    + case_bool_decide as Ho; apply IH.
      * subst o. destruct Hout as (n & names & E & Hn & Hr). simpl in *. destruct names as [|x names _] using rev_ind.
        -- rewrite app_nil_r in E. exists (S n), []. rewrite app_nil_r. split; [|split; [done|]].
           ++ rewrite E. change [".."] with (replicate 1 ".."). rewrite <-replicate_add. f_equal. lia.
           ++ intros Hx. specialize (Hr Hx). subst n. by destruct (rev out).
        -- exfalso. rewrite app_assoc in E. apply app_inj_tail in E as [_ <-].
           apply Forall_app in Hn as [_ Hn]. by apply Forall_cons_1 in Hn as [(_ & _ & Hx & _) _].
      * destruct Hout as (n & names & E & Hn & Hr). simpl in E. destruct names as [|x names _] using rev_ind.
        -- exfalso. rewrite app_nil_r in E. destruct n as [|n]; [by destruct (rev out)|].
           rewrite replicate_S_end in E. by apply app_inj_tail in E as [_ ->].
        -- rewrite app_assoc in E. apply app_inj_tail in E as [E _]. exists n, names. split; [done|].
           split; [|done]. by apply Forall_app in Hn as [? _].
  - apply IH. simpl. apply clean_list_snoc; [done|]. unfold plain. naive_solver.
Qed.

(** ** Join *)

Definition root (rooted : bool) : string := if rooted then "/" else EmptyString.

(** The text of a clean path that is not empty. *)
Definition render (rooted : bool) (l : list string) : string := root rooted +:+ Join "/" l.

Lemma render_snoc rooted l x : l ≠ [] → render rooted (l ++ [x]) = render rooted l +:+ "/" +:+ x.
Proof. intros Hl. unfold render. rewrite Join_snoc by done. by rewrite append_assoc. Qed.

Lemma plain_join_nonempty l x : x ≠ EmptyString → Join "/" (l ++ [x]) ≠ EmptyString.
Proof. intros Hx. destruct l as [|y l]; [done|]. rewrite Join_snoc by done. by destruct (Join "/" (y :: l)). Qed.

Lemma render_nonempty rooted l x : x ≠ EmptyString → render rooted (l ++ [x]) ≠ EmptyString.
Proof. intros Hx E. apply (plain_join_nonempty l x Hx). unfold render in E. by destruct rooted. Qed.

Lemma Clean_plain path rooted l x :
  HasPrefix path "/" = rooted → clean_elems rooted [] (SplitByte slash path) = l ++ [x] → x ≠ EmptyString →
  Clean path = render rooted (l ++ [x]).
Proof.
  intros Hp Hc Hx. unfold Clean. rewrite Hp, Hc. fold (root rooted). fold (render rooted (l ++ [x])).
  by rewrite bool_decide_eq_false_2 by by apply render_nonempty.
Qed.

Lemma HasPrefix_slash c s : HasPrefix (String c s) "/" = bool_decide (c = slash).
Proof.
  unfold HasPrefix. change "/" with (String slash EmptyString). cbn [String.prefix].
  destruct (Ascii.ascii_dec slash c) as [<-|Hn]; [by destruct s|].
  rewrite bool_decide_eq_false_2; [done|]. by intros ->.
Qed.

Lemma unsplit_not_rooted x : unsplit x → HasPrefix x "/" = false.
Proof.
  destruct x as [|c x]; [done|]. rewrite HasPrefix_slash. intros Hu. apply bool_decide_eq_false. intros ->.
  by apply (unsplit_no_slash EmptyString x).
Qed.

Lemma unsplit_empty : unsplit EmptyString.
Proof. done. Qed.

(** A name joined to a directory: the prefix depends on the directory only. *)
Lemma Join_dir W : ∃ rooted l, clean_list rooted l ∧ ∀ x, plain x → filepath_Join [W; x] = render rooted (l ++ [x]).
Proof.
  destruct (decide (W = EmptyString)) as [->|HW].
  - exists false, []. split; [by exists 0, []|]. intros x Hx. destruct Hx as (H1 & H2 & H3 & Hu). simpl.
    rewrite bool_decide_eq_false_2 by done. apply (Clean_plain x false []); [by apply unsplit_not_rooted| |done].
    rewrite Hu. simpl. by rewrite !bool_decide_eq_false_2 by naive_solver.
  - exists (HasPrefix W "/"), (clean_elems (HasPrefix W "/") [] (SplitByte slash W)). split.
    { apply clean_elems_list; [apply SplitByte_parts|]. exists 0, []. done. }
    intros x Hx. cbn [filepath_Join Join]. rewrite bool_decide_eq_false_2 by done. apply Clean_plain.
    + destruct W as [|c W]; [done|]. change (String c W +:+ "/" +:+ x) with (String c (W +:+ "/" +:+ x)).
      by rewrite !HasPrefix_slash.
    + change (W +:+ "/" +:+ x) with (W +:+ String slash x). rewrite SplitByte_app.
      destruct Hx as (H1 & H2 & H3 & Hu). rewrite Hu. by apply clean_elems_snoc.
    + by destruct Hx.
Qed.

Lemma render_split rooted l : l ≠ [] → clean_list rooted l →
  ∃ parts, SplitByte slash (render rooted l) = parts ++ l ∧ Forall (λ e, e = EmptyString) parts.
Proof.
  intros Hl Hc. pose proof (SplitByte_Join l Hl (clean_list_unsplit _ _ Hc)) as Hs. unfold render. destruct rooted.
  - exists [EmptyString]. split; [|by constructor].
    etrans; [apply (SplitByte_app slash EmptyString (Join "/" l))|by rewrite Hs].
  - exists []. split; [exact Hs|constructor].
Qed.

Lemma clean_elems_skip rooted parts l :
  Forall (λ e, e = EmptyString) parts → clean_elems rooted [] (parts ++ l) = clean_elems rooted [] l.
Proof. induction 1 as [|e parts -> _ IH]; simpl; [done|]. exact IH. Qed.

Lemma render_rooted rooted l t : l ≠ [] → clean_list rooted l → Forall (λ e, e ≠ EmptyString) l →
  HasPrefix (render rooted l +:+ t) "/" = rooted.
Proof.
  intros Hl Hc Hne. unfold render. destruct rooted; [apply (HasPrefix_app "/" (Join "/" l +:+ t))|]. destruct l as [|e l]; [done|].
  apply Forall_cons in Hne as [He _]. apply clean_list_unsplit, Forall_cons in Hc as [Hu _].
  destruct e as [|c e]; [done|]. cbn [root]. rewrite append_nil_l.
  assert (∃ r, Join "/" (String c e :: l) = String c r) as [r ->] by (destruct l; cbn; eauto).
  change (String c r +:+ t) with (String c (r +:+ t)). rewrite HasPrefix_slash. apply unsplit_not_rooted in Hu. by rewrite HasPrefix_slash in Hu.
Qed.

Lemma clean_list_nonempty rooted l : clean_list rooted l → Forall (λ e, e ≠ EmptyString) l.
Proof.
  intros (n & names & -> & Hn & _). apply Forall_app. split; [by apply Forall_replicate|].
  eapply Forall_impl; [exact Hn|]. by intros x (Hx & _).
Qed.

(** A name joined to a clean directory. *)
Lemma Join_in rooted l d x : clean_list rooted l → plain d → plain x →
  filepath_Join [render rooted (l ++ [d]); x] = render rooted (l ++ [d]) +:+ "/" +:+ x.
Proof.
  intros Hl Hd Hx. pose proof (clean_list_snoc _ _ _ Hl Hd) as Hc.
  assert (l ++ [d] ≠ []) as Hne by (by destruct l).
  rewrite <-render_snoc by done. cbn [filepath_Join Join].
  rewrite bool_decide_eq_false_2 by by apply render_nonempty, Hd.
  change (render rooted (l ++ [d]) +:+ "/" +:+ x) with (render rooted (l ++ [d]) +:+ String slash x) at 1.
  apply Clean_plain.
  - apply render_rooted; [done|done|by eapply clean_list_nonempty].
  - rewrite SplitByte_app. destruct (render_split rooted (l ++ [d]) Hne Hc) as (parts & -> & Hp).
    destruct Hx as (H1 & H2 & H3 & Hu). rewrite Hu, <-app_assoc, clean_elems_skip by done.
    apply clean_elems_clean, clean_list_snoc; [done|by split_and!].
  - by destruct Hx.
Qed.

(** ** What is below a directory *)

(** The text that a name in a directory follows. *)
Definition dir_prefix (rooted : bool) (l : list string) : string :=
  match l with [] => root rooted | _ => render rooted l +:+ "/" end.

Lemma render_prefix rooted l x : render rooted (l ++ [x]) = dir_prefix rooted l +:+ x.
Proof.
  destruct l as [|y l]; [done|]. rewrite render_snoc by done. unfold dir_prefix. by rewrite append_assoc.
Qed.

Lemma HasPrefix_inv s p : HasPrefix s p = true → ∃ r, s = p +:+ r.
Proof.
  unfold HasPrefix. revert s. induction p as [|c p IH]; intros s Hs; [by exists s|].
  destruct s as [|d s]; [done|]. simpl in Hs. destruct (Ascii.ascii_dec c d) as [->|]; [|done]. destruct (IH s Hs) as [r ->]. by exists r.
Qed.

(** A name is what a longer text has before its first slash. *)
Lemma unsplit_head x y r r' :
  unsplit x → unsplit y →
  x +:+ r = y +:+ r' → (r = EmptyString ∨ ∃ z, r = String slash z) → (r' = EmptyString ∨ ∃ z, r' = String slash z) →
  x = y.
Proof.
  intros Hx Hy E Hr Hr'.
  assert (∀ u v, unsplit u → (v = EmptyString ∨ ∃ z, v = String slash z) → head (SplitByte slash (u +:+ v)) = Some u) as Hh.
  { intros u v Hu [->|(z & ->)]; [by rewrite append_nil_r, Hu|by rewrite SplitByte_app, Hu]. }
  pose proof (Hh x r Hx Hr) as H1. rewrite E, Hh in H1 by done. congruence.
Qed.

Lemma append_cancel_l (p s t : string) : p +:+ s = p +:+ t → s = t.
Proof. induction p as [|c p IH]; [done|]. intros [= E]. by apply IH. Qed.
