(* ===== verification/Strconv.v ===== *)
(** * Reading numbers: strconv, encoding/hex and time.ParseDuration

    The functions of the Go standard library that turn configuration text into
    values, with their bounds: int is int64, and the arithmetic of ParseDuration
    is that of uint64 and, for fractions, float64. *)
From Stdlib Require Import SpecFloat.
From S2P Require Import Prelude.
From S2P Require Import Text.

Definition digit_of (c : Ascii.ascii) : option Z :=
  let n := Z.of_N (Ascii.N_of_ascii c) in
  if ((48 <=? n) && (n <=? 57))%Z then Some (n - 48)%Z else None.

(** ** strconv.Atoi *)

Definition ErrSyntax : error := ErrText "invalid syntax".
Definition ErrRange : error := ErrText "value out of range".

(** ParseUint(s, 10, 64), after its check for the empty string. *)
Fixpoint parse_uint (n : Z) (s : string) : result Z :=
  match s with
  | EmptyString => Ok n
  | String c s =>
      match digit_of c with
      | None => Err ErrSyntax
      | Some d =>
          if (n >=? (2 ^ 64 - 1) / 10 + 1)%Z then Err ErrRange
          else if (n * 10 + d >? 2 ^ 64 - 1)%Z then Err ErrRange
          else parse_uint (n * 10 + d) s
      end
  end.

(** Whether there is a minus sign, and what follows the sign. *)
Definition split_sign (s : string) : bool * string :=
  match s with
  | String c s' => if Ascii.eqb c (Ascii.ascii_of_N 45) then (true, s')
                   else if Ascii.eqb c (Ascii.ascii_of_N 43) then (false, s') else (false, s)
  | EmptyString => (false, s)
  end.

Definition Atoi (s : string) : result Z :=
  let '(neg, s) := split_sign s in
  if bool_decide (s = EmptyString) then Err ErrSyntax else
  un ← parse_uint 0 s;
  if negb neg && (un >=? 2 ^ 63)%Z then Err ErrRange
  else if neg && (un >? 2 ^ 63)%Z then Err ErrRange
  else Ok (if neg then - un else un)%Z.

(** ** encoding/hex *)

Definition hex_digit (n : N) : Ascii.ascii :=
  Ascii.ascii_of_N (if (n <? 10)%N then 48 + n else 87 + n).

Fixpoint hex_EncodeToString (b : list Byte.byte) : string :=
  match b with
  | [] => EmptyString
  | x :: b => String (hex_digit (Byte.to_N x / 16)) (String (hex_digit (Byte.to_N x mod 16))
                (hex_EncodeToString b))
  end.

Definition hex_value (c : Ascii.ascii) : option N :=
  let n := Ascii.N_of_ascii c in
  if ((48 <=? n) && (n <=? 57))%N then Some (n - 48)%N
  else if ((97 <=? n) && (n <=? 102))%N then Some (n - 87)%N
  else if ((65 <=? n) && (n <=? 70))%N then Some (n - 55)%N
  else None.

Definition InvalidByteError : error := ErrText "encoding/hex: invalid byte".
Definition ErrLength : error := ErrText "encoding/hex: odd length hex string".

Fixpoint hex_DecodeString (s : string) : result (list Byte.byte) :=
  match s with
  | EmptyString => Ok []
  | String a EmptyString => Err (match hex_value a with None => InvalidByteError | Some _ => ErrLength end)
  | String a (String b s) =>
      match hex_value a, hex_value b with
      | Some h, Some l =>
          bs ← hex_DecodeString s;
          Ok (default Byte.x00 (Byte.of_N (h * 16 + l)) :: bs)
      | _, _ => Err InvalidByteError
      end
  end.

(** ** time.ParseDuration *)

Definition errInvalidDuration : error := ErrText "time: invalid duration".
Definition errMissingUnit : error := ErrText "time: missing unit in duration".
Definition errUnknownUnit : error := ErrText "time: unknown unit in duration".

(** float64: conversion from uint64, and to uint64 for the non-negative values
    that occur. *)
Definition float64 (n : Z) : spec_float := binary_normalize 53 1024 n 0 false.
Definition float64_mul : spec_float → spec_float → spec_float := SFmul 53 1024.
Definition float64_div : spec_float → spec_float → spec_float := SFdiv 53 1024.
Definition float64_to_uint64 (x : spec_float) : Z :=
  match x with
  | S754_finite false m e => if (0 <=? e)%Z then Z.pos m * 2 ^ e else Z.pos m / 2 ^ (- e)
  | _ => 0
  end%Z.

(** [None] on overflow. *)
Fixpoint leadingInt (x : Z) (s : string) : option (Z * string) :=
  match s with
  | EmptyString => Some (x, s)
  | String c s' =>
      match digit_of c with
      | None => Some (x, s)
      | Some d =>
          if (x >? 2 ^ 63 / 10)%Z then None
          else if (x * 10 + d >? 2 ^ 63)%Z then None
          else leadingInt (x * 10 + d) s'
      end
  end.

(** The digits that fit, their scale, and the rest after all digits. *)
Fixpoint leadingFraction (x : Z) (scale : spec_float) (overflow : bool) (s : string) : Z * spec_float * string :=
  match s with
  | EmptyString => (x, scale, s)
  | String c s' =>
      match digit_of c with
      | None => (x, scale, s)
      | Some d =>
          if overflow then leadingFraction x scale true s'
          else if (x >? (2 ^ 63 - 1) / 10)%Z then leadingFraction x scale true s'
          else if (x * 10 + d >? 2 ^ 63)%Z then leadingFraction x scale true s'
          else leadingFraction (x * 10 + d) (float64_mul scale (float64 10)) false s'
      end
  end.

Definition period : Ascii.ascii := Ascii.ascii_of_N 46.

Definition number_char (c : Ascii.ascii) : bool :=
  Ascii.eqb c period || match digit_of c with Some _ => true | None => false end.

(** The text before the next period or digit, and the rest. *)
Fixpoint split_unit (s : string) : string * string :=
  match s with
  | EmptyString => (EmptyString, EmptyString)
  | String c s' => if number_char c then (EmptyString, s)
                   else let '(u, rest) := split_unit s' in (String c u, rest)
  end.

Definition Microsecond : Z := 1000.
Definition Millisecond : Z := 1000 * Microsecond.
Definition Second : Z := 1000 * Millisecond.
Definition Minute : Z := 60 * Second.
Definition Hour : Z := 60 * Minute.

(** The micro sign and the Greek letter are both accepted. *)
Definition unitMap : list (string * Z) :=
  [("ns", 1); ("us", Microsecond); ("µs", Microsecond); ("μs", Microsecond); ("ms", Millisecond);
   ("s", Second); ("m", Minute); ("h", Hour)]%Z.

Definition unit_value (u : string) : option Z := snd <$> find (λ ku, bool_decide (ku.1 = u)) unitMap.

(** One number with its unit: its value in nanoseconds. *)
Definition duration_component (s : string) : result (Z * string) :=
  match s with
  | EmptyString => Err errInvalidDuration
  | String c _ =>
      if negb (number_char c) then Err errInvalidDuration else
      match leadingInt 0 s with
      | None => Err errInvalidDuration
      | Some (v, s1) =>
          let pre := negb (bool_decide (String.length s1 = String.length s)) in
          let '(f, scale, s2, post) :=
            match s1 with
            | String c1 s1' =>
                if Ascii.eqb c1 period then
                  let '(f, scale, s2) := leadingFraction 0 (float64 1) false s1' in
                  (f, scale, s2, negb (bool_decide (String.length s2 = String.length s1')))
                else (0%Z, float64 1, s1, false)
            | EmptyString => (0%Z, float64 1, s1, false)
            end in
          if negb pre && negb post then Err errInvalidDuration else
          let '(u, s3) := split_unit s2 in
          if bool_decide (u = EmptyString) then Err errMissingUnit else
          match unit_value u with
          | None => Err errUnknownUnit
          | Some unit =>
              if (v >? 2 ^ 63 / unit)%Z then Err errInvalidDuration else
              let v := (v * unit)%Z in
              if (f >? 0)%Z then
                let v := (v + float64_to_uint64 (float64_mul (float64 f) (float64_div (float64 unit) scale)))%Z in
                if (v >? 2 ^ 63)%Z then Err errInvalidDuration else Ok (v, s3)
              else Ok (v, s3)
          end
      end
  end.

(** The loop; each round consumes at least a unit, so the length of the string is
    enough fuel.  [d += v] wraps around at 2^64. *)
Fixpoint duration_loop (fuel : nat) (d : Z) (s : string) : result Z :=
  if bool_decide (s = EmptyString) then Ok d else
  match fuel with
  | 0 => Err errInvalidDuration
  | S fuel =>
      '(v, s') ← duration_component s;
      let d := ((d + v) `mod` 2 ^ 64)%Z in
      if (d >? 2 ^ 63)%Z then Err errInvalidDuration else duration_loop fuel d s'
  end.

(** The errors carry the quoted text in Go. *)
Definition ParseDuration (s : string) : result Z :=
  let '(neg, s) := split_sign s in
  if bool_decide (s = "0") then Ok 0%Z else
  if bool_decide (s = EmptyString) then Err errInvalidDuration else
  d ← duration_loop (String.length s) 0 s;
  if neg then Ok (- d)%Z
  else if (d >? 2 ^ 63 - 1)%Z then Err errInvalidDuration else Ok d.
