(* ===== verification/StrconvFacts.v ===== *)
(** * Correctness of the readers of numbers

    Decimal numerals have the value of their digits within the bounds of int64,
    durations the sum of their components, and hexadecimal text is read back. *)
From S2P Require Import Prelude.
From S2P Require Import Text.
From S2P Require Import Strconv.

(** ** Decimal numerals *)

Definition is_digit (d : Z) : Prop := (0 <= d <= 9)%Z.
Definition digit_char (d : Z) : Ascii.ascii := Ascii.ascii_of_N (Z.to_N (48 + d)).

(** The numeral with the digits [ds], and its value. *)
Fixpoint numeral (ds : list Z) : string :=
  match ds with [] => EmptyString | d :: ds => String (digit_char d) (numeral ds) end.

Definition extend_value (n : Z) (ds : list Z) : Z := foldl (λ n d, n * 10 + d)%Z n ds.
Definition value (ds : list Z) : Z := extend_value 0 ds.

Lemma digit_of_char d : is_digit d → digit_of (digit_char d) = Some d.
Proof.
  intros Hd. assert (d ∈ [0;1;2;3;4;5;6;7;8;9]%Z) as Hin by (unfold is_digit in Hd; set_unfold; lia).
  repeat (apply elem_of_cons in Hin as [->|Hin]; [reflexivity|]). by apply elem_of_nil in Hin.
Qed.

Lemma extend_value_ge n ds : (0 <= n)%Z → Forall is_digit ds → (n <= extend_value n ds)%Z.
Proof.
  revert n. induction ds as [|d ds IH]; intros n Hn; cbn; [lia|].
  intros [Hd Hds]%Forall_cons. unfold is_digit in Hd. etransitivity; [|apply IH; [lia|done]]. lia.
Qed.

Lemma parse_uint_numeral n ds :
  (0 <= n < 2 ^ 64)%Z → Forall is_digit ds →
  parse_uint n (numeral ds) = if bool_decide (extend_value n ds < 2 ^ 64)%Z then Ok (extend_value n ds) else Err ErrRange.
Proof.
  revert n. induction ds as [|d ds IH]; intros n Hn Hds; cbn [numeral parse_uint].
  - cbn. by rewrite bool_decide_eq_true_2 by lia.
  - apply Forall_cons in Hds as [Hd Hds]. rewrite digit_of_char by done.
    assert (n * 10 + d <= extend_value n (d :: ds))%Z as Hge
      by (apply (extend_value_ge (n * 10 + d)); [unfold is_digit in Hd; lia|done]).
    unfold is_digit in Hd.
    destruct (n >=? (2 ^ 64 - 1) / 10 + 1)%Z eqn:E1.
    + rewrite bool_decide_eq_false_2; [done|]. apply Z.geb_le in E1.
      change ((2 ^ 64 - 1) / 10 + 1)%Z with 1844674407370955162%Z in E1. lia.
    + destruct (n * 10 + d >? 2 ^ 64 - 1)%Z eqn:E2.
      * rewrite bool_decide_eq_false_2; [done|]. apply Z.gtb_lt in E2. lia.
      * rewrite IH; [done| |done]. rewrite Z.gtb_ltb, Z.ltb_ge in E2. lia.
Qed.

(** [+], [-] or nothing. *)
Inductive sign := NoSign | Plus | Minus.
Definition sign_text (s : sign) : string :=
  match s with NoSign => EmptyString | Plus => "+" | Minus => "-" end.
Definition is_minus (s : sign) : bool := match s with Minus => true | _ => false end.

Lemma split_sign_text s c t :
  (c = period ∨ ∃ d, is_digit d ∧ c = digit_char d) →
  split_sign (sign_text s +:+ String c t) = (is_minus s, String c t).
Proof.
  intros Hc. destruct s; [|done..]. change (sign_text NoSign +:+ String c t) with (String c t).
  unfold split_sign. destruct Hc as [->|(d & Hd & ->)]; [done|].
  assert (d ∈ [0;1;2;3;4;5;6;7;8;9]%Z) as Hin by (unfold is_digit in Hd; set_unfold; lia).
  repeat (apply elem_of_cons in Hin as [->|Hin]; [reflexivity|]). by apply elem_of_nil in Hin.
Qed.

(** Atoi reads every numeral that fits int64 and refuses every other. *)
Lemma Atoi_numeral s ds :
  ds ≠ [] → Forall is_digit ds →
  let n := if is_minus s then (- value ds)%Z else value ds in
  Atoi (sign_text s +:+ numeral ds) = if bool_decide (- 2 ^ 63 <= n < 2 ^ 63)%Z then Ok n else Err ErrRange.
Proof.
  intros Hne Hds. destruct ds as [|d ds]; [done|]. unfold Atoi. cbn [numeral].
  rewrite split_sign_text by (right; exists d; split; [by apply Forall_cons in Hds as [? _]|done]).
  rewrite bool_decide_eq_false_2 by done.
  change (String (digit_char d) (numeral ds)) with (numeral (d :: ds)).
  pose proof (extend_value_ge 0 (d :: ds) ltac:(lia) Hds) as H0. fold (value (d :: ds)) in H0.
  rewrite parse_uint_numeral by (done || lia). fold (value (d :: ds)). set (v := value (d :: ds)) in *. cbv zeta.
  destruct (bool_decide (v < 2 ^ 64)%Z) eqn:Ev.
  - apply bool_decide_eq_true in Ev. cbn [mbind result_bind].
    destruct (is_minus s); cbn [negb andb].
    + destruct (v >? 2 ^ 63)%Z eqn:E.
      * rewrite bool_decide_eq_false_2; [done|]. lia.
      * rewrite bool_decide_eq_true_2; [done|]. rewrite Z.gtb_ltb, Z.ltb_ge in E. lia.
    + destruct (v >=? 2 ^ 63)%Z eqn:E.
      * rewrite bool_decide_eq_false_2; [done|]. lia.
      * rewrite bool_decide_eq_true_2; [done|]. rewrite Z.geb_leb, Z.leb_gt in E. lia.
  - apply bool_decide_eq_false in Ev. cbn [mbind result_bind]. rewrite bool_decide_eq_false_2; [done|]. destruct (is_minus s); lia.
Qed.

Lemma parse_uint_nonneg n s m : (0 <= n)%Z → parse_uint n s = Ok m → (0 <= m)%Z.
Proof.
  revert n. induction s as [|c s IH]; intros n Hn; cbn [parse_uint]; [by intros [= <-]|].
  unfold digit_of. destruct (_ && _)%Z eqn:Hd; [|done]. do 2 (case_match; [done|]). apply IH. lia.
Qed.

Lemma Atoi_range s n : Atoi s = Ok n → (- 2 ^ 63 <= n < 2 ^ 63)%Z.
Proof.
  unfold Atoi. destruct (split_sign s) as [neg s']. case_bool_decide; [done|].
  destruct (parse_uint 0 s') as [un|e] eqn:Hu; [|done]. cbn [mbind result_bind].
  apply parse_uint_nonneg in Hu; [|lia].
  destruct neg; cbn [negb andb]; case_match eqn:E; try done; intros [= <-]; lia.
Qed.

(** ** Hexadecimal text *)

Lemma hex_value_digit n : (n < 16)%N → hex_value (hex_digit n) = Some n.
Proof.
  intros Hn.
  assert (n ∈ [0;1;2;3;4;5;6;7;8;9;10;11;12;13;14;15]%N) as Hin by (set_unfold; lia).
  repeat (apply elem_of_cons in Hin as [->|Hin]; [reflexivity|]). by apply elem_of_nil in Hin.
Qed.

(** DecodeString inverts EncodeToString. *)
Lemma hex_roundtrip b : hex_DecodeString (hex_EncodeToString b) = Ok b.
Proof.
  induction b as [|x b IH]; [done|]. cbn [hex_EncodeToString hex_DecodeString].
  pose proof (Byte.to_N_bounded x) as Hx.
  rewrite !hex_value_digit by (apply N.mod_lt || apply N.Div0.div_lt_upper_bound; lia).
  rewrite IH. cbn [mbind result_bind].
  rewrite N.mul_comm, <-N.div_mod' , Byte.of_to_N. done.
Qed.

(** What is decoded is half as long as the text. *)
Lemma hex_DecodeString_length s b : hex_DecodeString s = Ok b → String.length s = 2 * length b.
Proof.
  revert b. induction s as [s IH] using (induction_ltof1 _ String.length); unfold ltof in IH.
  destruct s as [|a1 [|a2 s]]; cbn; intros b; [by intros [= <-]|done|].
  destruct (hex_value a1), (hex_value a2); try done.
  destruct (hex_DecodeString s) as [bs|e] eqn:Hs; [|done]. intros [= <-]. cbn.
  apply IH in Hs; [lia|cbn; lia].
Qed.

(** ** Durations *)

(** One component: a numeral and its unit. *)
Record component := { comp_digits : list Z; comp_unit : string; comp_scale : Z }.

Definition component_ok (c : component) : Prop :=
  comp_digits c ≠ [] ∧ Forall is_digit (comp_digits c) ∧ (comp_unit c, comp_scale c) ∈ unitMap.

Definition component_text (c : component) : string := numeral (comp_digits c) +:+ comp_unit c.
Definition component_value (c : component) : Z := (value (comp_digits c) * comp_scale c)%Z.

Definition components_text (cs : list component) : string :=
  foldr (λ c s, component_text c +:+ s) EmptyString cs.
Definition total (cs : list component) : Z := foldr (λ c n, component_value c + n)%Z 0%Z cs.

(** The text does not continue a numeral. *)
Definition no_digit (s : string) : Prop :=
  match s with EmptyString => True | String c _ => digit_of c = None end.

Lemma leadingInt_numeral x ds s :
  (0 <= x <= 2 ^ 63)%Z → Forall is_digit ds → no_digit s →
  leadingInt x (numeral ds +:+ s) =
    if bool_decide (extend_value x ds <= 2 ^ 63)%Z then Some (extend_value x ds, s) else None.
Proof.
  revert x. induction ds as [|d ds IH]; intros x Hx Hds Hs.
  - cbn [numeral]. rewrite bool_decide_eq_true_2 by (cbn; lia). change (EmptyString +:+ s) with s.
    destruct s as [|c s]; [done|]. cbn in *. by rewrite Hs.
  - apply Forall_cons in Hds as [Hd Hds]. cbn [numeral]. change (?a +:+ s) with (String (digit_char d) (numeral ds +:+ s)).
    cbn [leadingInt]. rewrite digit_of_char by done.
    assert (x * 10 + d <= extend_value x (d :: ds))%Z as Hge
      by (apply (extend_value_ge (x * 10 + d)); [unfold is_digit in Hd; lia|done]).
    unfold is_digit in Hd.
    destruct (x >? 2 ^ 63 / 10)%Z eqn:E1.
    + rewrite bool_decide_eq_false_2; [done|]. apply Z.gtb_lt in E1.
      change (2 ^ 63 / 10)%Z with 922337203685477580%Z in E1. lia.
    + destruct (x * 10 + d >? 2 ^ 63)%Z eqn:E2.
      * rewrite bool_decide_eq_false_2; [done|]. lia.
      * rewrite IH; [done| |done|done]. lia.
Qed.

Lemma length_numeral ds : String.length (numeral ds) = length ds.
Proof. induction ds as [|d ds IH]; cbn; lia. Qed.

(** What is known of the unit names. *)
Definition unit_text_ok (u : string) : bool :=
  match u with EmptyString => false | String c _ => negb (number_char c) end &&
  forallb (λ c, negb (number_char c)) (String.list_ascii_of_string u).

Lemma unitMap_ok u n : (u, n) ∈ unitMap → unit_text_ok u = true ∧ unit_value u = Some n ∧ (0 < n)%Z.
Proof.
  intros Hin. unfold unitMap in Hin.
  repeat (apply elem_of_cons in Hin as [[= -> ->]|Hin]; [split_and!; [reflexivity|reflexivity|done]|]).
  by apply elem_of_nil in Hin.
Qed.

(** The text starts with a digit or is empty. *)
Definition starts_number (s : string) : Prop :=
  match s with EmptyString => True | String c _ => number_char c = true end.

Lemma split_unit_text u s :
  forallb (λ c, negb (number_char c)) (String.list_ascii_of_string u) = true → starts_number s →
  split_unit (u +:+ s) = (u, s).
Proof.
  intros Hu Hs. induction u as [|c u IH].
  - destruct s as [|c s]; [done|]. unfold starts_number in Hs. change (EmptyString +:+ String c s) with (String c s). cbn [split_unit]. by rewrite Hs.
  - cbn in Hu. apply andb_true_iff in Hu as [Hc Hu]. apply negb_true_iff in Hc.
    change (String c u +:+ s) with (String c (u +:+ s)). cbn [split_unit]. by rewrite Hc, IH.
Qed.

Lemma number_char_digit d : is_digit d → number_char (digit_char d) = true.
Proof. intros Hd. unfold number_char. rewrite digit_of_char by done. apply orb_true_r. Qed.

Lemma number_char_period c : number_char c = false → Ascii.eqb c period = false ∧ digit_of c = None.
Proof.
  unfold number_char. intros [? Hd]%orb_false_iff. split; [done|]. by destruct (digit_of c).
Qed.

(** A component is read as its value, unless the value is too large. *)
Lemma duration_component_text c s :
  component_ok c → starts_number s →
  if bool_decide (component_value c <= 2 ^ 63)%Z
  then duration_component (component_text c +:+ s) = Ok (component_value c, s)
  else ∃ e, duration_component (component_text c +:+ s) = Err e.
Proof.
  destruct c as [ds u n]. intros (Hne & Hds & (Hu & Hun & Hn)%unitMap_ok) Hs.
  unfold component_text, component_value, value. cbn [comp_digits comp_unit comp_scale] in *.
  unfold unit_text_ok in Hu. apply andb_true_iff in Hu as [Hu1 Hu2].
  rewrite <-append_assoc.
  assert (no_digit (u +:+ s)) as Hnd.
  { destruct u as [|c u]; [done|]. change (String c u +:+ s) with (String c (u +:+ s)).
    cbv iota in Hu1. apply negb_true_iff, number_char_period in Hu1 as [_ Hc]. exact Hc. }
  destruct ds as [|d ds]; [done|]. pose proof Hds as Hds'. apply Forall_cons in Hds as [Hd Hds].
  unfold duration_component. cbn [numeral]. change (?a +:+ (u +:+ s)) with (String (digit_char d) (numeral ds +:+ (u +:+ s))).
  cbv iota. rewrite number_char_digit by done. cbn [negb].
  change (String (digit_char d) (numeral ds +:+ (u +:+ s))) with (numeral (d :: ds) +:+ (u +:+ s)).
  rewrite leadingInt_numeral by (done || lia).
  pose proof (extend_value_ge 0 (d :: ds) ltac:(lia) Hds') as Hge. set (v := extend_value 0 (d :: ds)) in *.
  destruct (bool_decide (v <= 2 ^ 63)%Z) eqn:Hv.
  2: { apply bool_decide_eq_false in Hv. rewrite bool_decide_eq_false_2 by nia. by eexists. }
  apply bool_decide_eq_true in Hv.
  rewrite (bool_decide_eq_false_2 (String.length (u +:+ s) = _))
    by (rewrite !length_append, length_numeral; cbn [length]; lia).
  assert (match u +:+ s with
    | String c1 s1' => if Ascii.eqb c1 period then
        let '(f, scale, s2) := leadingFraction 0 (float64 1) false s1' in
        (f, scale, s2, negb (bool_decide (String.length s2 = String.length s1')))
      else (0%Z, float64 1, u +:+ s, false)
    | EmptyString => (0%Z, float64 1, u +:+ s, false) end = (0%Z, float64 1, u +:+ s, false)) as ->.
  { destruct u as [|c u]; [done|]. cbv iota in Hu1. apply negb_true_iff, number_char_period in Hu1 as [Hc _].
    change (String c u +:+ s) with (String c (u +:+ s)). cbv iota. by rewrite Hc. }
  cbn [negb andb]. rewrite split_unit_text by done.
  rewrite (bool_decide_eq_false_2 (u = EmptyString)) by (by destruct u). rewrite Hun.
  destruct (v >? 2 ^ 63 / n)%Z eqn:E.
  - apply Z.gtb_lt in E. pose proof (Z.mul_succ_div_gt (2 ^ 63) n Hn).
    assert (2 ^ 63 < v * n)%Z by nia.
    rewrite bool_decide_eq_false_2 by lia. by eexists.
  - rewrite Z.gtb_ltb, Z.ltb_ge in E.
    assert (v * n <= 2 ^ 63)%Z by (pose proof (Z.mul_div_le (2 ^ 63) n Hn); nia).
    by rewrite bool_decide_eq_true_2.
Qed.

Lemma components_start cs : Forall component_ok cs → starts_number (components_text cs).
Proof.
  intros Hcs. destruct cs as [|[ds u n] cs]; [done|]. apply Forall_cons in Hcs as [(Hne & Hds & _) _].
  cbn [comp_digits] in *. destruct ds as [|d ds]; [done|]. apply Forall_cons in Hds as [Hd _].
  exact (number_char_digit d Hd).
Qed.

Lemma component_value_nonneg c : component_ok c → (0 <= component_value c)%Z.
Proof.
  intros (_ & Hds & (_ & _ & Hn)%unitMap_ok). unfold component_value, value.
  pose proof (extend_value_ge 0 (comp_digits c) ltac:(lia) Hds). nia.
Qed.

Lemma total_nonneg cs : Forall component_ok cs → (0 <= total cs)%Z.
Proof.
  induction 1 as [|c cs Hc _ IH]; [done|]. cbn. pose proof (component_value_nonneg c Hc).
  unfold total in IH. lia.
Qed.

Lemma component_text_length c : component_ok c → 1 <= String.length (component_text c).
Proof.
  intros (Hne & _ & _). unfold component_text. rewrite length_append, length_numeral.
  destruct (comp_digits c); [done|]. cbn. lia.
Qed.

Lemma duration_loop_text fuel d cs :
  String.length (components_text cs) <= fuel → (0 <= d <= 2 ^ 63)%Z → Forall component_ok cs →
  (d + total cs < 2 ^ 64)%Z →
  if bool_decide (d + total cs <= 2 ^ 63)%Z
  then duration_loop fuel d (components_text cs) = Ok (d + total cs)%Z
  else ∃ e, duration_loop fuel d (components_text cs) = Err e.
Proof.
  revert fuel d. induction cs as [|c cs IH]; intros fuel d Hf Hd Hcs Ht.
  - cbn [total foldr]. rewrite bool_decide_eq_true_2 by lia. rewrite Z.add_0_r. by destruct fuel.
  - apply Forall_cons in Hcs as [Hc Hcs].
    change (total (c :: cs)) with (component_value c + total cs)%Z in *.
    change (components_text (c :: cs)) with (component_text c +:+ components_text cs) in *.
    pose proof (component_value_nonneg c Hc) as Hv. pose proof (total_nonneg cs Hcs) as Ht0.
    pose proof (component_text_length c Hc) as Hlen. rewrite length_append in Hf.
    pose proof (duration_component_text c (components_text cs) Hc (components_start cs Hcs)) as Hcomp.
    destruct fuel as [|fuel]; [lia|]. cbn [duration_loop].
    rewrite (bool_decide_eq_false_2 (_ = EmptyString))
      by (intros E; apply (f_equal String.length) in E; rewrite length_append in E; cbn in E; lia).
    destruct (bool_decide (component_value c <= 2 ^ 63)%Z) eqn:Hb.
    2: { apply bool_decide_eq_false in Hb. rewrite bool_decide_eq_false_2 by lia.
         destruct Hcomp as [e ->]. by exists e. }
    apply bool_decide_eq_true in Hb. rewrite Hcomp. cbn [mbind result_bind].
    rewrite Z.mod_small by lia.
    destruct (d + component_value c >? 2 ^ 63)%Z eqn:E.
    + rewrite bool_decide_eq_false_2 by lia. by eexists.
    + rewrite Z.add_assoc. apply IH; [lia|lia|done|lia].
Qed.

Lemma duration_loop_bounds fuel d s n :
  (0 <= d <= 2 ^ 63)%Z → duration_loop fuel d s = Ok n → (0 <= n <= 2 ^ 63)%Z.
Proof.
  revert d s. induction fuel as [|fuel IH]; intros d s Hd; cbn [duration_loop];
    (case_bool_decide; [by intros [= <-]|]); [done|].
  destruct (duration_component s) as [[v s']|e]; [|done]. cbn [mbind result_bind].
  destruct ((d + v) `mod` 2 ^ 64 >? 2 ^ 63)%Z eqn:E; [done|]. apply IH.
  pose proof (Z.mod_pos_bound (d + v) (2 ^ 64) ltac:(lia)). lia.
Qed.

Lemma ParseDuration_range s n : ParseDuration s = Ok n → (- 2 ^ 63 <= n < 2 ^ 63)%Z.
Proof.
  unfold ParseDuration. destruct (split_sign s) as [neg s'].
  case_bool_decide; [intros [= <-]; lia|]. case_bool_decide; [done|].
  destruct (duration_loop (String.length s') 0 s') as [d|e] eqn:Hd; [|done]. cbn [mbind result_bind].
  apply duration_loop_bounds in Hd; [|lia]. destruct neg; [intros [= <-]; lia|].
  destruct (d >? 2 ^ 63 - 1)%Z eqn:E; [done|]. intros [= <-]. lia.
Qed.

(** Durations are read exactly and within int64: a text without fractions
    whose components sum to less than 2^64 nanoseconds is read as that sum, with
    its sign, if the sum fits int64 and refused otherwise; and no text at all is
    read as a value outside int64. *)
Lemma ParseDuration_sum s cs :
  cs ≠ [] → Forall component_ok cs → (total cs < 2 ^ 64)%Z →
  let n := if is_minus s then (- total cs)%Z else total cs in
  (if bool_decide (- 2 ^ 63 <= n < 2 ^ 63)%Z
   then ParseDuration (sign_text s +:+ components_text cs) = Ok n
   else ∃ e, ParseDuration (sign_text s +:+ components_text cs) = Err e) ∧
  ∀ t m, ParseDuration t = Ok m → (- 2 ^ 63 <= m < 2 ^ 63)%Z.
Proof.
  intros Hne Hcs Ht n. split; [|apply ParseDuration_range].
  pose proof (total_nonneg cs Hcs) as Ht0.
  pose proof (duration_loop_text (String.length (components_text cs)) 0 cs (le_n _) ltac:(lia) Hcs Ht) as Hl.
  destruct cs as [|[ds u k] cs]; [done|]. pose proof Hcs as Hcs'.
  apply Forall_cons in Hcs as [(Hds0 & Hds & (Hu & _ & _)%unitMap_ok) _]. cbn [comp_digits comp_unit] in *.
  destruct ds as [|d ds]; [done|]. apply Forall_cons in Hds as [Hd _].
  set (tl := numeral ds +:+ (u +:+ components_text cs)).
  assert (components_text ({| comp_digits := d :: ds; comp_unit := u; comp_scale := k |} :: cs)
          = String (digit_char d) tl) as Htext
    by (cbn [components_text foldr]; unfold component_text, tl; cbn [comp_digits comp_unit numeral];
        by rewrite <-append_assoc).
  rewrite Htext in *. unfold ParseDuration. rewrite split_sign_text by (right; by exists d).
  rewrite (bool_decide_eq_false_2 (String (digit_char d) tl = "0")).
  2: { intros [= _ E]. apply (f_equal String.length) in E. unfold tl in E. rewrite !length_append in E.
       destruct u; [done|]. cbn in E. lia. }
  rewrite (bool_decide_eq_false_2 (String (digit_char d) tl = EmptyString)) by done.
  set (T := total _) in *. rewrite Z.add_0_l in Hl.
  destruct (bool_decide (T <= 2 ^ 63)%Z) eqn:Hb.
  - apply bool_decide_eq_true in Hb. rewrite Hl. cbn [mbind result_bind].
    destruct (is_minus s); [by rewrite bool_decide_eq_true_2 by lia|].
    destruct (T >? 2 ^ 63 - 1)%Z eqn:E.
    + rewrite bool_decide_eq_false_2 by lia. by eexists.
    + by rewrite bool_decide_eq_true_2 by lia.
  - apply bool_decide_eq_false in Hb. rewrite bool_decide_eq_false_2 by (unfold n; destruct (is_minus s); lia).
    destruct Hl as [e ->]. by exists e.
Qed.
