(* ===== verification/Config.v ===== *)
(** * Configuration of the three programs: config.Load

    api/internal/config, controller/internal/config and agent/internal/config.
    Load reads environment variables; it collects every problem it finds and
    fails with all of them. *)
From stdpp Require Import pretty.
From S2P Require Import Prelude.
From S2P Require Import Types.
From S2P Require Import Text.
From S2P Require Import Strconv.

(** os.Getenv in an environment of entries [K=V]: the first entry counts, and an
    unset variable reads as "". *)
Fixpoint Getenv (env : list string) (key : string) : string :=
  match env with
  | [] => EmptyString
  | e :: env => if HasPrefix e (key +:+ "=") then drop_str (S (String.length key)) e else Getenv env key
  end.

(** errors.Join: the messages, one per line. *)
Definition errors_Join (errs : list error) : error :=
  ErrText (Join (String LF EmptyString) (Error <$> errs)).

(** [if len(errs) > 0 { return nil, errors.Join(errs...) }; return cfg, nil] *)
Definition joined {A} (cfg : A) (errs : list error) : result A :=
  match errs with [] => Ok cfg | _ => Err (errors_Join errs) end.

(** [if v == "" { errs = append(errs, ...) }] *)
Definition required (v msg : string) : list error :=
  if bool_decide (v = EmptyString) then [ErrText msg] else [].

(** [if v := os.Getenv(k); v != "" { cfg.x = v }] *)
Definition text_or (v default : string) : string := if bool_decide (v = EmptyString) then default else v.

(** [if v != "" { x, err := parse(v); if err != nil { errs = append(...) } else { cfg.x = x } }] *)
Definition parsed_or {A} (v : string) (default : A) (parse : string → result A) : A :=
  if bool_decide (v = EmptyString) then default else
  match parse v with Ok x => x | Err _ => default end.

Definition parse_errors {A} (v : string) (parse : string → result A) (report : error → error) : list error :=
  if bool_decide (v = EmptyString) then [] else
  match parse v with Ok _ => [] | Err e => [report e] end.

Definition comma : Ascii.ascii := Ascii.ascii_of_N 44.

(** ** api/internal/config *)

Module Api.

Record Config := {
  DBUrl : string;
  EncryptionKey : list Byte.byte;
  JWTSecret : string;
  JWTExpiry : Duration;
  Port : string;
  LogLevel : string;
  LogFormat : string;
  HeartbeatTTL : Duration;
  RegToken : string;
  CORSOrigins : list string;
}.

Definition parse_key (keyHex : string) : result (list Byte.byte) :=
  match hex_DecodeString keyHex with
  | Ok key => if bool_decide (length key ≠ 32)
              then Err (ErrText "AOP_ENCRYPTION_KEY must be a 64-character hex string (32 bytes)") else Ok key
  | Err _ => Err (ErrText "AOP_ENCRYPTION_KEY must be a 64-character hex string (32 bytes)")
  end.

Definition Load (env : list string) : result Config :=
  let origins := Getenv env "AOP_CORS_ORIGINS" in
  let dbUrl := Getenv env "AOP_DB_URL" in
  let keyHex := Getenv env "AOP_ENCRYPTION_KEY" in
  let jwtSecret := Getenv env "AOP_JWT_SECRET" in
  let regToken := Getenv env "AOP_REGISTRATION_TOKEN" in
  let expiry := Getenv env "AOP_JWT_EXPIRY" in
  let ttl := Getenv env "AOP_AGENT_HEARTBEAT_TTL" in
  joined {|
    DBUrl := dbUrl;
    EncryptionKey := parsed_or keyHex [] parse_key;
    JWTSecret := jwtSecret;
    JWTExpiry := parsed_or expiry (8 * Hour)%Z ParseDuration;
    Port := text_or (Getenv env "AOP_PORT") "8080";
    LogLevel := text_or (Getenv env "AOP_LOG_LEVEL") "info";
    LogFormat := text_or (Getenv env "AOP_LOG_FORMAT") "json";
    HeartbeatTTL := parsed_or ttl (30 * Second)%Z ParseDuration;
    RegToken := regToken;
    CORSOrigins := if bool_decide (origins = EmptyString) then ["http://localhost:5174"]
                   else SplitByte comma origins |}
   (required dbUrl "AOP_DB_URL is required"
    ++ required keyHex "AOP_ENCRYPTION_KEY is required"
    ++ parse_errors keyHex parse_key id
    ++ required jwtSecret "AOP_JWT_SECRET is required"
    ++ required regToken "AOP_REGISTRATION_TOKEN is required"
    ++ parse_errors expiry ParseDuration (ErrWrap "AOP_JWT_EXPIRY invalid")
    ++ parse_errors ttl ParseDuration (ErrWrap "AOP_AGENT_HEARTBEAT_TTL invalid")).
End Api.

(** ** controller/internal/config *)

Module Controller.

(** A nil key is the empty one. *)
Record Config := {
  DBURL : string;
  APIURL : string;
  EncryptionKey : list Byte.byte;
  LogLevel : string;
  LogFormat : string;
  ReconcileInterval : Duration;
  HeartbeatTTL : Duration;
  DispatchTimeout : Duration;
  RunningTimeout : Duration;
  WorkspaceDir : string;
  SyncInterval : Duration;
}.

Definition parse_key (v : string) : result (list Byte.byte) :=
  match hex_DecodeString v with
  | Err err => Err (ErrWrap "AOP_ENCRYPTION_KEY: invalid hex" err)
  | Ok key => if bool_decide (length key ≠ 32)
              then Err (ErrText ("AOP_ENCRYPTION_KEY: must be 32 bytes (64 hex chars), got "
                                +:+ pretty (length key) +:+ " bytes")) else Ok key
  end.

(** The closure parseDuration: what it stores, and what it appends to errs. *)
Definition parse_duration (env : list string) (name : string) (dest : Duration) : Duration :=
  parsed_or (Getenv env name) dest ParseDuration.
Definition duration_errors (env : list string) (name : string) : list error :=
  parse_errors (Getenv env name) ParseDuration (ErrWrap (name +:+ " invalid")).

Definition Load (env : list string) : result Config :=
  let dbURL := Getenv env "AOP_DB_URL" in
  let apiURL := Getenv env "AOP_API_URL" in
  let key := Getenv env "AOP_ENCRYPTION_KEY" in
  joined {|
    DBURL := dbURL;
    APIURL := apiURL;
    EncryptionKey := parsed_or key [] parse_key;
    LogLevel := text_or (Getenv env "AOP_LOG_LEVEL") "info";
    LogFormat := text_or (Getenv env "AOP_LOG_FORMAT") "json";
    ReconcileInterval := parse_duration env "AOP_RECONCILE_INTERVAL" (5 * Second)%Z;
    HeartbeatTTL := parse_duration env "AOP_AGENT_HEARTBEAT_TTL" (30 * Second)%Z;
    DispatchTimeout := parse_duration env "AOP_JOB_DISPATCH_TIMEOUT" (60 * Second)%Z;
    RunningTimeout := parse_duration env "AOP_JOB_RUNNING_TIMEOUT" (3600 * Second)%Z;
    WorkspaceDir := text_or (Getenv env "AOP_WORKSPACE_DIR") "/tmp/aop-workspace";
    SyncInterval := parse_duration env "AOP_SYNC_INTERVAL" (5 * Minute)%Z |}
   (required dbURL "AOP_DB_URL is required"
    ++ required apiURL "AOP_API_URL is required"
    ++ parse_errors key parse_key id
    ++ duration_errors env "AOP_RECONCILE_INTERVAL"
    ++ duration_errors env "AOP_AGENT_HEARTBEAT_TTL"
    ++ duration_errors env "AOP_JOB_DISPATCH_TIMEOUT"
    ++ duration_errors env "AOP_JOB_RUNNING_TIMEOUT"
    ++ duration_errors env "AOP_SYNC_INTERVAL").
End Controller.

(** ** agent/internal/config *)

Module Agent.

Record Config := {
  APIURL : string;
  RegistrationToken : string;
  AgentName : string;
  AgentAddress : string;
  Capacity : Z;
  HeartbeatInterval : Duration;
  WorkDir : string;
  Port : string;
  LogLevel : string;
  LogFormat : string;
  Labels : gmap string string;
}.

Definition parse_capacity (v : string) : result Z :=
  match Atoi v with
  | Ok n => if (n <=? 0)%Z then Err (ErrText "AOP_CAPACITY must be a positive integer") else Ok n
  | Err _ => Err (ErrText "AOP_CAPACITY must be a positive integer")
  end.

(** One pair of AOP_LABELS: strings.SplitN(pair, "=", 2). *)
Definition add_label (labels : gmap string string) (pair : string) : gmap string string :=
  let pair := TrimSpace pair in
  match IndexByte pair equals_sign with
  | None => labels
  | Some i => <[TrimSpace (take_str i pair) := TrimSpace (drop_str (S i) pair)]> labels
  end.

(** [hostname] is what os.Hostname returns. *)
Definition Load (hostname : result string) (env : list string) : result Config :=
  let apiURL := Getenv env "AOP_API_URL" in
  let token := Getenv env "AOP_REGISTRATION_TOKEN" in
  let address := Getenv env "AOP_AGENT_ADDRESS" in
  let name := Getenv env "AOP_AGENT_NAME" in
  let capacity := Getenv env "AOP_CAPACITY" in
  let interval := Getenv env "AOP_HEARTBEAT_INTERVAL" in
  let labels := Getenv env "AOP_LABELS" in
  joined {|
    APIURL := apiURL;
    RegistrationToken := token;
    AgentName := if bool_decide (name = EmptyString)
                 then match hostname with Ok h => h | Err _ => "agent" end else name;
    AgentAddress := address;
    Capacity := parsed_or capacity 4%Z parse_capacity;
    HeartbeatInterval := parsed_or interval (10 * Second)%Z ParseDuration;
    WorkDir := text_or (Getenv env "AOP_WORK_DIR") "/tmp/aop";
    Port := text_or (Getenv env "AOP_PORT") "7000";
    LogLevel := text_or (Getenv env "AOP_LOG_LEVEL") "info";
    LogFormat := text_or (Getenv env "AOP_LOG_FORMAT") "json";
    Labels := if bool_decide (labels = EmptyString) then ∅ else foldl add_label ∅ (SplitByte comma labels) |}
   (required apiURL "AOP_API_URL is required"
    ++ required token "AOP_REGISTRATION_TOKEN is required"
    ++ required address "AOP_AGENT_ADDRESS is required (full URL the controller uses to reach this agent)"
    ++ parse_errors capacity parse_capacity id
    ++ parse_errors interval ParseDuration (ErrWrap "AOP_HEARTBEAT_INTERVAL invalid")).
End Agent.
