(* ===== verification/ConfigFacts.v ===== *)
(** * What the programs accept as configuration *)
From S2P Require Import Prelude.
From S2P Require Import Types.
From S2P Require Import Text.
From S2P Require Import Strconv.
From S2P Require Import StrconvFacts.
From S2P Require Import Config.

(** ** Problems *)

(** The variable an error message is about: its first word. *)
Fixpoint first_word (s : string) : string :=
  match s with
  | EmptyString => EmptyString
  | String c s => if Ascii.eqb c (Ascii.ascii_of_N 32) || Ascii.eqb c colon then EmptyString
                  else String c (first_word s)
  end.
Definition subject (e : error) : string := first_word (Error e).

Definition missing (v : string) : bool := bool_decide (v = EmptyString).
Definition malformed {A} (parse : string → result A) (v : string) : bool :=
  negb (missing v) && match parse v with Ok _ => false | Err _ => true end.

(** The variables, in order, whose values a program does not accept. *)
Definition rejected (env : list string) (rules : list (string * (string → bool))) : list string :=
  omap (λ r : string * (string → bool), if r.2 (Getenv env r.1) then Some r.1 else None) rules.

Definition api_rules : list (string * (string → bool)) := [
  ("AOP_DB_URL", missing);
  ("AOP_ENCRYPTION_KEY", λ v, missing v || malformed Api.parse_key v);
  ("AOP_JWT_SECRET", missing);
  ("AOP_REGISTRATION_TOKEN", missing);
  ("AOP_JWT_EXPIRY", malformed ParseDuration);
  ("AOP_AGENT_HEARTBEAT_TTL", malformed ParseDuration)].

Definition controller_rules : list (string * (string → bool)) := [
  ("AOP_DB_URL", missing);
  ("AOP_API_URL", missing);
  ("AOP_ENCRYPTION_KEY", malformed Controller.parse_key);
  ("AOP_RECONCILE_INTERVAL", malformed ParseDuration);
  ("AOP_AGENT_HEARTBEAT_TTL", malformed ParseDuration);
  ("AOP_JOB_DISPATCH_TIMEOUT", malformed ParseDuration);
  ("AOP_JOB_RUNNING_TIMEOUT", malformed ParseDuration);
  ("AOP_SYNC_INTERVAL", malformed ParseDuration)].

Definition agent_rules : list (string * (string → bool)) := [
  ("AOP_API_URL", missing);
  ("AOP_REGISTRATION_TOKEN", missing);
  ("AOP_AGENT_ADDRESS", missing);
  ("AOP_CAPACITY", malformed Agent.parse_capacity);
  ("AOP_HEARTBEAT_INTERVAL", malformed ParseDuration)].

(** A configuration if nothing is rejected, and otherwise an error that joins one
    error for each rejected variable. *)
Definition reports {A} (r : result A) (names : list string) : Prop :=
  match r with
  | Ok _ => names = []
  | Err e => names ≠ [] ∧ ∃ errs, e = errors_Join errs ∧ subject <$> errs = names
  end.

Lemma joined_Ok {A} (cfg x : A) errs : joined cfg errs = Ok x → x = cfg.
Proof. destruct errs; [by intros [= <-]|done]. Qed.

Lemma joined_reports {A} (cfg : A) errs names :
  subject <$> errs = names → reports (joined cfg errs) names.
Proof. intros <-. destruct errs as [|e errs]; [done|]. split; [done|]. by exists (e :: errs). Qed.

Lemma required_subject v msg name :
  subject (ErrText msg) = name → subject <$> required v msg = if missing v then [name] else [].
Proof. intros <-. unfold required, missing. by case_bool_decide. Qed.

Lemma parse_errors_subject {A} v (parse : string → result A) report name :
  (∀ e, parse v = Err e → subject (report e) = name) →
  subject <$> parse_errors v parse report = if malformed parse v then [name] else [].
Proof.
  intros Hr. unfold parse_errors, malformed, missing. case_bool_decide; [done|].
  destruct (parse v) as [x|e] eqn:E; [done|]. cbn. by rewrite Hr.
Qed.

Lemma Api_parse_key_subject v e : Api.parse_key v = Err e → subject e = "AOP_ENCRYPTION_KEY".
Proof.
  unfold Api.parse_key. destruct (hex_DecodeString v) as [key|err]; [case_bool_decide|];
    intros [= <-]; reflexivity.
Qed.

Lemma Controller_parse_key_subject v e : Controller.parse_key v = Err e → subject e = "AOP_ENCRYPTION_KEY".
Proof.
  unfold Controller.parse_key. destruct (hex_DecodeString v) as [key|err]; [case_bool_decide|];
    intros [= <-]; reflexivity.
Qed.

Lemma parse_capacity_subject v e : Agent.parse_capacity v = Err e → subject e = "AOP_CAPACITY".
Proof.
  unfold Agent.parse_capacity. destruct (Atoi v) as [n|err]; [destruct (n <=? 0)%Z|];
    intros [= <-]; reflexivity.
Qed.

Lemma rejected_cons env name bad rules :
  rejected env ((name, bad) :: rules) = (if bad (Getenv env name) then [name] else []) ++ rejected env rules.
Proof. unfold rejected. cbn. by destruct (bad (Getenv env name)). Qed.

(** Split the errors of a Load into those of each variable. *)
Ltac solve_reports :=
  apply joined_reports; rewrite !fmap_app; rewrite !rejected_cons;
  repeat (erewrite required_subject by reflexivity);
  repeat (erewrite parse_errors_subject by
    first [intros ? Hk; exact (Api_parse_key_subject _ _ Hk)|intros ? Hk; exact (Controller_parse_key_subject _ _ Hk)
          |intros ? Hk; exact (parse_capacity_subject _ _ Hk)|intros ? _; cbv; reflexivity]).

Lemma Api_Load_reports env : reports (Api.Load env) (rejected env api_rules).
Proof.
  unfold Api.Load, api_rules. solve_reports. cbn [rejected omap list_omap].
  assert (∀ v, malformed Api.parse_key v = true → missing v = false) as Hm
    by (intros v; unfold malformed; by destruct (missing v)).
  destruct (missing (Getenv env "AOP_ENCRYPTION_KEY")) eqn:Hv;
    destruct (malformed Api.parse_key (Getenv env "AOP_ENCRYPTION_KEY")) eqn:Hk; cbn; rewrite ?app_nil_r; try done.
  apply Hm in Hk. congruence.
Qed.

Lemma Controller_Load_reports env : reports (Controller.Load env) (rejected env controller_rules).
Proof. unfold Controller.Load, controller_rules, Controller.duration_errors. solve_reports. by rewrite app_nil_r. Qed.

Lemma Agent_Load_reports h env : reports (Agent.Load h env) (rejected env agent_rules).
Proof. unfold Agent.Load, agent_rules. solve_reports. by rewrite app_nil_r. Qed.

(** C28: each program starts exactly when every required variable is set and every
    variable that is set can be read; otherwise Load names all the variables with
    a problem, each once and in order, in one error. *)
Theorem Load_reports_every_problem env hostname :
  reports (Api.Load env) (rejected env api_rules) ∧
  reports (Controller.Load env) (rejected env controller_rules) ∧
  reports (Agent.Load hostname env) (rejected env agent_rules).
Proof. split; [apply Api_Load_reports|]. split; [apply Controller_Load_reports|apply Agent_Load_reports]. Qed.

(** ** Bounds *)

(** The values of Go's int and time.Duration. *)
Definition int64 (n : Z) : Prop := (- 2 ^ 63 <= n < 2 ^ 63)%Z.

Lemma parsed_or_bound {A} (φ : A → Prop) v (dflt : A) parse :
  φ dflt → (∀ x, parse v = Ok x → φ x) → φ (parsed_or v dflt parse).
Proof. intros Hd Hp. unfold parsed_or. case_bool_decide; [done|]. destruct (parse v) eqn:E; [by apply Hp|done]. Qed.

Lemma duration_int64 v d : int64 d → int64 (parsed_or v d ParseDuration).
Proof. intros Hd. apply parsed_or_bound; [done|]. apply ParseDuration_range. Qed.

(** What [joined] accepts is free of each kind of error. *)
Lemma joined_accepts {A} (cfg x : A) errs : joined cfg errs = Ok x → x = cfg ∧ errs = [].
Proof. destruct errs; [by intros [= <-]|done]. Qed.

Lemma required_nil v msg : required v msg = [] → v ≠ EmptyString.
Proof. unfold required. by case_bool_decide. Qed.

Lemma parsed_or_Ok {A} (φ : A → Prop) v (dflt : A) parse report :
  parse_errors v parse report = [] → (v = EmptyString → φ dflt) → (∀ x, parse v = Ok x → φ x) →
  φ (parsed_or v dflt parse).
Proof.
  unfold parse_errors, parsed_or. case_bool_decide; [auto|]. destruct (parse v) eqn:E; [|done]. auto.
Qed.

Lemma key_length (parse : string → result (list Byte.byte)) v key :
  parse = Api.parse_key ∨ parse = Controller.parse_key → parse v = Ok key → length key = 32.
Proof.
  intros [-> | ->]; [unfold Api.parse_key|unfold Controller.parse_key]; destruct (hex_DecodeString v);
    try done; case_bool_decide as Hl; try done; intros [= <-]; lia.
Qed.

Lemma parse_capacity_range v n : Agent.parse_capacity v = Ok n → (1 <= n < 2 ^ 63)%Z.
Proof.
  unfold Agent.parse_capacity. destruct (Atoi v) as [m|e] eqn:Ha; [|done]. apply Atoi_range in Ha.
  destruct (m <=? 0)%Z eqn:E; [done|]. intros [= <-]. lia.
Qed.

(** C29: what an accepted configuration guarantees: required texts are not empty,
    every duration is a 64-bit integer (but possibly zero or negative), a key that
    is given has 32 bytes, the API server has one, and the capacity of an agent is
    a positive 64-bit integer. *)
Theorem Load_bounds env hostname :
  (∀ cfg, Api.Load env = Ok cfg →
    Api.DBUrl cfg ≠ EmptyString ∧ Api.JWTSecret cfg ≠ EmptyString ∧ Api.RegToken cfg ≠ EmptyString ∧
    length (Api.EncryptionKey cfg) = 32 ∧ int64 (Api.JWTExpiry cfg) ∧ int64 (Api.HeartbeatTTL cfg)) ∧
  (∀ cfg, Controller.Load env = Ok cfg →
    Controller.DBURL cfg ≠ EmptyString ∧ Controller.APIURL cfg ≠ EmptyString ∧
    length (Controller.EncryptionKey cfg) =
      (if missing (Getenv env "AOP_ENCRYPTION_KEY") then 0 else 32) ∧
    Forall int64 [Controller.ReconcileInterval cfg; Controller.HeartbeatTTL cfg;
      Controller.DispatchTimeout cfg; Controller.RunningTimeout cfg; Controller.SyncInterval cfg]) ∧
  (∀ cfg, Agent.Load hostname env = Ok cfg →
    Agent.APIURL cfg ≠ EmptyString ∧ Agent.RegistrationToken cfg ≠ EmptyString ∧
    Agent.AgentAddress cfg ≠ EmptyString ∧ (1 <= Agent.Capacity cfg < 2 ^ 63)%Z ∧
    int64 (Agent.HeartbeatInterval cfg)).
Proof.
  split; [|split]; intros cfg Hl; [unfold Api.Load in Hl|unfold Controller.Load in Hl|unfold Agent.Load in Hl];
    apply joined_accepts in Hl as [-> Herrs].
  - apply app_nil in Herrs as [H1 Herrs]. apply app_nil in Herrs as [H2 Herrs].
    apply app_nil in Herrs as [H3 Herrs]. apply app_nil in Herrs as [H4 Herrs].
    apply app_nil in Herrs as [H5 _].
    split_and!; try (by eapply required_nil); try (by apply duration_int64).
    apply (parsed_or_Ok (λ k, length k = 32) _ _ _ _ H3); [by intros E; apply required_nil in H2|].
    intros k. apply key_length. by left.
  - apply app_nil in Herrs as [H1 Herrs]. apply app_nil in Herrs as [H2 Herrs].
    apply app_nil in Herrs as [H3 _].
    split_and!; try (by eapply required_nil).
    + apply (parsed_or_Ok (λ k, length k = _) _ _ _ _ H3); unfold missing; [by intros ->|].
      intros k Hk. case_bool_decide as E; [by rewrite E in Hk|]. eapply key_length, Hk. by right.
    + repeat constructor; by apply duration_int64.
  - apply app_nil in Herrs as [H1 Herrs]. apply app_nil in Herrs as [H2 Herrs].
    apply app_nil in Herrs as [H3 Herrs]. apply app_nil in Herrs as [H4 _].
    assert (1 <= parsed_or (Getenv env "AOP_CAPACITY") 4 Agent.parse_capacity < 2 ^ 63)%Z as Hcap
      by (apply (parsed_or_Ok (λ n, 1 <= n < 2 ^ 63)%Z _ _ _ _ H4); [done|apply parse_capacity_range]).
    split_and!; try (by eapply required_nil); try (by apply duration_int64); apply Hcap.
Qed.
