(* ===== verification/Logging.v ===== *)
(** * The loggers the programs start with: buildLogger of cmd/api, cmd/controller
    and cmd/agent, and what becomes of an unset variable

    The log lines themselves are not modelled; what is modelled is the level and
    the form the configuration gives them.  The API and the agent render for a
    console when the format is [console], the controller when it is [pretty]. *)
From S2P Require Import Prelude.
From S2P Require Import Text.
From S2P Require Import Config.
From S2P Require Import ConfigFacts.

(** github.com/rs/zerolog: a level is an int8. *)
Class ZerologLib := { zerolog_ParseLevel : string → result Z; zerolog_InfoLevel : Z }.

(** Where lines go is stderr in each case; a console writer has the layout of its
    times, "" for the one zerolog uses. *)
Inductive Writer := JsonLines | ConsoleWriter (timeFormat : string).

(** The global level and the writer. *)
Record Logger := { Logger_Level : Z; Logger_Writer : Writer }.

Section logging.
Context `{ZerologLib}.

Definition level_or_info (s : string) : Z :=
  match zerolog_ParseLevel s with Ok l => l | Err _ => zerolog_InfoLevel end.

Definition RFC3339 : string := "2006-01-02T15:04:05Z07:00".

Definition api_buildLogger (cfg : Api.Config) : Logger := {|
  Logger_Level := level_or_info (Api.LogLevel cfg);
  Logger_Writer := if bool_decide (Api.LogFormat cfg = "console") then ConsoleWriter RFC3339 else JsonLines |}.

Definition controller_buildLogger (cfg : Controller.Config) : Logger := {|
  Logger_Level := level_or_info (Controller.LogLevel cfg);
  Logger_Writer := if bool_decide (Controller.LogFormat cfg = "pretty") then ConsoleWriter EmptyString else JsonLines |}.

Definition agent_buildLogger (cfg : Agent.Config) : Logger := {|
  Logger_Level := level_or_info (Agent.LogLevel cfg);
  Logger_Writer := if bool_decide (Agent.LogFormat cfg = "console") then ConsoleWriter EmptyString else JsonLines |}.

(** The three programs, under one environment. *)
Definition writers (env : list string) (hostname : result string) : list (option Writer) :=
  let writer {A} (build : A → Logger) (cfg : result A) :=
    match cfg with Ok cfg => Some (Logger_Writer (build cfg)) | Err _ => None end in
  [writer api_buildLogger (Api.Load env); writer controller_buildLogger (Controller.Load env);
   writer agent_buildLogger (Agent.Load hostname env)].

(** One format is honoured by some of the programs only, whatever it is. *)
Lemma writers_differ env hostname w1 w2 w3 :
  writers env hostname = [Some w1; Some w2; Some w3] → w2 ≠ JsonLines → w1 = JsonLines ∧ w3 = JsonLines.
Proof.
  unfold writers. destruct (Api.Load env) as [a|] eqn:Ha; [|done]. destruct (Controller.Load env) as [c|] eqn:Hc; [|done].
  destruct (Agent.Load hostname env) as [g|] eqn:Hg; [|done].
  apply joined_Ok in Ha as ->. apply joined_Ok in Hc as ->. apply joined_Ok in Hg as ->.
  intros [= <- <- <-]. cbn. case_bool_decide as E; [|done]. intros _. by rewrite E.
Qed.

(** A level nobody knows is info. *)
Lemma unknown_level s e : zerolog_ParseLevel s = Err e → level_or_info s = zerolog_InfoLevel.
Proof. unfold level_or_info. by intros ->. Qed.
End logging.

(** What the programs use for what is not set. *)
Lemma agent_defaults env hostname cfg :
  Agent.Load hostname env = Ok cfg →
  (Getenv env "AOP_CAPACITY" = EmptyString → Agent.Capacity cfg = 4%Z) ∧
  (Getenv env "AOP_WORK_DIR" = EmptyString → Agent.WorkDir cfg = "/tmp/aop") ∧
  (Getenv env "AOP_AGENT_NAME" = EmptyString → Agent.AgentName cfg = match hostname with Ok h => h | Err _ => "agent" end).
Proof. intros ->%joined_Ok. cbn. split_and!; by intros ->. Qed.
