(* ===== verification/Db.v ===== *)
(** * The database and the other external parties

    PostgreSQL holds all shared state of the system.  [Db] has one finite map
    per table of migrations/*.up.sql; a statement (or a transaction) is a
    function of the time, of the identifiers gen_random_uuid() returns, of the
    rows other sessions hold locked, and of the database, that either fails and
    leaves the database unchanged or returns its rows and the new database.
    [Ev] lists the interactions of the server-side programs, [Answer] what the
    environment decides about one of them, and [perform] their effect. *)
From S2P Require Import Prelude.
From S2P Require Import Prog.
From S2P Require Import Types.

(** A row of table agents: the columns of types.Agent and token_hash. *)
Record AgentRow := {
  AgentRow_Agent : Agent;
  AgentRow_TokenHash : string;
}.

Record Db := MkDb {
  db_users : gmap uuid User;
  db_api_tokens : gmap uuid APIToken;
  db_agents : gmap uuid AgentRow;
  db_credentials : gmap uuid Credential;
  db_projects : gmap uuid Project;
  db_inventory_hosts : gmap uuid InventoryHost;
  db_job_templates : gmap uuid JobTemplate;
  db_schedules : gmap uuid Schedule;
  db_workflows : gmap uuid Workflow;
  db_workflow_nodes : gmap uuid WorkflowNode;
  db_workflow_edges : gmap uuid WorkflowEdge;
  db_workflow_runs : gmap uuid WorkflowRun;
  db_jobs : gmap uuid Job;
  db_job_status_events : gmap uuid JobStatusEvent;
  (** (job_id, seq) is unique; the value is (line, stream) *)
  db_job_logs : gmap (uuid * Z) (string * string);
  db_approval_requests : gmap uuid ApprovalRequest;
}.

Definition empty_db : Db := MkDb ∅ ∅ ∅ ∅ ∅ ∅ ∅ ∅ ∅ ∅ ∅ ∅ ∅ ∅ ∅ ∅.

(** ** Replacing one table *)

Definition set_users m d := MkDb m (db_api_tokens d) (db_agents d) (db_credentials d) (db_projects d) (db_inventory_hosts d) (db_job_templates d) (db_schedules d) (db_workflows d) (db_workflow_nodes d) (db_workflow_edges d) (db_workflow_runs d) (db_jobs d) (db_job_status_events d) (db_job_logs d) (db_approval_requests d).
Definition set_api_tokens m d := MkDb (db_users d) m (db_agents d) (db_credentials d) (db_projects d) (db_inventory_hosts d) (db_job_templates d) (db_schedules d) (db_workflows d) (db_workflow_nodes d) (db_workflow_edges d) (db_workflow_runs d) (db_jobs d) (db_job_status_events d) (db_job_logs d) (db_approval_requests d).
Definition set_agents m d := MkDb (db_users d) (db_api_tokens d) m (db_credentials d) (db_projects d) (db_inventory_hosts d) (db_job_templates d) (db_schedules d) (db_workflows d) (db_workflow_nodes d) (db_workflow_edges d) (db_workflow_runs d) (db_jobs d) (db_job_status_events d) (db_job_logs d) (db_approval_requests d).
Definition set_credentials m d := MkDb (db_users d) (db_api_tokens d) (db_agents d) m (db_projects d) (db_inventory_hosts d) (db_job_templates d) (db_schedules d) (db_workflows d) (db_workflow_nodes d) (db_workflow_edges d) (db_workflow_runs d) (db_jobs d) (db_job_status_events d) (db_job_logs d) (db_approval_requests d).
Definition set_projects m d := MkDb (db_users d) (db_api_tokens d) (db_agents d) (db_credentials d) m (db_inventory_hosts d) (db_job_templates d) (db_schedules d) (db_workflows d) (db_workflow_nodes d) (db_workflow_edges d) (db_workflow_runs d) (db_jobs d) (db_job_status_events d) (db_job_logs d) (db_approval_requests d).
Definition set_inventory_hosts m d := MkDb (db_users d) (db_api_tokens d) (db_agents d) (db_credentials d) (db_projects d) m (db_job_templates d) (db_schedules d) (db_workflows d) (db_workflow_nodes d) (db_workflow_edges d) (db_workflow_runs d) (db_jobs d) (db_job_status_events d) (db_job_logs d) (db_approval_requests d).
Definition set_job_templates m d := MkDb (db_users d) (db_api_tokens d) (db_agents d) (db_credentials d) (db_projects d) (db_inventory_hosts d) m (db_schedules d) (db_workflows d) (db_workflow_nodes d) (db_workflow_edges d) (db_workflow_runs d) (db_jobs d) (db_job_status_events d) (db_job_logs d) (db_approval_requests d).
Definition set_schedules m d := MkDb (db_users d) (db_api_tokens d) (db_agents d) (db_credentials d) (db_projects d) (db_inventory_hosts d) (db_job_templates d) m (db_workflows d) (db_workflow_nodes d) (db_workflow_edges d) (db_workflow_runs d) (db_jobs d) (db_job_status_events d) (db_job_logs d) (db_approval_requests d).
Definition set_workflows m d := MkDb (db_users d) (db_api_tokens d) (db_agents d) (db_credentials d) (db_projects d) (db_inventory_hosts d) (db_job_templates d) (db_schedules d) m (db_workflow_nodes d) (db_workflow_edges d) (db_workflow_runs d) (db_jobs d) (db_job_status_events d) (db_job_logs d) (db_approval_requests d).
Definition set_workflow_nodes m d := MkDb (db_users d) (db_api_tokens d) (db_agents d) (db_credentials d) (db_projects d) (db_inventory_hosts d) (db_job_templates d) (db_schedules d) (db_workflows d) m (db_workflow_edges d) (db_workflow_runs d) (db_jobs d) (db_job_status_events d) (db_job_logs d) (db_approval_requests d).
Definition set_workflow_edges m d := MkDb (db_users d) (db_api_tokens d) (db_agents d) (db_credentials d) (db_projects d) (db_inventory_hosts d) (db_job_templates d) (db_schedules d) (db_workflows d) (db_workflow_nodes d) m (db_workflow_runs d) (db_jobs d) (db_job_status_events d) (db_job_logs d) (db_approval_requests d).
Definition set_workflow_runs m d := MkDb (db_users d) (db_api_tokens d) (db_agents d) (db_credentials d) (db_projects d) (db_inventory_hosts d) (db_job_templates d) (db_schedules d) (db_workflows d) (db_workflow_nodes d) (db_workflow_edges d) m (db_jobs d) (db_job_status_events d) (db_job_logs d) (db_approval_requests d).
Definition set_jobs m d := MkDb (db_users d) (db_api_tokens d) (db_agents d) (db_credentials d) (db_projects d) (db_inventory_hosts d) (db_job_templates d) (db_schedules d) (db_workflows d) (db_workflow_nodes d) (db_workflow_edges d) (db_workflow_runs d) m (db_job_status_events d) (db_job_logs d) (db_approval_requests d).
Definition set_job_status_events m d := MkDb (db_users d) (db_api_tokens d) (db_agents d) (db_credentials d) (db_projects d) (db_inventory_hosts d) (db_job_templates d) (db_schedules d) (db_workflows d) (db_workflow_nodes d) (db_workflow_edges d) (db_workflow_runs d) (db_jobs d) m (db_job_logs d) (db_approval_requests d).
Definition set_job_logs m d := MkDb (db_users d) (db_api_tokens d) (db_agents d) (db_credentials d) (db_projects d) (db_inventory_hosts d) (db_job_templates d) (db_schedules d) (db_workflows d) (db_workflow_nodes d) (db_workflow_edges d) (db_workflow_runs d) (db_jobs d) (db_job_status_events d) m (db_approval_requests d).
Definition set_approval_requests m d := MkDb (db_users d) (db_api_tokens d) (db_agents d) (db_credentials d) (db_projects d) (db_inventory_hosts d) (db_job_templates d) (db_schedules d) (db_workflows d) (db_workflow_nodes d) (db_workflow_edges d) (db_workflow_runs d) (db_jobs d) (db_job_status_events d) (db_job_logs d) m.

(** ** Statements *)

(** now(), the identifiers gen_random_uuid() returns within the statement, and
    the rows that FOR UPDATE SKIP LOCKED finds locked. *)
Record Tx := {
  tx_now : Time;
  tx_uuid : nat → uuid;
  tx_locked : gset uuid;
}.

Definition Stmt (X : Type) : Type := Tx → Db → result (X * Db).

(** A query that only reads. *)
Definition query {X} (f : Tx → Db → result X) : Stmt X := λ tx db,
  match f tx db with Ok x => Ok (x, db) | Err e => Err e end.

(** PostgreSQL rejects a statement that breaks a constraint. *)
Definition fk_violation : error := ErrText "violates foreign key constraint".
Definition unique_violation : error := ErrText "violates unique constraint".
Definition check_violation (ok : bool) (e : error) : result unit :=
  if ok then Ok () else Err e.

Lemma check_violation_Ok b e u : check_violation b e = Ok u ↔ b = true.
Proof. destruct b, u; simpl; naive_solver. Qed.

(** Turn the success of a chain of checks into its conditions. *)
Ltac inv_result H :=
  repeat first
    [ apply result_bind_Ok in H as (? & ?Hr & H)
    | apply map_err_Ok in H
    | apply check_violation_Ok in H ].

(** A nullable reference: NULL, or the key of a row of the table. *)
Definition fk_ok {V} (r : option uuid) (t : gmap uuid V) : bool :=
  match r with None => true | Some k => bool_decide (is_Some (t !! k)) end.

(** A [SELECT ... WHERE id = $1] read with QueryRow: pgx.ErrNoRows if no row. *)
Definition by_id {V} (t : gmap uuid V) (id : uuid) : result V :=
  match t !! id with Some v => Ok v | None => Err ErrNoRows end.

Lemma by_id_Ok {V} (t : gmap uuid V) id v : by_id t id = Ok v → t !! id = Some v.
Proof. unfold by_id. by destruct (t !! id) as [x|]; [intros [= ->]|]. Qed.

(** Rows are stored under their primary key. *)
Definition keyed {V} (id : V → uuid) (t : gmap uuid V) : Prop :=
  ∀ k v, t !! k = Some v → id v = k.

Lemma keyed_insert {V} (id : V → uuid) t k v : keyed id t → id v = k → keyed id (<[k := v]> t).
Proof. intros Ht <- k' v' [[<- <-]|[_ ?]]%lookup_insert_Some; [done|by apply Ht]. Qed.

(** github.com/jackc/pgx: whether a nil Go slice or map passed as a statement
    argument is sent as SQL NULL (then it breaks a NOT NULL column) or as the
    empty array or object. *)
Class PgxLib := { pgx_nil_is_null : bool }.

Definition not_null_violation : error := ErrText "violates not-null constraint".

(** ** Interactions *)

Inductive Ev : Type → Type :=
| Sql {X} (st : Stmt X) : Ev (result X)
| HttpPost (url : string) (body : option JobPayload) : Ev (result Z)
| HostStat (path : string) : Ev bool
| HostGit (dir : option string) (env args : list string) : Ev (result unit)
| HostReadFile (path : string) : Ev (result string)
| HostMkdirAll (path : string) : Ev (result unit)
| HostNow : Ev Time
| HostRand (n : nat) : Ev (result (list Byte.byte)).

(** What the environment decides about one interaction: the time since the
    previous one, whether the database refuses or the connection fails, the
    identifiers and locked rows of a statement; the outcome of an HTTP request
    (its status code); whether a path exists, the outcomes of git, of os.MkdirAll
    and of reading a file; the bytes of crypto/rand, of which as many as asked for are read. *)
Record Answer := {
  an_elapsed : N;
  an_fault : option error;
  an_uuid : nat → uuid;
  an_locked : gset uuid;
  an_http : result Z;
  an_exists : bool;
  an_exec : result unit;
  an_file : result string;
  an_rand : result (list Byte.byte);
}.

(** Nothing fails and no time passes. *)
Definition quiet_answer : Answer := {|
  an_elapsed := 0; an_fault := None; an_uuid := λ n, (N.of_nat n + 1)%N; an_locked := ∅;
  an_http := Ok 202%Z; an_exists := false; an_exec := Ok (); an_file := Ok EmptyString;
  an_rand := Err (ErrText "no random bytes") |}.

(** The shared world: the database, the clock, and the requests sent so far. *)
Record World := MkWorld {
  w_db : Db;
  w_now : Time;
  w_sent : list (string * option JobPayload);
}.

Definition answer_tx (a : Answer) (now : Time) : Tx :=
  {| tx_now := now; tx_uuid := an_uuid a; tx_locked := an_locked a |}.

Definition perform (X : Type) (a : Answer) (e : Ev X) (w : World) : X * World :=
  let now := (w_now w + Z.of_N (an_elapsed a))%Z in
  match e in Ev X return X * World with
  | Sql st =>
      match an_fault a with
      | Some err => (Err err, MkWorld (w_db w) now (w_sent w))
      | None =>
          match st (answer_tx a now) (w_db w) with
          | Ok (x, db') => (Ok x, MkWorld db' now (w_sent w))
          | Err err => (Err err, MkWorld (w_db w) now (w_sent w))
          end
      end
  | HttpPost url body => (an_http a, MkWorld (w_db w) now (w_sent w ++ [(url, body)]))
  | HostStat _ => (an_exists a, MkWorld (w_db w) now (w_sent w))
  | HostGit _ _ _ => (an_exec a, MkWorld (w_db w) now (w_sent w))
  | HostReadFile _ => (an_file a, MkWorld (w_db w) now (w_sent w))
  | HostMkdirAll _ => (an_exec a, MkWorld (w_db w) now (w_sent w))
  | HostNow => (now, MkWorld (w_db w) now (w_sent w))
  | HostRand n => (resize n Byte.x00 <$> an_rand a, MkWorld (w_db w) now (w_sent w))
  end.

(** Running one program alone, with the given answers and then quiet ones. *)
Definition exec {A} (p : prog Ev A) (ans : list Answer) (w : World) : A * (list Answer * World) :=
  run perform quiet_answer p ans w.

(** The answers of a stretch in which nothing fails. *)
Definition no_faults (ans : list Answer) : Prop :=
  Forall (λ a, an_fault a = None) ans.

Definition sql {X} (st : Stmt X) : prog Ev (result X) := trigger (Sql st).

(** ** Statements that respect a relation between databases *)

Definition stmt_respects {X} (R : relation Db) (st : Stmt X) : Prop :=
  ∀ tx db x db', st tx db = Ok (x, db') → R db db'.

Definition ev_respects (R : relation Db) (X : Type) (e : Ev X) : Prop :=
  match e with Sql st => stmt_respects R st | _ => True end.

Lemma query_respects {X} (R : relation Db) `{!Reflexive R} (f : Tx → Db → result X) :
  stmt_respects R (query f).
Proof. intros tx db x db' H. unfold query in H. case_match; by simplify_eq/=. Qed.

Lemma perform_respects (R : relation Db) `{!Reflexive R} X (a : Answer) (e : Ev X) w :
  ev_respects R X e → R (w_db w) (w_db (perform X a e w).2).
Proof.
  destruct e as [X st| | | | | | | ]; simpl; intros He; try reflexivity.
  destruct (an_fault a); [reflexivity|].
  destruct (st _ _) as [[x db']|err] eqn:Hst; simpl; [by eapply He|reflexivity].
Qed.

#[export] Hint Resolve query_respects : aop.
#[export] Hint Extern 1 (ev_respects _ _ (HttpPost _ _)) => exact I : aop.
#[export] Hint Extern 1 (ev_respects _ _ (HostStat _)) => exact I : aop.
#[export] Hint Extern 1 (ev_respects _ _ (HostGit _ _ _)) => exact I : aop.
#[export] Hint Extern 1 (ev_respects _ _ (HostReadFile _)) => exact I : aop.
#[export] Hint Extern 1 (ev_respects _ _ (HostMkdirAll _)) => exact I : aop.
#[export] Hint Extern 1 (ev_respects _ _ HostNow) => exact I : aop.
#[export] Hint Extern 1 (ev_respects _ _ (HostRand _)) => exact I : aop.
#[export] Hint Extern 2 (ev_respects _ _ (Sql _)) => simpl : aop.

(** A relation between databases, read on worlds. *)
Definition on_db (R : relation Db) : relation World := λ w w', R (w_db w) (w_db w').

#[export] Instance on_db_preorder R `{!PreOrder R} : PreOrder (on_db R).
Proof. split; [intros ?; red; reflexivity|intros ??? ??; red; by etransitivity]. Qed.

(** Unfold [sql] on the way to the statements of a program. *)
Ltac solve_stmts := repeat (progress (unfold sql; solve_events)).

(** The database relation [R] holds along every run. *)
Lemma exec_respects (R : relation Db) `{!PreOrder R} {A} (p : prog Ev A) ans w :
  all_events (ev_respects R) p → R (w_db w) (w_db (exec p ans w).2.2).
Proof.
  intros Hp. apply (run_respects _ _ (on_db R) (ev_respects R)); [|done].
  intros X a e w' He. by apply (perform_respects R).
Qed.
