(* ===== verification/Hoare.v ===== *)
(** * Triples for sequential runs

    [triple A P p Q]: run alone from a world satisfying [P], with answers all of
    which satisfy [A], the program [p] ends, with a result and a world related
    by [Q].  Programs are finite trees, so a triple is a statement of total
    correctness.  [faultless] restricts the answers to those in which no
    database interaction fails. *)
From S2P Require Import Prelude.
From S2P Require Import Prog.
From S2P Require Import Types.
From S2P Require Import Db.

Definition any_answer : Answer → Prop := λ _, True.
Definition faultless : Answer → Prop := λ a, an_fault a = None.

Definition triple {X} (A : Answer → Prop) (P : World → Prop) (p : prog Ev X)
    (Q : X → World → Prop) : Prop :=
  ∀ ans w, Forall A ans → P w →
    Forall A (exec p ans w).2.1 ∧ Q (exec p ans w).1 (exec p ans w).2.2.

Section rules.
Context (A : Answer → Prop) (Hquiet : A quiet_answer).

Lemma triple_ret {X} (P : World → Prop) (x : X) (Q : X → World → Prop) :
  (∀ w, P w → Q x w) → triple A P (mret x) Q.
Proof. intros H ans w Ha Hw. simpl. auto. Qed.

Lemma triple_bind {X Y} P (p : prog Ev X) R (f : X → prog Ev Y) Q :
  triple A P p R → (∀ x, triple A (R x) (f x) Q) → triple A P (p ≫= f) Q.
Proof.
  intros Hp Hf ans w Ha Hw. destruct (Hp ans w Ha Hw) as [Ha' HR].
  unfold exec in *. rewrite run_bind.
  destruct (run perform quiet_answer p ans w) as [x [ans' w']]. simpl in *. by apply Hf.
Qed.

Lemma triple_conseq {X} (P P' : World → Prop) (p : prog Ev X) (Q Q' : X → World → Prop) :
  triple A P p Q → (∀ w, P' w → P w) → (∀ x w, Q x w → Q' x w) → triple A P' p Q'.
Proof. intros Hp HP HQ ans w Ha Hw. destruct (Hp ans w Ha (HP w Hw)). auto. Qed.

Lemma triple_trigger {X} P (e : Ev X) (Q : X → World → Prop) :
  (∀ a w, A a → P w → Q (perform X a e w).1 (perform X a e w).2) →
  triple A P (trigger e) Q.
Proof.
  intros H ans w Ha Hw. unfold exec. simpl.
  assert (A (hd quiet_answer ans)) as Hh by (destruct Ha; done).
  specialize (H _ _ Hh Hw). destruct (perform _ _ _ _) as [x w']; simpl in *.
  split; [by destruct Ha|done].
Qed.

Lemma triple_for_each {X} (I : World → Prop) (xs : list X) (f : X → prog Ev unit) :
  (∀ x, x ∈ xs → triple A I (f x) (λ _, I)) → triple A I (for_each xs f) (λ _, I).
Proof.
  induction xs as [|x xs IH]; intros Hf; simpl; [by apply triple_ret|].
  eapply triple_bind; [apply Hf; by left|]. intros u. apply IH. intros y Hy. apply Hf. by right.
Qed.

(** A loop that visits every element: [I done w] after the elements of [done]. *)
Lemma triple_for_each_list {X} (I : list X → World → Prop) (xs : list X) (f : X → prog Ev unit) :
  (∀ pre x post, xs = pre ++ x :: post → triple A (I pre) (f x) (λ _, I (pre ++ [x]))) →
  triple A (I []) (for_each xs f) (λ _, I xs).
Proof.
  assert (∀ pre post, xs = pre ++ post →
    (∀ pre x post, xs = pre ++ x :: post → triple A (I pre) (f x) (λ _, I (pre ++ [x]))) →
    triple A (I pre) (for_each post f) (λ _, I xs)) as Hgen.
  { intros pre post. revert pre. induction post as [|x post IH]; intros pre Hxs Hf; simpl.
    - apply triple_ret. rewrite app_nil_r in Hxs. by subst.
    - eapply triple_bind; [by apply (Hf pre x post)|]. intros u.
      apply IH; [|done]. by rewrite <-app_assoc. }
  intros Hf. by apply (Hgen [] xs).
Qed.
End rules.

(** A statement that no fault prevents. *)
Lemma triple_sql {X} (P : World → Prop) (st : Stmt X) (Q : result X → World → Prop) :
  (∀ tx w, P w → (w_now w <= tx_now tx)%Z →
     match st tx (w_db w) with
     | Ok (x, db') => Q (Ok x) (MkWorld db' (tx_now tx) (w_sent w))
     | Err e => Q (Err e) (MkWorld (w_db w) (tx_now tx) (w_sent w))
     end) →
  triple faultless P (sql st) Q.
Proof.
  intros H. apply triple_trigger; [done|]. intros a w Ha Hw. simpl. rewrite Ha.
  specialize (H (answer_tx a (w_now w + Z.of_N (an_elapsed a))) w Hw).
  simpl in H. destruct (st _ _) as [[x db']|e]; apply H; lia.
Qed.

(** A statement under arbitrary answers: it may also fail without effect. *)
Lemma triple_sql_any {X} (P : World → Prop) (st : Stmt X) (Q : result X → World → Prop) :
  (∀ tx w, P w → (w_now w <= tx_now tx)%Z →
     (∀ e, Q (Err e) (MkWorld (w_db w) (tx_now tx) (w_sent w))) ∧
     ∀ x db', st tx (w_db w) = Ok (x, db') → Q (Ok x) (MkWorld db' (tx_now tx) (w_sent w))) →
  triple any_answer P (sql st) Q.
Proof.
  intros H. apply triple_trigger; [done|]. intros a w _ Hw. simpl.
  specialize (H (answer_tx a (w_now w + Z.of_N (an_elapsed a))) w Hw). simpl in H.
  destruct H as [He Hok]; [lia|]. destruct (an_fault a); [apply He|].
  destruct (st _ _) as [[x db']|e] eqn:Hst; [by apply Hok|apply He].
Qed.

Lemma faultless_quiet : faultless quiet_answer.
Proof. done. Qed.

Lemma any_quiet : any_answer quiet_answer.
Proof. done. Qed.

#[export] Hint Resolve faultless_quiet any_quiet triple_for_each : aop.

Lemma triple_wrap_err {X} (A : Answer → Prop) msg P (p : prog Ev (result X)) Q :
  triple A P p (λ r, Q (map_err (ErrWrap msg) r)) → triple A P (wrap_err msg p) Q.
Proof. intros Hp. eapply triple_bind; [done|]. intros r. by apply triple_ret. Qed.

Lemma exec_answers {X} (A : Answer → Prop) (p : prog Ev X) ans w :
  Forall A ans → Forall A (exec p ans w).2.1.
Proof.
  unfold exec. revert ans w. induction p as [x|Y e k IH]; simpl; intros ans w Ha; [done|].
  destruct (perform _ _ _ _) as [y w']. apply IH. by destruct Ha.
Qed.

Lemma triple_any_post {X} (A : Answer → Prop) P (p : prog Ev X) :
  triple A P p (λ _ _, True).
Proof. intros ans w Ha _. split; [by apply exec_answers|done]. Qed.

(** A sequence of programs. *)
Lemma exec_bind {A B} (p : prog Ev A) (f : A → prog Ev B) ans w :
  exec (p ≫= f) ans w = let '(a, (ans', w')) := exec p ans w in exec (f a) ans' w'.
Proof. apply run_bind. Qed.

Lemma exec_prog_bind {A B} (p : prog Ev A) (f : A → prog Ev B) ans w :
  exec (prog_bind f p) ans w = let '(a, (ans', w')) := exec p ans w in exec (f a) ans' w'.
Proof. apply run_bind. Qed.

(** A database relation as a postcondition. *)
Lemma triple_respects {X} (R : relation Db) `{!PreOrder R} (A : Answer → Prop) (p : prog Ev X) db0 :
  all_events (ev_respects R) p →
  triple A (λ w, R db0 (w_db w)) p (λ _ w, R db0 (w_db w)).
Proof.
  intros Hp ans w Ha Hw. split; [by apply exec_answers|].
  etransitivity; [exact Hw|]. by apply exec_respects.
Qed.

(** A program that only reads. *)
Lemma triple_reads {X} (A : Answer → Prop) (p : prog Ev X) db :
  all_events (ev_respects eq) p →
  triple A (λ w, w_db w = db) p (λ _ w, w_db w = db).
Proof.
  intros Hp ans w Ha Hw. split; [by apply exec_answers|]. rewrite <-Hw. symmetry.
  by apply (exec_respects eq).
Qed.

(** A program all of whose interactions keep [I] keeps [I]. *)
Definition keeps (I : Db → Prop) : relation Db := λ db db', I db → I db'.

#[export] Instance keeps_preorder I : PreOrder (keeps I).
Proof. split; [by intros ??|]. unfold keeps. naive_solver. Qed.

Lemma triple_keeps {X} (I : Db → Prop) (A : Answer → Prop) (p : prog Ev X) :
  all_events (ev_respects (keeps I)) p →
  triple A (λ w, I (w_db w)) p (λ _ w, I (w_db w)).
Proof.
  intros Hp ans w Ha Hw.
  destruct (triple_respects (keeps I) A p (w_db w) Hp ans w Ha) as [Ha' Hk]; [by intros ?|].
  split; [done|by apply Hk].
Qed.

Lemma ev_respects_impl (R R' : relation Db) X (e : Ev X) :
  (∀ db db', R db db' → R' db db') → ev_respects R X e → ev_respects R' X e.
Proof. destruct e; simpl; try done. unfold stmt_respects. eauto. Qed.

(** A query leaves the database as it is and returns its value. *)
Lemma triple_query {X} (f : Tx → Db → result X) db sent :
  triple faultless (λ w, w_db w = db ∧ w_sent w = sent) (sql (query f))
    (λ r w, (∃ tx, r = f tx db) ∧ w_db w = db ∧ w_sent w = sent).
Proof.
  apply triple_sql. intros tx w [<- <-] _. unfold query.
  destruct (f tx (w_db w)) eqn:?; eauto.
Qed.

(** The first statement of a program, run under the answer [a]. *)
Lemma exec_sql_bind {X Y} msg (st : Stmt X) (f : result X → prog Ev Y) a ans w x db' :
  an_fault a = None →
  st (answer_tx a (w_now w + Z.of_N (an_elapsed a))) (w_db w) = Ok (x, db') →
  exec (prog_bind f (wrap_err msg (sql st))) (a :: ans) w =
  exec (f (Ok x)) ans (MkWorld db' (w_now w + Z.of_N (an_elapsed a)) (w_sent w)).
Proof. intros Ha Hst. unfold exec. simpl. by rewrite Ha, Hst. Qed.

(** One statement of a program that runs without faults: it takes effect at some
    instant, and the rest of the program runs on its outcome. *)
Definition resume {X Y} (f : result X → prog Ev Y) (r : result (X * Db)) ans (now : Time) (w : World)
    : Y * (list Answer * World) :=
  match r with
  | Ok (x, db') => exec (f (Ok x)) ans (MkWorld db' now (w_sent w))
  | Err e => exec (f (Err e)) ans (MkWorld (w_db w) now (w_sent w))
  end.

Lemma exec_vis {X Y} (p : prog Ev Y) (st : Stmt X) (k : result X → prog Ev Y) ans w :
  p = Vis (Sql st) k → Forall faultless ans →
  ∃ tx ans', Forall faultless ans' ∧ (w_now w <= tx_now tx)%Z ∧
    exec p ans w = resume k (st tx (w_db w)) ans' (tx_now tx) w.
Proof.
  intros -> Ha. assert (faultless (hd quiet_answer ans)) as Hh by (by destruct Ha).
  exists (answer_tx (hd quiet_answer ans) (w_now w + Z.of_N (an_elapsed (hd quiet_answer ans)))), (tl ans).
  split; [by destruct Ha|]. split; [simpl; lia|].
  unfold exec, resume. simpl. rewrite Hh. by destruct (st _ _) as [[x db']|e].
Qed.

(** The same under arbitrary answers: a fault has no effect. *)
Lemma exec_vis_any {X Y} (p : prog Ev Y) (st : Stmt X) (k : result X → prog Ev Y) ans w :
  p = Vis (Sql st) k →
  ∃ tx ans' r, exec p ans w = resume k r ans' (tx_now tx) w ∧
    (r = st tx (w_db w) ∨ ∃ e, r = Err e).
Proof.
  intros ->.
  exists (answer_tx (hd quiet_answer ans) (w_now w + Z.of_N (an_elapsed (hd quiet_answer ans)))), (tl ans).
  unfold exec, resume. simpl. destruct (an_fault _) as [e|].
  - exists (Err e). eauto.
  - eexists. split; [|by left]. by destruct (st _ _) as [[x db']|e].
Qed.

(** Run the statement a program starts with. *)
Ltac run_sql H :=
  match type of H with
  | Forall faultless ?ans =>
      match goal with
      | |- context [exec ?p ans ?w] =>
          let tx := fresh "tx" in let ans' := fresh "ans" in
          let Ha := fresh "Ha" in let Hle := fresh "Hle" in let E := fresh "E" in
          destruct (exec_vis p _ _ ans w eq_refl H) as (tx & ans' & Ha & Hle & E);
          rewrite E; clear E; cbv beta delta [query resume] iota;
          cbn [w_db w_now w_sent] in *
      end
  end.
