(* ===== verification/ControllerStore.v ===== *)
(** * The controller's queries: controller/internal/store/store.go

    One [Stmt] per SQL text ([X_sql]) and one program per method.  The methods
    of Store return [(T, error)]; the error context of fmt.Errorf is kept. *)
From S2P Require Import Prelude.
From S2P Require Import Prog.
From S2P Require Import Types.
From S2P Require Import Db.

(** The zero time.Time, of struct fields a query does not scan. *)
Definition zero_Time : Time := (-62135596800000000000)%Z.

(** ** Jobs *)

Definition created_before (j1 j2 : Job) : Prop := (Job_CreatedAt j1 <= Job_CreatedAt j2)%Z.

#[export] Instance created_before_dec j1 j2 : Decision (created_before j1 j2).
Proof. unfold created_before. apply _. Defined.

#[export] Instance created_before_trans : Transitive created_before.
Proof. unfold created_before. intros ???. lia. Qed.

#[export] Instance created_before_total : Total created_before.
Proof. unfold created_before. intros ??. lia. Qed.

(** Rows that FOR UPDATE SKIP LOCKED returns: those no other session holds. *)
Definition unlocked (tx : Tx) (j : Job) : Prop := Job_ID j ∉ tx_locked tx.

Definition GetPendingJobs_sql : Stmt (list Job) := query (λ tx db,
  Ok (take 50 (merge_sort created_before
    (filter (λ j, Job_Status j = JobStatusPending ∧ unlocked tx j) (map_vals (db_jobs db)))))).

Definition GetPendingJobs : prog Ev (result (list Job)) :=
  wrap_err "get pending jobs" (sql GetPendingJobs_sql).

Definition GetStuckJobs_sql (status : JobStatus) (timeout : Duration) : Stmt (list Job) :=
  query (λ tx db,
  Ok (filter (λ j, Job_Status j = status ∧ (Job_UpdatedAt j < tx_now tx - timeout)%Z ∧ unlocked tx j)
             (map_vals (db_jobs db)))).

Definition GetStuckDispatchedJobs (timeout : Duration) : prog Ev (result (list Job)) :=
  wrap_err "get stuck dispatched jobs" (sql (GetStuckJobs_sql JobStatusDispatched timeout)).

Definition GetStuckRunningJobs (timeout : Duration) : prog Ev (result (list Job)) :=
  wrap_err "get stuck running jobs" (sql (GetStuckJobs_sql JobStatusRunning timeout)).

(** The SET clauses of the UPDATE in TransitionJob ([$2] to, [$3] agent, [$4] reason). *)
Definition transition_row (now : Time) (to : JobStatus) (agentID : option uuid)
    (reason : string) (j : Job) : Job := {|
  Job_ID := Job_ID j;
  Job_TemplateID := Job_TemplateID j;
  Job_AgentID := match agentID with Some a => Some a | None => Job_AgentID j end;
  Job_WorkflowRunID := Job_WorkflowRunID j;
  Job_Status := to;
  Job_CreatedAt := Job_CreatedAt j;
  Job_UpdatedAt := now;
  Job_StartedAt :=
    if bool_decide (to = JobStatusRunning) && bool_decide (Job_StartedAt j = None)
    then Some now else Job_StartedAt j;
  Job_EndedAt :=
    if bool_decide (to ∈ [JobStatusSuccess; JobStatusFailed; JobStatusCancelled])
    then Some now else Job_EndedAt j;
  Job_ExtraVars := Job_ExtraVars j;
  Job_Facts := Job_Facts j;
  Job_FailureReason :=
    if bool_decide (reason ≠ EmptyString) then Some reason else Job_FailureReason j;
|}.

(** The result is [tag.RowsAffected() == 1]. *)
Definition TransitionJob_sql (jobID : uuid) (fromStatus toStatus : JobStatus)
    (agentID : option uuid) (reason : string) : Stmt bool := λ tx db,
  match db_jobs db !! jobID with
  | Some j =>
      if decide (Job_Status j = fromStatus) then
        if fk_ok agentID (db_agents db) then
          Ok (true, set_jobs (<[jobID := transition_row (tx_now tx) toStatus agentID reason j]>
                                (db_jobs db)) db)
        else Err fk_violation
      else Ok (false, db)
  | None => Ok (false, db)
  end.

(** The row INSERT creates: the given columns and the defaults of the table. *)
Definition new_job (now : Time) (id templateID : uuid) (workflowRunID : option uuid)
    (extraVars : vars) : Job := {|
  Job_ID := id; Job_TemplateID := templateID; Job_AgentID := None;
  Job_WorkflowRunID := workflowRunID; Job_Status := JobStatusPending;
  Job_CreatedAt := now; Job_UpdatedAt := now; Job_StartedAt := None; Job_EndedAt := None;
  Job_ExtraVars := extraVars; Job_Facts := ∅; Job_FailureReason := None;
|}.

Definition insert_job_sql (templateID : uuid) (workflowRunID : option uuid)
    (extraVars : vars) : Stmt Job := λ tx db,
  let id := tx_uuid tx 0 in
  _ ← check_violation (fk_ok (Some templateID) (db_job_templates db)) fk_violation;
  _ ← check_violation (fk_ok workflowRunID (db_workflow_runs db)) fk_violation;
  _ ← check_violation (bool_decide (db_jobs db !! id = None)) unique_violation;
  let j := new_job (tx_now tx) id templateID workflowRunID extraVars in
  Ok (j, set_jobs (<[id := j]> (db_jobs db)) db).

(** [extraVars] is [None] for a nil map. *)
Definition CreateJob (templateID : uuid) (extraVars : option vars) : prog Ev (result Job) :=
  wrap_err "create job" (sql (insert_job_sql templateID None (default ∅ extraVars))).

Section store.
Context `{UuidLib}.

Definition TransitionJob (jobID : uuid) (fromStatus toStatus : JobStatus)
    (agentID : option uuid) (reason : string) : prog Ev (result bool) :=
  wrap_err ("transition job " +:+ uuid_String jobID +:+ " " +:+ fromStatus +:+ "→" +:+ toStatus)
    (sql (TransitionJob_sql jobID fromStatus toStatus agentID reason)).

(** ** Agents *)

(** COUNT(j.id) of the join with the jobs in flight on the agent. *)
Definition running_jobs (db : Db) (agent : uuid) : Z :=
  Z.of_nat (length (filter (λ j, Job_AgentID j = Some agent ∧
    Job_Status j ∈ [JobStatusDispatched; JobStatusRunning]) (map_vals (db_jobs db)))).

(** ORDER BY running_jobs ASC, last_heartbeat_at DESC. *)
Definition less_busy (a b : Agent) : Prop :=
  (Agent_RunningJobs a < Agent_RunningJobs b)%Z ∨
  (Agent_RunningJobs a = Agent_RunningJobs b ∧
   (default 0 (Agent_LastHeartbeatAt b) <= default 0 (Agent_LastHeartbeatAt a))%Z).

#[export] Instance less_busy_dec a b : Decision (less_busy a b).
Proof. unfold less_busy. apply _. Defined.

#[export] Instance less_busy_trans : Transitive less_busy.
Proof. unfold less_busy. intros ???. lia. Qed.

#[export] Instance less_busy_total : Total less_busy.
Proof. unfold less_busy. intros ??. lia. Qed.

(** The columns the query selects; the others keep their zero value. *)
Definition scanned_agent (db : Db) (r : AgentRow) : Agent :=
  let a := AgentRow_Agent r in {|
  Agent_ID := Agent_ID a; Agent_Name := Agent_Name a; Agent_Address := Agent_Address a;
  Agent_Status := Agent_Status a; Agent_Labels := Agent_Labels a;
  Agent_Capacity := Agent_Capacity a; Agent_RunningJobs := running_jobs db (Agent_ID a);
  Agent_LastHeartbeatAt := Agent_LastHeartbeatAt a;
  Agent_RegisteredAt := zero_Time; Agent_UpdatedAt := zero_Time |}.

(** [last_heartbeat_at > t]; NULL is not greater. *)
Definition heartbeat_after (t : Time) (a : Agent) : Prop :=
  match Agent_LastHeartbeatAt a with Some hb => (hb > t)%Z | None => False end.

#[export] Instance heartbeat_after_dec t a : Decision (heartbeat_after t a).
Proof. unfold heartbeat_after. destruct (Agent_LastHeartbeatAt a); apply _. Defined.

(** The WHERE and HAVING clauses. *)
Definition agent_available (now : Time) (ttl : Duration) (a : Agent) : Prop :=
  Agent_Status a = AgentStatusOnline ∧ heartbeat_after (now - ttl) a ∧
  (Agent_RunningJobs a < Agent_Capacity a)%Z.

#[export] Instance agent_available_dec now ttl a : Decision (agent_available now ttl a).
Proof. unfold agent_available. apply _. Defined.

Definition GetAvailableAgents_sql (ttl : Duration) : Stmt (list Agent) := query (λ tx db,
  Ok (merge_sort less_busy (filter (agent_available (tx_now tx) ttl)
    (scanned_agent db <$> map_vals (db_agents db))))).

Definition GetAvailableAgents (ttl : Duration) : prog Ev (result (list Agent)) :=
  wrap_err "get available agents" (sql (GetAvailableAgents_sql ttl)).

Definition GetAgentAddress (agentID : uuid) : prog Ev (result string) :=
  wrap_err ("get agent address " +:+ uuid_String agentID)
    (sql (query (λ _ db, r ← by_id (db_agents db) agentID;
                         Ok (Agent_Address (AgentRow_Agent r))))).

(** ** Job templates and projects *)

Definition GetJobTemplate (id : uuid) : prog Ev (result JobTemplate) :=
  wrap_err ("get job template " +:+ uuid_String id)
    (sql (query (λ _ db, by_id (db_job_templates db) id))).

Definition GetProject (id : uuid) : prog Ev (result Project) :=
  wrap_err ("get project " +:+ uuid_String id)
    (sql (query (λ _ db, by_id (db_projects db) id))).

Definition project_created_before (p1 p2 : Project) : Prop :=
  (Project_CreatedAt p1 <= Project_CreatedAt p2)%Z.

#[export] Instance project_created_before_dec p1 p2 : Decision (project_created_before p1 p2).
Proof. unfold project_created_before. apply _. Defined.

Definition GetAllProjects : prog Ev (result (list Project)) :=
  wrap_err "get all projects"
    (sql (query (λ _ db, Ok (merge_sort project_created_before (map_vals (db_projects db)))))).

Definition sync_status_row (now : Time) (status : InventorySyncStatus) (syncErr : option string)
    (p : Project) : Project := {|
  Project_ID := Project_ID p; Project_Name := Project_Name p; Project_RepoURL := Project_RepoURL p;
  Project_Branch := Project_Branch p; Project_InventoryPath := Project_InventoryPath p;
  Project_CredentialID := Project_CredentialID p; Project_SyncStatus := status;
  Project_LastSyncedAt := Some now; Project_SyncError := syncErr;
  Project_CreatedAt := Project_CreatedAt p; Project_UpdatedAt := now |}.

Definition UpdateProjectSyncStatus_sql (id : uuid) (status : InventorySyncStatus)
    (syncErr : option string) : Stmt unit := λ tx db,
  Ok ((), set_projects (alter (sync_status_row (tx_now tx) status syncErr) id (db_projects db)) db).

Definition UpdateProjectSyncStatus (id : uuid) (status : InventorySyncStatus)
    (syncErr : string) : prog Ev (result unit) :=
  let errPtr := if bool_decide (syncErr ≠ EmptyString) then Some syncErr else None in
  sql (UpdateProjectSyncStatus_sql id status errPtr).

(** ** Inventory *)

Definition GetInventoryHosts (projectID : uuid) : prog Ev (result (list InventoryHost)) :=
  wrap_err "get inventory hosts"
    (sql (query (λ _ db, Ok (filter (λ h, InventoryHost_ProjectID h = projectID)
                                    (map_vals (db_inventory_hosts db)))))).

(** The row INSERT INTO inventory_hosts creates. *)
Definition new_host (now : Time) (id projectID : uuid) (h : InventoryHost) : InventoryHost := {|
  InventoryHost_ID := id; InventoryHost_ProjectID := projectID;
  InventoryHost_Hostname := InventoryHost_Hostname h;
  InventoryHost_Groups := InventoryHost_Groups h; InventoryHost_Vars := InventoryHost_Vars h;
  InventoryHost_CreatedAt := now; InventoryHost_UpdatedAt := now |}.

Context `{PgxLib}.

(** The INSERTs of one transaction; the [n]-th takes the [n]-th identifier. *)
Fixpoint insert_hosts (tx : Tx) (projectID : uuid) (n : nat) (hosts : list InventoryHost)
    (db : Db) : result Db :=
  match hosts with
  | [] => Ok db
  | h :: hosts =>
      let id := tx_uuid tx n in
      db' ← map_err (ErrWrap ("insert host " +:+ InventoryHost_Hostname h))
        (_ ← check_violation (negb (pgx_nil_is_null && bool_decide (InventoryHost_Groups h = [])))
               not_null_violation;
         _ ← check_violation (fk_ok (Some projectID) (db_projects db)) fk_violation;
         _ ← check_violation (bool_decide (db_inventory_hosts db !! id = None)) unique_violation;
         Ok (set_inventory_hosts
               (<[id := new_host (tx_now tx) id projectID h]> (db_inventory_hosts db)) db));
      insert_hosts tx projectID (S n) hosts db'
  end.

(** One transaction: DELETE, the INSERTs, COMMIT; an error rolls it back. *)
Definition UpsertInventoryHosts_sql (projectID : uuid) (hosts : list InventoryHost) : Stmt unit :=
  λ tx db,
  db' ← insert_hosts tx projectID 0 hosts
    (set_inventory_hosts
       (filter (λ kv, InventoryHost_ProjectID kv.2 ≠ projectID) (db_inventory_hosts db)) db);
  Ok ((), db').

Definition UpsertInventoryHosts (projectID : uuid) (hosts : list InventoryHost)
    : prog Ev (result unit) :=
  sql (UpsertInventoryHosts_sql projectID hosts).

(** ** Credentials and schedules *)

Definition GetCredentialWithSecret (id : uuid) : prog Ev (result Credential) :=
  wrap_err ("get credential " +:+ uuid_String id)
    (sql (query (λ _ db, by_id (db_credentials db) id))).

Definition schedule_created_before (s1 s2 : Schedule) : Prop :=
  (Schedule_CreatedAt s1 <= Schedule_CreatedAt s2)%Z.

#[export] Instance schedule_created_before_dec s1 s2 : Decision (schedule_created_before s1 s2).
Proof. unfold schedule_created_before. apply _. Defined.

Definition GetActiveSchedules : prog Ev (result (list Schedule)) :=
  wrap_err "get active schedules"
    (sql (query (λ _ db, Ok (merge_sort schedule_created_before
            (filter (λ s, Schedule_Enabled s = true) (map_vals (db_schedules db))))))).

Definition last_run_row (now : Time) (nextRunAt : option Time) (s : Schedule) : Schedule := {|
  Schedule_ID := Schedule_ID s; Schedule_Name := Schedule_Name s;
  Schedule_TemplateID := Schedule_TemplateID s; Schedule_CronExpr := Schedule_CronExpr s;
  Schedule_Timezone := Schedule_Timezone s; Schedule_Enabled := Schedule_Enabled s;
  Schedule_ExtraVars := Schedule_ExtraVars s; Schedule_LastRunAt := Some now;
  Schedule_NextRunAt := nextRunAt; Schedule_CreatedAt := Schedule_CreatedAt s;
  Schedule_UpdatedAt := now |}.

Definition UpdateScheduleLastRun_sql (scheduleID : uuid) (nextRunAt : option Time) : Stmt unit :=
  λ tx db,
  Ok ((), set_schedules (alter (last_run_row (tx_now tx) nextRunAt) scheduleID (db_schedules db)) db).

Definition UpdateScheduleLastRun (scheduleID : uuid) (nextRunAt : option Time)
    : prog Ev (result unit) :=
  sql (UpdateScheduleLastRun_sql scheduleID nextRunAt).
End store.

(** ** Facts about the queries *)

(** GetPendingJobs is a FIFO queue: it returns at most 50 jobs, without
    repetition and oldest first, each pending, stored and not locked elsewhere;
    a pending unlocked job is left out only if 50 jobs, none created after it,
    are returned. *)
Lemma GetPendingJobs_fifo tx db l db' :
  keyed Job_ID (db_jobs db) →
  GetPendingJobs_sql tx db = Ok (l, db') →
  db' = db ∧ length l ≤ 50 ∧ NoDup l ∧ Sorted created_before l ∧
  (∀ j, j ∈ l → db_jobs db !! Job_ID j = Some j ∧ Job_Status j = JobStatusPending
                ∧ unlocked tx j) ∧
  (∀ k j, db_jobs db !! k = Some j → Job_Status j = JobStatusPending → unlocked tx j →
     j ∉ l → length l = 50 ∧ ∀ i, i ∈ l → created_before i j).
Proof.
  intros Hk Hq. unfold GetPendingJobs_sql, query in Hq. injection Hq as <- <-.
  set (all := merge_sort _ _).
  assert (∀ j, j ∈ all ↔ (∃ k, db_jobs db !! k = Some j) ∧ Job_Status j = JobStatusPending
                          ∧ unlocked tx j) as Hall.
  { intros j. unfold all. rewrite elem_of_merge_sort, list_elem_of_filter, elem_of_map_vals. naive_solver. }
  assert (NoDup all) as Hnd.
  { unfold all. rewrite merge_sort_Permutation. apply NoDup_filter.
    by apply (NoDup_map_vals Job_ID). }
  assert (Sorted created_before all) as Hs by apply Sorted_merge_sort, _.
  split_and!; try done.
  - rewrite length_take. lia.
  - rewrite <-(take_drop 50 all) in Hnd. by apply NoDup_app in Hnd as [? _].
  - by apply Sorted_take.
  - intros j Hj%elem_of_take_inv%Hall. destruct Hj as ([k Hj] & ? & ?). by rewrite (Hk _ _ Hj).
  - intros k j Hj Hp Hu Hn.
    assert (j ∈ drop 50 all) as Hd.
    { destruct (elem_of_take_or_drop j 50 all); [apply Hall; naive_solver|done|done]. }
    split; [by eapply length_take_drop_elem|].
    intros i Hi. by eapply (Sorted_take_drop created_before 50 all).
Qed.

Section facts.
Context `{UuidLib} `{PgxLib}.

(** GetAvailableAgents returns exactly the online agents whose heartbeat is
    fresher than the TTL and whose number of in-flight jobs is below their
    capacity, least busy first and most recent heartbeat first among equals. *)
Lemma GetAvailableAgents_spec ttl tx db l db' :
  GetAvailableAgents_sql ttl tx db = Ok (l, db') →
  db' = db ∧ Sorted less_busy l ∧
  ∀ a, a ∈ l ↔ ∃ k r, db_agents db !! k = Some r ∧ a = scanned_agent db r ∧
     Agent_Status a = AgentStatusOnline ∧
     (∃ hb, Agent_LastHeartbeatAt a = Some hb ∧ (hb > tx_now tx - ttl)%Z) ∧
     (running_jobs db (Agent_ID a) < Agent_Capacity a)%Z.
Proof.
  intros Hq. unfold GetAvailableAgents_sql, query in Hq. injection Hq as <- <-.
  split_and!; [done|apply Sorted_merge_sort, _|]. intros a.
  rewrite elem_of_merge_sort, list_elem_of_filter, list_elem_of_fmap.
  setoid_rewrite elem_of_map_vals. unfold agent_available, heartbeat_after. split.
  - intros [(Hs & Hh & Hc) (r & -> & k & Hr)]. exists k, r. split_and!; try done.
    case_match; naive_solver.
  - intros (k & r & Hr & -> & Hs & (hb & Hh & Hlt) & Hc). split; [|by eauto].
    by rewrite Hh.
Qed.

Lemma TransitionJob_sql_cases id from to agentID reason tx db :
  match TransitionJob_sql id from to agentID reason tx db with
  | Ok (true, db') =>
      ∃ j, db_jobs db !! id = Some j ∧ Job_Status j = from ∧
        fk_ok agentID (db_agents db) = true ∧
        db' = set_jobs (<[id := transition_row (tx_now tx) to agentID reason j]> (db_jobs db)) db
  | Ok (false, db') =>
      db' = db ∧ ∀ j, db_jobs db !! id = Some j → Job_Status j ≠ from
  | Err e => e = fk_violation ∧ fk_ok agentID (db_agents db) = false
  end.
Proof.
  unfold TransitionJob_sql. destruct (db_jobs db !! id) as [j|] eqn:Hj; [|naive_solver].
  case_decide; [|naive_solver]. destruct (fk_ok agentID (db_agents db)) eqn:?; naive_solver.
Qed.

(** TransitionJob is an atomic compare-and-set on the status: it reports
    true exactly when the job exists in the expected status (and the agent, if
    one is given, exists), and then only that row changes, to the new status
    with its timestamps; otherwise nothing changes. *)
Lemma TransitionJob_cas id from to agentID reason tx db :
  match TransitionJob_sql id from to agentID reason tx db with
  | Ok (true, db') =>
      ∃ j, db_jobs db !! id = Some j ∧ Job_Status j = from ∧
        fk_ok agentID (db_agents db) = true ∧
        db' = set_jobs (<[id := transition_row (tx_now tx) to agentID reason j]> (db_jobs db)) db
  | Ok (false, db') =>
      db' = db ∧ ∀ j, db_jobs db !! id = Some j → Job_Status j ≠ from
  | Err e => e = fk_violation ∧ fk_ok agentID (db_agents db) = false
  end.
Proof. apply TransitionJob_sql_cases. Qed.

(** The rows the INSERTs of [insert_hosts] create, with their keys. *)
Fixpoint host_rows (tx : Tx) (p : uuid) (n : nat) (hosts : list InventoryHost)
    : list (uuid * InventoryHost) :=
  match hosts with
  | [] => []
  | h :: hosts => (tx_uuid tx n, new_host (tx_now tx) (tx_uuid tx n) p h)
                  :: host_rows tx p (S n) hosts
  end.

Lemma insert_hosts_rows tx p n hosts db db' :
  insert_hosts tx p n hosts db = Ok db' →
  let rows := host_rows tx p n hosts in
  NoDup rows.*1 ∧ (list_to_map rows : gmap _ _) ##ₘ db_inventory_hosts db ∧
  db' = set_inventory_hosts (list_to_map rows ∪ db_inventory_hosts db) db.
Proof.
  revert n db. induction hosts as [|h hosts IH]; intros n db Hi; simpl in *.
  - simplify_eq. split_and!; [constructor|apply map_disjoint_empty_l|].
    rewrite (left_id_L ∅ (∪)). by destruct db'.
  - inv_result Hi. apply map_err_Ok in Hr. inv_result Hr. simplify_eq/=.
    apply check_violation_Ok, bool_decide_eq_true in Hr2 as Hfresh.
    destruct (IH _ _ Hi) as (Hnd & Hdisj & ->). simpl in *.
    apply map_disjoint_insert_r in Hdisj as [Hn Hdisj].
    split_and!.
    + constructor; [|done]. by apply not_elem_of_list_to_map.
    + by apply map_disjoint_insert_l.
    + unfold set_inventory_hosts; simpl. by rewrite <-insert_union_l, insert_union_r.
Qed.

(** What a host carries besides its identifier, project and timestamps. *)
Definition host_content (h : InventoryHost) : string * list string * vars :=
  (InventoryHost_Hostname h, InventoryHost_Groups h, InventoryHost_Vars h).

Lemma host_rows_content tx p n hosts :
  host_content <$> (host_rows tx p n hosts).*2 = host_content <$> hosts.
Proof. revert n. induction hosts as [|h hosts IH]; intros n; simpl; [done|]. by f_equal. Qed.

Lemma host_rows_project tx p n hosts :
  Forall (λ h, InventoryHost_ProjectID h = p) (host_rows tx p n hosts).*2.
Proof. revert n. induction hosts; intros n; simpl; by constructor. Qed.

(** UpsertInventoryHosts replaces the inventory of one project: when the
    transaction commits, the hosts stored for the project are, up to order and
    identifiers, exactly the given ones, and the hosts of every other project
    are unchanged. *)
Lemma UpsertInventoryHosts_replaces p hosts tx db db' :
  UpsertInventoryHosts_sql p hosts tx db = Ok ((), db') →
  host_content <$> filter (λ h, InventoryHost_ProjectID h = p) (map_vals (db_inventory_hosts db'))
    ≡ₚ host_content <$> hosts ∧
  (∀ k v, InventoryHost_ProjectID v ≠ p →
     db_inventory_hosts db' !! k = Some v ↔ db_inventory_hosts db !! k = Some v).
Proof.
  unfold UpsertInventoryHosts_sql. intros Hu.
  set (old := filter (λ kv, InventoryHost_ProjectID kv.2 ≠ p) (db_inventory_hosts db)) in *.
  destruct (insert_hosts _ _ _ _ _) as [db1|] eqn:Hi; simplify_eq/=.
  apply insert_hosts_rows in Hi as (Hnd & Hdisj & ->). simpl in *.
  split.
  - rewrite map_vals_union, map_vals_list_to_map, filter_app by done.
    rewrite filter_all by apply host_rows_project.
    rewrite filter_none, app_nil_r; [by rewrite host_rows_content|].
    apply Forall_forall. intros v [k Hv]%elem_of_map_vals.
    by apply map_lookup_filter_Some in Hv as [_ ?].
  - intros k v Hv. rewrite lookup_union_Some by done. split.
    + intros [Hk|Hk]; [|by apply map_lookup_filter_Some_1_1 in Hk].
      apply elem_of_list_to_map in Hk; [|done].
      pose proof (host_rows_project tx p 0 hosts) as Hp. rewrite Forall_forall in Hp.
      exfalso. apply Hv, Hp. apply list_elem_of_fmap. by exists (k, v).
    + intros Hk. right. by apply map_lookup_filter_Some.
Qed.
End facts.
