(* ===== verification/Columns.v ===== *)
(** * Reading rows: the scan functions of controller/internal/store/store.go

    [Db] keeps the rows of a table as the Go values of package types.  Here is
    what lies between: a row as the driver hands it over, with its jsonb columns
    as JSON, and the functions that fill a struct from it.  Reading what was
    written gives back the value, whatever the order in which the database keeps
    the members of an object, and a jsonb column never makes a read fail. *)
From S2P Require Import Prelude.
From S2P Require Import Types.
From S2P Require Import Db.
From S2P Require Import ControllerStore.

(** ** encoding/json on a jsonb column *)

(** A jsonb column is read as bytes: SQL NULL as none. *)
Abbreviation jsonb := (option json).

Definition unexpected_end : error := ErrText "unexpected end of JSON input".
Definition wrong_type : error := ErrText "json: cannot unmarshal value into Go value".

(** Of members with one name the last one counts. *)
Definition members (l : list (string * json)) : vars := foldl (λ m kv, <[kv.1 := kv.2]> m) ∅ l.

(** json.Unmarshal into a map[string]any that is nil; null leaves it nil, which
    is empty to all its readers. *)
Definition Unmarshal_vars (col : jsonb) : result vars :=
  match col with
  | None => Err unexpected_end
  | Some JNull => Ok ∅
  | Some (JObj l) => Ok (members l)
  | Some _ => Err wrong_type
  end.

Definition json_string (v : json) : option string := match v with JStr s => Some s | JNull => Some EmptyString | _ => None end.

(** Into a map[string]string: each member is a string, or null, which is kept as "". *)
Definition Unmarshal_labels (col : jsonb) : result (gmap string string) :=
  match Unmarshal_vars col with
  | Err err => Err err
  | Ok m => if decide (map_Forall (λ _ v, is_Some (json_string v)) m) then Ok (omap json_string m) else Err wrong_type
  end.

(** An error empties the map, and is dropped. *)
Definition or_empty {A} (r : result (gmap string A)) : gmap string A := match r with Ok m => m | Err _ => ∅ end.

Definition scan_vars (col : jsonb) : vars := or_empty (Unmarshal_vars col).
Definition scan_labels (col : jsonb) : gmap string string := or_empty (Unmarshal_labels col).

(** ** Rows *)

(** The columns of a SELECT from jobs. *)
Record JobRow := {
  job_id : uuid;
  job_template_id : uuid;
  job_agent_id : option uuid;
  job_workflow_run_id : option uuid;
  job_status : JobStatus;
  job_extra_vars : jsonb;
  job_facts : jsonb;
  job_failure_reason : option string;
  job_created_at : Time;
  job_updated_at : Time;
  job_started_at : option Time;
  job_ended_at : option Time;
}.

Definition job_of_row (r : JobRow) : Job := {|
  Job_ID := job_id r; Job_TemplateID := job_template_id r; Job_AgentID := job_agent_id r;
  Job_WorkflowRunID := job_workflow_run_id r; Job_Status := job_status r;
  Job_CreatedAt := job_created_at r; Job_UpdatedAt := job_updated_at r;
  Job_StartedAt := job_started_at r; Job_EndedAt := job_ended_at r;
  Job_ExtraVars := scan_vars (job_extra_vars r); Job_Facts := scan_vars (job_facts r);
  Job_FailureReason := job_failure_reason r |}.

(** [row] is what the driver hands over, or the error of Scan. *)
Definition scanJob (row : result JobRow) : result Job :=
  match row with Err err => Err (ErrWrap "scan job" err) | Ok r => Ok (job_of_row r) end.

Definition scanJobRow (row : result JobRow) : result Job :=
  match row with Err err => Err (ErrWrap "scan job" err) | Ok r => Ok (job_of_row r) end.

(** The rows that rows.Next reaches, and rows.Err after them. *)
Fixpoint scanJobs (rows : list (result JobRow)) (rows_Err : option error) : result (list Job) :=
  match rows with
  | [] => match rows_Err with Some err => Err err | None => Ok [] end
  | row :: rows => j ← scanJobRow row; jobs ← scanJobs rows rows_Err; Ok (j :: jobs)
  end.

(** ** Reading what was written *)

(** The column holds the map: an object with its members in some order; a nil map
    is written as null. *)
Definition stored_as (m : vars) (col : jsonb) : Prop :=
  (∃ l, l ≡ₚ map_to_list m ∧ col = Some (JObj l)) ∨ (m = ∅ ∧ col = Some JNull).

Lemma members_reverse l : members l = list_to_map (reverse l).
Proof.
  unfold members. induction l as [|[k v] l IH] using rev_ind; [done|].
  rewrite foldl_app, reverse_snoc. cbn. by rewrite IH.
Qed.

Lemma members_perm m l : l ≡ₚ map_to_list m → members l = m.
Proof.
  intros Hl. rewrite members_reverse. symmetry. apply list_to_map_flip. by rewrite reverse_Permutation.
Qed.

Lemma Unmarshal_stored m col : stored_as m col → Unmarshal_vars col = Ok m.
Proof. intros [(l & Hl & ->)|[-> ->]]; [cbn; f_equal; by apply members_perm|done]. Qed.

Lemma scan_stored m col : stored_as m col → scan_vars col = m.
Proof. intros Hm. unfold scan_vars. by rewrite (Unmarshal_stored m). Qed.

Lemma scan_labels_stored m col : stored_as (JStr <$> m) col → scan_labels col = m.
Proof.
  intros Hm. unfold scan_labels, Unmarshal_labels. rewrite (Unmarshal_stored _ _ Hm). cbn.
  rewrite decide_True.
  - cbn. apply map_eq. intros k. rewrite lookup_omap, lookup_fmap. by destruct (m !! k).
  - intros k v. rewrite lookup_fmap. destruct (m !! k); cbn; [|done]. intros [= <-]. by eexists.
Qed.

(** The row is of the job: the two columns hold its maps, the others its fields. *)
Record row_of (r : JobRow) (j : Job) : Prop := {
  row_vars : stored_as (Job_ExtraVars j) (job_extra_vars r);
  row_facts : stored_as (Job_Facts j) (job_facts r);
  row_fields : ∃ v f, r = {|
    job_id := Job_ID j; job_template_id := Job_TemplateID j; job_agent_id := Job_AgentID j;
    job_workflow_run_id := Job_WorkflowRunID j; job_status := Job_Status j; job_extra_vars := v; job_facts := f;
    job_failure_reason := Job_FailureReason j; job_created_at := Job_CreatedAt j; job_updated_at := Job_UpdatedAt j;
    job_started_at := Job_StartedAt j; job_ended_at := Job_EndedAt j |};
}.

Lemma job_of_row_of r j : row_of r j → job_of_row r = j.
Proof.
  intros [Hv Hf (v & f & ->)]. cbn in Hv, Hf. unfold job_of_row. cbn.
  rewrite (scan_stored _ _ Hv), (scan_stored _ _ Hf). by destruct j.
Qed.

Lemma scanJobs_Ok rows rows_Err jobs :
  scanJobs rows rows_Err = Ok jobs ↔ rows_Err = None ∧ ∃ rs, rows = Ok <$> rs ∧ jobs = job_of_row <$> rs.
Proof.
  revert jobs. induction rows as [|[r|e] rows IH]; intros jobs; cbn.
  - destruct rows_Err as [e|]; split; [done|by intros [? _]| |].
    + intros [= <-]. split; [done|]. by exists [].
    + intros (_ & rs & Hrs & ->). by destruct rs.
  - destruct (scanJobs rows rows_Err) as [jobs'|e] eqn:E; cbn.
    + destruct (proj1 (IH jobs') eq_refl) as (-> & rs & -> & ->). split.
      * intros [= <-]. split; [done|]. by exists (r :: rs).
      * intros (_ & rs' & Hrs & ->). destruct rs' as [|r' rs']; [done|]. cbn in Hrs. injection Hrs as -> Hrs.
        apply list_fmap_eq_inj in Hrs as ->; [done|]. by intros ?? [= ->].
    + split; [done|]. intros (-> & rs' & Hrs & ->). destruct rs' as [|r' rs']; [done|]. cbn in Hrs. injection Hrs as -> ->.
      specialize (IH (job_of_row <$> rs')). destruct IH as [_ IH]. discriminate IH. split; [done|]. by exists rs'.
  - split; [done|]. intros (_ & rs & Hrs & _). by destruct rs.
Qed.

(** The rows of a query on jobs are read as the jobs: in their order, however the
    database keeps the members of their maps; and a read fails only because the
    driver fails, never because of what a jsonb column holds, and returns no job
    when it fails. *)
Lemma scanJobs_reads :
  (∀ rows jobs, Forall2 row_of rows jobs → scanJobs (Ok <$> rows) None = Ok jobs) ∧
  (∀ rows rows_Err, (∃ jobs, scanJobs rows rows_Err = Ok jobs) ↔ rows_Err = None ∧ ∃ rs, rows = Ok <$> rs) ∧
  ∀ r j, row_of r j → scanJob (Ok r) = Ok j.
Proof.
  split_and!.
  - intros rows jobs Hr. apply scanJobs_Ok. split; [done|]. exists rows. split; [done|].
    induction Hr as [|r j rows jobs Hr _ IH]; [done|]. cbn. by rewrite (job_of_row_of r j Hr), <-IH.
  - intros rows rows_Err. split.
    + intros (jobs & (-> & rs & -> & _)%scanJobs_Ok). eauto.
    + intros (-> & rs & ->). exists (job_of_row <$> rs). apply scanJobs_Ok. eauto.
  - intros r j Hr. cbn. by rewrite (job_of_row_of r j).
Qed.
