(* ===== verification/Lifecycle.v ===== *)
(** * The abstract life cycle of jobs

    What the whole system promises about a job, as a preorder between databases:
    every statement the code issues is shown, in the file of its component, to
    respect [db_evolves].  Phases order the statuses: pending, dispatched,
    running, terminal. *)
From S2P Require Import Prelude.
From S2P Require Import Prog.
From S2P Require Import Types.
From S2P Require Import Db.
From S2P Require Import ControllerStore.

Definition phase (s : JobStatus) : nat :=
  if IsTerminal s then 3
  else if decide (s = JobStatusRunning) then 2
  else if decide (s = JobStatusDispatched) then 1 else 0.

(** The status changes that can happen: forward to dispatched or to a terminal
    status, or from a terminal status to another one. *)
Definition status_evolves (s s' : JobStatus) : Prop :=
  s' = s ∨ (s' ≠ JobStatusRunning ∧ phase s < phase s') ∨ (phase s = 3 ∧ phase s' = 3).

(** How the row of one job can change. *)
Record job_evolves (j j' : Job) : Prop := {
  evolves_ID : Job_ID j' = Job_ID j;
  evolves_TemplateID : Job_TemplateID j' = Job_TemplateID j;
  evolves_WorkflowRunID : Job_WorkflowRunID j' = Job_WorkflowRunID j;
  evolves_CreatedAt : Job_CreatedAt j' = Job_CreatedAt j;
  evolves_ExtraVars : Job_ExtraVars j' = Job_ExtraVars j;
  evolves_StartedAt : Job_StartedAt j' = Job_StartedAt j;
  evolves_status : status_evolves (Job_Status j) (Job_Status j');
  (** the agent is fixed once the job has left pending *)
  evolves_AgentID : phase (Job_Status j) ≠ 0 → Job_AgentID j' = Job_AgentID j;
  evolves_EndedAt : is_Some (Job_EndedAt j) → is_Some (Job_EndedAt j');
}.

(** Jobs are never deleted, change as [job_evolves], and start out pending. *)
Definition db_evolves (db db' : Db) : Prop :=
  ∀ id, match db_jobs db !! id with
        | Some j => ∃ j', db_jobs db' !! id = Some j' ∧ job_evolves j j'
        | None => ∀ j', db_jobs db' !! id = Some j' →
            ∃ j0, Job_Status j0 = JobStatusPending ∧ Job_AgentID j0 = None ∧
                  Job_StartedAt j0 = None ∧ Job_EndedAt j0 = None ∧ Job_ID j0 = id ∧
                  job_evolves j0 j'
        end.

(** ** Phases *)

Lemma phase_terminal s : phase s = 3 ↔ IsTerminal s = true.
Proof. unfold phase. destruct (IsTerminal s); [done|]. repeat case_decide; split; done. Qed.

Lemma phase_pending : phase JobStatusPending = 0.
Proof. done. Qed.

Lemma phase_running s : phase s = 2 ↔ s = JobStatusRunning.
Proof.
  unfold phase. destruct (IsTerminal s) eqn:Ht.
  - split; [done|]. intros ->. done.
  - repeat case_decide; naive_solver.
Qed.

Lemma phase_dispatched s : phase s = 1 ↔ s = JobStatusDispatched.
Proof.
  unfold phase. destruct (IsTerminal s) eqn:Ht.
  - split; [done|]. intros ->. done.
  - repeat case_decide; subst; naive_solver.
Qed.

Lemma phase_bound s : phase s ≤ 3.
Proof. unfold phase. case_match; repeat case_decide; lia. Qed.

#[export] Instance status_evolves_preorder : PreOrder status_evolves.
Proof.
  split; [by left|]. intros a b c. pose proof (phase_bound c). unfold status_evolves.
  intros [->|[[??]|[??]]] [->|[[??]|[??]]]; eauto; try lia; right; left; split; try done; try lia.
  intros ->. by assert (phase JobStatusRunning = 2) by done; lia.
Qed.

Lemma status_evolves_phase s s' : status_evolves s s' → phase s ≤ phase s'.
Proof. intros [->|[[??]|[??]]]; lia. Qed.

#[export] Instance job_evolves_preorder : PreOrder job_evolves.
Proof.
  split.
  - intros j. by split.
  - intros a b c [] []. split; try congruence; try naive_solver.
    + by etransitivity.
    + intros Hp. rewrite evolves_AgentID1, evolves_AgentID0; try done.
      apply status_evolves_phase in evolves_status0. lia.
Qed.

#[export] Instance db_evolves_preorder : PreOrder db_evolves.
Proof.
  split.
  - intros db id. destruct (db_jobs db !! id) as [j|]; [by exists j|done].
  - intros a b c Hab Hbc id. specialize (Hab id). specialize (Hbc id).
    destruct (db_jobs a !! id) as [ja|].
    + destruct Hab as (jb & Hb & ?). rewrite Hb in Hbc. destruct Hbc as (jc & ? & ?).
      exists jc. split; [done|]. by etransitivity.
    + destruct (db_jobs b !! id) as [jb|].
      * destruct Hbc as (jc & Hc & ?). intros j' Hj'. simplify_eq.
        destruct (Hab jb eq_refl) as (j0 & ? & ? & ? & ? & ? & ?).
        exists j0. split_and!; try done. by etransitivity.
      * done.
Qed.

(** ** Statements that respect the life cycle *)

(** The jobs table is not written. *)
Definition same_jobs (db db' : Db) : Prop := db_jobs db' = db_jobs db.

#[export] Instance same_jobs_preorder : PreOrder same_jobs.
Proof. split; [done|]. unfold same_jobs. congruence. Qed.

Lemma same_jobs_evolves db db' : same_jobs db db' → db_evolves db db'.
Proof. intros Hs id. rewrite Hs. destruct (db_jobs db !! id) as [j|]; [by exists j|done]. Qed.

Lemma stmt_respects_impl {X} (R R' : relation Db) (st : Stmt X) :
  (∀ db db', R db db' → R' db db') → stmt_respects R st → stmt_respects R' st.
Proof. unfold stmt_respects. eauto. Qed.

(** Changing one row as [job_evolves] allows. *)
Lemma db_evolves_update db id j j' :
  db_jobs db !! id = Some j → job_evolves j j' →
  db_evolves db (set_jobs (<[id := j']> (db_jobs db)) db).
Proof.
  intros Hj He id'. simpl. destruct (decide (id = id')) as [<-|Hne].
  - rewrite Hj, lookup_insert_eq. by exists j'.
  - rewrite lookup_insert_ne by done.
    destruct (db_jobs db !! id') as [i|]; [by exists i|done].
Qed.

Lemma transition_row_evolves now to agentID reason j :
  status_evolves (Job_Status j) to → to ≠ JobStatusRunning →
  (agentID = None ∨ phase (Job_Status j) = 0) →
  job_evolves j (transition_row now to agentID reason j).
Proof.
  intros Hs Hr Ha. split; simpl; try done.
  - by rewrite bool_decide_eq_false_2.
  - destruct Ha as [->|Hp]; [done|]. lia.
  - case_bool_decide; eauto.
Qed.

Lemma TransitionJob_evolves id from to agentID reason :
  status_evolves from to → to ≠ JobStatusRunning → (agentID = None ∨ phase from = 0) →
  stmt_respects db_evolves (TransitionJob_sql id from to agentID reason).
Proof.
  intros Hs Hr Ha tx db b db' H. pose proof (TransitionJob_sql_cases id from to agentID reason tx db) as Hc.
  rewrite H in Hc. destruct b.
  - destruct Hc as (j & Hj & <- & _ & ->). apply db_evolves_update with j; [done|].
    by apply transition_row_evolves.
  - by destruct Hc as [-> _].
Qed.

Lemma claim_evolves id agent reason :
  stmt_respects db_evolves
    (TransitionJob_sql id JobStatusPending JobStatusDispatched (Some agent) reason).
Proof. apply TransitionJob_evolves; [right; left; split; [done|vm_compute; lia]|done|by right]. Qed.

Lemma fail_evolves id from reason :
  from ∈ [JobStatusPending; JobStatusDispatched; JobStatusRunning] →
  stmt_respects db_evolves (TransitionJob_sql id from JobStatusFailed None reason).
Proof.
  intros Hf. apply TransitionJob_evolves; [|done|by left]. right; left. split; [done|].
  rewrite !elem_of_cons, elem_of_nil in Hf. destruct Hf as [->|[->|[->|[]]]]; vm_compute; lia.
Qed.

Lemma insert_job_evolves templateID run v : stmt_respects db_evolves (insert_job_sql templateID run v).
Proof.
  intros tx db j db' H. unfold insert_job_sql in H. inv_result H.
  apply check_violation_Ok, bool_decide_eq_true in Hr1. simplify_eq.
  intros id'. simpl. destruct (decide (tx_uuid tx 0 = id')) as [<-|Hne].
  - rewrite Hr1, lookup_insert_eq. intros j' [= <-].
    eexists. split_and!; [..|reflexivity]; done.
  - rewrite lookup_insert_ne by done. destruct (db_jobs db !! id') as [i|]; [by exists i|done].
Qed.

#[export] Hint Resolve insert_job_evolves : aop.

(** ** Consequences *)

Lemma evolves_not_pending db db' id j :
  db_evolves db db' → db_jobs db !! id = Some j → Job_Status j ≠ JobStatusPending →
  ∃ j', db_jobs db' !! id = Some j' ∧ job_evolves j j' ∧ Job_Status j' ≠ JobStatusPending.
Proof.
  intros He Hj Hp. specialize (He id). rewrite Hj in He. destruct He as (j' & Hj' & Hev).
  exists j'. split_and!; try done. intros Hp'.
  destruct (evolves_status _ _ Hev) as [Heq|[[_ Hlt]|[_ Heq]]].
  - congruence.
  - rewrite Hp', phase_pending in Hlt. lia.
  - by rewrite Hp' in Heq.
Qed.
