(* ===== verification/Selector.v ===== *)
(** * Agent selection: pkg/transport (AgentSelector), controller/selector *)
From S2P Require Import Prelude.
From S2P Require Import Prog.
From S2P Require Import Types.
From S2P Require Import Db.
From S2P Require Import ControllerStore.

(** The interface transport.AgentSelector. *)
Class AgentSelector := { Select : list Agent → result Agent }.

(** What the dispatch loop relies on: a member of the slice is chosen, and the
    only failure is on the empty slice. *)
Class AgentSelectorLaws `{AgentSelector} := {
  Select_elem : ∀ l a, Select l = Ok a → a ∈ l;
  Select_nil : ∃ e, Select [] = Err e;
  Select_total : ∀ a l, ∃ b, Select (a :: l) = Ok b;
}.

(** The loop body of LeastBusySelector.Select: whether [a] replaces [best]. *)
Definition replaces (a best : Agent) : bool :=
  if bool_decide (Agent_RunningJobs a < Agent_RunningJobs best)%Z then true
  else if bool_decide (Agent_RunningJobs a = Agent_RunningJobs best) then
    match Agent_LastHeartbeatAt a with
    | None => false
    | Some ha =>
        match Agent_LastHeartbeatAt best with
        | None => true
        | Some hb => bool_decide (hb < ha)%Z
        end
    end
  else false.

Fixpoint select_loop (best : Agent) (l : list Agent) : Agent :=
  match l with
  | [] => best
  | a :: l => select_loop (if replaces a best then a else best) l
  end.

Definition LeastBusy_Select (available : list Agent) : result Agent :=
  match available with
  | [] => Err (ErrText "no agents available")
  | a :: l => Ok (select_loop a l)
  end.

#[export] Instance LeastBusySelector : AgentSelector := {| Select := LeastBusy_Select |}.

(** ** [replaces] is a strict weak order *)

Lemma replaces_irrefl a : replaces a a = false.
Proof. unfold replaces. repeat case_bool_decide; repeat case_match; simplify_eq; try case_bool_decide; try done; lia. Qed.

Lemma replaces_trans a b c : replaces a b = true → replaces b c = true → replaces a c = true.
Proof.
  unfold replaces. destruct (Agent_LastHeartbeatAt a), (Agent_LastHeartbeatAt b), (Agent_LastHeartbeatAt c);
    repeat case_bool_decide; try done; lia.
Qed.

Lemma replaces_negtrans a b c : replaces a b = false → replaces b c = false → replaces a c = false.
Proof.
  unfold replaces. destruct (Agent_LastHeartbeatAt a), (Agent_LastHeartbeatAt b), (Agent_LastHeartbeatAt c);
    repeat case_bool_decide; try done; lia.
Qed.

Lemma replaces_asym a b : replaces a b = true → replaces b a = false.
Proof.
  intros Hab. apply not_true_iff_false. intros Hba.
  pose proof (replaces_trans a b a Hab Hba) as Haa. by rewrite replaces_irrefl in Haa.
Qed.

Lemma select_loop_spec best l :
  (select_loop best l = best ∧ ∀ x, x ∈ l → replaces x best = false) ∨
  ∃ l1 l2, l = l1 ++ select_loop best l :: l2 ∧
    replaces (select_loop best l) best = true ∧
    (∀ x, x ∈ l1 → replaces (select_loop best l) x = true) ∧
    (∀ x, x ∈ l2 → replaces x (select_loop best l) = false).
Proof.
  revert best. induction l as [|a l IH]; intros best; simpl; [left; set_solver|].
  destruct (replaces a best) eqn:Hab.
  - right. destruct (IH a) as [[-> Hl]|(l1 & l2 & Hl & Hr & H1 & H2)].
    + exists [], l. split_and!; try done. set_solver.
    + exists (a :: l1), l2. split_and!; [by rewrite Hl at 1|by eapply replaces_trans| |done].
      intros x [->|?]%elem_of_cons; auto.
  - destruct (IH best) as [[-> Hl]|(l1 & l2 & Hl & Hr & H1 & H2)].
    + left. split; [done|]. intros x [->|?]%elem_of_cons; auto.
    + right. exists (a :: l1), l2. split_and!; [by rewrite Hl at 1|done| |done].
      intros x [->|?]%elem_of_cons; [|auto].
      apply not_false_iff_true. intros Hf.
      by rewrite (replaces_negtrans _ a best) in Hr.
Qed.

Lemma LeastBusy_Select_cases l :
  match LeastBusy_Select l with
  | Err e => l = [] ∧ e = ErrText "no agents available"
  | Ok b => ∃ l1 l2, l = l1 ++ b :: l2 ∧
      (∀ x, x ∈ l1 → replaces b x = true) ∧ (∀ x, x ∈ l2 → replaces x b = false)
  end.
Proof.
  destruct l as [|a l]; simpl; [done|].
  destruct (select_loop_spec a l) as [[-> Hl]|(l1 & l2 & Hl & Hr & H1 & H2)].
  - exists [], l. split_and!; [done|set_solver|done].
  - exists (a :: l1), l2. split_and!; [by rewrite Hl at 1| |done].
    intros x [->|?]%elem_of_cons; auto.
Qed.

#[export] Instance LeastBusySelector_laws : AgentSelectorLaws.
Proof.
  split.
  - intros l a Hs. pose proof (LeastBusy_Select_cases l) as H.
    simpl in Hs. rewrite Hs in H. destruct H as (l1 & l2 & -> & _). set_solver.
  - by eexists.
  - intros a l. by eexists.
Qed.

Lemma select_loop_keep best l : (∀ x, x ∈ l → replaces x best = false) → select_loop best l = best.
Proof.
  intros Hl. induction l as [|a l IH]; simpl; [done|].
  rewrite (Hl a) by set_solver. apply IH. set_solver.
Qed.

(** The first of the best: it is preferred to every agent before it, and no agent
    after it is preferred to it. *)
Definition first_best (l : list Agent) (b : Agent) : Prop :=
  ∃ l1 l2, l = l1 ++ b :: l2 ∧
    (∀ x, x ∈ l1 → replaces b x = true) ∧ (∀ x, x ∈ l2 → replaces x b = false).

Lemma first_best_no_later l1 l2 b1 k1 k2 b2 :
  l1 ++ b1 :: l2 = k1 ++ b2 :: k2 →
  (∀ x, x ∈ l2 → replaces x b1 = false) → (∀ x, x ∈ k1 → replaces b2 x = true) → length k1 ≤ length l1.
Proof.
  intros E H2 H1. destruct (decide (length k1 ≤ length l1)) as [|Hlt]; [done|]. exfalso.
  assert (k1 !! length l1 = Some b1) as Hb1.
  { rewrite <-(lookup_app_l k1 (b2 :: k2)) by lia. rewrite <-E. by apply list_lookup_middle. }
  assert ((l1 ++ b1 :: l2) !! length k1 = Some b2) as Hb2 by (rewrite E; by apply list_lookup_middle).
  rewrite lookup_app_r, lookup_cons_ne_0 in Hb2 by lia.
  apply list_elem_of_lookup_2 in Hb1, Hb2. pose proof (H2 _ Hb2). by rewrite (H1 _ Hb1) in *.
Qed.

Lemma first_best_unique l b1 b2 : first_best l b1 → first_best l b2 → b1 = b2.
Proof.
  intros (l1 & l2 & -> & Hl1 & Hl2) (k1 & k2 & E & Hk1 & Hk2).
  assert (length l1 = length k1) as Hlen by (apply Nat.le_antisymm; eapply first_best_no_later; eauto).
  apply app_inj_1 in E as [_ [= ->]]; done.
Qed.

Lemma Select_iff_first_best l b : LeastBusy_Select l = Ok b ↔ first_best l b.
Proof.
  pose proof (LeastBusy_Select_cases l) as Hc. destruct (LeastBusy_Select l) as [b'|e].
  - split; [by intros [= <-]|]. intros Hb. f_equal. by apply (first_best_unique l).
  - split; [done|]. destruct Hc as [-> _]. intros (l1 & l2 & E & _). by destruct l1.
Qed.

Lemma Select_head `{UuidLib} ttl tx db a l db' :
  GetAvailableAgents_sql ttl tx db = Ok (a :: l, db') → LeastBusy_Select (a :: l) = Ok a.
Proof.
  intros Hq. unfold GetAvailableAgents_sql, query in Hq. injection Hq as Hl <-.
  simpl. f_equal. apply select_loop_keep.
  assert (Sorted less_busy (a :: l)) as Hs by (rewrite <-Hl; apply Sorted_merge_sort, _).
  apply Sorted_StronglySorted in Hs; [|apply _].
  apply StronglySorted_inv in Hs as [_ Hs]. rewrite Forall_forall in Hs.
  assert (∀ x, x ∈ a :: l → is_Some (Agent_LastHeartbeatAt x)) as Hhb.
  { intros x. rewrite <-Hl, elem_of_merge_sort, list_elem_of_filter.
    intros [(_ & Hh & _) _]. unfold heartbeat_after in Hh. by case_match. }
  intros x Hx. destruct (Hhb a) as [ha Ha]; [set_solver|].
  destruct (Hhb x) as [hx Hx']; [set_solver|].
  specialize (Hs x Hx). unfold less_busy, replaces in *. rewrite Ha, Hx' in *. simpl in Hs.
  repeat case_bool_decide; try done; lia.
Qed.

(** C36: LeastBusySelector.Select is equivalent to its specification: it picks the
    first of the best agents of the slice, where fewer running jobs are better and,
    among as many, a more recent heartbeat, and it fails on the empty slice only;
    and the query orders the agents as the selector prefers them, so that what the
    loop selects is the first row of GetAvailableAgents. *)
Theorem Select_equivalence `{UuidLib} l :
  (∀ b, LeastBusy_Select l = Ok b ↔ first_best l b) ∧
  ((∃ e, LeastBusy_Select l = Err e) ↔ l = []) ∧
  ∀ ttl tx db db' a l', l = a :: l' → GetAvailableAgents_sql ttl tx db = Ok (l, db') → LeastBusy_Select l = Ok a.
Proof.
  split_and!.
  - intros b. apply Select_iff_first_best.
  - destruct l as [|a l]; split; try done; [by eexists|by intros [e ?]].
  - intros ttl tx db db' a l' -> Hq. by eapply Select_head.
Qed.
