(* ===== verification/Transport.v ===== *)
(** * Dispatch over HTTP: pkg/transport (AgentTransport), controller/transport *)
From stdpp Require Import pretty.
From S2P Require Import Prelude.
From S2P Require Import Prog.
From S2P Require Import Types.
From S2P Require Import Db.
From S2P Require Import ControllerStore.

(** Whether net/url accepts a string as a request URL. *)
Class NetLib := { url_valid : string → bool }.

(** The interface transport.AgentTransport. *)
Class AgentTransport := {
  Dispatch : uuid → JobPayload → prog Ev (result unit);
  Cancel : uuid → uuid → prog Ev (result unit);
}.

Section rest.
Context `{UuidLib} `{NetLib}.

(** http.NewRequestWithContext and http.Client.Do of one POST. *)
Definition post (op url : string) (body : option JobPayload) : prog Ev (result Z) :=
  if url_valid url then
    wrap_err (op +:+ ": post to agent") (trigger (HttpPost url body))
  else mret (Err (ErrWrap (op +:+ ": build request") (ErrText "invalid URL"))).

Definition REST_Dispatch (agentID : uuid) (payload : JobPayload) : prog Ev (result unit) :=
  try addr <- wrap_err "dispatch: resolve agent address" (GetAgentAddress agentID)
    catch err => mret (Err err) ;;
  try status <- post "dispatch" (addr +:+ "/dispatch") (Some payload)
    catch err => mret (Err err) ;;
  if bool_decide (status ≠ StatusAccepted)
  then mret (Err (ErrText ("dispatch: agent returned " +:+ pretty status)))
  else mret (Ok ()).

Definition REST_Cancel (agentID jobID : uuid) : prog Ev (result unit) :=
  try addr <- wrap_err "cancel: resolve agent address" (GetAgentAddress agentID)
    catch err => mret (Err err) ;;
  try status <- post "cancel" (addr +:+ "/jobs/" +:+ uuid_String jobID +:+ "/cancel") None
    catch err => mret (Err err) ;;
  if bool_decide (status ≠ StatusAccepted) && bool_decide (status ≠ StatusNotFound)
  then mret (Err (ErrText ("cancel: agent returned " +:+ pretty status)))
  else mret (Ok ()).

#[export] Instance RESTTransport : AgentTransport :=
  {| Dispatch := REST_Dispatch; Cancel := REST_Cancel |}.
End rest.
