(* ===== verification/Secrets.v ===== *)
(** * Credential encryption: api/internal/secrets, controller/internal/secrets

    The API server encrypts the secret fields of a credential; the controller
    (and the API server) decrypt them.  AES-GCM and the JSON encoding are
    parameters with their documented laws. *)
From S2P Require Import Prelude.
From S2P Require Import Prog.
From S2P Require Import Types.
From S2P Require Import Db.
From S2P Require Import ControllerStore.

Abbreviation bytes := (list Byte.byte).

(** crypto/cipher: the AEAD of an AES key, its Seal and Open. *)
Class CryptoLib := {
  gcm_Seal : bytes → bytes → bytes → bytes;        (* key, nonce, plaintext *)
  gcm_Open : bytes → bytes → bytes → option bytes; (* key, nonce, ciphertext *)
}.

(** encoding/json on the type map[string]string; [None] is the nil map. *)
Class FieldsJson := {
  json_Marshal_fields : option (gmap string string) → bytes;
  json_Unmarshal_fields : bytes → result (gmap string string);
}.

Class CryptoLaws `{CryptoLib} `{FieldsJson} := {
  gcm_Open_Seal : ∀ k n p, gcm_Open k n (gcm_Seal k n p) = Some p;
  json_Unmarshal_Marshal : ∀ m, json_Unmarshal_fields (json_Marshal_fields m) = Ok (default ∅ m);
}.

(** The interface types.SecretsProvider, used by the controller. *)
Class SecretsProvider := { Resolve : uuid → prog Ev (result CredentialSecret) }.

Definition NonceSize : nat := 12.

(** aes.NewCipher followed by cipher.NewGCM: only the key size can be wrong. *)
Definition NewGCM (key : bytes) : result unit :=
  if bool_decide (length key ∈ [16; 24; 32]) then Ok ()
  else Err (ErrText "crypto/aes: invalid key size").

Section crypto.
Context `{CryptoLib} `{FieldsJson} `{UuidLib}.

(** api/internal/secrets: Encrypt; [nonce] is what rand.Reader yields. *)
Definition Encrypt (nonce : result bytes) (key plaintext : bytes) : result bytes :=
  _ ← NewGCM key;
  n ← nonce;
  Ok (n ++ gcm_Seal key n plaintext).

(** decrypt, the same code in both packages. *)
Definition decrypt (key ciphertext : bytes) : result bytes :=
  _ ← NewGCM key;
  if bool_decide (length ciphertext < NonceSize) then Err (ErrText "ciphertext too short")
  else
    let nonce := take NonceSize ciphertext in
    let data := drop NonceSize ciphertext in
    match gcm_Open key nonce data with
    | Some p => Ok p
    | None => Err (ErrText "cipher: message authentication failed")
    end.

(** What both Resolve methods do with the stored credential. *)
Definition open_credential (key : bytes) (unmarshal_msg : string) (id : uuid) (cred : Credential)
    : result CredentialSecret :=
  plaintext ← map_err (ErrWrap ("credential " +:+ uuid_String id +:+ ": decrypt"))
                (decrypt key (Credential_EncryptedData cred));
  fields ← map_err (ErrWrap ("credential " +:+ uuid_String id +:+ unmarshal_msg))
             (json_Unmarshal_fields plaintext);
  Ok {| CredentialSecret_Kind := Credential_Kind cred; CredentialSecret_Fields := fields |}.

(** controller/internal/secrets: Provider.Resolve *)
Definition controller_Resolve (key : bytes) (credentialID : uuid)
    : prog Ev (result CredentialSecret) :=
  if bool_decide (length key = 0)
  then mret (Err (ErrText "AOP_ENCRYPTION_KEY is not set; cannot decrypt credentials"))
  else
  try cred <- wrap_err ("credential " +:+ uuid_String credentialID)
                (GetCredentialWithSecret credentialID)
    catch err => mret (Err err) ;;
  mret (open_credential key ": unmarshal fields" credentialID cred).

End crypto.

(** secrets.NewProvider of the controller. *)
#[export] Instance controller_SecretsProvider `{CryptoLib} `{FieldsJson} `{UuidLib} key : SecretsProvider :=
  {| Resolve := controller_Resolve key |}.

Section facts.
Context `{CryptoLib} `{FieldsJson} `{UuidLib}.

(** ** Facts *)

Lemma Encrypt_Ok nonce key p blob :
  Encrypt nonce key p = Ok blob →
  ∃ n, nonce = Ok n ∧ NewGCM key = Ok () ∧ blob = n ++ gcm_Seal key n p.
Proof.
  unfold Encrypt. intros Hb. apply result_bind_Ok in Hb as ([] & Hk & Hb).
  apply result_bind_Ok in Hb as (n & Hn & Hb). naive_solver.
Qed.

Lemma decrypt_Encrypt `{!CryptoLaws} nonce key p :
  (∀ n, nonce = Ok n → length n = NonceSize) →
  match Encrypt nonce key p with
  | Ok blob => decrypt key blob = Ok p
  | Err e => length key ∉ [16; 24; 32] ∨ nonce = Err e
  end.
Proof.
  intros Hn. destruct (Encrypt nonce key p) as [blob|e] eqn:He.
  - apply Encrypt_Ok in He as (n & Hnonce & Hk & ->). specialize (Hn n Hnonce).
    unfold decrypt. rewrite Hk. simpl.
    rewrite bool_decide_eq_false_2 by (rewrite length_app; lia).
    rewrite take_app_length', drop_app_length' by done. by rewrite gcm_Open_Seal.
  - unfold Encrypt, NewGCM in He. case_bool_decide; simpl in He; [|by left].
    destruct nonce; naive_solver.
Qed.

(** What the API server encrypts, the controller decrypts: with a 12-byte
    nonce, decrypting the output of Encrypt under the same key gives the
    plaintext back; and Encrypt fails only on a key that is not 16, 24 or 32
    bytes long or when the random source fails. *)
Lemma Encrypt_decrypt_roundtrip `{!CryptoLaws} nonce key p :
  (∀ n, nonce = Ok n → length n = NonceSize) →
  match Encrypt nonce key p with
  | Ok blob => decrypt key blob = Ok p
  | Err e => length key ∉ [16; 24; 32] ∨ nonce = Err e
  end.
Proof. apply decrypt_Encrypt. Qed.

(** A credential stored by the API server is resolved by the controller to
    the fields and kind it was created with. *)
Lemma stored_credential_resolves `{!CryptoLaws} nonce key fields cred id blob msg :
  (∀ n, nonce = Ok n → length n = NonceSize) →
  Encrypt nonce key (json_Marshal_fields fields) = Ok blob →
  Credential_EncryptedData cred = blob →
  open_credential key msg id cred =
    Ok {| CredentialSecret_Kind := Credential_Kind cred;
          CredentialSecret_Fields := default ∅ fields |}.
Proof.
  intros Hn He Hc. pose proof (decrypt_Encrypt nonce key (json_Marshal_fields fields) Hn) as Hr.
  rewrite He in Hr. unfold open_credential. rewrite Hc, Hr. simpl.
  by rewrite json_Unmarshal_Marshal.
Qed.
End facts.
