(* ===== verification/Reconciler.v ===== *)
(** * The dispatch loop: controller/internal/reconciler/reconciler.go *)
From S2P Require Import Prelude.
From S2P Require Import Prog.
From S2P Require Import Types.
From S2P Require Import Db.
From S2P Require Import ControllerStore.
From S2P Require Import Selector.
From S2P Require Import Transport.
From S2P Require Import Secrets.
From S2P Require Import Hoare.

(** The interface jobStore. *)
Class JobStore := {
  store_GetPendingJobs : prog Ev (result (list Job));
  store_GetStuckDispatchedJobs : Duration → prog Ev (result (list Job));
  store_GetStuckRunningJobs : Duration → prog Ev (result (list Job));
  store_TransitionJob :
    uuid → JobStatus → JobStatus → option uuid → string → prog Ev (result bool);
  store_GetAvailableAgents : Duration → prog Ev (result (list Agent));
  store_GetJobTemplate : uuid → prog Ev (result JobTemplate);
  store_GetProject : uuid → prog Ev (result Project);
  store_GetInventoryHosts : uuid → prog Ev (result (list InventoryHost));
}.

(** controller/internal/store implements it. *)
#[export] Instance pg_JobStore `{UuidLib} : JobStore := {|
  store_GetPendingJobs := GetPendingJobs;
  store_GetStuckDispatchedJobs := GetStuckDispatchedJobs;
  store_GetStuckRunningJobs := GetStuckRunningJobs;
  store_TransitionJob := TransitionJob;
  store_GetAvailableAgents := GetAvailableAgents;
  store_GetJobTemplate := GetJobTemplate;
  store_GetProject := GetProject;
  store_GetInventoryHosts := GetInventoryHosts;
|}.

Record Config := {
  Config_APIURL : string;
  Config_HeartbeatTTL : Duration;
  Config_DispatchTimeout : Duration;
  Config_RunningTimeout : Duration;
}.

Section reconciler.
Context `{JobStore} `{SecretsProvider} `{AgentSelector} `{AgentTransport} (cfg : Config).

(** [for k, v := range m { acc[k] = v }] *)
Definition copy_vars (acc m : vars) : vars := map_fold (λ k v acc, <[k := v]> acc) acc m.

Definition buildPayload (job : Job) (agentID : uuid) : prog Ev (result JobPayload) :=
  try tmpl <- store_GetJobTemplate (Job_TemplateID job)
    catch err => mret (Err (ErrWrap "get template" err)) ;;
  try project <- store_GetProject (JobTemplate_ProjectID tmpl)
    catch err => mret (Err (ErrWrap "get project" err)) ;;
  try hosts <- store_GetInventoryHosts (JobTemplate_ProjectID tmpl)
    catch err => mret (Err (ErrWrap "get inventory" err)) ;;
  let extraVars := copy_vars (copy_vars ∅ (JobTemplate_DefaultExtraVars tmpl)) (Job_ExtraVars job) in
  try creds <-
    match JobTemplate_CredentialID tmpl with
    | None => mret (Ok [])
    | Some c =>
        try secret <- Resolve c
          catch err => mret (Err (ErrWrap "resolve credential" err)) ;;
        mret (Ok [secret])
    end
    catch err => mret (Err err) ;;
  mret (Ok {|
    JobPayload_JobID := Job_ID job;
    JobPayload_TemplateID := Job_TemplateID job;
    JobPayload_Playbook := JobTemplate_Playbook tmpl;
    JobPayload_Inventory := hosts;
    JobPayload_ExtraVars := extraVars;
    JobPayload_Credentials := creds;
    JobPayload_CallbackURL := Config_APIURL cfg;
    JobPayload_RepoURL := Project_RepoURL project;
    JobPayload_RepoBranch := Project_Branch project |}).

Definition dispatchOne (job : Job) (agents : list Agent) : prog Ev (result unit) :=
  match Select agents with
  | Err err => mret (Err (ErrWrap "agent selection" err))
  | Ok agent =>
  try payload <- buildPayload job (Agent_ID agent)
    catch err => mret (Err (ErrWrap "build payload" err)) ;;
  try ok <- store_TransitionJob (Job_ID job) JobStatusPending JobStatusDispatched
              (Some (Agent_ID agent)) EmptyString
    catch err => mret (Err (ErrWrap "mark dispatched" err)) ;;
  if negb ok then mret (Ok ()) else
  try _ <- Dispatch (Agent_ID agent) payload
    catch err =>
      (try _ <- store_TransitionJob (Job_ID job) JobStatusDispatched JobStatusFailed None
                 ("agent dispatch error: " +:+ Error err)
         catch terr => mret (Err terr) ;;
       mret (Ok ())) ;;
  mret (Ok ())
  end.

(** The loop body of dispatchPending. *)
Definition dispatch_or_fail (agents : list Agent) (job : Job) : prog Ev unit :=
  try _ <- dispatchOne job agents
    catch err =>
      (_ ← store_TransitionJob (Job_ID job) JobStatusPending JobStatusFailed None
             ("dispatch error: " +:+ Error err);
       mret ()) ;;
  mret ().

Definition dispatchPending : prog Ev unit :=
  try jobs <- store_GetPendingJobs catch _ => mret () ;;
  if decide (jobs = []) then mret () else
  try agents <- store_GetAvailableAgents (Config_HeartbeatTTL cfg) catch _ => mret () ;;
  for_each jobs (dispatch_or_fail agents).

Definition failStuckJobs (status : JobStatus) (timeout : Duration) (reason : string)
    : prog Ev unit :=
  try jobs <-
    (if bool_decide (status = JobStatusDispatched) then store_GetStuckDispatchedJobs timeout
     else if bool_decide (status = JobStatusRunning) then store_GetStuckRunningJobs timeout
     else mret (Ok []))
    catch _ => mret () ;;
  for_each jobs (λ job,
    _ ← store_TransitionJob (Job_ID job) status JobStatusFailed None reason; mret ()).

Definition failStuck : prog Ev unit :=
  _ ← failStuckJobs JobStatusDispatched (Config_DispatchTimeout cfg)
        "dispatch timeout: agent never reported running";
  failStuckJobs JobStatusRunning (Config_RunningTimeout cfg)
        "running timeout: agent stopped reporting".

Definition tick : prog Ev unit := _ ← dispatchPending; failStuck.
End reconciler.
