(* ===== verification/ReconcilerFacts.v ===== *)
(** * Correctness of the dispatch loop *)
From S2P Require Import Prelude.
From S2P Require Import Prog.
From S2P Require Import Types.
From S2P Require Import Db.
From S2P Require Import ControllerStore.
From S2P Require Import Selector.
From S2P Require Import Transport.
From S2P Require Import Secrets.
From S2P Require Import Hoare.
From S2P Require Import Lifecycle.
From S2P Require Import Reconciler.

(** ** What the loop relies on *)

(** Resolving a credential and dispatching do not write to the database. *)
Class SecretsLaws `{SecretsProvider} := {
  Resolve_reads : ∀ id, all_events (ev_respects eq) (Resolve id);
}.

Class TransportLaws `{AgentTransport} := {
  Dispatch_reads : ∀ a p, all_events (ev_respects eq) (Dispatch a p);
}.

Lemma query_reads {X} (f : Tx → Db → result X) : ev_respects eq _ (Sql (query f)).
Proof. simpl. apply query_respects. apply _. Qed.
#[export] Hint Resolve query_reads : aop.

#[export] Instance RESTTransport_laws `{UuidLib} `{NetLib} : TransportLaws.
Proof. split. intros a p. unfold Dispatch, RESTTransport, REST_Dispatch, GetAgentAddress, post. solve_stmts. Qed.

#[export] Instance controller_secrets_laws `{CryptoLib} `{FieldsJson} `{UuidLib} key :
  @SecretsLaws (controller_SecretsProvider key).
Proof. split. intros id. unfold Resolve, controller_SecretsProvider, controller_Resolve, GetCredentialWithSecret. solve_stmts. Qed.

(** Programs that only read respect every reflexive relation. *)
Lemma reads_respect {X} (R : relation Db) `{!Reflexive R} (p : prog Ev X) :
  all_events (ev_respects eq) p → all_events (ev_respects R) p.
Proof. apply all_events_impl. intros Y e. apply ev_respects_impl. by intros ?? <-. Qed.

Section facts.
Context `{UuidLib}.
Context `{SecretsProvider} `{!SecretsLaws} `{AgentSelector} `{AgentTransport} `{!TransportLaws}.
Context (cfg : Config).

Lemma buildPayload_reads job a : all_events (ev_respects eq) (buildPayload cfg job a).
Proof.
  unfold buildPayload, store_GetJobTemplate, store_GetProject, store_GetInventoryHosts, pg_JobStore,
    GetJobTemplate, GetProject, GetInventoryHosts.
  solve_stmts. apply Resolve_reads.
Qed.

(** ** The life cycle is respected *)

Lemma TransitionJob_events (R : relation Db) id from to a reason :
  stmt_respects R (TransitionJob_sql id from to a reason) →
  all_events (ev_respects R) (TransitionJob id from to a reason).
Proof. intros. unfold TransitionJob. by solve_stmts. Qed.

Lemma dispatchOne_events (R : relation Db) `{!Reflexive R} job agents :
  (∀ id a r, Select agents = Ok a →
     stmt_respects R (TransitionJob_sql id JobStatusPending JobStatusDispatched (Some (Agent_ID a)) r)) →
  (∀ id r, stmt_respects R (TransitionJob_sql id JobStatusDispatched JobStatusFailed None r)) →
  all_events (ev_respects R) (dispatchOne cfg job agents).
Proof.
  intros Hclaim Hrevert. unfold dispatchOne, store_TransitionJob, pg_JobStore.
  destruct (Select agents) as [agent|]; [specialize (λ id r, Hclaim id agent r eq_refl) as Hclaim'|done].
  solve_events; try (by apply TransitionJob_events);
    [apply reads_respect, buildPayload_reads|apply reads_respect, Dispatch_reads]; apply _.
Qed.

Lemma dispatch_or_fail_events (R : relation Db) `{!Reflexive R} agents job :
  (∀ id a r, Select agents = Ok a →
     stmt_respects R (TransitionJob_sql id JobStatusPending JobStatusDispatched (Some (Agent_ID a)) r)) →
  (∀ id r, stmt_respects R (TransitionJob_sql id JobStatusDispatched JobStatusFailed None r)) →
  (∀ id r, stmt_respects R (TransitionJob_sql id JobStatusPending JobStatusFailed None r)) →
  all_events (ev_respects R) (dispatch_or_fail cfg agents job).
Proof.
  intros Hclaim Hrevert Hfail. unfold dispatch_or_fail, store_TransitionJob, pg_JobStore.
  solve_events; first [by apply dispatchOne_events | by apply TransitionJob_events].
Qed.

Lemma failStuckJobs_events (R : relation Db) `{!Reflexive R} status timeout reason :
  (∀ id r, stmt_respects R (TransitionJob_sql id status JobStatusFailed None r)) →
  all_events (ev_respects R) (failStuckJobs status timeout reason).
Proof.
  intros HR. unfold failStuckJobs, store_GetStuckDispatchedJobs, store_GetStuckRunningJobs,
    store_TransitionJob, pg_JobStore, GetStuckDispatchedJobs, GetStuckRunningJobs, GetStuckJobs_sql.
  solve_stmts; by apply TransitionJob_events.
Qed.

(** The transitions of a tick. *)
Definition transitions_respect (R : relation Db) : Prop :=
  (∀ id a r, stmt_respects R (TransitionJob_sql id JobStatusPending JobStatusDispatched (Some a) r)) ∧
  (∀ id from r, from ∈ [JobStatusPending; JobStatusDispatched; JobStatusRunning] →
     stmt_respects R (TransitionJob_sql id from JobStatusFailed None r)).

Lemma dispatchPending_events (R : relation Db) `{!Reflexive R} :
  transitions_respect R → all_events (ev_respects R) (dispatchPending cfg).
Proof.
  intros [Hclaim Hfail]. unfold dispatchPending, store_GetPendingJobs, store_GetAvailableAgents, pg_JobStore,
    GetPendingJobs, GetPendingJobs_sql, GetAvailableAgents, GetAvailableAgents_sql.
  solve_stmts. apply dispatch_or_fail_events; try done; intros; apply Hfail; set_solver.
Qed.

Lemma failStuck_events (R : relation Db) `{!Reflexive R} :
  transitions_respect R → all_events (ev_respects R) (failStuck cfg).
Proof.
  intros [_ Hfail]. apply all_events_bind; [|intros _];
    (apply failStuckJobs_events; [done|]; intros id r; apply Hfail; set_solver).
Qed.

Lemma tick_events (R : relation Db) `{!Reflexive R} :
  transitions_respect R → all_events (ev_respects R) (tick cfg).
Proof. intros HR. apply all_events_bind; [|intros _]; [by apply dispatchPending_events|by apply failStuck_events]. Qed.

(** ** Draining the queue *)

(** The job [id], if it exists, is not pending. *)
Definition not_pending (id : uuid) (db : Db) : Prop :=
  ∀ j, db_jobs db !! id = Some j → Job_Status j ≠ JobStatusPending.

Lemma TransitionJob_not_pending id id' from to a r :
  to ≠ JobStatusPending →
  stmt_respects (keeps (not_pending id)) (TransitionJob_sql id' from to a r).
Proof.
  intros Hto tx db b db' Ht Hnp. pose proof (TransitionJob_sql_cases id' from to a r tx db) as Hc.
  rewrite Ht in Hc. destruct b; [|by destruct Hc as [-> _]].
  destruct Hc as (j & Hj & _ & _ & ->). intros i. simpl.
  intros [[<- <-]|[_ Hi]]%lookup_insert_Some; [done|by apply Hnp].
Qed.

(** However it ends without an error, a transition from pending leaves the job
    not pending. *)
Lemma TransitionJob_leaves_pending id to a r P :
  to ≠ JobStatusPending →
  triple faultless P (TransitionJob id JobStatusPending to a r)
    (λ res w, (a = None ∨ is_Ok res) → not_pending id (w_db w)).
Proof.
  intros Hto. apply triple_wrap_err, triple_sql. intros tx w _ _.
  pose proof (TransitionJob_sql_cases id JobStatusPending to a r tx (w_db w)) as Hc.
  destruct (TransitionJob_sql _ _ _ _ _ _ _) as [[[] db']|e]; simpl.
  - destruct Hc as (j & Hj & _ & _ & ->). intros _ i. simpl. rewrite lookup_insert_eq.
    by intros [= <-].
  - destruct Hc as [-> Hc]. intros _ j Hj Hp. by apply (Hc j).
  - destruct Hc as [_ Hfk]. intros [->|[? ?]]; done.
Qed.

Lemma dispatchOne_leaves_pending job agents P :
  triple faultless P (dispatchOne cfg job agents)
    (λ res w, is_Ok res → not_pending (Job_ID job) (w_db w)).
Proof.
  unfold dispatchOne. destruct (Select agents) as [agent|err];
    [|apply triple_ret; intros ? _ [? ?]; done].
  eapply triple_bind; [apply (triple_any_post faultless)|].
  intros [payload|err]; [|apply triple_ret; intros ? _ [? ?]; done].
  eapply triple_bind; [by apply TransitionJob_leaves_pending|].
  intros [ok|err]; [|apply triple_ret; intros ? _ [? ?]; done].
  eapply triple_conseq with (P := λ w, not_pending (Job_ID job) (w_db w));
    [|intros w Hw; apply Hw; right; by eexists|intros r w Hw _; exact Hw].
  apply triple_keeps. unfold store_TransitionJob, pg_JobStore. solve_events.
  - apply reads_respect, Dispatch_reads. apply _.
  - apply TransitionJob_events. by apply TransitionJob_not_pending.
Qed.

Lemma dispatch_or_fail_leaves_pending agents job P :
  triple faultless P (dispatch_or_fail cfg agents job)
    (λ _ w, not_pending (Job_ID job) (w_db w)).
Proof.
  unfold dispatch_or_fail. eapply triple_bind; [apply dispatchOne_leaves_pending|].
  intros [[]|err].
  - apply triple_ret. intros w Hw. apply Hw. by eexists.
  - eapply triple_bind; [by apply TransitionJob_leaves_pending|].
    intros r. apply triple_ret. intros w Hw. apply Hw. by left.
Qed.

Lemma dispatch_or_fail_keeps id agents job :
  all_events (ev_respects (keeps (not_pending id))) (dispatch_or_fail cfg agents job).
Proof. apply dispatch_or_fail_events; try apply _; intros; by apply TransitionJob_not_pending. Qed.

Lemma dispatch_loop_leaves_pending jobs agents P :
  triple faultless P (for_each jobs (dispatch_or_fail cfg agents))
    (λ _ w, ∀ j, j ∈ jobs → not_pending (Job_ID j) (w_db w)).
Proof.
  eapply triple_conseq; [apply (triple_for_each_list faultless
    (λ pre w, ∀ j, j ∈ pre → not_pending (Job_ID j) (w_db w)))|set_solver|done].
  intros pre x post _ ans w Ha Hw.
  destruct (dispatch_or_fail_leaves_pending agents x (λ _, True) ans w Ha I) as [Ha' Hx].
  split; [done|]. intros j [Hj|Hj]%elem_of_app; [|by apply list_elem_of_singleton in Hj as ->].
  apply (triple_keeps (not_pending (Job_ID j)) faultless _ (dispatch_or_fail_keeps _ agents x));
    auto.
Qed.

Lemma dispatchPending_empties a ans w jobs db' :
  Forall faultless (a :: ans) →
  GetPendingJobs_sql (answer_tx a (w_now w + Z.of_N (an_elapsed a))) (w_db w) = Ok (jobs, db') →
  ∀ j, j ∈ jobs → not_pending (Job_ID j) (w_db (exec (dispatchPending cfg) (a :: ans) w).2.2).
Proof.
  intros [Ha Hans]%Forall_cons Hjobs j Hj j'.
  unfold dispatchPending, store_GetPendingJobs, pg_JobStore, GetPendingJobs.
  erewrite exec_sql_bind by done. case_decide as Hne; [subst; set_solver|].
  match goal with |- context [exec ?p ans ?w'] =>
    assert (triple faultless (λ _, True) p
      (λ _ w, ∀ j, j ∈ jobs → not_pending (Job_ID j) (w_db w))) as Htr
  end.
  { eapply triple_bind with (R := λ r _, is_Ok r).
    - apply triple_wrap_err, triple_sql. intros tx w0 _ _. simpl. by eexists.
    - intros [agents|e]; [apply dispatch_loop_leaves_pending|].
      apply triple_ret. intros ? [? [=]]. }
  exact (proj2 (Htr ans _ Hans I) j Hj j').
Qed.

(** A dispatch pass empties the queue it fetched: with a database that
    answers, no job GetPendingJobs returned is pending when dispatchPending
    ends (each was claimed by this or another controller, or failed). *)
Lemma dispatchPending_drains a ans w jobs db' :
  Forall faultless (a :: ans) →
  GetPendingJobs_sql (answer_tx a (w_now w + Z.of_N (an_elapsed a))) (w_db w) = Ok (jobs, db') →
  ∀ j, j ∈ jobs →
  ∀ j', db_jobs (w_db (exec (dispatchPending cfg) (a :: ans) w).2.2) !! Job_ID j = Some j' →
  Job_Status j' ≠ JobStatusPending.
Proof. intros Ha Hj j Hin. by apply (dispatchPending_empties a ans w jobs db' Ha Hj). Qed.

(** ** The agents a pass assigns *)

(** Every job newly dispatched is on the agent [a]. *)
Definition assigns (a : uuid) : relation Db := λ db db', ∀ id j',
  db_jobs db' !! id = Some j' → Job_Status j' = JobStatusDispatched →
  Job_AgentID j' = Some a ∨
  ∃ j, db_jobs db !! id = Some j ∧ Job_Status j = JobStatusDispatched ∧ Job_AgentID j' = Job_AgentID j.

#[export] Instance assigns_preorder a : PreOrder (assigns a).
Proof.
  split; [intros db id j Hj Hs; right; by exists j|].
  intros db1 db2 db3 H12 H23 id j3 Hj Hs. destruct (H23 id j3 Hj Hs) as [|(j2 & Hj2 & Hs2 & ->)]; [by left|].
  by apply H12.
Qed.

Lemma TransitionJob_assigns a id from to ag r :
  (to = JobStatusDispatched → ag = Some a) →
  stmt_respects (assigns a) (TransitionJob_sql id from to ag r).
Proof.
  intros Hto tx db b db' Ht. pose proof (TransitionJob_sql_cases id from to ag r tx db) as Hc.
  rewrite Ht in Hc. destruct b; [|destruct Hc as [-> _]; reflexivity].
  destruct Hc as (j & Hj & Hf & _ & ->). intros i j'. simpl.
  intros [[<- <-]|[_ Hi]]%lookup_insert_Some Hs; [|right; by exists j'].
  left. simpl in *. by rewrite Hto.
Qed.

Lemma dispatch_or_fail_assigns agents job agent :
  Select agents = Ok agent →
  all_events (ev_respects (assigns (Agent_ID agent))) (dispatch_or_fail cfg agents job).
Proof.
  intros Hsel. apply dispatch_or_fail_events; [apply _|intros id a r Ha|intros id r|intros id r];
    apply TransitionJob_assigns; [|done..].
  intros _. congruence.
Qed.

Lemma dispatch_or_fail_assigns_none agents job e a :
  Select agents = Err e → all_events (ev_respects (assigns a)) (dispatch_or_fail cfg agents job).
Proof.
  intros Hsel. apply dispatch_or_fail_events; [apply _|intros id b r Hb|intros id r|intros id r];
    [congruence|by apply TransitionJob_assigns..].
Qed.

(** A pass puts all the jobs it dispatches on one agent: the agents are
    read once, so whatever the answers there is one agent such that every job
    that becomes dispatched in the pass is assigned to it, however many they
    are and whatever its capacity. *)
Lemma dispatchPending_one_agent ans w :
  ∃ a, ∀ id j j',
    db_jobs (w_db w) !! id = Some j → Job_Status j = JobStatusPending →
    db_jobs (w_db (exec (dispatchPending cfg) ans w).2.2) !! id = Some j' →
    Job_Status j' = JobStatusDispatched → Job_AgentID j' = Some a.
Proof.
  assert (triple any_answer (λ w', w_db w' = w_db w) (dispatchPending cfg)
    (λ _ w', ∃ a, assigns a (w_db w) (w_db w'))) as Htr.
  { unfold dispatchPending, store_GetPendingJobs, store_GetAvailableAgents, pg_JobStore,
      GetPendingJobs, GetAvailableAgents.
    eapply triple_bind with (R := λ _ w', w_db w' = w_db w); [apply triple_reads; solve_stmts|].
    intros [jobs|e]; [|apply triple_ret; intros w' ->; exists 0%N; reflexivity].
    case_decide; [apply triple_ret; intros w' ->; exists 0%N; reflexivity|].
    eapply triple_bind with (R := λ _ w', w_db w' = w_db w); [apply triple_reads; solve_stmts|].
    intros [agents|e]; [|apply triple_ret; intros w' ->; exists 0%N; reflexivity].
    assert (∃ a, all_events (ev_respects (assigns a)) (for_each jobs (dispatch_or_fail cfg agents)))
      as [a Ha].
    { destruct (Select agents) as [agent|e] eqn:Hsel;
        [exists (Agent_ID agent)|exists 0%N]; apply all_events_for_each; intros job _;
        [by apply dispatch_or_fail_assigns|by eapply dispatch_or_fail_assigns_none]. }
    eapply triple_conseq; [apply (triple_respects (assigns a) any_answer _ (w_db w) Ha)| |].
    - intros w' Hw. cbv beta. rewrite Hw. reflexivity.
    - intros x w' Hw. by exists a. }
  destruct (Htr ans w) as [_ [a Ha]]; [by apply Forall_true|done|].
  exists a. intros id j j' Hj Hp Hj' Hd. destruct (Ha id j' Hj' Hd) as [|(i & Hi & Hs & _)]; [done|].
  simplify_eq. by rewrite Hp in Hs.
Qed.
End facts.

(** ** What is sent to the agent *)

Section payload.
Context `{CryptoLib} `{FieldsJson} `{UuidLib}.
Context (key : bytes).

(** The specification of buildPayload: a function of the stored rows. *)
Definition credential_of (db : Db) (c : uuid) : option CredentialSecret :=
  if bool_decide (length key = 0) then None
  else cred ← db_credentials db !! c;
       match open_credential key ": unmarshal fields" c cred with
       | Ok s => Some s | Err _ => None end.

Definition credentials_of (db : Db) (c : option uuid) : option (list CredentialSecret) :=
  match c with None => Some [] | Some c => s ← credential_of db c; Some [s] end.

(** The inventory of a project. *)
Definition project_hosts (db : Db) (projectID : uuid) : list InventoryHost :=
  filter (λ h, InventoryHost_ProjectID h = projectID) (map_vals (db_inventory_hosts db)).

(** The payload of a job, a template, a project, its inventory and credentials. *)
Definition payload_from (cfg : Config) (job : Job) (tmpl : JobTemplate) (project : Project)
    (hosts : list InventoryHost) (creds : list CredentialSecret) : JobPayload := {|
  JobPayload_JobID := Job_ID job;
  JobPayload_TemplateID := Job_TemplateID job;
  JobPayload_Playbook := JobTemplate_Playbook tmpl;
  JobPayload_Inventory := hosts;
  JobPayload_ExtraVars := Job_ExtraVars job ∪ JobTemplate_DefaultExtraVars tmpl;
  JobPayload_Credentials := creds;
  JobPayload_CallbackURL := Config_APIURL cfg;
  JobPayload_RepoURL := Project_RepoURL project;
  JobPayload_RepoBranch := Project_Branch project |}.

Definition payload_of (cfg : Config) (db : Db) (job : Job) : option JobPayload :=
  tmpl ← db_job_templates db !! Job_TemplateID job;
  project ← db_projects db !! JobTemplate_ProjectID tmpl;
  creds ← credentials_of db (JobTemplate_CredentialID tmpl);
  Some (payload_from cfg job tmpl project (project_hosts db (JobTemplate_ProjectID tmpl)) creds).

(** The database and the requests sent stay as they are. *)
Definition unchanged (db : Db) (sent : list (string * option JobPayload)) (w : World) : Prop :=
  w_db w = db ∧ w_sent w = sent.

(** [r] is the value [o], whatever the error text. *)
Definition agrees {A} (r : result A) (o : option A) : Prop :=
  match r with Ok a => o = Some a | Err _ => o = None end.

Lemma agrees_map_err {A} f (r : result A) o : agrees (map_err f r) o ↔ agrees r o.
Proof. by destruct r. Qed.

(** A query under its fmt.Errorf context. *)
Lemma triple_lookup {X} msg (f : Tx → Db → result X) (o : option X) db sent :
  (∀ tx, agrees (f tx db) o) →
  triple faultless (unchanged db sent) (wrap_err msg (sql (query f)))
    (λ r w, agrees r o ∧ unchanged db sent w).
Proof.
  intros Ho. apply triple_wrap_err. eapply triple_conseq; [apply triple_query|done|].
  intros r w [[tx ->] Hw]. by rewrite agrees_map_err.
Qed.

Lemma agrees_by_id {V} (t : gmap uuid V) id : agrees (by_id t id) (t !! id).
Proof. unfold by_id. by destruct (t !! id). Qed.

Lemma copy_vars_union acc m : copy_vars acc m = m ∪ acc.
Proof.
  unfold copy_vars. induction m as [|k v m Hk Hf IH] using map_first_key_ind.
  - by rewrite map_fold_empty, (left_id_L ∅ (∪)).
  - rewrite map_fold_insert_first_key, IH by done. by rewrite insert_union_l.
Qed.

(** One [try] of a program that only reads. *)
Lemma triple_try {X Y} (p : prog Ev (result X)) (o : option X) h (k : X → prog Ev (result Y)) o' db sent :
  triple faultless (unchanged db sent) p (λ r w, agrees r o ∧ unchanged db sent w) →
  (∀ e, o = None → triple faultless (unchanged db sent) (h e) (λ r w, agrees r o' ∧ unchanged db sent w)) →
  (∀ x, o = Some x → triple faultless (unchanged db sent) (k x) (λ r w, agrees r o' ∧ unchanged db sent w)) →
  triple faultless (unchanged db sent)
    (prog_bind (λ r, match r with Ok x => k x | Err e => h e end) p)
    (λ r w, agrees r o' ∧ unchanged db sent w).
Proof.
  intros Hp Hh Hk. eapply triple_bind; [exact Hp|]. intros [x|e] ans w Ha [Ho Hw]; simpl in Ho.
  - by apply (Hk x).
  - by apply (Hh e).
Qed.

Lemma triple_done {Y} (r : result Y) o db sent :
  agrees r o →
  triple faultless (unchanged db sent) (mret r) (λ r w, agrees r o ∧ unchanged db sent w).
Proof. intros Hr. by apply triple_ret. Qed.

Lemma controller_Resolve_spec c db sent :
  triple faultless (unchanged db sent) (controller_Resolve key c)
    (λ r w, agrees r (credential_of db c) ∧ unchanged db sent w).
Proof.
  unfold controller_Resolve, credential_of. case_bool_decide; [by apply triple_done|].
  eapply triple_try with (o := db_credentials db !! c).
  - apply triple_wrap_err. eapply triple_conseq; [apply triple_lookup|done|].
    + intros tx. apply agrees_by_id.
    + intros r w Hr. by rewrite agrees_map_err.
  - intros e ->. by apply triple_done.
  - intros cred ->. apply triple_done. simpl. by destruct (open_credential _ _ _ _).
Qed.

Context (cfg : Config).
#[local] Existing Instance controller_SecretsProvider.

Lemma buildPayload_triple job a db sent :
  triple faultless (unchanged db sent)
    (@buildPayload _ (controller_SecretsProvider key) cfg job a)
    (λ r w, agrees r (payload_of cfg db job) ∧ unchanged db sent w).
Proof.
  unfold buildPayload, payload_of.
  eapply triple_try; [apply triple_lookup; intros; apply agrees_by_id| |].
  { intros e ->. by apply triple_done. }
  intros tmpl ->. cbn [mbind option_bind].
  eapply triple_try; [apply triple_lookup; intros; apply agrees_by_id| |].
  { intros e ->. by apply triple_done. }
  intros project ->. cbn [mbind option_bind].
  eapply triple_try; [apply triple_lookup; by intros|done|].
  intros hosts [= <-].
  eapply triple_try with (o := credentials_of db (JobTemplate_CredentialID tmpl)).
  - destruct (JobTemplate_CredentialID tmpl) as [c|]; cbn [credentials_of]; [|by apply triple_done].
    eapply triple_try; [apply controller_Resolve_spec| |].
    + intros e Hc. apply triple_done. simpl. by rewrite Hc.
    + intros s Hc. apply triple_done. simpl. by rewrite Hc.
  - intros e ->. by apply triple_done.
  - intros creds ->. apply triple_done. simpl.
    unfold payload_from. by rewrite !copy_vars_union, (right_id_L ∅ (∪)).
Qed.

(** C15: buildPayload computes the specified payload: on a database that answers
    it returns a payload exactly when the template and its project are stored
    and the template's credential, if any, opens under the encryption key; the
    payload then carries the project's whole inventory, the job's variables over
    the template's defaults, and nothing is written or sent. *)
Theorem buildPayload_spec job a ans w :
  Forall faultless ans →
  let res := exec (@buildPayload _ (controller_SecretsProvider key) cfg job a) ans w in
  w_db res.2.2 = w_db w ∧ w_sent res.2.2 = w_sent w ∧
  match res.1 with
  | Ok p => payload_of cfg (w_db w) job = Some p
  | Err _ => payload_of cfg (w_db w) job = None
  end.
Proof.
  intros Ha. destruct (buildPayload_triple job a (w_db w) (w_sent w) ans w Ha) as (_ & Hr & Hdb & Hs);
    [done|]. done.
Qed.
End payload.

(** ** Failing stuck jobs *)

Section stuck.
Context `{UuidLib}.

(** The rows the GetStuck queries select. *)
Definition is_stuck (tx : Tx) (status : JobStatus) (timeout : Duration) (j : Job) : Prop :=
  Job_Status j = status ∧ (Job_UpdatedAt j < tx_now tx - timeout)%Z ∧ unlocked tx j.

#[export] Instance is_stuck_dec tx status timeout j : Decision (is_stuck tx status timeout j).
Proof. unfold is_stuck. apply _. Defined.

(** The jobs of [pre] are failed for [reason], the others are as in [db0]. *)
Definition failed_exactly (db0 : Db) (reason : string) (pre : list Job) (w : World) : Prop :=
  ∀ id, match db_jobs db0 !! id with
        | None => db_jobs (w_db w) !! id = None
        | Some j =>
            if decide (id ∈ Job_ID <$> pre)
            then ∃ now, db_jobs (w_db w) !! id = Some (transition_row now JobStatusFailed None reason j)
            else db_jobs (w_db w) !! id = Some j
        end.

Lemma failStuck_body_spec db0 status reason pre job :
  keyed Job_ID (db_jobs db0) → db_jobs db0 !! Job_ID job = Some job →
  Job_Status job = status → Job_ID job ∉ Job_ID <$> pre →
  triple faultless (failed_exactly db0 reason pre)
    (_ ← TransitionJob (Job_ID job) status JobStatusFailed None reason; mret ())
    (λ _, failed_exactly db0 reason (pre ++ [job])).
Proof.
  intros Hk Hjob Hst Hpre.
  eapply triple_bind with (R := λ _, failed_exactly db0 reason (pre ++ [job]));
    [|intros r; by apply triple_ret].
  apply triple_wrap_err, triple_sql. intros tx w Hw _.
  pose proof (TransitionJob_sql_cases (Job_ID job) status JobStatusFailed None reason tx (w_db w)) as Hc.
  assert (db_jobs (w_db w) !! Job_ID job = Some job) as Hcur.
  { specialize (Hw (Job_ID job)). rewrite Hjob in Hw. by rewrite decide_False in Hw. }
  destruct (TransitionJob_sql _ _ _ _ _ _ _) as [[[] db']|e].
  - destruct Hc as (j & Hj & _ & _ & ->). assert (j = job) as -> by congruence.
    intros id. specialize (Hw id). simpl.
    destruct (decide (id = Job_ID job)) as [->|Hne].
    + rewrite Hjob, fmap_app, decide_True by set_solver. rewrite lookup_insert_eq. by eexists.
    + rewrite lookup_insert_ne by done. destruct (db_jobs db0 !! id) as [j'|] eqn:Hj'; [|done].
      destruct (decide (id ∈ Job_ID <$> pre)), (decide (id ∈ Job_ID <$> pre ++ [job])) as [Hi|Hi];
        rewrite fmap_app in Hi; set_solver.
  - destruct Hc as [_ Hc]. by destruct (Hc job).
  - by destruct Hc.
Qed.

Lemma failStuckJobs_exact a ans w status timeout reason :
  Forall faultless (a :: ans) → keyed Job_ID (db_jobs (w_db w)) →
  status = JobStatusDispatched ∨ status = JobStatusRunning →
  let tx := answer_tx a (w_now w + Z.of_N (an_elapsed a)) in
  let db' := w_db (exec (failStuckJobs status timeout reason) (a :: ans) w).2.2 in
  ∀ id, match db_jobs (w_db w) !! id with
        | None => db_jobs db' !! id = None
        | Some j =>
            if decide (is_stuck tx status timeout j)
            then ∃ now, db_jobs db' !! id = Some (transition_row now JobStatusFailed None reason j)
            else db_jobs db' !! id = Some j
        end.
Proof.
  intros [Ha Hans]%Forall_cons Hk Hstatus tx.
  set (stuck := filter (is_stuck tx status timeout) (map_vals (db_jobs (w_db w)))).
  assert (exec (failStuckJobs status timeout reason) (a :: ans) w =
    exec (for_each stuck (λ job, _ ← TransitionJob (Job_ID job) status JobStatusFailed None reason;
                                 mret ())) ans (MkWorld (w_db w) (tx_now tx) (w_sent w))) as ->.
  { unfold failStuckJobs, exec.
    destruct Hstatus as [-> | ->]; simpl; by rewrite Ha. }
  assert (∀ j, j ∈ stuck ↔ is_stuck tx status timeout j ∧ ∃ k, db_jobs (w_db w) !! k = Some j) as Hin.
  { intros j. unfold stuck. by rewrite list_elem_of_filter, elem_of_map_vals. }
  assert (triple faultless (failed_exactly (w_db w) reason [])
    (for_each stuck (λ job, _ ← TransitionJob (Job_ID job) status JobStatusFailed None reason; mret ()))
    (λ _, failed_exactly (w_db w) reason stuck)) as Htr.
  { apply (triple_for_each_list faultless (failed_exactly (w_db w) reason)).
    intros pre job post Hsplit.
    assert (job ∈ stuck) as Hj by (rewrite Hsplit; set_solver).
    apply Hin in Hj as [Hst [k Hj]].
    assert (NoDup (Job_ID <$> stuck)) as Hnd.
    { apply NoDup_fmap_2_strong; [|apply NoDup_filter, (NoDup_map_vals Job_ID); done].
      intros x y [_ [kx Hx]]%Hin [_ [ky Hy]]%Hin Hxy. apply Hk in Hx as Hx', Hy as Hy'. congruence. }
    rewrite Hsplit, fmap_app in Hnd. apply NoDup_app in Hnd as (_ & Hnd & _).
    apply failStuck_body_spec; [done| |apply Hst|intros Hp; by apply (Hnd _ Hp); left].
    by rewrite (Hk k). }
  destruct (Htr ans (MkWorld (w_db w) (tx_now tx) (w_sent w)) Hans) as [_ Hq].
  { intros id. simpl. by destruct (db_jobs (w_db w) !! id). }
  intros db' id. specialize (Hq id). destruct (db_jobs (w_db w) !! id) as [j|] eqn:Hj; [|done].
  assert (id ∈ Job_ID <$> stuck ↔ is_stuck tx status timeout j) as Hiff.
  { rewrite list_elem_of_fmap. setoid_rewrite Hin. split.
    - intros (i & -> & Hi & k & Hik). rewrite (Hk _ _ Hik) in Hj. congruence.
    - intros Hs. exists j. rewrite (Hk _ _ Hj). eauto. }
  destruct (decide (is_stuck _ _ _ _)), (decide (id ∈ Job_ID <$> stuck)); tauto.
Qed.

(** FailStuckJobs fails the stuck jobs and no other: run alone on a database
    that answers, every job that was in the given status and last updated more
    than the timeout ago (and not locked) ends as failed with the reason and an
    end time, and every other job is unchanged. *)
Lemma failStuckJobs_spec a ans w status timeout reason :
  Forall faultless (a :: ans) → keyed Job_ID (db_jobs (w_db w)) →
  status = JobStatusDispatched ∨ status = JobStatusRunning →
  let tx := answer_tx a (w_now w + Z.of_N (an_elapsed a)) in
  let db' := w_db (exec (failStuckJobs status timeout reason) (a :: ans) w).2.2 in
  ∀ id, match db_jobs (w_db w) !! id with
        | None => db_jobs db' !! id = None
        | Some j =>
            if decide (is_stuck tx status timeout j)
            then ∃ now, db_jobs db' !! id = Some (transition_row now JobStatusFailed None reason j)
            else db_jobs db' !! id = Some j
        end.
Proof. apply failStuckJobs_exact. Qed.
End stuck.
