(* ===== verification/Token.v ===== *)
(** * Dispatch tokens

    A logic for "each job is sent at most once, and to its agent".  Taking a job
    out of pending for an agent yields a token for both; sending a payload to an
    address of that agent consumes the token of its job.  [wp p held Q]: the
    program [p], holding at most the token [held], sends payloads only with the
    right token, and ends with a result and a token related by [Q].  Programs may
    drop tokens.  Two parameters: the databases that are queried satisfy [seen],
    and a payload that is sent to a URL for an agent satisfies [fit]. *)
From S2P Require Import Prelude.
From S2P Require Import Prog.
From S2P Require Import Types.
From S2P Require Import Db.
From S2P Require Import ControllerStore.
From S2P Require Import Lifecycle.

(** 1 when the job exists and has left pending, else 0: the number of tokens
    that were ever given out for it. *)
Definition claims (db : Db) (id : uuid) : nat :=
  match db_jobs db !! id with
  | Some j => if decide (Job_Status j = JobStatusPending) then 0 else 1
  | None => 0
  end.

(** A job and the agent it was claimed for. *)
Abbreviation Token := (uuid * uuid)%type.

(** The token after an answer that won the token [won], or none. *)
Definition take_token (won held : option Token) : option Token :=
  match won with Some t => Some t | None => held end.

(** The job has left pending and belongs to the agent, for good. *)
Definition assigned (db : Db) (t : Token) : Prop :=
  ∃ j, db_jobs db !! t.1 = Some j ∧ phase (Job_Status j) ≠ 0 ∧ Job_AgentID j = Some t.2.

Lemma assigned_evolves db db' t : db_evolves db db' → assigned db t → assigned db' t.
Proof.
  intros He (j & Hj & Hp & Ha). specialize (He t.1). rewrite Hj in He. destruct He as (j' & Hj' & Hev).
  exists j'. split; [done|]. split; [|by rewrite (evolves_AgentID _ _ Hev)].
  pose proof (status_evolves_phase _ _ (evolves_status _ _ Hev)). lia.
Qed.

(** A statement may win a job only by taking it out of pending for an agent. *)
Definition wins {X} (st : Stmt X) (won : X → option Token) : Prop :=
  ∀ tx db x db', st tx db = Ok (x, db') →
    db_evolves db db' ∧
    ∀ t, won x = Some t → claims db t.1 = 0 ∧ claims db' t.1 = 1 ∧ assigned db' t.

Section tokens.
Context (seen : Db → Prop) (fit : string → uuid → JobPayload → Prop).

(** What the statement can answer. *)
Definition yields {X} (st : Stmt X) (x : X) : Prop := ∃ tx db db', seen db ∧ st tx db = Ok (x, db').

(** The payload may be sent to the URL by who has the token. *)
Definition deliverable (url : string) (payload : JobPayload) (t : Token) : Prop :=
  t.1 = JobPayload_JobID payload ∧ fit url t.2 payload.

Definition ev_wp {X} (e : Ev X) (held : option Token) : (X → option Token → Prop) → Prop :=
  match e in Ev X return (X → option Token → Prop) → Prop with
  | Sql st => λ next, ∃ won, wins st won ∧
      (∀ err, next (Err err) held) ∧ ∀ x, yields st x → next (Ok x) (take_token (won x) held)
  | HttpPost url (Some payload) => λ next,
      (∃ t, held = Some t ∧ deliverable url payload t) ∧ ∀ x, next x None
  | HttpPost _ None | HostStat _ | HostGit _ _ _ | HostReadFile _ | HostMkdirAll _ | HostNow | HostRand _ =>
      λ next, ∀ x, next x held
  end.

Fixpoint wp {A} (p : prog Ev A) (held : option Token) (Q : A → option Token → Prop) : Prop :=
  match p with
  | Ret a => Q a held
  | Vis e k => ev_wp e held (λ x h, wp (k x) h Q)
  end.

(** ** Rules *)

Lemma ev_wp_mono {X} (e : Ev X) held (N N' : X → option Token → Prop) :
  (∀ x h, N x h → N' x h) → ev_wp e held N → ev_wp e held N'.
Proof. intros HN. destruct e as [? st|? [?|]| | | | | | ]; simpl; naive_solver. Qed.

Lemma wp_mono {A} (p : prog Ev A) held (Q Q' : A → option Token → Prop) :
  (∀ a h, Q a h → Q' a h) → wp p held Q → wp p held Q'.
Proof.
  intros HQ. revert held. induction p as [a|X e k IH]; simpl; intros held; [apply HQ|].
  apply ev_wp_mono. intros x h. apply IH.
Qed.

Lemma wp_bind {A B} (p : prog Ev A) (f : A → prog Ev B) held Q :
  wp p held (λ a h, wp (f a) h Q) → wp (p ≫= f) held Q.
Proof.
  revert held. induction p as [a|X e k IH]; simpl; intros held; [done|].
  apply ev_wp_mono. intros x h. apply IH.
Qed.

Lemma wp_prog_bind {A B} (p : prog Ev A) (f : A → prog Ev B) held Q :
  wp p held (λ a h, wp (f a) h Q) → wp (prog_bind f p) held Q.
Proof. apply wp_bind. Qed.

Lemma wp_wrap_err {A} msg (p : prog Ev (result A)) held Q :
  wp p held (λ r h, Q (map_err (ErrWrap msg) r) h) → wp (wrap_err msg p) held Q.
Proof. intros Hp. by apply wp_bind. Qed.

Lemma wp_for_each {X} (xs : list X) (f : X → prog Ev unit) held :
  (∀ x h, x ∈ xs → wp (f x) h (λ _ _, True)) → wp (for_each xs f) held (λ _ _, True).
Proof.
  intros Hf. revert held. induction xs as [|x xs IH]; intros held; simpl; [done|].
  apply wp_bind. eapply wp_mono; [|apply Hf; left]. simpl. intros _ h _. apply IH.
  intros y h' Hy. apply Hf. by right.
Qed.

(** ** Programs that send no payload *)

Definition silent (X : Type) (e : Ev X) : Prop :=
  match e with
  | Sql st => stmt_respects db_evolves st
  | HttpPost _ body => body = None
  | _ => True
  end.

Lemma evolves_wins_nothing {X} (st : Stmt X) :
  stmt_respects db_evolves st → wins st (λ _, None).
Proof. intros Hst tx db x db' Hs. split; [by eapply Hst|done]. Qed.

Lemma wp_silent {A} (φ : A → Prop) (p : prog Ev A) held :
  all_events silent p → returns φ p → wp p held (λ a h, h = held ∧ φ a).
Proof.
  induction p as [a|X e k IH]; simpl; intros Hs Hr; [done|]. destruct Hs as [He Hk].
  destruct e as [X st|url [payload|]| | | | | | ]; simpl in *; try (intros x; by apply IH); [|done].
  exists (λ _, None). split; [by apply evolves_wins_nothing|]. split; intros; by apply IH.
Qed.

Lemma wp_silent_any {A} (p : prog Ev A) held :
  all_events silent p → wp p held (λ _ h, h = held).
Proof.
  intros Hs. eapply wp_mono; [|apply (wp_silent (λ _, True)); [done|apply returns_any]].
  by intros a h [? _].
Qed.

(** The answer of a query is of a database that was seen. *)
Definition fetched {X} (f : Tx → Db → result X) (held : option Token) (r : result X) (h : option Token) : Prop :=
  h = held ∧ ∀ x, r = Ok x → ∃ tx db, seen db ∧ f tx db = Ok x.

Lemma wp_sql_query {X} (f : Tx → Db → result X) held : wp (sql (query f)) held (fetched f held).
Proof.
  exists (λ _, None). split; [by apply evolves_wins_nothing, query_respects, _|]. split; [done|].
  intros x (tx & db & db' & Hs & Hf). split; [done|]. intros ? [= <-]. exists tx, db. split; [done|].
  unfold query in Hf. destruct (f tx db) as [y|e]; [|done]. by injection Hf as -> _.
Qed.

Lemma wp_wrap_fetched {X} msg (p : prog Ev (result X)) f held :
  wp p held (fetched f held) → wp (wrap_err msg p) held (fetched f held).
Proof.
  intros Hp. apply wp_wrap_err. eapply wp_mono; [|exact Hp]. intros r h [-> Hr]. split; [done|].
  intros x Hx. apply Hr. by destruct r.
Qed.

Lemma wp_try_fetched {X Y} (p : prog Ev (result X)) f (h : error → prog Ev Y) (k : X → prog Ev Y) held Q :
  wp p held (fetched f held) → (∀ e, wp (h e) held Q) →
  (∀ x tx db, seen db → f tx db = Ok x → wp (k x) held Q) →
  wp (prog_bind (λ r, match r with Ok x => k x | Err e => h e end) p) held Q.
Proof.
  intros Hp Hh Hk. apply wp_prog_bind. eapply wp_mono; [|exact Hp]. intros [x|e] h' [-> Hr]; [|apply Hh].
  destruct (Hr x eq_refl) as (tx & db & Hs & Hf). by eapply Hk.
Qed.

(** ** Winning a job *)

Lemma claims_mono db db' id : db_evolves db db' → claims db id ≤ claims db' id.
Proof.
  intros He. unfold claims. destruct (db_jobs db !! id) as [j|] eqn:Hj; [|lia].
  case_decide as Hp; [lia|].
  destruct (evolves_not_pending _ _ _ _ He Hj Hp) as (j' & -> & _ & Hp').
  by rewrite decide_False.
Qed.

(** The claim of dispatchOne wins the job if it reports true. *)
Lemma claim_wins id agent r :
  wins (TransitionJob_sql id JobStatusPending JobStatusDispatched (Some agent) r)
       (λ ok : bool, if ok then Some (id, agent) else None).
Proof.
  intros tx db ok db' Hs. split; [by eapply claim_evolves|].
  pose proof (TransitionJob_sql_cases id JobStatusPending JobStatusDispatched (Some agent) r tx db) as Hc.
  rewrite Hs in Hc. destruct ok; [|done]. intros t [= <-].
  destruct Hc as (j & Hj & Hp & _ & ->). unfold claims, assigned. cbn [fst snd]. rewrite Hj. simpl.
  rewrite lookup_insert_eq, (decide_True _ _ Hp). split_and!; [done..|]. eexists. by split_and!.
Qed.

(** ** The invariant of an interleaving *)

(** The number of payloads sent for a job. *)
Definition is_payload_for (id : uuid) (m : string * option JobPayload) : Prop :=
  JobPayload_JobID <$> m.2 = Some id.

#[export] Instance is_payload_for_dec id m : Decision (is_payload_for id m).
Proof. unfold is_payload_for. apply _. Defined.

Definition dispatches (id : uuid) (w : World) : nat :=
  length (filter (is_payload_for id) (w_sent w)).

Definition holders (id : uuid) (hs : list (option Token)) : nat :=
  length (filter (λ h, fst <$> h = Some id) hs).

(** A token is for the agent of its job. *)
Definition entitled (db : Db) (held : option Token) : Prop :=
  match held with Some t => assigned db t | None => True end.

(** A payload was sent to an address of the agent of its job. *)
Definition addressed (w : World) : Prop :=
  ∀ url p, (url, Some p) ∈ w_sent w → ∃ t, deliverable url p t ∧ assigned (w_db w) t.

(** Threads and the tokens they hold; payloads sent and tokens held are at most
    the tokens given out. *)
Definition token_inv (s : World * list (prog Ev unit)) : Prop :=
  ∃ hs, Forall2 (λ p h, wp p h (λ _ _, True)) s.2 hs ∧
        Forall (entitled (w_db s.1)) hs ∧ addressed s.1 ∧
        ∀ id, dispatches id s.1 + holders id hs ≤ claims (w_db s.1) id.

Lemma entitled_evolves db db' h : db_evolves db db' → entitled db h → entitled db' h.
Proof. destruct h as [t|]; [apply assigned_evolves|done]. Qed.

Lemma addressed_evolves w w' :
  db_evolves (w_db w) (w_db w') → w_sent w' = w_sent w → addressed w → addressed w'.
Proof.
  intros He Hs Ha url p. rewrite Hs. intros (t & Hd & Ht)%Ha. exists t. split; [done|]. by eapply assigned_evolves.
Qed.

Lemma holders_insert id hs i h h' :
  hs !! i = Some h →
  holders id (<[i := h']> hs) + (if decide (fst <$> h = Some id) then 1 else 0) =
  holders id hs + (if decide (fst <$> h' = Some id) then 1 else 0).
Proof.
  intros Hi. unfold holders. rewrite insert_take_drop by (by eapply lookup_lt_Some).
  pose proof (take_drop_middle hs i h Hi) as Hhs. revert Hhs.
  generalize (take i hs) (drop (S i) hs). intros l1 l2 <-.
  rewrite !filter_app, !filter_cons, !length_app.
  repeat case_decide; simpl; lia.
Qed.

Lemma dispatches_app id w db now m :
  dispatches id (MkWorld db now (w_sent w ++ [m])) =
  dispatches id w + if decide (is_payload_for id m) then 1 else 0.
Proof.
  unfold dispatches. simpl. rewrite filter_app, length_app, filter_cons, filter_nil.
  by case_decide.
Qed.

(** One interaction of a thread, with the token it has afterwards. *)
Definition performed {X} (e : Ev X) (held : option Token) (a : Answer) (w : World) (h' : option Token) : Prop :=
  let w' := (perform X a e w).2 in
  db_evolves (w_db w) (w_db w') ∧ entitled (w_db w') h' ∧ addressed w' ∧
  ∀ id, dispatches id w' + (if decide (fst <$> h' = Some id) then 1 else 0) + claims (w_db w) id ≤
        dispatches id w + (if decide (fst <$> held = Some id) then 1 else 0) + claims (w_db w') id.

(** The interactions that change nothing but the clock, or only send a request
    without payload. *)
Lemma performed_same {X} (e : Ev X) held a w m :
  entitled (w_db w) held → addressed w → w_db (perform X a e w).2 = w_db w →
  w_sent (perform X a e w).2 = w_sent w ++ m → Forall (λ m, m.2 = None) m → performed e held a w held.
Proof.
  intros Hh Ha Hdb Hs Hm. unfold performed. cbv zeta. rewrite Hdb. split_and!; [done|done|..].
  - intros url p. rewrite Hs. intros [Hin|Hin]%elem_of_app; [rewrite Hdb; by apply Ha|].
    rewrite Forall_forall in Hm. by apply Hm in Hin.
  - intros id. unfold dispatches. rewrite Hs, filter_app, length_app.
    assert (filter (is_payload_for id) m = []) as ->; [|simpl; lia].
    clear -Hm. induction Hm as [|[url p] m Hp Hm IH]; [done|]. rewrite filter_cons, decide_False; [done|].
    unfold is_payload_for. cbn in Hp |- *. by rewrite Hp.
Qed.

Lemma ev_wp_perform {X} (e : Ev X) held N a w :
  ev_wp e held N → seen (w_db w) → entitled (w_db w) held → addressed w →
  ∃ h', N (perform X a e w).1 h' ∧ performed e held a w h'.
Proof.
  intros He Hkn Hh Ha.
  destruct e as [X st|url [p|]| | | | | | ]; simpl in He.
  2: { destruct He as [(t & -> & Hdel) Hn]. exists None. split; [by apply Hn|]. split_and!; [done..| |].
       - intros url' p'. cbn. intros [Hin|[= -> ->]%list_elem_of_singleton]%elem_of_app; [by apply Ha|by exists t].
       - intros id. cbn [perform snd w_db]. rewrite dispatches_app. unfold is_payload_for. simpl. destruct Hdel as [E _].
         repeat case_decide; try congruence; lia. }
  2: { exists held. split; [by apply He|]. by eapply (performed_same _ _ _ _ [(url, None)]); repeat constructor. }
  2-7: exists held; split; [by apply He|]; by apply (performed_same _ _ _ _ []); rewrite ?app_nil_r.
  destruct He as (won & Hw & Herr & Hok). cbn [perform].
  destruct (an_fault a) as [err|] eqn:Hf; [|destruct (st _ _) as [[x db']|err] eqn:Hst; cbn [fst snd]].
  - exists held. split; [by apply Herr|]. apply (performed_same _ _ _ _ []); cbn; rewrite ?Hf, ?app_nil_r; done.
  - destruct (Hw _ _ _ _ Hst) as [Hev Hwon].
    exists (take_token (won x) held). split; [apply Hok; by eexists _, _, _|].
    unfold performed. cbn [perform]. rewrite Hf, Hst. cbn [snd w_db]. split_and!; [done|..].
    + destruct (won x) as [t|] eqn:Hx; [by apply Hwon|]. by eapply entitled_evolves.
    + by apply (addressed_evolves w).
    + intros id. change (dispatches id _) with (dispatches id w).
      pose proof (claims_mono _ _ id Hev) as Hle. destruct (won x) as [t|] eqn:Hx; simpl; [|lia].
      destruct (decide (Some t.1 = Some id)) as [[= <-]|]; [|lia].
      destruct (Hwon t eq_refl) as (? & ? & _). case_decide; lia.
  - exists held. split; [by apply Herr|]. apply (performed_same _ _ _ _ []); cbn; rewrite ?Hf, ?Hst, ?app_nil_r; done.
Qed.
End tokens.
