(* ===== verification/Inventory.v ===== *)
(** * Git inventory sync: controller/inventory/gitfile.go *)
From S2P Require Import Prelude.
From S2P Require Import Prog.
From S2P Require Import Types.
From S2P Require Import Text.
From S2P Require Import Db.
From S2P Require Import ControllerStore.

(** ** parseINIInventory *)

Record ParseState := {
  hostMap : gmap string InventoryHost;
  currentGroup : string;
  skipSection : bool;
}.

Definition parse_init : ParseState :=
  {| hostMap := ∅; currentGroup := EmptyString; skipSection := false |}.

(** [kv[:idx]] and [kv[idx+1:]] of [h.Vars[kv[:idx]] = kv[idx+1:]]. *)
Definition parse_var (v : vars) (kv : string) : vars :=
  match IndexByte kv equals_sign with
  | Some idx => if bool_decide (0 < idx)
                then <[take_str idx kv := JStr (drop_str (idx + 1) kv)]> v else v
  | None => v
  end.

Definition fresh_host (projectID : uuid) (hostname : string) : InventoryHost := {|
  InventoryHost_ID := uuid_Nil; InventoryHost_ProjectID := projectID;
  InventoryHost_Hostname := hostname; InventoryHost_Groups := []; InventoryHost_Vars := ∅;
  InventoryHost_CreatedAt := zero_Time; InventoryHost_UpdatedAt := zero_Time |}.

(** The new groups of a host that a section lists. *)
Definition add_group (g : string) (groups : list string) : list string :=
  if bool_decide (g ≠ EmptyString) && bool_decide (g ≠ "all") then
    if bool_decide (g ∈ groups) then groups else groups ++ [g]
  else groups.

Definition host_entry (projectID : uuid) (group : string) (parts : list string)
    (m : gmap string InventoryHost) : gmap string InventoryHost :=
  match parts with
  | [] => m
  | hostname :: kvs =>
      let h := default (fresh_host projectID hostname) (m !! hostname) in
      <[hostname := {|
        InventoryHost_ID := InventoryHost_ID h; InventoryHost_ProjectID := InventoryHost_ProjectID h;
        InventoryHost_Hostname := InventoryHost_Hostname h;
        InventoryHost_Groups := add_group group (InventoryHost_Groups h);
        InventoryHost_Vars := foldl parse_var (InventoryHost_Vars h) kvs;
        InventoryHost_CreatedAt := InventoryHost_CreatedAt h;
        InventoryHost_UpdatedAt := InventoryHost_UpdatedAt h |}]> m
  end.

(** The loop body: one line of the file. *)
Definition parse_line (projectID : uuid) (st : ParseState) (text : string) : ParseState :=
  let line := TrimSpace text in
  if bool_decide (line = EmptyString) || HasPrefix line "#" || HasPrefix line ";" then st
  else if HasPrefix line "[" && HasSuffix line "]" then
    let section := take_str (String.length line - 2) (drop_str 1 line) in
    if ContainsByte section colon
    then {| hostMap := hostMap st; currentGroup := EmptyString; skipSection := true |}
    else {| hostMap := hostMap st; currentGroup := section; skipSection := false |}
  else if skipSection st then st
  else {| hostMap := host_entry projectID (currentGroup st) (Fields line) (hostMap st);
          currentGroup := currentGroup st; skipSection := skipSection st |}.

(** The contents of the file as os.Open and reading yield them. *)
Definition parseINIInventory (projectID : uuid) (path : string) (content : result string)
    : result (list InventoryHost) :=
  text ← map_err (ErrWrap ("open " +:+ path)) content;
  let '(lines, err) := Scan text in
  let st := foldl (parse_line projectID) parse_init lines in
  match err with
  | Some e => Err (ErrWrap "scan inventory" e)
  | None => Ok (map_vals (hostMap st))
  end.

(** ** Git *)

Section sync.
Context `{UuidLib} `{PgxLib} `{OsEnv}.
Context (workspaceDir : string).

(** gitSSH is never set. *)
Definition gitEnv (sshCmd : string) : list string :=
  if bool_decide (sshCmd ≠ EmptyString)
  then os_Environ ++ ["GIT_SSH_COMMAND=" +:+ sshCmd] else os_Environ.

(** The error of the command carries its output. *)
Definition runGit (gitSSH : string) (args : list string) : prog Ev (result unit) :=
  wrap_err ("git " +:+ hd EmptyString args) (trigger (HostGit None (gitEnv gitSSH) args)).

Definition runGitIn (dir gitSSH : string) (args : list string) : prog Ev (result unit) :=
  wrap_err ("git " +:+ hd EmptyString args) (trigger (HostGit (Some dir) (gitEnv gitSSH) args)).

Definition cloneRepo (url branch dest gitSSH : string) : prog Ev (result unit) :=
  runGit gitSSH (["clone"; "--depth"; "1"]
    ++ (if bool_decide (branch ≠ EmptyString) then ["--branch"; branch] else []) ++ [url; dest]).

Definition fetchReset (repoDir branch gitSSH : string) : prog Ev (result unit) :=
  try _ <- runGitIn repoDir gitSSH ["fetch"; "--depth"; "1"; "origin"; branch]
    catch err => mret (Err err) ;;
  runGitIn repoDir gitSSH ["reset"; "--hard"; "origin/" +:+ branch].

(** Record the failure, then return it wrapped. *)
Definition sync_failed (p : Project) (msg : string) (err : error) : prog Ev (result unit) :=
  _ ← UpdateProjectSyncStatus (Project_ID p) InventorySyncStatusFailed (Error err);
  mret (Err (ErrWrap msg err)).

Definition syncProject (p : Project) : prog Ev (result unit) :=
  let repoDir := filepath_Join [workspaceDir; uuid_String (Project_ID p)] in
  let cloneURL := Project_RepoURL p in
  try _ <-
    match Project_CredentialID p with
    | None => mret (Ok ())
    | Some c =>
        try _ <- GetCredentialWithSecret c catch err => mret (Err (ErrWrap "get credential" err)) ;;
        mret (Ok ())   (* both kinds of credential are ignored *)
    end
    catch err => mret (Err err) ;;
  exists_ ← trigger (HostStat repoDir);
  try _ <-
    (if exists_ : bool then
       try _ <- fetchReset repoDir (Project_Branch p) EmptyString
         catch err => sync_failed p "fetch/reset" err ;;
       mret (Ok ())
     else
       try _ <- cloneRepo cloneURL (Project_Branch p) repoDir EmptyString
         catch err => sync_failed p "clone" err ;;
       mret (Ok ()))
    catch err => mret (Err err) ;;
  let inventoryPath := filepath_Join [repoDir; Project_InventoryPath p] in
  content ← trigger (HostReadFile inventoryPath);
  match parseINIInventory (Project_ID p) inventoryPath content with
  | Err err => sync_failed p "parse inventory" err
  | Ok hosts =>
      try _ <- UpsertInventoryHosts (Project_ID p) hosts
        catch err => sync_failed p "upsert hosts" err ;;
      _ ← UpdateProjectSyncStatus (Project_ID p) InventorySyncStatusOK EmptyString;
      mret (Ok ())
  end.

Definition syncAll : prog Ev unit :=
  try projects <- GetAllProjects catch _ => mret () ;;
  for_each projects (λ p,
    if bool_decide (Project_RepoURL p = EmptyString) then mret ()
    else _ ← syncProject p; mret ()).
End sync.
