(* ===== verification/AgentInventory.v ===== *)
(** * The inventory file an agent writes: agent/internal/runner/inventory.go *)
From S2P Require Import Prelude.
From S2P Require Import Types.
From S2P Require Import Text.

(** fmt: the verb %s on a value decoded from JSON. *)
Class FmtLib := { fmt_s : json → string }.

(** Its documented behaviour on strings. *)
Class FmtLaws `{FmtLib} := { fmt_s_string : ∀ s, fmt_s (JStr s) = s }.

(** The order in which range visits a map: unspecified, but every entry once. *)
Class MapOrder := {
  range_vars : vars → list (string * json);
  range_groups : gmap string (list string) → list (string * list string);
}.

Class MapOrderLaws `{MapOrder} := {
  range_vars_perm : ∀ m, range_vars m ≡ₚ map_to_list m;
  range_groups_perm : ∀ m, range_groups m ≡ₚ map_to_list m;
}.

Section write.
Context `{FmtLib} `{MapOrder}.

(** [" %s=%s"] *)
Definition var_text (kv : string * json) : string := " " +:+ kv.1 +:+ "=" +:+ fmt_s kv.2.

Definition concat_str (l : list string) : string := foldr String.append EmptyString l.

Definition host_line (h : InventoryHost) : string :=
  InventoryHost_Hostname h +:+ " ansible_host=" +:+ InventoryHost_Hostname h
  +:+ concat_str (var_text <$> range_vars (InventoryHost_Vars h)).

(** [for _, g := range h.Groups { groups[g] = append(groups[g], h.Hostname) }] *)
Definition add_member (hostname : string) (groups : gmap string (list string)) (g : string)
    : gmap string (list string) :=
  <[g := default [] (groups !! g) ++ [hostname]]> groups.

Definition collect_groups (hosts : list InventoryHost) : gmap string (list string) :=
  foldl (λ groups h, foldl (add_member (InventoryHost_Hostname h)) groups (InventoryHost_Groups h))
    ∅ hosts.

(** The lines of one section, with the blank line after it. *)
Definition group_lines (gm : string * list string) : list string :=
  ("[" +:+ gm.1 +:+ "]") :: gm.2 ++ [EmptyString].

Definition inventory_lines (hosts : list InventoryHost) : list string :=
  ("[all]" :: (host_line <$> hosts) ++ [EmptyString])
  ++ mjoin (group_lines <$> range_groups (collect_groups hosts)).

(** Every line is followed by a newline. *)
Definition unlines (ls : list string) : string :=
  concat_str ((λ l, l +:+ String LF EmptyString) <$> ls).

(** The path and the contents given to os.WriteFile. *)
Definition WriteInventory (path : string) (hosts : list InventoryHost) : string * string :=
  (path, unlines (inventory_lines hosts)).
End write.
