(* ===== verification/AgentRunner.v ===== *)
(** * Running one job: agent/internal/runner/{runner,credential}.go

    The runner works on the agent's host: it writes files, runs git and
    ansible-playbook and removes its directory.  [HostEv] lists these
    interactions, [HostAnswer] what the host decides about one, and [host_perform]
    their effect on the files and on the trace of commands. *)
From S2P Require Import Prelude.
From S2P Require Import Prog.
From S2P Require Import Types.
From S2P Require Import Text.
From S2P Require Import AgentInventory.

(** encoding/json: Marshal of a map[string]any. *)
Class VarsJson := { json_Marshal_vars : vars → result string }.

(** ** The host *)

(** What exec.Cmd.Wait returns: nil, an ExitError with its code, another error. *)
Inductive WaitResult := WaitOk | WaitExit (code : Z) | WaitErr.

(** A playbook that ended: what it printed on the two pipes, in which order the
    two scanner goroutines advanced ([true] for stdout), and how it exited. *)
Record PlaybookEnd := {
  pb_stdout : string;
  pb_stderr : string;
  pb_schedule : list bool;
  pb_wait : WaitResult;
}.

Inductive HostEv : Type → Type :=
| MkdirAll (path : string) : HostEv (result unit)
| RemoveAll (path : string) : HostEv (result unit)
| Remove (path : string) : HostEv (result unit)
| WriteFile (path data : string) (perm : Z) : HostEv (result unit)
| RunGit (args env : list string) : HostEv (result unit)
| StartPlaybook (args env : list string) : HostEv (result unit)
| AwaitPlaybook : HostEv PlaybookEnd
| OnLog (line : JobLogLine) : HostEv unit
| CtxErr : HostEv bool.

(** What the host decides: whether each kind of interaction fails, what a failed
    write leaves of the file, what a failed RemoveAll leaves of the directory,
    which files a command writes, how the playbook ends, and whether the job was
    cancelled. *)
Record HostAnswer := {
  ha_mkdir : result unit;
  ha_removeall : result unit;
  ha_remove : result unit;
  ha_write : result unit;
  ha_partial : option string;
  ha_kept : gset string;
  ha_command : result unit;
  ha_writes : gmap string (Z * string);
  ha_end : PlaybookEnd;
  ha_cancelled : bool;
}.

(** Files with their permission bits, and what was run and logged. *)
Record Host := MkHost {
  h_files : gmap string (Z * string);
  h_commands : list (string * list string * list string);
  h_logs : list JobLogLine;
}.

(** The path is the directory or below it. *)
Definition is_under (dir path : string) : bool :=
  bool_decide (path = dir) || HasPrefix path (dir +:+ "/").

(** What os.RemoveAll leaves: everything elsewhere, and after a failure some of
    the directory. *)
Definition survives (a : HostAnswer) (dir path : string) : bool :=
  negb (is_under dir path) ||
  match ha_removeall a with Ok _ => false | Err _ => bool_decide (path ∈ ha_kept a) end.

(** O_CREATE gives the permission only to a file that does not exist. *)
Definition write_at (path data : string) (perm : Z) (files : gmap string (Z * string)) :
    gmap string (Z * string) :=
  <[path := (match files !! path with Some (m, _) => m | None => perm end, data)]> files.

Definition host_perform (X : Type) (a : HostAnswer) (e : HostEv X) (h : Host) : X * Host :=
  match e in HostEv X return X * Host with
  | MkdirAll _ => (ha_mkdir a, h)
  | RemoveAll dir =>
      (ha_removeall a,
       MkHost (filter (λ kv, survives a dir kv.1 = true) (h_files h)) (h_commands h) (h_logs h))
  | Remove path =>
      (ha_remove a, match ha_remove a with
                    | Ok _ => MkHost (delete path (h_files h)) (h_commands h) (h_logs h)
                    | Err _ => h end)
  | WriteFile path data perm =>
      (ha_write a, match ha_write a, ha_partial a with
                   | Ok _, _ => MkHost (write_at path data perm (h_files h)) (h_commands h) (h_logs h)
                   | Err _, Some part => MkHost (write_at path part perm (h_files h)) (h_commands h) (h_logs h)
                   | Err _, None => h end)
  | RunGit args env =>
      (ha_command a, MkHost (ha_writes a ∪ h_files h) (h_commands h ++ [("git", args, env)]) (h_logs h))
  | StartPlaybook args env =>
      (ha_command a, MkHost (h_files h) (h_commands h ++ [("ansible-playbook", args, env)]) (h_logs h))
  | AwaitPlaybook => (ha_end a, MkHost (ha_writes a ∪ h_files h) (h_commands h) (h_logs h))
  | OnLog line => ((), MkHost (h_files h) (h_commands h) (h_logs h ++ [line]))
  | CtxErr => (ha_cancelled a, h)
  end.

(** Nothing fails, and the playbook exits at once. *)
Definition quiet_host : HostAnswer := {|
  ha_mkdir := Ok (); ha_removeall := Ok (); ha_remove := Ok (); ha_write := Ok ();
  ha_partial := None; ha_kept := ∅; ha_command := Ok (); ha_writes := ∅;
  ha_end := {| pb_stdout := EmptyString; pb_stderr := EmptyString; pb_schedule := []; pb_wait := WaitOk |};
  ha_cancelled := false |}.

Definition host_run {A} (p : prog HostEv A) (ans : list HostAnswer) (h : Host)
    : A * (list HostAnswer * Host) := run host_perform quiet_host p ans h.

(** ** credential.go *)

(** [c.Fields[k]]: the zero value for an absent key. *)
Definition field (c : CredentialSecret) (k : string) : string :=
  default EmptyString (CredentialSecret_Fields c !! k).

(** [written] is the variable the Cleanup closure captures. *)
Record Creds := {
  Creds_SSHKeyPath : string;
  Creds_VaultPassPath : string;
  Creds_AnsibleUser : string;
  Creds_Env : list string;
  Creds_written : list string;
}.

Definition no_creds : Creds := {|
  Creds_SSHKeyPath := EmptyString; Creds_VaultPassPath := EmptyString;
  Creds_AnsibleUser := EmptyString; Creds_Env := []; Creds_written := [] |}.

Definition writeSecret (path data : string) : prog HostEv (result unit) :=
  trigger (WriteFile path data 384).   (* 0600 *)

(** One iteration of the loop: the cases of the switch. *)
Definition materialize_one (jobDir : string) (r : Creds) (c : CredentialSecret)
    : prog HostEv (result Creds) :=
  if bool_decide (CredentialSecret_Kind c = CredentialKindSSHKey) then
    let key := field c "private_key" in
    if bool_decide (key = EmptyString)
    then mret (Err (ErrText "ssh_key credential is missing private_key field")) else
    let path := filepath_Join [jobDir; "id_rsa"] in
    try _ <- writeSecret path key catch err => mret (Err (ErrWrap "write ssh key" err)) ;;
    mret (Ok {| Creds_SSHKeyPath := path; Creds_VaultPassPath := Creds_VaultPassPath r;
                Creds_AnsibleUser := Creds_AnsibleUser r;
                Creds_Env := Creds_Env r ++
                  ["GIT_SSH_COMMAND=ssh -i " +:+ path +:+ " -o StrictHostKeyChecking=no -o BatchMode=yes"];
                Creds_written := Creds_written r ++ [path] |})
  else if bool_decide (CredentialSecret_Kind c = CredentialKindMachineUser) then
    let key := field c "private_key" in
    if bool_decide (key = EmptyString)
    then mret (Err (ErrText "machine_user credential is missing private_key field")) else
    let path := filepath_Join [jobDir; "machine_id_rsa"] in
    try _ <- writeSecret path key catch err => mret (Err (ErrWrap "write machine_user key" err)) ;;
    mret (Ok {| Creds_SSHKeyPath := path; Creds_VaultPassPath := Creds_VaultPassPath r;
                Creds_AnsibleUser := field c "username"; Creds_Env := Creds_Env r;
                Creds_written := Creds_written r ++ [path] |})
  else if bool_decide (CredentialSecret_Kind c = CredentialKindVaultPassword) then
    let pass := field c "password" in
    if bool_decide (pass = EmptyString)
    then mret (Err (ErrText "vault_password credential is missing password field")) else
    let path := filepath_Join [jobDir; "vault_pass.txt"] in
    try _ <- writeSecret path pass catch err => mret (Err (ErrWrap "write vault password" err)) ;;
    mret (Ok {| Creds_SSHKeyPath := Creds_SSHKeyPath r; Creds_VaultPassPath := path;
                Creds_AnsibleUser := Creds_AnsibleUser r; Creds_Env := Creds_Env r;
                Creds_written := Creds_written r ++ [path] |})
  else mret (Ok r).

Fixpoint Materialize (jobDir : string) (r : Creds) (creds : list CredentialSecret)
    : prog HostEv (result Creds) :=
  match creds with
  | [] => mret (Ok r)
  | c :: creds =>
      try r' <- materialize_one jobDir r c catch err => mret (Err err) ;;
      Materialize jobDir r' creds
  end.

(** The Cleanup closure; a failure is only logged. *)
Definition Cleanup (creds : Creds) : prog HostEv unit :=
  for_each (Creds_written creds) (λ p, _ ← trigger (Remove p); mret ()).

Definition https_prefix : string := "https://".

Fixpoint httpsCloneURL (repoURL : string) (creds : list CredentialSecret) : string :=
  match creds with
  | [] => repoURL
  | c :: creds =>
      if bool_decide (CredentialSecret_Kind c = CredentialKindHTTPSToken) then
        let tok := field c "token" in
        if bool_decide (tok = EmptyString) then httpsCloneURL repoURL creds
        else if bool_decide (String.length https_prefix < String.length repoURL) &&
                HasPrefix repoURL https_prefix
        then https_prefix +:+ "oauth2:" +:+ tok +:+ "@" +:+ drop_str (String.length https_prefix) repoURL
        else httpsCloneURL repoURL creds
      else httpsCloneURL repoURL creds
  end.

(** ** Log lines *)

(** One scanner goroutine: the lines left, and the line it holds between
    nextSeq() and onLog. *)
Record Scanner := {
  sc_lines : list string;
  sc_held : option (Z * string);
}.

(** The counter, the two goroutines, and the lines passed to onLog so far. *)
Record LogState := {
  ls_seq : Z;
  ls_stdout : Scanner;
  ls_stderr : Scanner;
  ls_delivered : list JobLogLine;
}.

Definition log_line (n : Z) (line stream : string) : JobLogLine :=
  {| JobLogLine_Seq := n; JobLogLine_Line := line; JobLogLine_Stream := stream |}.

(** One step of a goroutine: take the next number, or pass the line on. *)
Definition advance_scanner (stream : string) (seq : Z) (sc : Scanner)
    : Z * Scanner * list JobLogLine :=
  match sc_held sc with
  | Some (n, line) => (seq, {| sc_lines := sc_lines sc; sc_held := None |}, [log_line n line stream])
  | None =>
      match sc_lines sc with
      | [] => (seq, sc, [])
      | line :: lines =>
          ((seq + 1)%Z, {| sc_lines := lines; sc_held := Some ((seq + 1)%Z, line) |}, [])
      end
  end.

Definition advance (s : LogState) (stdout : bool) : LogState :=
  if stdout then
    let '(seq, sc, out) := advance_scanner "stdout" (ls_seq s) (ls_stdout s) in
    {| ls_seq := seq; ls_stdout := sc; ls_stderr := ls_stderr s; ls_delivered := ls_delivered s ++ out |}
  else
    let '(seq, sc, out) := advance_scanner "stderr" (ls_seq s) (ls_stderr s) in
    {| ls_seq := seq; ls_stdout := ls_stdout s; ls_stderr := sc; ls_delivered := ls_delivered s ++ out |}.

(** bufio.Scanner stops at a line that is too long. *)
Definition new_scanner (text : string) : Scanner := {| sc_lines := (Scan text).1; sc_held := None |}.

Definition start_logs (o : PlaybookEnd) : LogState := {|
  ls_seq := 0; ls_stdout := new_scanner (pb_stdout o); ls_stderr := new_scanner (pb_stderr o);
  ls_delivered := [] |}.

(** Steps until a goroutine ends. *)
Definition steps_left (sc : Scanner) : nat :=
  2 * length (sc_lines sc) + match sc_held sc with Some _ => 1 | None => 0 end.

(** wg.Wait(): after the schedule both goroutines run to their end. *)
Definition wait_logs (s : LogState) : LogState :=
  foldl advance s (replicate (steps_left (ls_stdout s)) true ++ replicate (steps_left (ls_stderr s)) false).

Definition logged (o : PlaybookEnd) : list JobLogLine :=
  ls_delivered (wait_logs (foldl advance (start_logs o) (pb_schedule o))).

(** ** runner.go *)

Record Result := {
  Result_Status : JobStatus;
  Result_ExitCode : Z;
}.

Definition failed : Result := {| Result_Status := JobStatusFailed; Result_ExitCode := -1 |}.

Section run.
Context `{UuidLib} `{OsEnv} `{VarsJson} `{FmtLib} `{MapOrder}.

Definition gitClone (repoURL branch dest : string) (rawCreds : list CredentialSecret) (creds : Creds)
    : prog HostEv (result unit) :=
  if bool_decide (repoURL = EmptyString) then mret (Ok ()) else
  let url := httpsCloneURL repoURL rawCreds in
  let args := ["clone"; "--depth"; "1"]
    ++ (if bool_decide (branch ≠ EmptyString) then ["--branch"; branch] else []) ++ [url; dest] in
  wrap_err "git clone" (trigger (RunGit args (os_Environ ++ Creds_Env creds))).

(** [if x != "" { args = append(args, flag, x) }] *)
Definition flag_arg (flag x : string) : list string :=
  if bool_decide (x ≠ EmptyString) then [flag; x] else [].

Definition playbook_args (playbookPath inventoryPath extraVarsPath : string) (creds : Creds)
    : list string :=
  ["-i"; inventoryPath]
  ++ (if bool_decide (extraVarsPath ≠ EmptyString) then ["--extra-vars"; "@" +:+ extraVarsPath] else [])
  ++ flag_arg "--vault-password-file" (Creds_VaultPassPath creds)
  ++ flag_arg "--private-key" (Creds_SSHKeyPath creds)
  ++ flag_arg "--user" (Creds_AnsibleUser creds)
  ++ [playbookPath].

Definition playbook_env (creds : Creds) : list string :=
  (os_Environ ++ ["ANSIBLE_FORCE_COLOR=1"; "ANSIBLE_STDOUT_CALLBACK=default"]) ++ Creds_Env creds.

Definition exit_code (w : WaitResult) : Z :=
  match w with WaitOk => 0 | WaitExit c => c | WaitErr => -1 end.

(** A failure to open the pipes or to start the command gives -1. *)
Definition runPlaybook (playbookPath inventoryPath extraVarsPath : string) (creds : Creds)
    : prog HostEv Z :=
  try _ <- trigger (StartPlaybook (playbook_args playbookPath inventoryPath extraVarsPath creds)
                      (playbook_env creds))
    catch _ => mret (-1)%Z ;;
  o ← trigger AwaitPlaybook;
  _ ← for_each (logged o) (λ l, trigger (OnLog l));
  mret (exit_code (pb_wait o)).

Definition writeExtraVars (path : string) (v : vars) : prog HostEv (result unit) :=
  match json_Marshal_vars v with
  | Err err => mret (Err err)
  | Ok data => trigger (WriteFile path data 420)   (* 0644 *)
  end.

(** The status of a playbook that was started or not. *)
Definition result_of (exitCode : Z) (cancelled : bool) : Result := {|
  Result_Status :=
    if cancelled then JobStatusCancelled
    else if bool_decide (exitCode ≠ 0%Z) then JobStatusFailed else JobStatusSuccess;
  Result_ExitCode := exitCode |}.

(** Run after the credentials are written. *)
Definition run_with (jobDir : string) (payload : JobPayload) (creds : Creds) : prog HostEv Result :=
  let repoDir := filepath_Join [jobDir; "repo"] in
  try _ <- gitClone (JobPayload_RepoURL payload) (JobPayload_RepoBranch payload) repoDir
             (JobPayload_Credentials payload) creds
    catch _ => mret failed ;;
  let inventoryPath := filepath_Join [jobDir; "inventory.ini"] in
  let '(path, content) := WriteInventory inventoryPath (JobPayload_Inventory payload) in
  try _ <- trigger (WriteFile path content 420) catch _ => mret failed ;;
  let extraVarsPath := filepath_Join [jobDir; "extra_vars.json"] in
  try _ <- writeExtraVars extraVarsPath (JobPayload_ExtraVars payload) catch _ => mret failed ;;
  let playbookPath := filepath_Join [repoDir; JobPayload_Playbook payload] in
  exitCode ← runPlaybook playbookPath inventoryPath extraVarsPath creds;
  cancelled ← trigger CtxErr;
  mret (result_of exitCode cancelled).

(** Run between creating the job directory and removing it: the deferred
    Cleanup is registered once the credentials are written. *)
Definition run_in (jobDir : string) (payload : JobPayload) : prog HostEv Result :=
  try creds <- Materialize jobDir no_creds (JobPayload_Credentials payload)
    catch _ => mret failed ;;
  r ← run_with jobDir payload creds;
  _ ← Cleanup creds;
  mret r.

Definition job_dir (workDir : string) (payload : JobPayload) : string :=
  filepath_Join [workDir; uuid_String (JobPayload_JobID payload)].

Definition Run (workDir : string) (payload : JobPayload) : prog HostEv Result :=
  let jobDir := job_dir workDir payload in
  try _ <- trigger (MkdirAll jobDir) catch _ => mret failed ;;
  r ← run_in jobDir payload;
  _ ← trigger (RemoveAll jobDir);
  mret r.
End run.
