(* ===== verification/AgentRunnerFacts.v ===== *)
(** * Correctness of the job runner

    What a job leaves on the agent's host, what its commands reveal, how its
    output is numbered, and which result it reports, whatever the host does. *)
From S2P Require Import Prelude.
From S2P Require Import Prog.
From S2P Require Import Types.
From S2P Require Import Text.
From S2P Require Import AgentInventory.
From S2P Require Import AgentRunner.

(** ** Weakest preconditions over the answers that satisfy [A] *)

(** For a run over any state [S]: the host alone, or the host with what was said. *)
Section hwp.
Context {S : Type} (perform : ∀ X, HostAnswer → HostEv X → S → X * S) (A : HostAnswer → Prop).

Fixpoint hwp {X} (p : prog HostEv X) (Q : X → S → Prop) (h : S) : Prop :=
  match p with
  | Ret x => Q x h
  | Vis e k => ∀ a, A a → hwp (k (perform _ a e h).1) Q (perform _ a e h).2
  end.

Lemma hwp_run {X} (p : prog HostEv X) Q h ans :
  A quiet_host → Forall A ans → hwp p Q h →
  Q (run perform quiet_host p ans h).1 (run perform quiet_host p ans h).2.2.
Proof.
  intros Hq Ha. revert ans h Ha. induction p as [x|Y e k IH]; intros ans h Ha Hp; [done|].
  simpl in *. assert (A (hd quiet_host ans)) as Hh by (by destruct Ha).
  specialize (Hp _ Hh). destruct (perform _ _ _ _) as [y h']. apply IH; [by destruct Ha|done].
Qed.

Lemma hwp_mono {X} (p : prog HostEv X) (Q Q' : X → S → Prop) h :
  (∀ x h, Q x h → Q' x h) → hwp p Q h → hwp p Q' h.
Proof. intros HQ. revert h. induction p as [x|Y e k IH]; intros h; simpl; [apply HQ|]. eauto. Qed.

Lemma hwp_bind {X Y} (p : prog HostEv X) (f : X → prog HostEv Y) Q h :
  hwp p (λ x, hwp (f x) Q) h → hwp (p ≫= f) Q h.
Proof. revert h. induction p as [x|Z e k IH]; intros h; simpl; [done|]. intros Hp a Ha. by apply IH, Hp. Qed.

Lemma hwp_prog_bind {X Y} (p : prog HostEv X) (f : X → prog HostEv Y) Q h :
  hwp p (λ x, hwp (f x) Q) h → hwp (prog_bind f p) Q h.
Proof. apply hwp_bind. Qed.

Lemma hwp_wrap_err {X} msg (p : prog HostEv (result X)) Q h :
  hwp p (λ r, Q (map_err (ErrWrap msg) r)) h → hwp (wrap_err msg p) Q h.
Proof. intros Hp. by apply hwp_bind. Qed.

Lemma hwp_for_each {X} (I : list X → S → Prop) (xs : list X) (f : X → prog HostEv unit) Q h :
  (∀ pre x h, I pre h → hwp (f x) (λ _, I (pre ++ [x])) h) →
  (∀ h, I xs h → Q () h) → I [] h → hwp (for_each xs f) Q h.
Proof.
  intros Hf. assert (∀ xs pre h Q, (∀ h, I (pre ++ xs) h → Q () h) → I pre h → hwp (for_each xs f) Q h) as Hgen;
    [|intros HQ HI; by apply (Hgen xs [])].
  clear xs h Q. intros xs. induction xs as [|x xs IH]; intros pre h Q HQ HI; cbn [for_each].
  - apply HQ. by rewrite app_nil_r.
  - apply hwp_bind. eapply hwp_mono; [|by apply Hf]. intros [] h' HI'. apply (IH (pre ++ [x])); [|done].
    intros h'' HI''. apply HQ. by rewrite <-app_assoc in HI''.
Qed.

Lemma hwp_any {X} (p : prog HostEv X) h : hwp p (λ _ _, True) h.
Proof. revert h. induction p as [x|Y e k IH]; intros h; simpl; auto. Qed.
End hwp.

Lemma hwp_host_run A {X} (p : prog HostEv X) Q h ans :
  A quiet_host → Forall A ans → hwp host_perform A p Q h →
  Q (host_run p ans h).1 (host_run p ans h).2.2.
Proof. apply hwp_run. Qed.

Lemma host_run_bind {X Y} (p : prog HostEv X) (f : X → prog HostEv Y) ans h :
  host_run (p ≫= f) ans h =
  host_run (f (host_run p ans h).1) (host_run p ans h).2.1 (host_run p ans h).2.2.
Proof. unfold host_run. rewrite run_bind. by destruct (run _ _ p ans h) as [x [ans' h']]. Qed.

Lemma host_run_try {X Y} (p : prog HostEv (result X)) (g : error → prog HostEv Y) (k : X → prog HostEv Y)
    ans h x :
  (host_run p ans h).1 = Ok x →
  host_run (prog_bind (λ r, match r with Ok x => k x | Err e => g e end) p) ans h =
  host_run (k x) (host_run p ans h).2.1 (host_run p ans h).2.2.
Proof. intros Hx. etrans; [apply (host_run_bind p)|]. by rewrite Hx. Qed.

Lemma host_run_try_bind {X Y Z} (p : prog HostEv (result X)) (g : error → prog HostEv Y)
    (k : X → prog HostEv Y) (f : Y → prog HostEv Z) ans h x :
  (host_run p ans h).1 = Ok x →
  host_run (prog_bind (λ r, match r with Ok x => k x | Err e => g e end) p ≫= f) ans h =
  host_run (k x ≫= f) (host_run p ans h).2.1 (host_run p ans h).2.2.
Proof.
  intros Hx. etrans; [apply host_run_bind|]. rewrite (host_run_try p g k ans h x Hx).
  symmetry. apply host_run_bind.
Qed.

Lemma host_run_answers {X} A (p : prog HostEv X) ans h :
  Forall A ans → Forall A (host_run p ans h).2.1.
Proof.
  unfold host_run. revert ans h. induction p as [x|Y e k IH]; simpl; intros ans h Ha; [done|].
  destruct (host_perform _ _ _ _) as [y h']. apply IH. by destruct Ha.
Qed.

(** Every answer. *)
Definition any_host : HostAnswer → Prop := λ _, True.

(** Run through a program one interaction at a time. *)
Ltac hstep :=
  lazymatch goal with
  | |- hwp _ _ (prog_bind _ _) _ _ => apply hwp_prog_bind
  | |- hwp _ _ (_ ≫= _) _ _ => apply hwp_bind
  | |- hwp _ _ (wrap_err _ _) _ _ => apply hwp_wrap_err
  | |- hwp _ _ (trigger _) _ _ =>
      let a := fresh "a" in let Ha := fresh "Ha" in intros a Ha; cbn [host_perform fst snd hwp]
  | |- hwp _ _ (mret _) _ _ => cbn [mret prog_ret hwp]
  end.

(** ** What is left on the host *)

Section cleanup.
Context `{UuidLib} `{OsEnv} `{VarsJson} `{FmtLib} `{MapOrder}.

(** RemoveAll succeeds whenever it is tried. *)
Definition removeall_ok (a : HostAnswer) : Prop := ha_removeall a = Ok ().

(** A job leaves nothing behind: whatever fails or is printed, and whatever
    files the commands write, when Run returns no file is left under the job
    directory, provided os.RemoveAll works; if the directory could not even be
    created, no file was touched. *)
Lemma Run_leaves_nothing workDir payload ans h :
  Forall removeall_ok ans →
  let '(r, (_, h')) := host_run (Run workDir payload) ans h in
  (r = failed ∧ h' = h) ∨
  ∀ path, is_under (job_dir workDir payload) path = true → h_files h' !! path = None.
Proof.
  intros Ha.
  pose proof (hwp_host_run removeall_ok (Run workDir payload) (λ r h',
    (r = failed ∧ h' = h) ∨
    ∀ path, is_under (job_dir workDir payload) path = true → h_files h' !! path = None) h ans) as Hr.
  destruct (host_run _ _ _) as [r [ans' h']]. apply Hr; [done|done|]. clear.
  unfold Run. hstep. hstep. destruct (ha_mkdir a); [|by left].
  hstep. eapply (hwp_mono _ _ _ (λ _ _, True)).
  - intros r h1 _. hstep. hstep. right. intros path Hp. cbn [h_files].
    apply map_lookup_filter_None. right. intros f _. unfold survives. cbn [fst]. by rewrite Hp, Ha0.
  - clear. generalize (run_in (job_dir workDir payload) payload). intros p. revert h.
    induction p as [x|Y e k IH]; intros h; simpl; auto.
Qed.

(** The files that credentials are written to. *)
Definition secret_path (jobDir : string) (c : CredentialSecret) : option string :=
  if bool_decide (CredentialSecret_Kind c = CredentialKindSSHKey) then Some (filepath_Join [jobDir; "id_rsa"])
  else if bool_decide (CredentialSecret_Kind c = CredentialKindMachineUser)
  then Some (filepath_Join [jobDir; "machine_id_rsa"])
  else if bool_decide (CredentialSecret_Kind c = CredentialKindVaultPassword)
  then Some (filepath_Join [jobDir; "vault_pass.txt"])
  else None.

Definition secret_paths (jobDir : string) (creds : list CredentialSecret) : list string :=
  omap (secret_path jobDir) creds.

Lemma materialize_one_written A jobDir r c h :
  hwp host_perform A (materialize_one jobDir r c) (λ res _, match res with
    | Ok r' => Creds_written r' = Creds_written r ++ option_list (secret_path jobDir c)
    | Err _ => True end) h.
Proof.
  unfold materialize_one, secret_path, writeSecret.
  repeat case_bool_decide; repeat hstep; try done; try (by rewrite app_nil_r);
    destruct (ha_write a); by repeat hstep.
Qed.

Lemma Materialize_written A jobDir r creds h :
  hwp host_perform A (Materialize jobDir r creds) (λ res _, match res with
    | Ok r' => Creds_written r' = Creds_written r ++ secret_paths jobDir creds
    | Err _ => True end) h.
Proof.
  revert r h. induction creds as [|c creds IH]; intros r h; cbn [Materialize].
  - hstep. by rewrite app_nil_r.
  - hstep. eapply hwp_mono; [|apply materialize_one_written]. intros [r'|e] h' Hr; [|done].
    eapply hwp_mono; [|apply IH]. intros [r''|e] h'' Hr''; [|done].
    rewrite Hr'', Hr, <-app_assoc. f_equal. unfold secret_paths. cbn [omap list_omap].
    by destruct (secret_path jobDir c).
Qed.

Definition remove_ok (a : HostAnswer) : Prop := ha_remove a = Ok ().

Lemma Cleanup_removes creds h :
  hwp host_perform remove_ok (Cleanup creds) (λ _ h', ∀ p, p ∈ Creds_written creds → h_files h' !! p = None) h.
Proof.
  unfold Cleanup. eapply (hwp_for_each _ _ (λ pre h', ∀ p, p ∈ pre → h_files h' !! p = None)); [|done|set_solver].
  intros pre x h1 Hpre. hstep. hstep. hstep. rewrite Ha. cbn [h_files].
  intros p [Hp|Hp]%elem_of_app.
  - apply lookup_delete_None. right. by apply Hpre.
  - apply list_elem_of_singleton in Hp as ->. apply lookup_delete_eq.
Qed.

(** C18: secrets are removed even when the directory cannot be: once all the
    credentials of a job are written, however the job goes on, and whether or
    not os.RemoveAll then works, no file that a credential was written to
    remains when Run returns, provided os.Remove works. *)
Theorem Run_removes_secrets workDir payload ans h a :
  let jobDir := job_dir workDir payload in
  Forall remove_ok (a :: ans) → ha_mkdir a = Ok () →
  (∃ c, (host_run (Materialize jobDir no_creds (JobPayload_Credentials payload)) ans h).1 = Ok c) →
  ∀ path, path ∈ secret_paths jobDir (JobPayload_Credentials payload) →
  h_files (host_run (Run workDir payload) (a :: ans) h).2.2 !! path = None.
Proof.
  intros jobDir [_ Hans]%Forall_cons Hmk [c Hc] path Hpath.
  assert (host_run (Run workDir payload) (a :: ans) h =
    host_run (r ← run_in jobDir payload; _ ← trigger (RemoveAll jobDir); mret r) ans h) as ->.
  { unfold Run, host_run. simpl. by rewrite Hmk. }
  pose proof (hwp_host_run any_host _ _ h ans I (Forall_true _ _ (λ _, I))
    (Materialize_written any_host jobDir no_creds (JobPayload_Credentials payload) h)) as Hw.
  rewrite Hc in Hw. cbn [no_creds Creds_written app] in Hw.
  unfold run_in. rewrite (host_run_try_bind _ _ _ _ _ _ _ Hc).
  apply (hwp_host_run remove_ok _ (λ _ h, h_files h !! path = None)); [done|by apply host_run_answers|].
  hstep. hstep. eapply hwp_mono; [|apply hwp_any]. intros r h1 _.
  cbv beta. hstep. eapply hwp_mono; [|apply Cleanup_removes]. intros [] h2 Hrem. cbv beta.
  repeat hstep. cbn [h_files]. apply map_lookup_filter_None. left. apply Hrem. by rewrite Hw.
Qed.
End cleanup.

(** ** What the commands reveal *)

Section alike.
Context (S : string → Prop).

(** The same files with the same permissions, and the same contents but for the
    paths in [S]. *)
Definition files_alike (f1 f2 : gmap string (Z * string)) : Prop :=
  ∀ p, fst <$> f1 !! p = fst <$> f2 !! p ∧ (¬ S p → f1 !! p = f2 !! p).

(** Moreover the same commands and log lines. *)
Record host_sim (h1 h2 : Host) : Prop := {
  sim_files : files_alike (h_files h1) (h_files h2);
  sim_commands : h_commands h1 = h_commands h2;
  sim_logs : h_logs h1 = h_logs h2;
}.

(** Two programs that differ only in what they write to files in [S]. *)
Inductive sim {X} : prog HostEv X → prog HostEv X → Prop :=
| sim_ret x : sim (Ret x) (Ret x)
| sim_vis {Y} (e : HostEv Y) k k' : (∀ y, sim (k y) (k' y)) → sim (Vis e k) (Vis e k')
| sim_write path d d' perm k k' : S path →
    (∀ y, sim (k y) (k' y)) → sim (Vis (WriteFile path d perm) k) (Vis (WriteFile path d' perm) k').

Lemma sim_refl {X} (p : prog HostEv X) : sim p p.
Proof. induction p; by constructor. Qed.

Lemma sim_bind {X Y} (p p' : prog HostEv X) (f f' : X → prog HostEv Y) :
  sim p p' → (∀ x, sim (f x) (f' x)) → sim (p ≫= f) (p' ≫= f').
Proof. intros Hp Hf. induction Hp; simpl; [apply Hf|by apply sim_vis|by apply sim_write]. Qed.

Lemma sim_prog_bind {X Y} (p p' : prog HostEv X) (f f' : X → prog HostEv Y) :
  sim p p' → (∀ x, sim (f x) (f' x)) → sim (prog_bind f p) (prog_bind f' p').
Proof. apply sim_bind. Qed.

(** What is written may differ in [S]. *)
Lemma write_at_sim path d d' perm f1 f2 :
  d = d' ∨ S path → files_alike f1 f2 →
  files_alike (write_at path d perm f1) (write_at path d' perm f2).
Proof.
  intros Hd Hf p. unfold write_at. destruct (Hf p) as [Hp Hc], (Hf path) as [Hpath _].
  destruct (decide (path = p)) as [<-|Hne]; [|by rewrite !lookup_insert_ne].
  rewrite !lookup_insert_eq. destruct (f1 !! path) as [[]|], (f2 !! path) as [[]|]; naive_solver.
Qed.

Lemma union_sim (w f1 f2 : gmap string (Z * string)) :
  files_alike f1 f2 → files_alike (w ∪ f1) (w ∪ f2).
Proof.
  intros Hf p. rewrite !lookup_union. destruct (Hf p) as [Hp Hc].
  split; [|intros HS; by rewrite (Hc HS)].
  destruct (w !! p), (f1 !! p), (f2 !! p); simpl in *; congruence.
Qed.

Lemma filter_sim (b : string → bool) (f1 f2 : gmap string (Z * string)) :
  files_alike f1 f2 →
  files_alike (filter (λ kv, b kv.1 = true) f1) (filter (λ kv, b kv.1 = true) f2).
Proof.
  intros Hf p. rewrite !map_lookup_filter. destruct (Hf p) as [Hp Hc]. split.
  - destruct (f1 !! p), (f2 !! p); simpl in *; try done. by repeat case_guard.
  - intros HS. by rewrite (Hc HS).
Qed.

Lemma delete_sim path (f1 f2 : gmap string (Z * string)) :
  files_alike f1 f2 → files_alike (delete path f1) (delete path f2).
Proof.
  intros Hf p. destruct (decide (path = p)) as [<-|Hne]; [by rewrite !lookup_delete_eq|].
  rewrite !lookup_delete_ne by done. apply Hf.
Qed.

Lemma host_perform_sim X (a : HostAnswer) (e : HostEv X) h1 h2 :
  host_sim h1 h2 →
  (host_perform X a e h1).1 = (host_perform X a e h2).1 ∧
  host_sim (host_perform X a e h1).2 (host_perform X a e h2).2.
Proof.
  intros [Hf Hc Hl]. split; [by destruct e|].
  destruct e; simpl.
  all: repeat match goal with |- context [match ?x with Ok _ => _ | _ => _ end] => destruct x end.
  all: try (destruct (ha_partial a)).
  all: split; cbn [h_files h_commands h_logs]; try done; try congruence.
  all: try (by apply union_sim); try (by apply write_at_sim; [left|]).
  all: first [by apply filter_sim|by apply delete_sim].
Qed.

Lemma host_perform_write_sim (a : HostAnswer) path d d' perm h1 h2 :
  S path → host_sim h1 h2 →
  (host_perform _ a (WriteFile path d perm) h1).1 = (host_perform _ a (WriteFile path d' perm) h2).1 ∧
  host_sim (host_perform _ a (WriteFile path d perm) h1).2 (host_perform _ a (WriteFile path d' perm) h2).2.
Proof.
  intros HS Hs. split; [done|]. pose proof Hs as [Hf Hc Hl]. simpl.
  destruct (ha_write a); [|destruct (ha_partial a)]; try done;
    split; try done; cbn [h_files]; apply write_at_sim; auto.
Qed.

Lemma sim_run {X} (p p' : prog HostEv X) ans h1 h2 :
  sim p p' → host_sim h1 h2 →
  (host_run p ans h1).1 = (host_run p' ans h2).1 ∧
  host_sim (host_run p ans h1).2.2 (host_run p' ans h2).2.2.
Proof.
  unfold host_run. intros Hp. revert ans h1 h2.
  induction Hp as [x|Y e k k' _ IH|path d d' perm k k' HS _ IH]; intros ans h1 h2 Hs; cbn [run].
  - done.
  - destruct (host_perform_sim _ (hd quiet_host ans) e h1 h2 Hs) as [Hy Hs'].
    destruct (host_perform _ _ _ h1) as [y h1'], (host_perform _ _ _ h2) as [y' h2'].
    simpl in *. subst. by apply IH.
  - destruct (host_perform_write_sim (hd quiet_host ans) path d d' perm h1 h2 HS Hs) as [Hy Hs'].
    destruct (host_perform _ _ _ h1) as [y h1'], (host_perform _ _ _ h2) as [y' h2'].
    simpl in *. subst. by apply IH.
Qed.
End alike.

(** Credentials that differ only in their private keys and passwords: the same
    kinds, user names and tokens, and the same fields are missing. *)
Definition same_shape (c c' : CredentialSecret) : Prop :=
  CredentialSecret_Kind c = CredentialSecret_Kind c' ∧
  (∀ k, field c k = EmptyString ↔ field c' k = EmptyString) ∧
  field c "username" = field c' "username" ∧ field c "token" = field c' "token".

Definition with_credentials (p : JobPayload) (creds : list CredentialSecret) : JobPayload := {|
  JobPayload_JobID := JobPayload_JobID p; JobPayload_TemplateID := JobPayload_TemplateID p;
  JobPayload_Playbook := JobPayload_Playbook p; JobPayload_Inventory := JobPayload_Inventory p;
  JobPayload_ExtraVars := JobPayload_ExtraVars p; JobPayload_Credentials := creds;
  JobPayload_CallbackURL := JobPayload_CallbackURL p; JobPayload_RepoURL := JobPayload_RepoURL p;
  JobPayload_RepoBranch := JobPayload_RepoBranch p |}.

Lemma materialize_one_sim (S : string → Prop) jobDir r c c' :
  (∀ p, secret_path jobDir c = Some p → S p) →
  same_shape c c' → sim S (materialize_one jobDir r c) (materialize_one jobDir r c').
Proof.
  intros HS (Hk & He & Hu & _). revert HS. unfold secret_path, materialize_one, writeSecret.
  assert (∀ k, bool_decide (field c k = EmptyString) = bool_decide (field c' k = EmptyString)) as Hb
    by (intros k; apply bool_decide_ext, He).
  rewrite <-Hk, !Hb, Hu.
  repeat match goal with |- context [if ?b then _ else _] => destruct b end; intros HS; try apply sim_refl.
  all: apply sim_write; [by apply HS|]; intros [[]|e]; apply sim_refl.
Qed.

Lemma Materialize_sim (S : string → Prop) jobDir r cs cs' :
  (∀ p, p ∈ secret_paths jobDir cs → S p) →
  Forall2 same_shape cs cs' → sim S (Materialize jobDir r cs) (Materialize jobDir r cs').
Proof.
  intros HS Hs. revert r HS. induction Hs as [|c c' cs cs' Hc _ IH]; intros r HS; cbn [Materialize].
  - apply sim_refl.
  - unfold secret_paths in HS. cbn [omap list_omap] in HS. apply sim_prog_bind.
    + apply materialize_one_sim; [|done]. intros p Hp. apply HS. rewrite Hp. set_solver.
    + intros [r'|e]; [|apply sim_refl]. apply IH. intros p Hp. apply HS.
      destruct (secret_path jobDir c); [by right|done].
Qed.

Lemma httpsCloneURL_shape url cs cs' : Forall2 same_shape cs cs' → httpsCloneURL url cs = httpsCloneURL url cs'.
Proof.
  intros Hs. induction Hs as [|c c' cs cs' (Hk & _ & _ & Ht) _ IH]; [done|].
  cbn [httpsCloneURL]. by rewrite Hk, Ht, IH.
Qed.

Section reveal.
Context `{UuidLib} `{OsEnv} `{VarsJson} `{FmtLib} `{MapOrder}.

(** C19: keys and passwords reach only their own files: two jobs that differ only
    in their private keys and passwords, on hosts that answer alike, run the same
    commands with the same arguments and environment, log the same lines, report
    the same result, and leave the same files with the same permissions; the
    contents of these are the same too, except for the files the credentials
    themselves were written to, which hold them until they are removed. *)
Theorem Run_hides_secrets workDir payload creds' ans h :
  Forall2 same_shape (JobPayload_Credentials payload) creds' →
  let r1 := host_run (Run workDir payload) ans h in
  let r2 := host_run (Run workDir (with_credentials payload creds')) ans h in
  r1.1 = r2.1 ∧ h_commands r1.2.2 = h_commands r2.2.2 ∧ h_logs r1.2.2 = h_logs r2.2.2 ∧
  (∀ p, fst <$> h_files r1.2.2 !! p = fst <$> h_files r2.2.2 !! p) ∧
  (∀ p, p ∉ secret_paths (job_dir workDir payload) (JobPayload_Credentials payload) →
     h_files r1.2.2 !! p = h_files r2.2.2 !! p).
Proof.
  set (S := λ p, p ∈ secret_paths (job_dir workDir payload) (JobPayload_Credentials payload)).
  intros Hs. destruct (sim_run S (Run workDir payload) (Run workDir (with_credentials payload creds')) ans h h)
    as [Hr [Hf Hc Hl]].
  2: by repeat split.
  2: { do 3 (split; [done|]). split; [apply Hf|]. intros p Hp. by apply Hf. }
  unfold Run, run_in. change (job_dir workDir (with_credentials payload creds')) with (job_dir workDir payload).
  apply sim_vis. intros [[]|e]; [|apply sim_refl]. apply sim_prog_bind; [|intros r; apply sim_refl].
  apply sim_prog_bind; [by apply Materialize_sim|]. intros [creds|e]; [|apply sim_refl].
  apply sim_bind; [|intros r; apply sim_refl].
  unfold run_with, gitClone. cbn [with_credentials JobPayload_Credentials JobPayload_RepoURL
    JobPayload_RepoBranch JobPayload_Playbook JobPayload_Inventory JobPayload_ExtraVars].
  rewrite (httpsCloneURL_shape _ _ _ Hs). apply sim_refl.
Qed.
End reveal.

(** ** The result *)

(** The specification of Materialize: what one credential adds, if its field is
    there. *)
Definition creds_of_one (jobDir : string) (r : Creds) (c : CredentialSecret) : option Creds :=
  let has k := bool_decide (field c k ≠ EmptyString) in
  if bool_decide (CredentialSecret_Kind c = CredentialKindSSHKey) then
    if has "private_key" then
      let path := filepath_Join [jobDir; "id_rsa"] in
      Some (Build_Creds path (Creds_VaultPassPath r) (Creds_AnsibleUser r)
        (Creds_Env r ++ ["GIT_SSH_COMMAND=ssh -i " +:+ path +:+ " -o StrictHostKeyChecking=no -o BatchMode=yes"])
        (Creds_written r ++ [path]))
    else None
  else if bool_decide (CredentialSecret_Kind c = CredentialKindMachineUser) then
    if has "private_key" then
      let path := filepath_Join [jobDir; "machine_id_rsa"] in
      Some (Build_Creds path (Creds_VaultPassPath r) (field c "username") (Creds_Env r)
        (Creds_written r ++ [path]))
    else None
  else if bool_decide (CredentialSecret_Kind c = CredentialKindVaultPassword) then
    if has "password" then
      let path := filepath_Join [jobDir; "vault_pass.txt"] in
      Some (Build_Creds (Creds_SSHKeyPath r) path (Creds_AnsibleUser r) (Creds_Env r)
        (Creds_written r ++ [path]))
    else None
  else Some r.

Definition creds_of (jobDir : string) (cs : list CredentialSecret) : option Creds :=
  foldl (λ r c, r ← r; creds_of_one jobDir r c) (Some no_creds) cs.

(** What was said on the host: each interaction with its answer. *)
Inductive exchange : Type :=
| Told {X : Type} (e : HostEv X) (x : X).

(** A run that also keeps the conversation. *)
Definition talk_perform (X : Type) (a : HostAnswer) (e : HostEv X) (s : list exchange * Host)
    : X * (list exchange * Host) :=
  let '(x, h) := host_perform X a e s.2 in (x, (s.1 ++ [Told e x], h)).

Definition host_talk {A} (p : prog HostEv A) (ans : list HostAnswer) (h : Host)
    : A * (list HostAnswer * (list exchange * Host)) := run talk_perform quiet_host p ans ([], h).

Lemma talk_erase {A} (p : prog HostEv A) ans s :
  run host_perform quiet_host p ans s.2 =
  let '(r, (ans', s')) := run talk_perform quiet_host p ans s in (r, (ans', s'.2)).
Proof.
  revert ans s. induction p as [x|Y e k IH]; intros ans s; cbn [run]; [done|]. unfold talk_perform at 1.
  destruct (host_perform _ _ _ _) as [y h']. apply (IH y _ (_, h')).
Qed.

(** The starts of a playbook, the ends of playbooks awaited, and the answers about
    the context in a conversation. *)
Definition start_of (x : exchange) : option (result unit) :=
  match x with
  | @Told X e y => match e in HostEv X return X → option (result unit) with
                   | StartPlaybook _ _ => Some | _ => λ _, None end y
  end.

Definition end_of (x : exchange) : option PlaybookEnd :=
  match x with
  | @Told X e y => match e in HostEv X return X → option PlaybookEnd with
                   | AwaitPlaybook => Some | _ => λ _, None end y
  end.

Definition ctx_of (x : exchange) : option bool :=
  match x with
  | @Told X e y => match e in HostEv X return X → option bool with
                   | CtxErr => Some | _ => λ _, None end y
  end.

(** An interaction before the playbook that failed. *)
Definition refused (x : exchange) : bool :=
  match x with
  | @Told X e y => match e in HostEv X return X → bool with
                   | MkdirAll _ | WriteFile _ _ _ | RunGit _ _ =>
                       λ y, match y with Ok _ => false | Err _ => true end
                   | _ => λ _, false end y
  end.

(** The three kinds of playbook exchanges together. *)
Definition playbook_talk (d : list exchange) : list (result unit) * list PlaybookEnd * list bool :=
  (omap start_of d, omap end_of d, omap ctx_of d).

Arguments playbook_talk : simpl never.

Lemma playbook_talk_app d d' :
  playbook_talk (d ++ d') =
  (omap start_of d ++ omap start_of d', omap end_of d ++ omap end_of d', omap ctx_of d ++ omap ctx_of d').
Proof. unfold playbook_talk. by rewrite !omap_app. Qed.

(** Only these commands ran, and nothing was logged or said about a playbook. *)
Definition ran (cmds : list (string * list string * list string)) (s s' : list exchange * Host) : Prop :=
  h_commands s'.2 = h_commands s.2 ++ cmds ∧ h_logs s'.2 = h_logs s.2 ∧
  playbook_talk s'.1 = playbook_talk s.1.

Definition any_refused (s : list exchange * Host) : bool := existsb refused s.1.

Lemma ran_refl s : ran [] s s.
Proof. split; [by rewrite app_nil_r|done]. Qed.

Lemma ran_trans c1 c2 s1 s2 s3 : ran c1 s1 s2 → ran c2 s2 s3 → ran (c1 ++ c2) s1 s3.
Proof. intros (Hc & Hl & Hp) (Hc' & Hl' & Hp'). split; [by rewrite Hc', Hc, app_assoc|]. split; congruence. Qed.

Lemma any_refused_app d d' h : any_refused (d ++ d', h) = any_refused (d, h) || any_refused (d', h).
Proof. apply existsb_app. Qed.

(** Show what one exchange adds to the conversation. *)
Ltac talk :=
  unfold ran, any_refused; cbn [talk_perform host_perform fst snd h_commands h_logs];
  rewrite ?playbook_talk_app, ?existsb_app; cbn; rewrite ?app_nil_r, ?orb_false_r, ?orb_true_r.

(** Perform one interaction of a run with its conversation. *)
Ltac say a :=
  intros a _; cbn [hwp];
  lazymatch goal with
  | |- context [talk_perform ?X ?a' ?e ?s] =>
      let v := eval cbn [talk_perform host_perform fst snd] in (talk_perform X a' e s) in
      change (talk_perform X a' e s) with v
  end; cbn [fst snd].

(** A write fails and says so, or succeeds. *)
Lemma WriteFile_talk A path data perm s :
  hwp talk_perform A (trigger (WriteFile path data perm)) (λ res s', ran [] s s' ∧
    any_refused s' = match res with Ok _ => any_refused s | Err _ => true end) s.
Proof.
  destruct s as [d h]. say a.
  destruct (ha_write a) as [[]|e]; [|destruct (ha_partial a)]; by talk.
Qed.

Lemma materialize_one_spec A jobDir r c s :
  hwp talk_perform A (materialize_one jobDir r c) (λ res s', ran [] s s' ∧
    match res with
    | Ok r' => creds_of_one jobDir r c = Some r' ∧ any_refused s' = any_refused s
    | Err _ => creds_of_one jobDir r c = None ∨ any_refused s' = true end) s.
Proof.
  unfold materialize_one, creds_of_one, writeSecret.
  assert (∀ k, bool_decide (field c k ≠ EmptyString) = negb (bool_decide (field c k = EmptyString))) as Hn
    by (intros k; apply bool_decide_not).
  rewrite !Hn.
  repeat match goal with |- context [if bool_decide ?P then _ else _] => destruct (bool_decide P) end;
    cbn [negb]; try (cbn [mret prog_ret hwp]; split; [apply ran_refl|by auto]).
  all: hstep; eapply hwp_mono; [|apply WriteFile_talk]; intros [[]|e] s' [Hran Href]; hstep;
    auto.
Qed.

Lemma creds_of_None jobDir cs : foldl (λ r c, r ← r; creds_of_one jobDir r c) None cs = None.
Proof. by induction cs. Qed.

Lemma Materialize_spec A jobDir r cs s :
  hwp talk_perform A (Materialize jobDir r cs) (λ res s', ran [] s s' ∧
    match res with
    | Ok r' => foldl (λ r c, r ← r; creds_of_one jobDir r c) (Some r) cs = Some r' ∧
               any_refused s' = any_refused s
    | Err _ => foldl (λ r c, r ← r; creds_of_one jobDir r c) (Some r) cs = None ∨
               any_refused s' = true end) s.
Proof.
  revert r s. induction cs as [|c cs IH]; intros r s; cbn [Materialize].
  - hstep. split; [apply ran_refl|done].
  - hstep. eapply hwp_mono; [|apply materialize_one_spec]. intros [r1|e] s1 [Hran Hr]; repeat hstep.
    + destruct Hr as [Hr Href]. eapply hwp_mono; [|apply IH]. intros res s2 [Hran2 Hr2].
      split; [by apply (ran_trans [] [] _ s1)|]. cbn [foldl mbind option_bind]. rewrite Hr. by rewrite <-Href.
    + split; [done|]. cbn [foldl mbind option_bind]. destruct Hr as [->|Hr]; [left; apply creds_of_None|by right].
Qed.

Lemma Cleanup_quiet A creds s :
  hwp talk_perform A (Cleanup creds) (λ _ s', ran [] s s' ∧ any_refused s' = any_refused s) s.
Proof.
  unfold Cleanup. apply (hwp_for_each _ _ (λ _ s', ran [] s s' ∧ any_refused s' = any_refused s));
    [|done|split; [apply ran_refl|done]].
  intros pre x s1 [Hran Href]. destruct s1 as [d h]. hstep. say a. cbn [mret prog_ret hwp].
  split; [apply (ran_trans [] [] _ (d, h)); [done|]|rewrite <-Href]; destruct (ha_remove a); by talk.
Qed.

Lemma log_all_spec A ls s :
  hwp talk_perform A (for_each ls (λ l, trigger (OnLog l)))
    (λ _ s', h_commands s'.2 = h_commands s.2 ∧ h_logs s'.2 = h_logs s.2 ++ ls ∧
       playbook_talk s'.1 = playbook_talk s.1 ∧ any_refused s' = any_refused s) s.
Proof.
  apply (hwp_for_each _ _ (λ pre s', h_commands s'.2 = h_commands s.2 ∧ h_logs s'.2 = h_logs s.2 ++ pre ∧
    playbook_talk s'.1 = playbook_talk s.1 ∧ any_refused s' = any_refused s));
    [|done|by rewrite app_nil_r].
  intros pre x [d h] (Hc & Hl & Hp & Hr) a _. destruct s as [d0 h0]. cbn [hwp]. revert Hp Hr. talk.
  cbn [fst snd] in *. intros <- <-. by rewrite Hl, <-app_assoc.
Qed.

Section result.
Context `{UuidLib} `{OsEnv} `{VarsJson} `{FmtLib} `{MapOrder}.

(** The clone a job runs, and its playbook. *)
Definition clone_commands (jobDir : string) (p : JobPayload) (creds : Creds)
    : list (string * list string * list string) :=
  if bool_decide (JobPayload_RepoURL p = EmptyString) then [] else
  [("git",
    ["clone"; "--depth"; "1"]
    ++ (if bool_decide (JobPayload_RepoBranch p ≠ EmptyString) then ["--branch"; JobPayload_RepoBranch p] else [])
    ++ [httpsCloneURL (JobPayload_RepoURL p) (JobPayload_Credentials p); filepath_Join [jobDir; "repo"]],
    os_Environ ++ Creds_Env creds)].

Definition playbook_command (jobDir : string) (p : JobPayload) (creds : Creds)
    : string * list string * list string :=
  ("ansible-playbook",
   playbook_args (filepath_Join [filepath_Join [jobDir; "repo"]; JobPayload_Playbook p])
     (filepath_Join [jobDir; "inventory.ini"]) (filepath_Join [jobDir; "extra_vars.json"]) creds,
   playbook_env creds).

(** The exit code reported of a playbook, given how it ended, if it started. *)
Definition exits_with (o : option PlaybookEnd) (code : Z) : Prop :=
  match o with
  | None => code = (-1)%Z
  | Some o => match pb_wait o with WaitOk => code = 0%Z | WaitExit n => code = n | WaitErr => code = (-1)%Z end
  end.

(** The result that this code and the answer about the context call for. *)
Definition reports_outcome (o : option PlaybookEnd) (cancelled : bool) (r : Result) : Prop :=
  exits_with o (Result_ExitCode r) ∧
  (Result_Status r = JobStatusCancelled ↔ cancelled = true) ∧
  (Result_Status r = JobStatusSuccess ↔ cancelled = false ∧ Result_ExitCode r = 0%Z) ∧
  (Result_Status r = JobStatusFailed ↔ cancelled = false ∧ Result_ExitCode r ≠ 0%Z).

(** Something before the playbook went wrong. *)
Definition gave_up (jobDir : string) (p : JobPayload) (d : list exchange) : Prop :=
  (∃ x, x ∈ d ∧ refused x = true) ∨ creds_of jobDir (JobPayload_Credentials p) = None ∨
  ∃ e, json_Marshal_vars (JobPayload_ExtraVars p) = Err e.

(** The two ways a run ends, from the host [h], with the conversation [d]. *)
Inductive run_ends (jobDir : string) (p : JobPayload) (h : Host) : Result → list exchange → Host → Prop :=
| end_early r d h' cmds :
    gave_up jobDir p d → Result_Status r = JobStatusFailed → Result_ExitCode r = (-1)%Z →
    playbook_talk d = ([], [], []) →
    h_commands h' = h_commands h ++ cmds →
    cmds = [] ∨ (∃ creds, creds_of jobDir (JobPayload_Credentials p) = Some creds ∧
                   cmds = clone_commands jobDir p creds) →
    h_logs h' = h_logs h → run_ends jobDir p h r d h'
| end_playbook r d h' creds started o cancelled :
    ¬ gave_up jobDir p d → creds_of jobDir (JobPayload_Credentials p) = Some creds →
    playbook_talk d = ([started], option_list o, [cancelled]) →
    (o = None ↔ started ≠ Ok ()) →
    h_commands h' = h_commands h ++ clone_commands jobDir p creds ++ [playbook_command jobDir p creds] →
    h_logs h' = h_logs h ++ match o with Some o => logged o | None => [] end →
    reports_outcome o cancelled r → run_ends jobDir p h r d h'.

Lemma runPlaybook_spec A pb inv ev creds s :
  hwp talk_perform A (runPlaybook pb inv ev creds) (λ code s', ∃ started o,
    (o = None ↔ started ≠ Ok ()) ∧ exits_with o code ∧ any_refused s' = any_refused s ∧
    h_commands s'.2 = h_commands s.2 ++
      [("ansible-playbook", playbook_args pb inv ev creds, playbook_env creds)] ∧
    h_logs s'.2 = h_logs s.2 ++ match o with Some o => logged o | None => [] end ∧
    playbook_talk s'.1 = (omap start_of s.1 ++ [started], omap end_of s.1 ++ option_list o, omap ctx_of s.1)) s.
Proof.
  destruct s as [d h]. unfold runPlaybook. hstep. say a. destruct (ha_command a) as [[]|e].
  - hstep. say a'. hstep.
    eapply hwp_mono; [|apply log_all_spec]. intros [] [d' h'] (Hc & Hl & Hp & Hr). hstep.
    exists (Ok ()), (Some (ha_end a')). cbn [fst snd h_commands h_logs option_list] in *.
    split; [done|]. split; [by cbn; unfold exit_code; destruct (pb_wait _)|].
    split; [|split; [by rewrite Hc|split; [by rewrite Hl|]]].
    + rewrite Hr. unfold any_refused. cbn [fst]. rewrite !existsb_app. cbn. by rewrite !orb_false_r.
    + rewrite Hp, !playbook_talk_app, !omap_app. cbn. by rewrite !app_nil_r.
  - hstep. exists (Err e), None. cbn [fst snd h_commands h_logs option_list]. split; [done|].
    split; [done|]. talk. done.
Qed.

Lemma gitClone_spec A jobDir p creds s :
  hwp talk_perform A (gitClone (JobPayload_RepoURL p) (JobPayload_RepoBranch p) (filepath_Join [jobDir; "repo"])
           (JobPayload_Credentials p) creds)
    (λ res s', ran (clone_commands jobDir p creds) s s' ∧
       any_refused s' = match res with Ok _ => any_refused s | Err _ => true end) s.
Proof.
  destruct s as [d h]. unfold gitClone, clone_commands. case_bool_decide; [hstep; split; [apply ran_refl|done]|].
  hstep. say a.
  destruct (ha_command a) as [[]|e]; by talk.
Qed.
Lemma any_refused_spec (d : list exchange) h : any_refused (d, h) = true ↔ ∃ x, x ∈ d ∧ refused x = true.
Proof. unfold any_refused. cbn [fst]. rewrite existsb_exists. by setoid_rewrite list_elem_of_In. Qed.

(** The ways run_with ends, relative to the state in which it is called. *)
Definition with_ends (jobDir : string) (p : JobPayload) (creds : Creds) (s : list exchange * Host) (r : Result)
    (s' : list exchange * Host) : Prop :=
  (ran (clone_commands jobDir p creds) s s' ∧ r = failed ∧
   (any_refused s' = true ∨ ∃ e, json_Marshal_vars (JobPayload_ExtraVars p) = Err e)) ∨
  ∃ started o cancelled,
    (o = None ↔ started ≠ Ok ()) ∧ reports_outcome o cancelled r ∧ any_refused s' = any_refused s ∧
    (∃ data, json_Marshal_vars (JobPayload_ExtraVars p) = Ok data) ∧
    h_commands s'.2 = h_commands s.2 ++ clone_commands jobDir p creds ++ [playbook_command jobDir p creds] ∧
    h_logs s'.2 = h_logs s.2 ++ match o with Some o => logged o | None => [] end ∧
    playbook_talk s'.1 = (omap start_of s.1 ++ [started], omap end_of s.1 ++ option_list o,
                          omap ctx_of s.1 ++ [cancelled]).

Lemma outcome_reported o code cancelled : exits_with o code → reports_outcome o cancelled (result_of code cancelled).
Proof.
  intros Hc. split; [done|]. unfold result_of. cbn [Result_Status Result_ExitCode].
  destruct cancelled, (decide (code = 0%Z)) as [->|Hz]; cbn; try naive_solver.
  rewrite bool_decide_eq_true_2 by done. naive_solver.
Qed.

Lemma run_with_ends A jobDir p creds s :
  hwp talk_perform A (run_with jobDir p creds) (with_ends jobDir p creds s) s.
Proof.
  unfold run_with. hstep. eapply hwp_mono; [|apply gitClone_spec].
  intros [[]|e] s1 [Hran1 Href1]; [|hstep; by left; auto].
  unfold WriteInventory. hstep. eapply hwp_mono; [|apply WriteFile_talk].
  intros [[]|e] s2 [Hran2 Href2]; pose proof (ran_trans _ _ _ _ _ Hran1 Hran2) as Hran; rewrite app_nil_r in Hran;
    [|hstep; by left; auto].
  hstep. unfold writeExtraVars.
  destruct (json_Marshal_vars (JobPayload_ExtraVars p)) as [data|e] eqn:Hjson; [|repeat hstep; left; eauto].
  eapply hwp_mono; [|apply WriteFile_talk].
  intros [[]|e] s3 [Hran3 Href3]; pose proof (ran_trans _ _ _ _ _ Hran Hran3) as Hran'; rewrite app_nil_r in Hran';
    [|hstep; by left; auto].
  clear Hran Hran1 Hran2 Hran3. destruct Hran' as (Hc & Hl & Hp).
  hstep. eapply hwp_mono; [|apply runPlaybook_spec].
  intros code [d4 h4] (started & o & Ho & Hcode & Href4 & Hc4 & Hl4 & Hp4). hstep. say a. hstep. right.
  exists started, o, (ha_cancelled a). cbn [fst snd] in *.
  split; [done|]. split; [by apply outcome_reported|]. split; [|split; [by eexists|split_and!]].
  - unfold any_refused in *. cbn [fst] in *. rewrite existsb_app. cbn. rewrite orb_false_r. congruence.
  - by rewrite Hc4, Hc, <-app_assoc.
  - by rewrite Hl4, Hl.
  - unfold playbook_talk in Hp, Hp4 |- *. injection Hp as <- <- <-. injection Hp4 as Hp4 Hp5 Hp6.
    rewrite !omap_app, Hp4, Hp5, Hp6. cbn. by rewrite !app_nil_r.
Qed.

Lemma with_ends_quiet jobDir p creds s r s1 s2 :
  with_ends jobDir p creds s r s1 → ran [] s1 s2 → any_refused s2 = any_refused s1 →
  with_ends jobDir p creds s r s2.
Proof.
  intros Hw Hran Href. destruct Hw as [(Hr1 & -> & Hd)|(started & o & c & Ho & Hr & Href1 & Hj & Hc & Hl & Hp)].
  - left. pose proof (ran_trans _ _ _ _ _ Hr1 Hran) as Hr2. rewrite app_nil_r in Hr2. by rewrite Href.
  - right. exists started, o, c. destruct Hran as (Hc' & Hl' & Hp'). rewrite app_nil_r in Hc'.
    rewrite Href, Hc', Hl', Hp'. done.
Qed.

(** What [run_in] makes of it, from a conversation about nothing but the
    directory. *)
Lemma run_in_ends A jobDir p d h :
  playbook_talk d = ([], [], []) → any_refused (d, h) = false →
  hwp talk_perform A (run_in jobDir p) (λ r s', run_ends jobDir p h r s'.1 s'.2) (d, h).
Proof.
  intros Hd Hnot. unfold run_in. hstep. eapply hwp_mono; [|apply Materialize_spec].
  intros [creds|e] s1 [(Hc1 & Hl1 & Hp1) Hcr]; cbn [fst snd] in *; rewrite app_nil_r in Hc1.
  2: { hstep. destruct s1 as [d1 h1]. eapply (end_early _ _ _ _ _ _ []); cbn [fst snd] in *; try done; [|congruence| |].
    - destruct Hcr as [Hcr|Href]; [by right; left|left; by apply (any_refused_spec d1 h1)].
    - by rewrite app_nil_r.
    - by left. }
  destruct Hcr as [Hcr Href1]. fold (creds_of jobDir (JobPayload_Credentials p)) in Hcr.
  hstep. eapply hwp_mono; [|apply run_with_ends]. intros r s2 Hw. cbv beta.
  hstep. eapply hwp_mono; [|apply Cleanup_quiet]. intros [] [d3 h3] [Hran3 Href3]. hstep.
  pose proof (with_ends_quiet _ _ _ _ _ _ _ Hw Hran3 Href3) as Hw'.
  destruct Hw' as [((Hc & Hl & Hp) & -> & Hbad)|(started & o & c & Ho & Hr & Href & [data Hj] & Hc & Hl & Hp)];
    cbn [fst snd] in *.
  - eapply end_early; try done; [|congruence|by rewrite Hc, Hc1|by right; eauto|congruence].
    destruct Hbad as [Href|He]; [left; by apply (any_refused_spec d3 h3)|by right; right].
  - eapply (end_playbook _ _ _ _ _ _ creds started o c); try done.
    + intros [Hx|[Hx|[e He]]]; [|congruence..]. apply (any_refused_spec d3 h3) in Hx. congruence.
    + rewrite Hp. unfold playbook_talk in Hp1, Hd. injection Hp1 as -> -> ->. by injection Hd as -> -> ->.
    + by rewrite Hc, Hc1.
    + by rewrite Hl, Hl1.
Qed.

Lemma run_ends_removed jobDir p h r d h1 dir x kept :
  run_ends jobDir p h r d h1 →
  run_ends jobDir p h r (d ++ [Told (RemoveAll dir) x]) (MkHost kept (h_commands h1) (h_logs h1)).
Proof.
  assert (∀ d, gave_up jobDir p (d ++ [Told (RemoveAll dir) x]) ↔ gave_up jobDir p d) as Hg.
  { intros d'. unfold gave_up. assert (∀ y, y ∈ d' ++ [Told (RemoveAll dir) x] ∧ refused y = true ↔
      y ∈ d' ∧ refused y = true) as Hy.
    { intros y. rewrite elem_of_app, list_elem_of_singleton. split; [|naive_solver].
      intros [[?| ->] Hy]; [done|]. by cbn in Hy. }
    by setoid_rewrite Hy. }
  assert (∀ d, playbook_talk (d ++ [Told (RemoveAll dir) x]) = playbook_talk d) as Ht
    by (intros d'; rewrite playbook_talk_app; cbn; by rewrite !app_nil_r).
  intros [r' d' h' cmds ? ? ? ? ? ? ?|r' d' h' creds started o c ? ? ? ? ? ? ?].
  - eapply end_early; rewrite ?Ht; try done. by apply Hg.
  - eapply end_playbook; rewrite ?Ht; try done. by rewrite Hg.
Qed.

Lemma Run_talk workDir payload ans h :
  let '(r, (_, (d, h'))) := host_talk (Run workDir payload) ans h in
  run_ends (job_dir workDir payload) payload h r d h'.
Proof.
  assert (hwp talk_perform any_host (Run workDir payload)
    (λ r s', run_ends (job_dir workDir payload) payload h r s'.1 s'.2) ([], h)) as Hr.
  { unfold Run. hstep. say a. destruct (ha_mkdir a) as [[]|e].
    2: { hstep. eapply (end_early _ _ _ _ _ _ []); cbn [fst snd]; try done; [|by rewrite app_nil_r|by left].
      left. eexists. split; [by left|done]. }
    hstep. eapply hwp_mono; [|by apply run_in_ends].
    intros r [d1 h1] Hr. cbv beta. hstep. say a'. hstep. by apply run_ends_removed. }
  unfold host_talk.
  apply (hwp_run talk_perform any_host _ _ ([], h) ans I (Forall_true _ _ (λ _, I))) in Hr.
  by destruct (run talk_perform _ _ _ _) as [r [ans' [d h']]].
Qed.

Lemma run_ends_terminal jobDir p h r d h' : run_ends jobDir p h r d h' → IsTerminal (Result_Status r) = true.
Proof.
  intros [r' d' h'' cmds _ -> _ _ _ _ _|r' d' h'' creds started o c _ _ _ _ _ _ (_ & Hc & Hs & Hf)]; [done|].
  destruct c; [by rewrite (proj2 Hc eq_refl)|].
  destruct (decide (Result_ExitCode r' = 0%Z)); [by rewrite (proj2 Hs)|by rewrite (proj2 Hf)].
Qed.

Lemma Run_result_terminal workDir payload ans h :
  IsTerminal (Result_Status (host_run (Run workDir payload) ans h).1) = true.
Proof.
  unfold host_run. rewrite (talk_erase _ _ ([], h)). pose proof (Run_talk workDir payload ans h) as Hr.
  unfold host_talk in Hr. destruct (run talk_perform _ _ _ _) as [r [ans' [d h']]]. by eapply run_ends_terminal.
Qed.

(** C20: how a run ends, whatever the host does, told by the conversation with
    the host.  Either something before the playbook went wrong - the directory, a
    credential, the clone, the inventory or the variables - and then nothing was
    started, asked about the context or logged, at most the clone ran, and the
    result is failed with -1.  Or nothing went wrong, exactly the clone and then
    exactly the playbook command that the payload determines ran, the playbook was
    awaited once if it could be started, its lines were logged, and the result has
    the exit code it ended with (-1 if it could not be started), and is cancelled
    exactly when the context, asked once, said so, success exactly when it did not
    and the code is 0, and failed otherwise. *)
Theorem Run_ends workDir payload ans h :
  let '(r, (ans', (d, h'))) := host_talk (Run workDir payload) ans h in
  host_run (Run workDir payload) ans h = (r, (ans', h')) ∧
  run_ends (job_dir workDir payload) payload h r d h'.
Proof.
  pose proof (Run_talk workDir payload ans h) as Hr. unfold host_run. rewrite (talk_erase _ _ ([], h)).
  unfold host_talk in *. by destruct (run talk_perform _ _ _ _) as [r [ans' [d h']]].
Qed.
End result.
