(* ===== verification/LogBatcher.v ===== *)
(** * Batching of log lines: agent/internal/runner/runner.go, LogBatcher

    A batcher is a buffer behind a mutex and a goroutine that empties it.  Its
    atomic actions are executable: [batcher_step] performs one, if it is enabled. *)
From S2P Require Import Prelude.
From S2P Require Import Types.

(** Where the goroutine of run is: in the select; calling flush with a batch,
    after which it returns if it had seen done; returned. *)
Inductive RunPhase :=
| Selecting
| Flushing (batch : list JobLogLine) (last : bool)
| Stopped.

(** [b_flushed] lists the batches given to the flush callback. *)
Record LogBatcher := {
  b_buf : list JobLogLine;
  b_done : bool;
  b_phase : RunPhase;
  b_flushed : list (list JobLogLine);
}.

(** batchSize is accepted but not used. *)
Definition NewLogBatcher : LogBatcher :=
  {| b_buf := []; b_done := false; b_phase := Selecting; b_flushed := [] |}.

Definition Add (b : LogBatcher) (line : JobLogLine) : LogBatcher :=
  {| b_buf := b_buf b ++ [line]; b_done := b_done b; b_phase := b_phase b; b_flushed := b_flushed b |}.

(** Flush closes the channel and returns. *)
Definition Flush (b : LogBatcher) : LogBatcher :=
  {| b_buf := b_buf b; b_done := true; b_phase := b_phase b; b_flushed := b_flushed b |}.

(** doFlush up to the call of flush: take the buffer under the mutex. *)
Definition take_batch (b : LogBatcher) (last : bool) : LogBatcher :=
  match b_buf b with
  | [] => {| b_buf := []; b_done := b_done b;
             b_phase := if last then Stopped else Selecting; b_flushed := b_flushed b |}
  | batch => {| b_buf := []; b_done := b_done b; b_phase := Flushing batch last; b_flushed := b_flushed b |}
  end.

Inductive BatcherAct :=
| ActAdd (line : JobLogLine)   (* Add, by a scanner goroutine *)
| ActFlush                     (* Flush, by executeJob *)
| ActTick                      (* case <-b.ticker.C *)
| ActDone                      (* case <-b.done *)
| ActPost.                     (* b.flush(batch) returns *)

Definition batcher_step (b : LogBatcher) (act : BatcherAct) : option LogBatcher :=
  match act with
  | ActAdd line => Some (Add b line)
  | ActFlush => if b_done b then None else Some (Flush b)   (* closing twice panics *)
  | ActTick => match b_phase b with Selecting => Some (take_batch b false) | _ => None end
  | ActDone =>
      match b_phase b with
      | Selecting => if b_done b then Some (take_batch b true) else None
      | _ => None
      end
  | ActPost =>
      match b_phase b with
      | Flushing batch last =>
          Some {| b_buf := b_buf b; b_done := b_done b;
                  b_phase := if last then Stopped else Selecting;
                  b_flushed := b_flushed b ++ [batch] |}
      | _ => None
      end
  end.

Definition batcher_run (acts : list BatcherAct) (b : LogBatcher) : option LogBatcher :=
  foldl (λ b act, b ← b; batcher_step b act) (Some b) acts.

(** ** Facts *)

(** The lines added by a sequence of actions. *)
Definition added (acts : list BatcherAct) : list JobLogLine :=
  omap (λ act, match act with ActAdd l => Some l | _ => None end) acts.

Definition in_flight (b : LogBatcher) : list JobLogLine :=
  match b_phase b with Flushing batch _ => batch | _ => [] end.

(** The lines given to the batcher so far. *)
Definition all_lines (b : LogBatcher) : list JobLogLine := mjoin (b_flushed b) ++ in_flight b ++ b_buf b.

Lemma batcher_step_lines b act b' :
  batcher_step b act = Some b' → all_lines b' = all_lines b ++ added [act].
Proof.
  unfold all_lines, in_flight. destruct b as [buf dn ph fl], act; unfold added; cbn [omap list_omap].
  - intros [= <-]. cbn. by rewrite <-!app_assoc.
  - cbn. destruct dn; [done|]. intros [= <-]. cbn. by rewrite app_nil_r.
  - cbn. destruct ph; try done. intros [= <-]. unfold take_batch. cbn. rewrite app_nil_r.
    by destruct buf; cbn; rewrite ?app_nil_r.
  - cbn. destruct ph, dn; try done. intros [= <-]. unfold take_batch. cbn. rewrite app_nil_r.
    by destruct buf; cbn; rewrite ?app_nil_r.
  - cbn. destruct ph as [|batch last|]; try done. intros [= <-]. cbn.
    rewrite app_nil_r, join_app. cbn. rewrite app_nil_r.
    by destruct last; rewrite <-app_assoc.
Qed.

Lemma batcher_run_cons act acts b :
  batcher_run (act :: acts) b = (b' ← batcher_step b act; batcher_run acts b').
Proof.
  unfold batcher_run. cbn [foldl]. change (Some b ≫= λ b, batcher_step b act) with (batcher_step b act).
  destruct (batcher_step b act) as [b'|]; [done|]. cbn. by induction acts.
Qed.

Lemma batcher_run_lines acts b b' :
  batcher_run acts b = Some b' → all_lines b' = all_lines b ++ added acts.
Proof.
  revert b. induction acts as [|act acts IH]; intros b Hr.
  - injection Hr as <-. by rewrite app_nil_r.
  - rewrite batcher_run_cons in Hr. apply bind_Some in Hr as (b1 & Hs & Hr).
    rewrite (IH b1 Hr), (batcher_step_lines b act b1 Hs), <-app_assoc. f_equal.
    by destruct act.
Qed.

Lemma batcher_run_app acts acts' b :
  batcher_run (acts ++ acts') b = (b' ← batcher_run acts b; batcher_run acts' b').
Proof.
  revert b. induction acts as [|act acts IH]; intros b; [done|].
  change ((act :: acts) ++ acts') with (act :: (acts ++ acts')). rewrite !batcher_run_cons.
  destruct (batcher_step b act); [apply IH|done].
Qed.

Lemma batcher_step_done b act b' :
  batcher_step b act = Some b' → b_done b' = b_done b ∨ (act = ActFlush ∧ b_done b = false).
Proof.
  destruct b as [buf dn ph fl], act; cbn; intros Hs.
  - injection Hs as <-. by left.
  - destruct dn; [done|]. by right.
  - destruct ph; try done. injection Hs as <-. left. by destruct buf.
  - destruct ph, dn; try done. injection Hs as <-. left. by destruct buf.
  - destruct ph; try done. injection Hs as <-. by left.
Qed.

Lemma batcher_run_done acts b b' :
  batcher_run acts b = Some b' → b_done b' = false → b_done b = false.
Proof.
  revert b. induction acts as [|act acts IH]; intros b; [by intros [= ->]|].
  rewrite batcher_run_cons. intros (b1 & Hs & Hr)%bind_Some Hd.
  destruct (batcher_step_done b act b1 Hs) as [<-|[_ ?]]; [by eapply IH|done].
Qed.

(** The goroutine leaves its loop only after done was closed, with an empty
    buffer. *)
Definition quits_empty (b : LogBatcher) : Prop :=
  match b_phase b with
  | Stopped | Flushing _ true => b_done b = true ∧ b_buf b = []
  | _ => True
  end.

Lemma quits_empty_step b act b' :
  batcher_step b act = Some b' → b_done b = false ∨ added [act] = [] →
  quits_empty b → quits_empty b'.
Proof.
  destruct b as [buf dn ph fl], act; unfold quits_empty, added; cbn; intros Hs Hadd Hok.
  - injection Hs as <-. cbn. destruct ph as [|? []|]; naive_solver.
  - destruct dn; [done|]. injection Hs as <-. cbn. destruct ph as [|? []|]; naive_solver.
  - destruct ph; try done. injection Hs as <-. unfold take_batch. by destruct buf.
  - destruct ph, dn; try done. injection Hs as <-. unfold take_batch. by destruct buf.
  - destruct ph as [|batch last|]; try done. injection Hs as <-. cbn. by destruct last.
Qed.

Lemma quits_empty_run acts b b' :
  batcher_run acts b = Some b' → b_done b' = false ∨ added acts = [] →
  quits_empty b → quits_empty b'.
Proof.
  revert b. induction acts as [|act acts IH]; intros b; [by intros [= ->]|].
  intros Hr Hadd Hok. pose proof (batcher_run_done _ _ _ Hr) as Hd.
  rewrite batcher_run_cons in Hr. apply bind_Some in Hr as (b1 & Hs & Hr).
  assert (added (act :: acts) = [] → added [act] = [] ∧ added acts = []) as Hcons
    by (destruct act; naive_solver).
  apply (IH b1 Hr); [naive_solver|]. eapply quits_empty_step; [done|naive_solver|done].
Qed.

(** The steps of the goroutine that the ticker does not start. *)
Definition not_tick (act : BatcherAct) : bool := match act with ActTick => false | _ => true end.

(** How many of these it may still make once done is closed: the post of the
    batch in hand, one for a buffer, and the case of done. *)
Definition own_left (b : LogBatcher) : nat :=
  match b_phase b, b_buf b with
  | Stopped, _ => 0
  | Flushing _ true, _ => 1
  | Flushing _ false, [] => 2
  | Flushing _ false, _ => 3
  | Selecting, [] => 1
  | Selecting, _ => 2
  end.

Lemma batcher_step_left b act b' :
  batcher_step b act = Some b' → b_done b = true → added [act] = [] → quits_empty b →
  (if not_tick act then 1 else 0) + own_left b' ≤ own_left b.
Proof.
  destruct b as [buf dn ph fl], act; unfold quits_empty; cbn; intros Hs Hd Hadd Hq; try done.
  - by rewrite Hd in Hs.
  - destruct ph; try done. injection Hs as <-. by destruct buf; cbn; lia.
  - destruct ph, dn; try done. injection Hs as <-. by destruct buf; cbn; lia.
  - destruct ph as [|batch []|]; try done; injection Hs as <-; cbn; [lia|].
    destruct buf; lia.
Qed.

Lemma batcher_run_left acts b b' :
  batcher_run acts b = Some b' → b_done b = true → added acts = [] → quits_empty b →
  length (List.filter not_tick acts) + own_left b' ≤ own_left b.
Proof.
  revert b. induction acts as [|act acts IH]; intros b; [intros [= ->]; cbn; lia|].
  rewrite batcher_run_cons. intros (b1 & Hs & Hr)%bind_Some Hd Hadd Hq.
  assert (added [act] = [] ∧ added acts = []) as [Ha Hadd'] by (destruct act; naive_solver).
  pose proof (batcher_step_left b act b1 Hs Hd Ha Hq) as Hl.
  specialize (IH b1 Hr).
  destruct (batcher_step_done b act b1 Hs) as [Hd1|[_ Hd1]]; [|by rewrite Hd1 in Hd].
  rewrite Hd1 in IH. specialize (IH Hd Hadd' (quits_empty_step _ _ _ Hs (or_intror Ha) Hq)).
  destruct act; cbn in *; lia.
Qed.

(** Until it has returned, one of these steps is enabled. *)
Lemma goroutine_not_stuck b : b_done b = true →
  b_phase b = Stopped ∨ is_Some (batcher_step b ActDone) ∨ is_Some (batcher_step b ActPost).
Proof. destruct b as [buf dn [|batch last|] fl]; cbn; intros ->; eauto. Qed.

(** A tick posts the buffer, whatever is added meanwhile. *)
Lemma tick_posts b more : b_phase b = Selecting → b_buf b ≠ [] →
  batcher_run (ActTick :: (ActAdd <$> more) ++ [ActPost]) b =
    Some {| b_buf := more; b_done := b_done b; b_phase := Selecting; b_flushed := b_flushed b ++ [b_buf b] |}.
Proof.
  destruct b as [buf dn ph fl]. cbn [b_phase b_buf b_done b_flushed]. intros -> Hb.
  rewrite batcher_run_cons. cbn. unfold take_batch. cbn. destruct buf as [|l buf]; [done|]. cbn.
  rewrite batcher_run_app.
  assert (∀ acc, batcher_run (ActAdd <$> more)
      {| b_buf := acc; b_done := dn; b_phase := Flushing (l :: buf) false; b_flushed := fl |} =
    Some {| b_buf := acc ++ more; b_done := dn; b_phase := Flushing (l :: buf) false; b_flushed := fl |})
    as Hadds.
  { clear Hb. induction more as [|x more IH]; intros acc; [by rewrite app_nil_r|].
    rewrite fmap_cons, batcher_run_cons. cbn. unfold Add. cbn. rewrite IH. by rewrite <-app_assoc. }
  by rewrite Hadds.
Qed.

Lemma added_app acts acts' : added (acts ++ acts') = added acts ++ added acts'.
Proof. apply omap_app. Qed.

Lemma delivered_when_stopped acts b :
  batcher_run acts NewLogBatcher = Some b → quits_empty b → b_phase b = Stopped →
  mjoin (b_flushed b) = added acts.
Proof.
  intros Hr Hq Hst. pose proof (batcher_run_lines acts _ _ Hr) as Hl.
  unfold all_lines, in_flight in Hl. unfold quits_empty in Hq. rewrite Hst in Hl, Hq.
  destruct Hq as [_ Hb]. by rewrite Hb, !app_nil_r in Hl.
Qed.

(** Once the goroutine returned after a Flush that followed the last line, all lines
    were posted. *)
Lemma flushed_all acts tail b :
  batcher_run (acts ++ ActFlush :: tail) NewLogBatcher = Some b → added tail = [] → b_phase b = Stopped →
  mjoin (b_flushed b) = added acts.
Proof.
  intros Hr Htail Hst.
  assert (added (acts ++ ActFlush :: tail) = added acts) as <-
    by (rewrite added_app; change (added (ActFlush :: tail)) with (added tail); by rewrite Htail, app_nil_r).
  apply delivered_when_stopped; [done| |done].
  rewrite batcher_run_app in Hr. apply bind_Some in Hr as (b1 & Hr1 & Hr2).
  eapply quits_empty_run; [exact Hr2|by right|].
  eapply (quits_empty_run acts); [exact Hr1| |done]. left.
  rewrite batcher_run_cons in Hr2. apply bind_Some in Hr2 as (b2 & Hs & _). cbn in Hs. by destruct (b_done b1).
Qed.

(** C33: the batcher delivers, however its goroutine and the callers of Add
    interleave.  The batches it has posted, the one it is posting and its buffer
    are always exactly the lines added, in order.  When its goroutine waits in its
    select with lines in the buffer, a tick makes it post exactly these lines as
    one batch, and the lines added meanwhile stay for the next.  From a Flush
    after the last line on, whatever the goroutine does, it makes at most three
    steps that the ticker does not start, one of them is enabled until it has
    returned, and when it has returned all lines were posted, each once. *)
Theorem batcher_delivers acts b :
  batcher_run acts NewLogBatcher = Some b →
  mjoin (b_flushed b) ++ in_flight b ++ b_buf b = added acts ∧
  (∀ more, b_phase b = Selecting → b_buf b ≠ [] →
     ∃ b', batcher_run (ActTick :: (ActAdd <$> more) ++ [ActPost]) b = Some b' ∧
       b_flushed b' = b_flushed b ++ [b_buf b] ∧ b_buf b' = more ∧ b_phase b' = Selecting) ∧
  (∀ tail b', batcher_run (ActFlush :: tail) b = Some b' → added tail = [] →
     length (List.filter not_tick tail) ≤ 3 ∧
     (b_phase b' = Stopped ∨ is_Some (batcher_step b' ActDone) ∨ is_Some (batcher_step b' ActPost)) ∧
     (b_phase b' = Stopped → mjoin (b_flushed b') = added acts)).
Proof.
  intros Hr. split; [by pose proof (batcher_run_lines _ _ _ Hr)|]. split.
  { intros more Hp Hb. eexists. by rewrite tick_posts. }
  intros tail b' Hr' Htail.
  pose proof Hr' as (b1 & Hs & Ht)%(eq_trans (eq_sym (batcher_run_cons _ _ _)))%bind_Some.
  assert (b_done b = false ∧ b_done b1 = true) as [Hd0 Hd1].
  { cbn in Hs. destruct (b_done b); [done|]. by injection Hs as <-. }
  assert (quits_empty b1) as Hq1.
  { eapply quits_empty_step; [done|by right|]. eapply quits_empty_run; [done|by left|done]. }
  assert (b_done b' = true) as Hd'.
  { destruct (b_done b') eqn:E; [done|]. by rewrite (batcher_run_done _ _ _ Ht E) in Hd1. }
  split; [|split].
  - pose proof (batcher_run_left _ _ _ Ht Hd1 Htail Hq1).
    assert (own_left b1 ≤ 3) by (unfold own_left; by repeat case_match; lia). lia.
  - by apply goroutine_not_stuck.
  - apply (flushed_all acts tail); [by rewrite batcher_run_app, Hr|done].
Qed.
