(* ===== verification/LogCapture.v ===== *)
(** * Capturing the output of a job: agent/internal/server/server.go, onLog

    executeJob gives the runner a function onLog that assigns the number to a
    variable [seq] of executeJob and then adds the line with the number it reads
    from the variable.  The two scanner goroutines call it, so the assignment
    and the read are separate steps of this model. *)
From S2P Require Import Prelude.
From S2P Require Import Types.
From S2P Require Import Text.
From S2P Require Import AgentRunner.

(** A scanner goroutine: about to read a line; with a line and its number from
    nextSeq(); after [seq = n], before [batcher.Add]. *)
Inductive Phase :=
| Reading
| Calling (n : Z) (line : string)
| Assigned (line : string).

Record Goroutine := {
  go_lines : list string;
  go_phase : Phase;
}.

(** The atomic counter, the variable [seq], the goroutines, and the lines added
    to the batcher. *)
Record Capture := MkCapture {
  cap_next : Z;
  cap_seq : Z;
  cap_stdout : Goroutine;
  cap_stderr : Goroutine;
  cap_added : list JobLogLine;
}.

Definition capture_scanner (stream : string) (next seq : Z) (g : Goroutine)
    : Z * Z * Goroutine * list JobLogLine :=
  match go_phase g with
  | Reading =>
      match go_lines g with
      | [] => (next, seq, g, [])
      | line :: lines =>
          ((next + 1)%Z, seq, {| go_lines := lines; go_phase := Calling (next + 1) line |}, [])
      end
  | Calling n line => (next, n, {| go_lines := go_lines g; go_phase := Assigned line |}, [])
  | Assigned line => (next, seq, {| go_lines := go_lines g; go_phase := Reading |}, [log_line seq line stream])
  end.

(** One step of the goroutine of stdout or of stderr. *)
Definition capture_step (c : Capture) (stdout : bool) : Capture :=
  if stdout then
    let '(next, seq, g, out) := capture_scanner "stdout" (cap_next c) (cap_seq c) (cap_stdout c) in
    MkCapture next seq g (cap_stderr c) (cap_added c ++ out)
  else
    let '(next, seq, g, out) := capture_scanner "stderr" (cap_next c) (cap_seq c) (cap_stderr c) in
    MkCapture next seq (cap_stdout c) g (cap_added c ++ out).

Definition new_goroutine (text : string) : Goroutine := {| go_lines := (Scan text).1; go_phase := Reading |}.

Definition start_capture (o : PlaybookEnd) : Capture :=
  MkCapture 0 0 (new_goroutine (pb_stdout o)) (new_goroutine (pb_stderr o)) [].

Definition go_left (g : Goroutine) : nat :=
  3 * length (go_lines g) + match go_phase g with Reading => 0 | Calling _ _ => 2 | Assigned _ => 1 end.

(** wg.Wait(): both goroutines run to their end. *)
Definition rest_of (c : Capture) : list bool :=
  replicate (go_left (cap_stdout c)) true ++ replicate (go_left (cap_stderr c)) false.

(** The lines added for a playbook's output, when the goroutines take turns as
    the schedule says ([true] for stdout). *)
Definition captured (o : PlaybookEnd) (sched : list bool) : list JobLogLine :=
  let c := foldl capture_step (start_capture o) sched in
  cap_added (foldl capture_step c (rest_of c)).

(** ** Calls that do not overlap *)

Definition is_assigned (g : Goroutine) : bool := match go_phase g with Assigned _ => true | _ => false end.
Definition is_calling (g : Goroutine) : bool := match go_phase g with Calling _ _ => true | _ => false end.

(** No goroutine assigns [seq] while the other one is about to read it. *)
Definition no_overlap (c : Capture) (stdout : bool) : bool :=
  if stdout then negb (is_calling (cap_stdout c) && is_assigned (cap_stderr c))
  else negb (is_calling (cap_stderr c) && is_assigned (cap_stdout c)).

Fixpoint serial_from (c : Capture) (sched : list bool) : bool :=
  match sched with
  | [] => true
  | b :: sched => no_overlap c b && serial_from (capture_step c b) sched
  end.

Definition serial_calls (o : PlaybookEnd) (sched : list bool) : bool :=
  let c := foldl capture_step (start_capture o) sched in
  serial_from (start_capture o) sched && serial_from c (rest_of c).

(** ** Facts *)

Lemma capture_left c b :
  go_left (cap_stdout (capture_step c b)) = go_left (cap_stdout c) - (if b then 1 else 0) ∧
  go_left (cap_stderr (capture_step c b)) = go_left (cap_stderr c) - (if b then 0 else 1).
Proof.
  destruct c as [nx sq [lo po] [le pe] ad]. unfold capture_step, capture_scanner, go_left.
  destruct b; cbn; [destruct po, lo|destruct pe, le]; cbn; lia.
Qed.

Lemma capture_left_many c b n :
  go_left (cap_stdout (foldl capture_step c (replicate n b))) = go_left (cap_stdout c) - (if b then n else 0) ∧
  go_left (cap_stderr (foldl capture_step c (replicate n b))) = go_left (cap_stderr c) - (if b then 0 else n).
Proof.
  revert c. induction n as [|n IH]; intros c; cbn [replicate foldl]; [destruct b; lia|].
  destruct (IH (capture_step c b)) as [-> ->]. destruct (capture_left c b) as [-> ->]. destruct b; lia.
Qed.

Lemma go_left_0 g : go_left g = 0 → go_lines g = [] ∧ go_phase g = Reading.
Proof. destruct g as [[] []]; unfold go_left; cbn; lia || done. Qed.

(** After the wait both goroutines have read everything and hold nothing. *)
Lemma capture_drains c :
  let c' := foldl capture_step c (rest_of c) in
  cap_stdout c' = {| go_lines := []; go_phase := Reading |} ∧
  cap_stderr c' = {| go_lines := []; go_phase := Reading |}.
Proof.
  cbv zeta. unfold rest_of. rewrite foldl_app.
  destruct (capture_left_many c true (go_left (cap_stdout c))) as [E1 E2].
  set (c1 := foldl capture_step c _) in *.
  destruct (capture_left_many c1 false (go_left (cap_stderr c))) as [E3 E4].
  set (c2 := foldl capture_step c1 _) in *.
  assert (go_left (cap_stdout c2) = 0 ∧ go_left (cap_stderr c2) = 0) as [[Hl Hp]%go_left_0 [Hl' Hp']%go_left_0] by lia.
  destruct (cap_stdout c2), (cap_stderr c2). cbn in *. by subst.
Qed.

(** *** Serial calls refine the atomic calls of the runner *)

Definition erase_go (g : Goroutine) : Scanner := {|
  sc_lines := go_lines g;
  sc_held := match go_phase g with Calling n l => Some (n, l) | _ => None end |}.

(** A line whose number is assigned counts as delivered. *)
Definition pending_line (stream : string) (seq : Z) (g : Goroutine) : list JobLogLine :=
  match go_phase g with Assigned l => [log_line seq l stream] | _ => [] end.

Definition erase (c : Capture) : LogState := {|
  ls_seq := cap_next c; ls_stdout := erase_go (cap_stdout c); ls_stderr := erase_go (cap_stderr c);
  ls_delivered := cap_added c ++ pending_line "stdout" (cap_seq c) (cap_stdout c)
                  ++ pending_line "stderr" (cap_seq c) (cap_stderr c) |}.

Definition exclusive (c : Capture) : Prop := is_assigned (cap_stdout c) && is_assigned (cap_stderr c) = false.

Lemma capture_step_erase c b :
  exclusive c → no_overlap c b = true →
  exclusive (capture_step c b) ∧
  (erase (capture_step c b) = erase c ∨ erase (capture_step c b) = advance (erase c) b).
Proof.
  destruct c as [nx sq [lo po] [le pe] ad]. unfold exclusive, no_overlap, is_calling, is_assigned.
  unfold capture_step, capture_scanner, erase, advance, advance_scanner, erase_go, pending_line.
  destruct b; cbn; intros Hx Hn.
  - destruct po as [|n l|l]; cbn in *.
    + destruct lo; cbn; (split; [done|]); rewrite ?app_nil_r; auto.
    + destruct pe; cbn in *; try done; (split; [done|]); rewrite ?app_nil_r; auto.
    + destruct pe; cbn in *; try done; (split; [done|]); left; by rewrite ?app_nil_r.
  - destruct pe as [|n l|l]; cbn in *.
    + destruct le; cbn; (split; [by destruct po|]); rewrite ?app_nil_r; auto.
    + destruct po; cbn in *; try done; (split; [done|]); rewrite ?app_nil_r; auto.
    + destruct po; cbn in *; try done; (split; [done|]); left; by rewrite ?app_nil_r.
Qed.

Lemma serial_from_erase c sched :
  exclusive c → serial_from c sched = true →
  exclusive (foldl capture_step c sched) ∧
  ∃ sched', erase (foldl capture_step c sched) = foldl advance (erase c) sched'.
Proof.
  revert c. induction sched as [|b sched IH]; intros c Hx Hs; [split; [done|by exists []]|].
  cbn in Hs. apply andb_true_iff in Hs as [Hn Hs].
  destruct (capture_step_erase c b Hx Hn) as [Hx' He].
  destruct (IH _ Hx' Hs) as [Hx'' (sched' & E)]. cbn [foldl]. split; [done|].
  destruct He as [<-|He]; [by exists sched'|]. exists (b :: sched'). cbn. by rewrite <-He.
Qed.

(** The lines of a playbook whose scanners take turns as [sched] says. *)
Definition with_schedule (o : PlaybookEnd) (sched : list bool) : PlaybookEnd :=
  {| pb_stdout := pb_stdout o; pb_stderr := pb_stderr o; pb_schedule := sched; pb_wait := pb_wait o |}.

Lemma captured_serial o sched :
  serial_calls o sched = true → ∃ sched', captured o sched = logged (with_schedule o sched').
Proof.
  unfold serial_calls, captured. intros [Hs Hr]%andb_true_iff.
  destruct (serial_from_erase (start_capture o) sched) as [Hx (s1 & E1)]; [done|done|].
  set (c := foldl capture_step (start_capture o) sched) in *.
  destruct (serial_from_erase c (rest_of c) Hx Hr) as [_ (s2 & E2)].
  destruct (capture_drains c) as [Ho He]. set (c' := foldl capture_step c (rest_of c)) in *.
  exists (s1 ++ s2). unfold logged. cbn [with_schedule pb_schedule].
  assert (foldl advance (start_logs (with_schedule o (s1 ++ s2))) (s1 ++ s2) = erase c') as ->
    by (rewrite foldl_app, E2, E1; done).
  unfold wait_logs, erase, erase_go, pending_line. rewrite Ho, He. cbn. by rewrite app_nil_r.
Qed.
