(* ===== verification/AgentClient.v ===== *)
(** * The agent's HTTP client: agent/internal/apiclient/client.go

    Its methods are programs whose only interaction is one HTTP exchange. *)
From stdpp Require Import pretty.
From S2P Require Import Prelude.
From S2P Require Import Prog.
From S2P Require Import Types.
From S2P Require Import Transport.

(** What json.Marshal is given for the body. *)
Inductive ClientBody :=
| RegisterJson (name address : string) (labels : gmap string string) (capacity : Z)
| HeartbeatJson (h : AgentHeartbeat)
| LogsJson (lines : list JobLogLine)
| ResultJson (status : JobStatus) (exit_code : Z) (facts : vars).

Record ClientRequest := {
  cr_method : string;
  cr_url : string;
  cr_headers : gmap string string;
  cr_body : ClientBody;
}.

(** The status code, and what decoding the body into Register's struct gives. *)
Record ClientResponse := {
  cs_status : Z;
  cs_registered : result (uuid * string);
}.

(** http.Client.Do *)
Inductive ClientEv : Type → Type :=
| Do (req : ClientRequest) : ClientEv (result ClientResponse).

(** The exchanges so far, with the answers of the peer in [ans]. *)
Definition client_perform (X : Type) (a : result ClientResponse) (e : ClientEv X)
    (sent : list ClientRequest) : X * list ClientRequest :=
  match e in ClientEv X return X * list ClientRequest with
  | Do req => (a, sent ++ [req])
  end.

Definition client_run {A} (p : prog ClientEv A) (ans : list (result ClientResponse)) : A * list ClientRequest :=
  let '(a, (_, sent)) := run client_perform (Err (ErrText "no route to host")) p ans [] in (a, sent).

Record Client := {
  Client_base : string;
  Client_token : string;
  Client_agentID : uuid;
}.

Definition New (baseURL : string) : Client :=
  {| Client_base := baseURL; Client_token := EmptyString; Client_agentID := uuid_Nil |}.

Definition AgentID (c : Client) : uuid := Client_agentID c.

Definition setBearer (c : Client) : gmap string string :=
  <[ "Authorization" := "Bearer " +:+ Client_token c ]> {[ "Content-Type" := "application/json" ]}.

Section client.
Context `{UuidLib} `{NetLib}.

(** http.NewRequestWithContext, whose error is returned as it is, and Do. *)
Definition send (op url : string) (headers : gmap string string) (body : ClientBody)
    : prog ClientEv (result ClientResponse) :=
  if url_valid url then
    wrap_err op (trigger (Do {| cr_method := "POST"; cr_url := url; cr_headers := headers; cr_body := body |}))
  else mret (Err (ErrText "invalid URL")).

Definition unexpected (op : string) (resp : ClientResponse) : error :=
  ErrText (op +:+ ": api returned " +:+ pretty (cs_status resp)).

(** The client is changed only on success. *)
Definition Register (c : Client) (regToken name address : string) (labels : gmap string string) (capacity : Z)
    : prog ClientEv (result unit * Client) :=
  try resp <- send "register" (Client_base c +:+ "/agents/register")
                (<[ "X-Registration-Token" := regToken ]> {[ "Content-Type" := "application/json" ]})
                (RegisterJson name address labels capacity)
    catch err => mret (Err err, c) ;;
  if bool_decide (cs_status resp ≠ StatusCreated) then mret (Err (unexpected "register" resp), c) else
  match cs_registered resp with
  | Err err => mret (Err (ErrWrap "register: decode response" err), c)
  | Ok (id, token) =>
      mret (Ok (), {| Client_base := Client_base c; Client_token := token; Client_agentID := id |})
  end.

(** The three methods that expect 204. *)
Definition exchange (c : Client) (op path : string) (body : ClientBody) : prog ClientEv (result unit) :=
  try resp <- send op (Client_base c +:+ path) (setBearer c) body catch err => mret (Err err) ;;
  if bool_decide (cs_status resp ≠ StatusNoContent) then mret (Err (unexpected op resp)) else mret (Ok ()).

Definition Heartbeat (c : Client) (runningJobs : Z) : prog ClientEv (result unit) :=
  exchange c "heartbeat" "/agent/heartbeat"
    (HeartbeatJson {| AgentHeartbeat_AgentID := Client_agentID c; AgentHeartbeat_RunningJobs := runningJobs;
                      AgentHeartbeat_Version := "v0.1.0" |}).

Definition PostLogs (c : Client) (jobID : uuid) (lines : list JobLogLine) : prog ClientEv (result unit) :=
  if bool_decide (lines = []) then mret (Ok ()) else
  exchange c "post logs" ("/agent/jobs/" +:+ uuid_String jobID +:+ "/logs") (LogsJson lines).

(** A nil map becomes an empty one. *)
Definition PostResult (c : Client) (jobID : uuid) (status : JobStatus) (exitCode : Z) (facts : option vars)
    : prog ClientEv (result unit) :=
  exchange c "post result" ("/agent/jobs/" +:+ uuid_String jobID +:+ "/result")
    (ResultJson status exitCode (default ∅ facts)).
End client.
