(* ===== verification/AgentServer.v ===== *)
(** * The agent's listener: agent/internal/server/server.go

    Every request and every job is a goroutine; they share the atomic counter
    and, under the mutex, the map of running jobs.  [srv_step] performs one
    atomic action of one goroutine, so that all interleavings are the sequences
    of actions. *)
From S2P Require Import Prelude.
From S2P Require Import Prog.
From S2P Require Import Types.
From S2P Require Import AgentInventory.
From S2P Require Import AgentRunner.

(** Where a goroutine is: in handleDispatch, in executeJob, or in handleCancel
    before it calls the function it found.  A context is a number. *)
Inductive Thread :=
| AtCapacityCheck (p : JobPayload)
| AtRegister (p : JobPayload)
| AtCount (p : JobPayload) (ctx : nat)
| Executing (p : JobPayload) (ctx : nat)
| AtReport (p : JobPayload) (ctx : nat) (r : Result)
| AtUnregister (p : JobPayload) (ctx : nat)
| AtUncount (p : JobPayload) (ctx : nat)
| AtCancel (ctx : nat).

(** The fields of Server, the contexts made and cancelled so far, the goroutines,
    the status codes sent, and the results given to PostResult. *)
Record Server := MkServer {
  srv_capacity : Z;
  srv_running : gmap uuid nat;
  srv_count : Z;
  srv_contexts : nat;
  srv_cancelled : gset nat;
  srv_threads : gmap nat Thread;
  srv_responses : list (nat * Z);
  srv_results : list (uuid * Result);
}.

Definition New (capacity : Z) : Server := MkServer capacity ∅ 0 0 ∅ ∅ [] [].

Definition RunningJobs (s : Server) : Z := srv_count s.

(** The goroutine [t] goes on as [th]; it responds and ends. *)
Definition goto (t : nat) (th : Thread) (s : Server) : Server :=
  MkServer (srv_capacity s) (srv_running s) (srv_count s) (srv_contexts s) (srv_cancelled s)
    (<[t := th]> (srv_threads s)) (srv_responses s) (srv_results s).

Definition respond_and_end (t : nat) (status : Z) (s : Server) : Server :=
  MkServer (srv_capacity s) (srv_running s) (srv_count s) (srv_contexts s) (srv_cancelled s)
    (delete t (srv_threads s)) (srv_responses s ++ [(t, status)]) (srv_results s).

Definition StatusServiceUnavailable : Z := 503.

(** ** handleDispatch *)

Definition receive_dispatch (t : nat) (body : result JobPayload) (s : Server) : Server :=
  match body with
  | Err _ => respond_and_end t StatusBadRequest s
  | Ok p => if bool_decide (JobPayload_JobID p = uuid_Nil) then respond_and_end t StatusBadRequest s
            else goto t (AtCapacityCheck p) s
  end.

(** [if int(s.count.Load()) >= s.capacity] *)
Definition check_capacity (t : nat) (p : JobPayload) (s : Server) : Server :=
  if bool_decide (srv_capacity s <= srv_count s)%Z then respond_and_end t StatusServiceUnavailable s
  else goto t (AtRegister p) s.

(** context.WithCancel, and [s.running[payload.JobID] = cancel] under the mutex. *)
Definition register (t : nat) (p : JobPayload) (s : Server) : Server :=
  let ctx := srv_contexts s in
  MkServer (srv_capacity s) (<[JobPayload_JobID p := ctx]> (srv_running s)) (srv_count s) (S ctx)
    (srv_cancelled s) (<[t := AtCount p ctx]> (srv_threads s)) (srv_responses s) (srv_results s).

(** [s.count.Add(1)]; the goroutine of executeJob starts and 202 is sent. *)
Definition start_job (t : nat) (p : JobPayload) (ctx : nat) (s : Server) : Server :=
  MkServer (srv_capacity s) (srv_running s) (srv_count s + 1) (srv_contexts s) (srv_cancelled s)
    (<[t := Executing p ctx]> (srv_threads s)) (srv_responses s ++ [(t, StatusAccepted)]) (srv_results s).

(** ** executeJob *)

(** runner.Run returns. *)
Definition finish_run (t : nat) (p : JobPayload) (ctx : nat) (r : Result) (s : Server) : Server :=
  goto t (AtReport p ctx r) s.

(** client.PostResult; a failure is only logged. *)
Definition report (t : nat) (p : JobPayload) (ctx : nat) (r : Result) (s : Server) : Server :=
  MkServer (srv_capacity s) (srv_running s) (srv_count s) (srv_contexts s) (srv_cancelled s)
    (<[t := AtUnregister p ctx]> (srv_threads s)) (srv_responses s)
    (srv_results s ++ [(JobPayload_JobID p, r)]).

(** The deferred function: [delete(s.running, payload.JobID)], then
    [s.count.Add(-1)]. *)
Definition unregister (t : nat) (p : JobPayload) (ctx : nat) (s : Server) : Server :=
  MkServer (srv_capacity s) (delete (JobPayload_JobID p) (srv_running s)) (srv_count s) (srv_contexts s)
    (srv_cancelled s) (<[t := AtUncount p ctx]> (srv_threads s)) (srv_responses s) (srv_results s).

Definition uncount (t : nat) (s : Server) : Server :=
  MkServer (srv_capacity s) (srv_running s) (srv_count s - 1) (srv_contexts s) (srv_cancelled s)
    (delete t (srv_threads s)) (srv_responses s) (srv_results s).

(** ** handleCancel *)

Section server.
Context `{UuidLib} `{OsEnv} `{VarsJson} `{FmtLib} `{MapOrder}.
Context (workDir : string).

(** The cancel function is looked up under the mutex and called after it. *)
Definition receive_cancel (t : nat) (param : string) (s : Server) : Server :=
  match uuid_Parse param with
  | Err _ => respond_and_end t StatusBadRequest s
  | Ok id =>
      match srv_running s !! id with
      | None => respond_and_end t StatusNotFound s
      | Some ctx => goto t (AtCancel ctx) s
      end
  end.

Definition call_cancel (t : nat) (ctx : nat) (s : Server) : Server :=
  MkServer (srv_capacity s) (srv_running s) (srv_count s) (srv_contexts s) ({[ ctx ]} ∪ srv_cancelled s)
    (delete t (srv_threads s)) (srv_responses s ++ [(t, StatusAccepted)]) (srv_results s).

(** ** Interleavings *)

(** A request arrives, or a goroutine takes its next step; a job that executes
    does so on the host [h] with the answers [ans].  Run is one step here, taken
    when it returns: a run that waits for ever, like that of a playbook blocked on
    a pipe nobody reads after a line of 64 KiB, is one whose goroutine takes no
    further step. *)
Inductive Act :=
| Receive (t : nat) (body : result JobPayload)
| ReceiveCancel (t : nat) (param : string)
| Go (t : nat) (ans : list HostAnswer) (h : Host).

Definition srv_step (s : Server) (act : Act) : option Server :=
  match act with
  | Receive t body => if decide (srv_threads s !! t = None) then Some (receive_dispatch t body s) else None
  | ReceiveCancel t param => if decide (srv_threads s !! t = None) then Some (receive_cancel t param s) else None
  | Go t ans h =>
      match srv_threads s !! t with
      | None => None
      | Some (AtCapacityCheck p) => Some (check_capacity t p s)
      | Some (AtRegister p) => Some (register t p s)
      | Some (AtCount p ctx) => Some (start_job t p ctx s)
      | Some (Executing p ctx) => Some (finish_run t p ctx (host_run (Run workDir p) ans h).1 s)
      | Some (AtReport p ctx r) => Some (report t p ctx r s)
      | Some (AtUnregister p ctx) => Some (unregister t p ctx s)
      | Some (AtUncount _ _) => Some (uncount t s)
      | Some (AtCancel ctx) => Some (call_cancel t ctx s)
      end
  end.

(** The states reached from [s0] by actions that satisfy [P]. *)
Inductive srv_reach (P : Server → Act → Prop) (s0 : Server) : Server → Prop :=
| reach_start : srv_reach P s0 s0
| reach_step s act s' : srv_reach P s0 s → P s act → srv_step s act = Some s' → srv_reach P s0 s'.

Definition srv_run (acts : list Act) (s : Server) : option Server :=
  foldl (λ s act, s ← s; srv_step s act) (Some s) acts.
End server.
