(* ===== verification/AgentServerFacts.v ===== *)
(** * Correctness of the agent's listener

    The counter, the capacity, cancellation and the reported results, in every
    interleaving of the goroutines. *)
From S2P Require Import Prelude.
From S2P Require Import Prog.
From S2P Require Import Types.
From S2P Require Import AgentInventory.
From S2P Require Import AgentRunner.
From S2P Require Import AgentRunnerFacts.
From S2P Require Import AgentServer.

(** ** Counting goroutines *)

(** The number of goroutines that satisfy [f]. *)
Definition num_threads (f : Thread → bool) (m : gmap nat Thread) : nat :=
  size (filter (λ kv, f kv.2 = true) m).

Definition tally (f : Thread → bool) (o : option Thread) : nat :=
  match o with Some th => if f th then 1 else 0 | None => 0 end.

Lemma num_threads_delete f m t :
  num_threads f (delete t m) + tally f (m !! t) = num_threads f m.
Proof.
  unfold num_threads, tally. rewrite map_filter_delete.
  destruct (m !! t) as [th|] eqn:Ht.
  - destruct (f th) eqn:Hf.
    + assert (filter (λ kv, f kv.2 = true) m !! t = Some th) as Hl by (by apply map_lookup_filter_Some).
      rewrite map_size_delete, Hl. cbn.
      assert (size (filter (λ kv, f kv.2 = true) m) ≠ 0) as Hne.
      { intros E. apply map_size_empty_inv in E. by rewrite E in Hl. }
      lia.
    + rewrite delete_id; [lia|]. apply map_lookup_filter_None. right. intros th' Hth'. cbn.
      rewrite Ht in Hth'. injection Hth' as <-. by rewrite Hf.
  - rewrite delete_id; [lia|]. apply map_lookup_filter_None. by left.
Qed.

Lemma num_threads_insert f m t th :
  num_threads f (<[t := th]> m) + tally f (m !! t) = num_threads f m + tally f (Some th).
Proof.
  rewrite <-(num_threads_delete f m t), <-(insert_delete_eq m t th).
  unfold num_threads, tally. destruct (f th) eqn:Hf.
  - rewrite map_filter_insert_True by done. rewrite map_size_insert_None; [lia|].
    apply map_lookup_filter_None. left. apply lookup_delete_eq.
  - rewrite map_filter_insert_False by (cbn; congruence). rewrite delete_delete_eq. lia.
Qed.

(** executeJob has started and not yet given its place back. *)
Definition counted (th : Thread) : bool :=
  match th with
  | Executing _ _ | AtReport _ _ _ | AtUnregister _ _ | AtUncount _ _ => true
  | _ => false
  end.

(** Past the capacity check, not yet counted. *)
Definition admitted (th : Thread) : bool :=
  match th with AtRegister _ | AtCount _ _ => true | _ => false end.

(** The job a goroutine is about, and its entry in the map. *)
(** The payload a goroutine works on. *)
Definition payload_of (th : Thread) : option JobPayload :=
  match th with
  | AtCapacityCheck p | AtRegister p | AtCount p _ | Executing p _ | AtReport p _ _ | AtUnregister p _
  | AtUncount p _ => Some p
  | AtCancel _ => None
  end.

Definition job_of (th : Thread) : option uuid := JobPayload_JobID <$> payload_of th.

Definition entry_of (th : Thread) : option (uuid * nat) :=
  match th with
  | AtCount p c | Executing p c | AtReport p c _ | AtUnregister p c => Some (JobPayload_JobID p, c)
  | _ => None
  end.

(** A step of a goroutine, with the goroutine it is of. *)
Ltac inv_step Hs :=
  match type of Hs with srv_step _ ?s ?act = Some ?s' =>
    destruct act as [t body|t param|t ans h]; cbn [srv_step] in Hs;
    [destruct (decide (srv_threads s !! t = None)) as [Hfree|]; [|done]; injection Hs as <-;
       unfold receive_dispatch;
       (destruct body as [p|e]; [destruct (bool_decide (JobPayload_JobID p = uuid_Nil))|])
    |destruct (decide (srv_threads s !! t = None)) as [Hfree|]; [|done]; injection Hs as <-;
       unfold receive_cancel;
       (destruct (uuid_Parse param) as [id|e]; [destruct (srv_running s !! id) as [ctx|] eqn:Hrun|])
    |destruct (srv_threads s !! t) as [[p|p|p ctx|p ctx|p ctx r|p ctx|p ctx|ctx]|] eqn:Ht; [..|done];
       injection Hs as <-;
       [unfold check_capacity; case_bool_decide as Hcap|..]]
  end.

Section facts.
Context `{UuidLib} `{OsEnv} `{VarsJson} `{FmtLib} `{MapOrder}.
Context (workDir : string).

Lemma srv_reach_inv (P : Server → Act → Prop) (I : Server → Prop) s0 s :
  I s0 → (∀ s act s', I s → P s act → srv_step workDir s act = Some s' → I s') →
  srv_reach workDir P s0 s → I s.
Proof. intros Hinit Hstep Hr. induction Hr as [|s act s' _ IH HP Hs]; [done|]. by eapply Hstep. Qed.

(** The states of a run of permitted actions are reached. *)
Fixpoint permitted (P : Server → Act → Prop) (acts : list Act) (s : Server) : Prop :=
  match acts with
  | [] => True
  | act :: acts => P s act ∧ match srv_step workDir s act with Some s' => permitted P acts s' | None => False end
  end.

Lemma srv_run_reach P s0 acts s s' :
  srv_reach workDir P s0 s → permitted P acts s → srv_run workDir acts s = Some s' → srv_reach workDir P s0 s'.
Proof.
  revert s. induction acts as [|act acts IH]; intros s Hr Hp Hrun; [by injection Hrun as <-|].
  destruct Hp as [HP Hp]. unfold srv_run in Hrun. cbn [foldl mbind option_bind] in Hrun.
  destruct (srv_step workDir s act) as [s1|] eqn:Hs; [|done]. apply (IH s1); [by eapply reach_step|done|exact Hrun].
Qed.

(** The goroutine of a step is the only one that changes. *)
Definition act_thread (act : Act) : nat :=
  match act with Receive t _ | ReceiveCancel t _ | Go t _ _ => t end.

Lemma step_frame s act s' t :
  srv_step workDir s act = Some s' → t ≠ act_thread act → srv_threads s' !! t = srv_threads s !! t.
Proof.
  intros Hs Ht. destruct act as [u body|u param|u ans h]; cbn in Hs, Ht.
  - case_decide; [|done]. injection Hs as <-. unfold receive_dispatch.
    repeat case_match; cbn; by rewrite ?lookup_insert_ne, ?lookup_delete_ne by done.
  - case_decide; [|done]. injection Hs as <-. unfold receive_cancel.
    repeat case_match; cbn; by rewrite ?lookup_insert_ne, ?lookup_delete_ne by done.
  - destruct (srv_threads s !! u) as [[]|]; [..|done]; injection Hs as <-; unfold check_capacity;
      repeat case_match; cbn; by rewrite ?lookup_insert_ne, ?lookup_delete_ne by done.
Qed.

Lemma srv_run_None acts : foldl (λ s act, s ← s; srv_step workDir s act) None acts = None.
Proof. by induction acts. Qed.

Lemma srv_run_cons act acts s : srv_run workDir (act :: acts) s = s1 ← srv_step workDir s act; srv_run workDir acts s1.
Proof. unfold srv_run. cbn. destruct (srv_step workDir s act); [done|]. apply srv_run_None. Qed.

Lemma srv_run_app acts1 acts2 s :
  srv_run workDir (acts1 ++ acts2) s = s1 ← srv_run workDir acts1 s; srv_run workDir acts2 s1.
Proof.
  revert s. induction acts1 as [|act acts1 IH]; intros s; [done|]. cbn [app]. rewrite !srv_run_cons.
  destruct (srv_step workDir s act); [apply IH|done].
Qed.

(** ** The counter *)

Lemma count_step s act s' :
  srv_count s = Z.of_nat (num_threads counted (srv_threads s)) →
  srv_step workDir s act = Some s' →
  srv_count s' = Z.of_nat (num_threads counted (srv_threads s')).
Proof.
  intros Hc Hs. inv_step Hs; cbn [goto respond_and_end register start_job finish_run report unregister uncount
    call_cancel srv_count srv_threads]; rewrite Hc;
    match goal with
    | |- context [<[?u := ?th]> (srv_threads s)] =>
        pose proof (num_threads_insert counted (srv_threads s) u th) as Hn
    | |- context [delete ?u (srv_threads s)] => pose proof (num_threads_delete counted (srv_threads s) u) as Hn
    end; rewrite ?Hfree, ?Ht in Hn; cbn [tally counted] in Hn; lia.
Qed.

(** C21: the counter is exact: in every interleaving of requests, jobs and
    cancellations, the number of running jobs an agent reports is the number of
    jobs that execute or are being reported; so it is never negative, and every
    job gives its place back. *)
Theorem count_is_running (capacity : Z) s :
  srv_reach workDir (λ _ _, True) (New capacity) s →
  RunningJobs s = Z.of_nat (num_threads counted (srv_threads s)).
Proof.
  apply (srv_reach_inv _ (λ s, srv_count s = Z.of_nat (num_threads counted (srv_threads s)))); [done|].
  intros s1 act s2 Hc _. by apply count_step.
Qed.

(** ** Capacity *)

(** No other dispatch is between its capacity check and its increment when one
    is checked. *)
Definition serial (s : Server) (act : Act) : Prop :=
  match act with
  | Go t _ _ => match srv_threads s !! t with
                | Some (AtCapacityCheck _) => num_threads admitted (srv_threads s) = 0
                | _ => True end
  | _ => True
  end.

Lemma capacity_step (capacity : Z) s act s' :
  (srv_capacity s = capacity ∧ srv_count s + Z.of_nat (num_threads admitted (srv_threads s)) <= Z.max 0 capacity)%Z →
  serial s act → srv_step workDir s act = Some s' →
  (srv_capacity s' = capacity ∧ srv_count s' + Z.of_nat (num_threads admitted (srv_threads s')) <= Z.max 0 capacity)%Z.
Proof.
  intros [Hcp Hc] Hser Hs. inv_step Hs; cbn [goto respond_and_end register start_job finish_run report unregister uncount
    call_cancel srv_count srv_threads srv_capacity]; (split; [done|]);
    match goal with
    | |- context [<[?u := ?th]> (srv_threads s)] =>
        pose proof (num_threads_insert admitted (srv_threads s) u th) as Hn
    | |- context [delete ?u (srv_threads s)] => pose proof (num_threads_delete admitted (srv_threads s) u) as Hn
    end; rewrite ?Hfree, ?Ht in Hn; cbn [tally admitted] in Hn; cbn [serial] in Hser; rewrite ?Ht in Hser; lia.
Qed.

(** C22: the agent stays within its capacity as long as dispatch requests do not
    overlap: if no request is checked while another one is between its check
    and its increment, the number of running jobs never exceeds the capacity. *)
Theorem capacity_if_serial (capacity : Z) s :
  srv_reach workDir serial (New capacity) s → (RunningJobs s <= Z.max 0 capacity)%Z.
Proof.
  intros Hr. apply (srv_reach_inv serial (λ s, srv_capacity s = capacity ∧
    srv_count s + Z.of_nat (num_threads admitted (srv_threads s)) <= Z.max 0 capacity)%Z) in Hr.
  - destruct Hr as [_ Hr]. unfold RunningJobs. lia.
  - split; [done|]. change (0 + Z.of_nat 0 <= Z.max 0 capacity)%Z. lia.
  - intros s1 act s2 Hi. by apply capacity_step.
Qed.

(** ** Results *)

Lemma results_step s act s' :
  (Forall (λ ir, IsTerminal (Result_Status ir.2) = true) (srv_results s) ∧
   ∀ t p c r, srv_threads s !! t = Some (AtReport p c r) → IsTerminal (Result_Status r) = true) →
  srv_step workDir s act = Some s' →
  (Forall (λ ir, IsTerminal (Result_Status ir.2) = true) (srv_results s') ∧
   ∀ t p c r, srv_threads s' !! t = Some (AtReport p c r) → IsTerminal (Result_Status r) = true).
Proof.
  intros [Hr Ht0] Hs. inv_step Hs; cbn [goto respond_and_end register start_job finish_run report unregister uncount
    call_cancel srv_results srv_threads]; split; try done;
    try (intros t' p' c' r' Hl; first [apply lookup_insert_Some in Hl as [[_ ?]|[_ Hl]]|apply lookup_delete_Some in Hl as [_ Hl]];
         [done|by eapply Ht0]);
    try (intros t' p' c' r' [_ Hl]%lookup_delete_Some; by eapply Ht0).
  - intros t' p' c' r' [[_ [= <- <- <-]]|[_ Hl]]%lookup_insert_Some; [|by eapply Ht0].
    apply Run_result_terminal.
  - apply Forall_app. split; [done|]. repeat constructor. by eapply Ht0.
Qed.

(** Every result an agent posts is one the API server accepts: the status is
    terminal, however the job went. *)
Lemma posted_results_terminal (capacity : Z) s :
  srv_reach workDir (λ _ _, True) (New capacity) s →
  Forall (λ ir, IsTerminal (Result_Status ir.2) = true) (srv_results s).
Proof.
  intros Hr. apply (srv_reach_inv _ (λ s, Forall (λ ir, IsTerminal (Result_Status ir.2) = true) (srv_results s) ∧
    ∀ t p c r, srv_threads s !! t = Some (AtReport p c r) → IsTerminal (Result_Status r) = true)) in Hr.
  - by destruct Hr.
  - split; [constructor|]. intros t p c r Hl. by cbn in Hl.
  - intros s1 act s2 Hi _. by apply results_step.
Qed.

(** ** Every dispatch is answered, every accepted job ends and is reported *)

(** The steps of its own that the goroutine of a dispatch has left. *)
Definition own_left (th : Thread) : nat :=
  match th with
  | AtCapacityCheck _ => 7 | AtRegister _ => 6 | AtCount _ _ => 5 | Executing _ _ => 4
  | AtReport _ _ _ => 3 | AtUnregister _ _ => 2 | AtUncount _ _ => 1 | AtCancel _ => 1
  end.

Definition is_own (t : nat) (act : Act) : bool :=
  match act with Go t' _ _ => bool_decide (t' = t) | _ => false end.

Definition own (t : nat) (acts : list Act) : nat := length (filter (λ act, is_own t act = true) acts).

(** [r] is what Run returns in one of the steps [acts] of the goroutine. *)
Definition ran (t : nat) (p : JobPayload) (acts : list Act) (r : Result) : Prop :=
  ∃ ans h, Go t ans h ∈ acts ∧ r = (host_run (Run workDir p) ans h).1.

(** What has happened when the goroutine [t] of the dispatch of [p] is at [th],
    after the steps [acts]. *)
Definition reached (t : nat) (p : JobPayload) (acts : list Act) (s : Server) (th : Thread) : Prop :=
  match th with
  | AtCapacityCheck q | AtRegister q | AtCount q _ => q = p
  | Executing q _ => q = p ∧ (t, StatusAccepted) ∈ srv_responses s
  | AtReport q _ r => q = p ∧ (t, StatusAccepted) ∈ srv_responses s ∧ ran t p acts r
  | AtUnregister q _ | AtUncount q _ => q = p ∧ (t, StatusAccepted) ∈ srv_responses s ∧
      ∃ r, ran t p acts r ∧ (JobPayload_JobID p, r) ∈ srv_results s
  | AtCancel _ => False
  end.

(** The dispatch is over: refused at capacity, or accepted, run and reported. *)
Definition over (t : nat) (p : JobPayload) (acts : list Act) (s : Server) : Prop :=
  srv_threads s !! t = None ∧
  ((t, StatusServiceUnavailable) ∈ srv_responses s ∨
   (t, StatusAccepted) ∈ srv_responses s ∧
   ∃ r, ran t p acts r ∧ (JobPayload_JobID p, r) ∈ srv_results s).

Lemma ran_app t p acts act r : ran t p acts r → ran t p (acts ++ [act]) r.
Proof. intros (ans & h & Hin & ->). exists ans, h. split; [|done]. apply elem_of_app. by left. Qed.

Lemma reached_mono t p acts act s s' th :
  (∀ x, x ∈ srv_responses s → x ∈ srv_responses s') → (∀ x, x ∈ srv_results s → x ∈ srv_results s') →
  reached t p acts s th → reached t p (acts ++ [act]) s' th.
Proof.
  intros Hp Hr. pose proof (ran_app t p acts act). destruct th; cbn; try done; try naive_solver.
Qed.

Lemma step_grows s act s' :
  srv_step workDir s act = Some s' →
  (∀ x, x ∈ srv_responses s → x ∈ srv_responses s') ∧ (∀ x, x ∈ srv_results s → x ∈ srv_results s').
Proof.
  intros Hs. inv_step Hs; cbn [goto respond_and_end register start_job finish_run report unregister uncount
    call_cancel srv_responses srv_results]; split; try done; intros x Hx; apply elem_of_app; by left.
Qed.

Lemma step_other u s act s' th :
  srv_step workDir s act = Some s' → srv_threads s !! u = Some th → is_own u act = false →
  srv_threads s' !! u = Some th.
Proof.
  intros Hs Hth Ho. inv_step Hs; cbn [goto respond_and_end register start_job finish_run report unregister uncount
    call_cancel srv_threads]; rewrite ?lookup_insert_ne, ?lookup_delete_ne; try done;
    try (intros ->; congruence);
    cbn in Ho; by apply bool_decide_eq_false in Ho.
Qed.

Lemma own_cons t act acts : own t (act :: acts) = (if is_own t act then 1 else 0) + own t acts.
Proof. unfold own. rewrite filter_cons. by destruct (is_own t act). Qed.

Lemma own_app t acts1 acts2 : own t (acts1 ++ acts2) = own t acts1 + own t acts2.
Proof. unfold own. by rewrite filter_app, length_app. Qed.

(** A step of its own brings the goroutine closer to its end. *)
Lemma step_own t p acts s act s' th :
  srv_step workDir s act = Some s' → srv_threads s !! t = Some th → is_own t act = true →
  reached t p acts s th →
  over t p (acts ++ [act]) s' ∨
  ∃ th', srv_threads s' !! t = Some th' ∧ own_left th = S (own_left th') ∧ reached t p (acts ++ [act]) s' th'.
Proof.
  intros Hs Hth Ho Hre. destruct act as [| |t' ans h]; [done..|]. cbn in Ho. apply bool_decide_eq_true in Ho as ->.
  pose proof (step_grows _ _ _ Hs) as [Hg1 Hg2]. pose proof (reached_mono t p acts (Go t ans h) s s' th Hg1 Hg2 Hre) as Hm.
  cbn [srv_step] in Hs. rewrite Hth in Hs.
  destruct th as [q|q|q ctx|q ctx|q ctx r|q ctx|q ctx|ctx]; injection Hs as <-; [|right|right|right|right|right|left|done].
  1: { unfold check_capacity. case_bool_decide; [left|right].
       - split; [apply lookup_delete_eq|]. left. cbn. apply elem_of_app. right. by left.
       - eexists. split; [apply lookup_insert_eq|]. done. }
  1-5: eexists; split; [apply lookup_insert_eq|split; [done|]]; cbn in Hm |- *; try done.
  - split; [done|]. apply elem_of_app. right. by left.
  - destruct Hm as [-> Hm]. split_and!; [done..|]. exists ans, h. split; [apply elem_of_app; right; by left|done].
  - destruct Hm as (-> & Hm & Hr). split_and!; [done..|]. exists r. split; [done|]. apply elem_of_app. right. by left.
  - split; [apply lookup_delete_eq|]. right. by destruct Hm as (-> & Hm).
Qed.

(** Every dispatch request is decided, and an accepted job whose Run returns (here
    Run is one step) is reported, in at most seven steps of its own goroutine,
    whatever the other goroutines do meanwhile: it is answered 503 (at capacity),
    or it is answered 202, and then the result of Run on its payload is given to
    PostResult and the goroutine ends. *)
Lemma dispatch_ends acts s s' t p :
  srv_threads s !! t = Some (AtCapacityCheck p) → srv_run workDir acts s = Some s' → 7 ≤ own t acts →
  ∃ pre post s1, acts = pre ++ post ∧ srv_run workDir pre s = Some s1 ∧ own t pre ≤ 7 ∧ over t p pre s1.
Proof.
  intros Hth Hrun Hown.
  assert (∀ acts done s1 th, srv_run workDir done s = Some s1 → srv_run workDir acts s1 = Some s' →
    srv_threads s1 !! t = Some th → reached t p done s1 th → own_left th ≤ own t acts →
    own t done + own_left th ≤ 7 →
    ∃ pre post s2, done ++ acts = pre ++ post ∧ srv_run workDir pre s = Some s2 ∧ own t pre ≤ 7 ∧ over t p pre s2)
    as Hgen; [|by apply (Hgen acts [] s (AtCapacityCheck p))].
  clear. induction acts as [|act acts IH]; intros done s1 th Hd Hr Hth Hre Hle Hlt.
  { destruct th; cbn in *; lia. }
  rewrite srv_run_cons in Hr. destruct (srv_step workDir s1 act) as [s2|] eqn:Hs; [|done]. cbn in Hr.
  assert (srv_run workDir (done ++ [act]) s = Some s2) as Hd2 by (rewrite srv_run_app, Hd; cbn; by rewrite Hs).
  rewrite own_cons in Hle. pose proof (own_app t done [act]) as Ho. rewrite own_cons in Ho.
  destruct (is_own t act) eqn:Hown; cbn in Ho.
  - destruct (step_own t p done s1 act s2 th Hs Hth Hown Hre) as [Hov|(th' & Hth' & Hl & Hre')].
    + exists (done ++ [act]), acts, s2. split; [by rewrite <-app_assoc|]. split; [done|]. split; [|done].
      destruct th; cbn in *; lia.
    + destruct (IH (done ++ [act]) s2 th' Hd2 Hr Hth' Hre') as (pre & post & s3 & E & Hx); [lia..|].
      exists pre, post, s3. by rewrite <-E, <-app_assoc.
  - pose proof (step_grows _ _ _ Hs) as [Hg1 Hg2].
    destruct (IH (done ++ [act]) s2 th Hd2 Hr (step_other _ _ _ _ _ Hs Hth Hown)
      (reached_mono _ _ _ _ _ _ _ Hg1 Hg2 Hre)) as (pre & post & s3 & E & Hx); [lia..|].
    exists pre, post, s3. by rewrite <-E, <-app_assoc.
Qed.

(** ** Cancellation *)

(** No job is registered under the id of a job in the map. *)
Definition fresh_ids (s : Server) (act : Act) : Prop :=
  match act with
  | Go t _ _ => match srv_threads s !! t with
                | Some (AtRegister p) => srv_running s !! JobPayload_JobID p = None
                | _ => True end
  | _ => True
  end.

(** The goroutine [t] runs the job [id] under the context [c]. *)
Definition runs (s : Server) (t : nat) (id : uuid) (c : nat) : Prop :=
  (th ← srv_threads s !! t; entry_of th) = Some (id, c).

(** The map and the goroutines tell the same, each context is one job's, and the
    contexts to come are new. *)
Record entries_ok (s : Server) : Prop := {
  entries_sound : ∀ id c, srv_running s !! id = Some c → ∃ t, runs s t id c;
  entries_complete : ∀ t id c, runs s t id c → srv_running s !! id = Some c;
  entries_one : ∀ t1 t2 id1 id2 c, runs s t1 id1 c → runs s t2 id2 c → t1 = t2;
  entries_old : ∀ t id c, runs s t id c → c < srv_contexts s;
}.

(** Steps that leave the map, the contexts and the goroutine's entry as they are. *)
Lemma entries_ok_same s s' :
  srv_running s' = srv_running s → srv_contexts s' = srv_contexts s →
  (∀ t id c, runs s' t id c ↔ runs s t id c) → entries_ok s → entries_ok s'.
Proof.
  intros Er Ec Hr [Hs Hc Ho Hl]. split.
  - intros id c. rewrite Er. intros (t & Ht)%Hs. exists t. by apply Hr.
  - intros t id c Ht%Hr. rewrite Er. by apply (Hc t).
  - intros t1 t2 id1 id2 c Hx%Hr Hy%Hr. by apply (Ho _ _ id1 id2 c).
  - intros t id c Ht%Hr. rewrite Ec. by apply (Hl t id).
Qed.

Lemma runs_insert_same (m : gmap nat Thread) t th t' :
  (m !! t ≫= entry_of) = entry_of th → (<[t := th]> m !! t' ≫= entry_of) = (m !! t' ≫= entry_of).
Proof. intros E. destruct (decide (t = t')) as [<-|Hne]; [by rewrite lookup_insert_eq|by rewrite lookup_insert_ne]. Qed.

Lemma runs_delete_same (m : gmap nat Thread) t t' :
  (m !! t ≫= entry_of) = None → (delete t m !! t' ≫= entry_of) = (m !! t' ≫= entry_of).
Proof. intros E. destruct (decide (t = t')) as [<-|Hne]; [by rewrite lookup_delete_eq|by rewrite lookup_delete_ne]. Qed.

Lemma entries_register s t p :
  entries_ok s → srv_threads s !! t = Some (AtRegister p) → srv_running s !! JobPayload_JobID p = None →
  entries_ok (register t p s).
Proof.
  intros [Hs Hc Ho Hl] Ht Hfree.
  assert (∀ t' id c, runs (register t p s) t' id c ↔
    (t' = t ∧ id = JobPayload_JobID p ∧ c = srv_contexts s) ∨ (t' ≠ t ∧ runs s t' id c)) as Hr.
  { intros t' id c. unfold runs, register; cbn [srv_threads]. destruct (decide (t = t')) as [<-|Hne].
    - rewrite lookup_insert_eq. cbn. split; [intros [= <- <-]; by left|]. by intros [(_ & -> & ->)|[? _]].
    - rewrite lookup_insert_ne by done. split; [intros Hx; right; by split|]. by intros [(? & _)|[_ Hx]]. }
  assert (∀ t' c, ¬ runs s t' (JobPayload_JobID p) c) as Hno.
  { intros t' c Hx%Hc. by rewrite Hfree in Hx. }
  split; cbn [register srv_running srv_contexts].
  - intros id c [[<- <-]|[Hne (t' & Hx)%Hs]]%lookup_insert_Some.
    + exists t. apply Hr. by left.
    + exists t'. apply Hr. right. split; [|done]. intros ->. unfold runs in Hx. by rewrite Ht in Hx.
  - intros t' id c [(-> & -> & ->)|[Hne Hx]]%Hr; [by rewrite lookup_insert_eq|].
    rewrite lookup_insert_ne; [by apply (Hc t')|]. intros <-. by apply Hno in Hx.
  - intros t1 t2 id1 id2 c [(-> & -> & ->)|[Hn1 Hx]]%Hr [(-> & -> & E)|[Hn2 Hy]]%Hr; [done|..].
    + apply Hl in Hy. lia.
    + subst c. apply Hl in Hx. lia.
    + by apply (Ho _ _ id1 id2 c).
  - intros t' id c [(-> & -> & ->)|[Hne Hx]]%Hr; [lia|]. apply Hl in Hx. lia.
Qed.

Lemma entries_unregister s t p ctx :
  entries_ok s → srv_threads s !! t = Some (AtUnregister p ctx) → entries_ok (unregister t p ctx s).
Proof.
  intros [Hs Hc Ho Hl] Ht.
  assert (runs s t (JobPayload_JobID p) ctx) as Hme by (unfold runs; by rewrite Ht).
  assert (∀ t' id c, runs (unregister t p ctx s) t' id c ↔ t' ≠ t ∧ runs s t' id c) as Hr.
  { intros t' id c. unfold runs, unregister; cbn [srv_threads]. destruct (decide (t = t')) as [<-|Hne].
    - rewrite lookup_insert_eq. cbn. split; [done|]. by intros [? _].
    - rewrite lookup_insert_ne by done. split; [by split|]. by intros [_ Hx]. }
  split; cbn [unregister srv_running srv_contexts].
  - intros id c [Hne (t' & Hx)%Hs]%lookup_delete_Some. exists t'. apply Hr. split; [|done].
    intros ->. apply Hne. unfold runs in *. congruence.
  - intros t' id c [Hne Hx]%Hr. rewrite lookup_delete_ne; [by apply (Hc t')|]. intros <-.
    apply Hne. pose proof (Hc _ _ _ Hme) as E. pose proof (Hc _ _ _ Hx) as E'.
    rewrite E in E'. injection E' as ->. by apply (Ho _ _ _ _ _ Hx Hme).
  - intros t1 t2 id1 id2 c [_ Hx]%Hr [_ Hy]%Hr. by apply (Ho _ _ id1 id2 c).
  - intros t' id c [_ Hx]%Hr. by apply (Hl t' id).
Qed.

Lemma entries_step s act s' :
  entries_ok s → fresh_ids s act → srv_step workDir s act = Some s' → entries_ok s'.
Proof.
  intros Hok Hfr Hs. inv_step Hs; cbn [fresh_ids] in Hfr; rewrite ?Ht in Hfr;
    try (apply (entries_ok_same s); [done|done| |done]; intros t' id' c'; unfold runs;
         cbn [goto respond_and_end start_job finish_run report uncount call_cancel srv_threads];
         rewrite ?runs_insert_same, ?runs_delete_same by (by rewrite ?Hfree, ?Ht); done).
  - by apply entries_register.
  - by apply entries_unregister.
Qed.

Lemma entries_reach (capacity : Z) s : srv_reach workDir fresh_ids (New capacity) s → entries_ok s.
Proof.
  apply (srv_reach_inv fresh_ids entries_ok).
  - split; cbn; try (intros *; unfold runs; cbn; by rewrite lookup_empty).
  - intros s1 act s2. apply entries_step.
Qed.

(** A cancel request reaches the job it names and no other, as long as no job is
    dispatched twice at once: it is answered 202 and cancels the context of
    the goroutine that runs that job, which is no other job's context; and it
    is answered 404, cancelling nothing, exactly when no goroutine runs it. *)
Lemma cancel_cases (capacity : Z) s t param id ans h :
  srv_reach workDir fresh_ids (New capacity) s → srv_threads s !! t = None → uuid_Parse param = Ok id →
  (∃ t' c s', runs s t' id c ∧ (∀ t2 id2, runs s t2 id2 c → t2 = t') ∧
     srv_run workDir [ReceiveCancel t param; Go t ans h] s = Some s' ∧
     srv_cancelled s' = {[ c ]} ∪ srv_cancelled s ∧ srv_threads s' = srv_threads s ∧
     srv_responses s' = srv_responses s ++ [(t, StatusAccepted)]) ∨
  ((∀ t' c, ¬ runs s t' id c) ∧
   ∃ s', srv_run workDir [ReceiveCancel t param] s = Some s' ∧
     srv_cancelled s' = srv_cancelled s ∧ srv_threads s' = srv_threads s ∧
     srv_responses s' = srv_responses s ++ [(t, StatusNotFound)]).
Proof.
  intros Hr Hfree Hp. apply entries_reach in Hr.
  destruct Hr as [Hs Hc Ho _]. cbn [srv_run foldl mbind option_bind srv_step].
  rewrite decide_True by done. unfold receive_cancel. rewrite Hp.
  destruct (srv_running s !! id) as [c|] eqn:Hrun.
  - left. destruct (Hs _ _ Hrun) as (t' & Ht'). eexists t', c, _. split; [done|]. split.
    { intros t2 id2 Hx. by apply (Ho _ _ id2 id c). }
    cbn [mbind option_bind goto srv_threads]. rewrite lookup_insert_eq. cbn. split; [done|].
    cbn [call_cancel goto srv_cancelled srv_threads srv_responses]. rewrite delete_insert_id by done. done.
  - right. split.
    { intros t' c Hx%Hc. by rewrite Hrun in Hx. }
    eexists. split; [done|]. cbn. rewrite delete_id by done. done.
Qed.
End facts.
