(* ===== verification/InventoryFacts.v ===== *)
(** * The inventory survives writing and parsing

    The agent writes the hosts of a payload in the INI format the controller
    parses: [parseINIInventory] reads back what [WriteInventory] writes. *)
From S2P Require Import Prelude.
From S2P Require Import Prog.
From S2P Require Import Types.
From S2P Require Import Text.
From S2P Require Import Db.
From S2P Require Import ControllerStore.
From S2P Require Import Inventory.
From S2P Require Import AgentInventory.

(** ** Units of a string *)

(** The bytes of a string. *)
Fixpoint chars (s : string) : list Ascii.ascii :=
  match s with EmptyString => [] | String c s => c :: chars s end.

(** No white space occurs. *)
Definition solid (s : string) : Prop := units s = Some <$> chars s.

Definition is_ascii (c : Ascii.ascii) : Prop := (byte_of c < 128)%N.

Lemma chars_app s1 s2 : chars (s1 +:+ s2) = chars s1 ++ chars s2.
Proof. induction s1 as [|c s1 IH]; simpl; [done|]. by rewrite IH. Qed.

Lemma space2_ascii a b : is_ascii b → space2 a b = false.
Proof.
  unfold is_ascii, space2. intros Hb.
  destruct (byte_of a =? 194)%N; simpl; [|done].
  apply orb_false_iff. rewrite !N.eqb_neq. lia.
Qed.

Lemma space2_ascii_l a b : is_ascii a → space2 a b = false.
Proof. unfold is_ascii, space2. intros Ha. replace (byte_of a =? 194)%N with false; [done|]. symmetry. apply N.eqb_neq. lia. Qed.

Lemma space3_cont a b c : is_ascii a ∨ is_ascii b ∨ is_ascii c → space3 a b c = false.
Proof.
  unfold is_ascii, space3. intros Hc. apply not_true_iff_false.
  repeat first [rewrite orb_true_iff|rewrite andb_true_iff].
  rewrite !N.eqb_eq, !N.leb_le. lia.
Qed.

(** One byte that does not start white space. *)
Lemma units_cons c s : space_len (String c s) = None → units (String c s) = Some c :: units s.
Proof.
  simpl. destruct (ascii_space c); [done|]. destruct s as [|b s]; [done|].
  destruct (space2 c b); [done|]. destruct s as [|d s]; [done|]. by destruct (space3 c b d).
Qed.

Lemma units_space c s n : space_len (String c s) = Some n → ∃ us, units (String c s) = None :: us.
Proof.
  simpl. destruct (ascii_space c); [by eauto|]. destruct s as [|b s]; [done|].
  destruct (space2 c b); [by eauto|]. destruct s as [|d s]; [done|]. destruct (space3 c b d); [by eauto|done].
Qed.

Lemma solid_cons c s : solid (String c s) ↔ space_len (String c s) = None ∧ solid s.
Proof.
  unfold solid. destruct (space_len (String c s)) as [n|] eqn:Hl.
  - apply units_space in Hl as [us ->]. split; [done|]. by intros [? _].
  - rewrite units_cons by done. simpl. split; [by intros [= ?]|]. by intros [_ ->].
Qed.

(** White space does not extend over an ASCII byte. *)
Lemma space_len_app s c t :
  is_ascii c → s ≠ EmptyString → space_len (s +:+ String c t) = space_len s.
Proof.
  intros Hc. destruct s as [|a [|b [|d s]]]; simpl; intros Hne; try done.
  - destruct (ascii_space a); [done|]. rewrite space2_ascii by done.
    destruct t as [|e t]; [done|]. rewrite space3_cont by auto. done.
  - destruct (ascii_space a); [done|]. destruct (space2 a b); [done|].
    by rewrite space3_cont by auto.
Qed.

Lemma units_app s c t : is_ascii c → units (s +:+ String c t) = units s ++ units (String c t).
Proof.
  intros Hc. remember (String.length s) as n eqn:Hn. revert s Hn.
  induction n as [n IH] using lt_wf_ind. intros s ->.
  destruct s as [|a s]; [done|].
  destruct (space_len (String a s)) as [n|] eqn:Hl.
  - simpl in Hl |- *. destruct (ascii_space a).
    { rewrite (IH (String.length s)) by (simpl; auto with lia). done. }
    destruct s as [|b s]; [done|]. simpl. destruct (space2 a b).
    { rewrite (IH (String.length s)) by (simpl; auto with lia). done. }
    destruct s as [|d s]; [done|]. simpl. destruct (space3 a b d); [|done].
    rewrite (IH (String.length s)) by (simpl; auto with lia). done.
  - rewrite (units_cons a s Hl). change (String a s +:+ String c t) with (String a (s +:+ String c t)).
    rewrite units_cons, (IH (String.length s)); simpl; auto with lia.
    by rewrite <-(space_len_app (String a s) c t) in Hl.
Qed.

Lemma solid_app s c t : is_ascii c → solid s → solid (String c t) → solid (s +:+ String c t).
Proof. unfold solid. intros Hc Hs Ht. by rewrite units_app, Hs, Ht, chars_app, fmap_app. Qed.

Lemma solid_ascii c s : is_ascii c → ascii_space c = false → solid s → solid (String c s).
Proof.
  intros Hc Hsp Hs. apply solid_cons. split; [|done]. simpl. rewrite Hsp.
  destruct s as [|b s]; [done|]. rewrite space2_ascii_l by done.
  destruct s as [|d s]; [done|]. by rewrite space3_cont by auto.
Qed.

(** ** Fields *)

Definition space : Ascii.ascii := Ascii.ascii_of_N 32.

Lemma fields_loop_solid cur l us :
  fields_loop cur ((Some <$> l) ++ us) = fields_loop (cur +:+ foldr String EmptyString l) us.
Proof.
  revert cur. induction l as [|c l IH]; intros cur; simpl.
  - by rewrite (right_id_L EmptyString String.append).
  - rewrite IH. f_equal. rewrite <-(assoc_L String.append). done.
Qed.

Lemma chars_foldr s : foldr String EmptyString (chars s) = s.
Proof. induction s as [|c s IH]; simpl; [done|]. by rewrite IH. Qed.

Lemma Fields_word w : solid w → w ≠ EmptyString → Fields w = [w].
Proof.
  intros Hw Hne. unfold Fields. rewrite Hw. rewrite <-(app_nil_r (Some <$> chars w)).
  rewrite fields_loop_solid, chars_foldr. simpl. by rewrite bool_decide_eq_false_2.
Qed.

Lemma Fields_cons w t : solid w → w ≠ EmptyString → Fields (w +:+ String space t) = w :: Fields t.
Proof.
  intros Hw Hne. unfold Fields. rewrite units_app by done. rewrite Hw.
  rewrite fields_loop_solid, chars_foldr. simpl. by rewrite bool_decide_eq_false_2.
Qed.

(** Words, each after a space. *)
Definition spaced (ws : list string) : string := concat_str ((λ w, String space w) <$> ws).

Lemma spaced_cons w ws : spaced (w :: ws) = String space w +:+ spaced ws.
Proof. done. Qed.

Lemma spaced_one w : spaced [w] = String space w.
Proof. rewrite spaced_cons. apply (right_id_L EmptyString String.append). Qed.

Lemma spaced_app a b : spaced (a ++ b) = spaced a +:+ spaced b.
Proof.
  induction a as [|x a IH]; [done|].
  change ((x :: a) ++ b) with (x :: (a ++ b)). rewrite !spaced_cons, IH.
  apply (assoc_L String.append).
Qed.

Lemma Fields_spaced w ws :
  Forall (λ w, solid w ∧ w ≠ EmptyString) (w :: ws) → Fields (w +:+ spaced ws) = w :: ws.
Proof.
  revert w. induction ws as [|v ws IH]; intros w [[Hw Hne] Hws]%Forall_cons.
  - unfold spaced. simpl. rewrite (right_id_L EmptyString String.append). by apply Fields_word.
  - change (w +:+ spaced (v :: ws)) with (w +:+ String space (v +:+ spaced ws)).
    rewrite Fields_cons by done. by rewrite IH.
Qed.

(** ** TrimSpace *)

Lemma all_space_app a c t : is_ascii c → all_space (a +:+ String c t) = all_space a && all_space (String c t).
Proof. intros Hc. unfold all_space. by rewrite units_app, forallb_app. Qed.

Lemma TrimRight_solid s : solid s → TrimRightSpace s = s.
Proof.
  induction s as [|c s IH]; intros Hs; [done|].
  pose proof Hs as [_ Hs']%solid_cons. cbn [TrimRightSpace]. rewrite IH by done.
  unfold all_space. by rewrite Hs.
Qed.

(** A string that ends in a solid part is not trimmed on the right. *)
Lemma TrimRight_id a c t :
  is_ascii c → solid t → all_space (String c t) = false →
  TrimRightSpace (a +:+ String c t) = a +:+ String c t.
Proof.
  intros Hc Ht Hns. induction a as [|b a IH].
  - change (TrimRightSpace (EmptyString +:+ String c t)) with
      (if all_space (String c t) then EmptyString else String c (TrimRightSpace t)).
    by rewrite Hns, TrimRight_solid.
  - change (TrimRightSpace (String b a +:+ String c t)) with
      (if all_space (String b a +:+ String c t) then EmptyString
       else String b (TrimRightSpace (a +:+ String c t))).
    rewrite all_space_app, Hns, andb_false_r by done. by rewrite IH.
Qed.

Lemma TrimLeft_id s : space_len s = None → TrimLeftSpace s = s.
Proof. intros Hs. unfold TrimLeftSpace. destruct s as [|c s]; [done|]. simpl String.length. cbn [TrimLeft_fuel]. by rewrite Hs. Qed.

Lemma all_space_solid s : solid s → s ≠ EmptyString → all_space s = false.
Proof. intros Hs Hne. unfold all_space. rewrite Hs. by destruct s. Qed.

Lemma TrimSpace_solid s : solid s → TrimSpace s = s.
Proof.
  intros Hs. unfold TrimSpace. rewrite TrimLeft_id; [by apply TrimRight_solid|].
  destruct s; [done|]. by apply solid_cons in Hs as [? _].
Qed.

Lemma space_len_solid_app w c t : is_ascii c → solid w → w ≠ EmptyString → space_len (w +:+ String c t) = None.
Proof.
  intros Hc Hw Hne. rewrite space_len_app by done. destruct w; [done|]. by apply solid_cons in Hw as [? _].
Qed.

(** A line of words. *)
Lemma TrimSpace_spaced w ws :
  Forall (λ w, solid w ∧ w ≠ EmptyString) (w :: ws) → TrimSpace (w +:+ spaced ws) = w +:+ spaced ws.
Proof.
  intros [[Hw Hne] Hws]%Forall_cons.
  destruct ws as [|v ws].
  { unfold spaced. simpl. rewrite (right_id_L EmptyString String.append). by apply TrimSpace_solid. }
  unfold TrimSpace. rewrite TrimLeft_id.
  2: { apply (space_len_solid_app w space (v +:+ spaced ws)); done. }
  assert (∃ a u, v :: ws = a ++ [u]) as (a & u & E).
  { destruct (exists_last (l := v :: ws)) as (a & u & E); [done|]. by exists a, u. }
  rewrite E in Hws |- *. apply Forall_app in Hws as [_ [[Hu Hune] _]%Forall_cons].
  rewrite spaced_app, spaced_one.
  rewrite (assoc_L String.append). apply TrimRight_id; [done|done|].
  unfold all_space. change (units (String space u)) with (None :: units u). simpl.
  by apply all_space_solid.
Qed.

(** ** Lines *)

Definition no_newline (s : string) : Prop := Forall (λ c, c ≠ LF ∧ c ≠ CR) (chars s).

Lemma SplitByte_line l t :
  no_newline l → SplitByte LF (l +:+ String LF t) = l :: SplitByte LF t.
Proof.
  unfold no_newline. induction l as [|c l IH]; intros Hl; [done|].
  apply Forall_cons in Hl as [[Hc _] Hl].
  change (String c l +:+ String LF t) with (String c (l +:+ String LF t)). cbn [SplitByte].
  rewrite bool_decide_eq_false_2 by done. by rewrite IH.
Qed.

Lemma SplitByte_unlines ls :
  Forall no_newline ls → SplitByte LF (unlines ls) = ls ++ [EmptyString].
Proof.
  induction ls as [|l ls IH]; intros Hls; [done|]. apply Forall_cons in Hls as [Hl Hls].
  change (unlines (l :: ls)) with ((l +:+ String LF EmptyString) +:+ unlines ls).
  rewrite <-(assoc_L String.append). change (String LF EmptyString +:+ unlines ls) with (String LF (unlines ls)).
  rewrite SplitByte_line by done. by rewrite IH.
Qed.

Lemma dropCR_id s : no_newline s → dropCR s = s.
Proof.
  unfold no_newline. induction s as [|c s IH]; intros Hs; [done|].
  apply Forall_cons in Hs as [[_ Hc] Hs]. simpl. destruct s as [|d s].
  - by rewrite bool_decide_eq_false_2.
  - by rewrite IH.
Qed.

Definition line_ok (l : string) : Prop := no_newline l ∧ (N.of_nat (String.length l) < MaxScanTokenSize)%N.

Lemma Scan_unlines ls : Forall line_ok ls → Scan (unlines ls) = (ls, None).
Proof.
  intros Hls. unfold Scan, raw_lines.
  rewrite SplitByte_unlines by (eapply Forall_impl; [done|by intros l []]).
  rewrite last_snoc, removelast_last.
  induction Hls as [|l ls [Hl Hlen] _ IH]; [done|]. cbn [scan_lines].
  rewrite (proj2 (N.leb_gt _ _) Hlen), IH. by rewrite dropCR_id.
Qed.

Lemma no_newline_app a b : no_newline (a +:+ b) ↔ no_newline a ∧ no_newline b.
Proof. unfold no_newline. by rewrite chars_app, Forall_app. Qed.

Lemma solid_no_newline s : solid s → no_newline s.
Proof.
  induction s as [|c s IH]; intros Hs; [constructor|]. apply solid_cons in Hs as [Hc Hs].
  constructor; [|by apply IH]. simpl in Hc. destruct (ascii_space c) eqn:Hsp; [done|].
  split; intros ->; by vm_compute in Hsp.
Qed.

(** ** The lines of the file, parsed *)

Lemma HasSuffix_app a p : HasSuffix (a +:+ p) p = true.
Proof.
  induction a as [|c a IH].
  - destruct p; simpl; [done|]. by rewrite bool_decide_eq_true_2.
  - change (String c a +:+ p) with (String c (a +:+ p)). cbn [HasSuffix]. by rewrite IH, orb_true_r.
Qed.

Lemma take_str_app a b : take_str (String.length a) (a +:+ b) = a.
Proof. induction a as [|c a IH]; [by destruct b|]. simpl. f_equal. exact IH. Qed.

(** The first byte of a non-empty string decides a one-byte prefix. *)
Lemma HasPrefix_first w t c : w ≠ EmptyString →
  HasPrefix (w +:+ t) (String c EmptyString) = HasPrefix w (String c EmptyString).
Proof.
  intros Hw. destruct w as [|d w]; [done|]. unfold HasPrefix. simpl.
  destruct (Ascii.ascii_dec c d); [|done]. by destruct w, t.
Qed.

Definition group_ok (g : string) : Prop :=
  g ≠ EmptyString ∧ g ≠ "all" ∧ ContainsByte g colon = false ∧ no_newline g.

Lemma TrimSpace_section g : TrimSpace ("[" +:+ g +:+ "]") = "[" +:+ g +:+ "]".
Proof.
  unfold TrimSpace. rewrite TrimLeft_id.
  - rewrite (assoc_L String.append). by apply TrimRight_id.
  - change ("[" +:+ g +:+ "]") with (String (Ascii.ascii_of_N 91) (g +:+ "]")).
    by destruct (g +:+ "]") as [|b [|d s]].
Qed.

Lemma parse_section p st g :
  ContainsByte g colon = false →
  parse_line p st ("[" +:+ g +:+ "]") =
  {| hostMap := hostMap st; currentGroup := g; skipSection := false |}.
Proof.
  intros Hg. unfold parse_line. rewrite TrimSpace_section.
  assert (HasSuffix ("[" +:+ g +:+ "]") "]" = true) as ->.
  { rewrite (assoc_L String.append). apply HasSuffix_app. }
  assert (take_str (String.length ("[" +:+ g +:+ "]") - 2) (drop_str 1 ("[" +:+ g +:+ "]")) = g) as ->.
  { rewrite !length_append. change (drop_str 1 ("[" +:+ g +:+ "]")) with (g +:+ "]").
    change (String.length "[") with 1. change (String.length "]") with 1.
    replace (1 + (String.length g + 1) - 2) with (String.length g) by lia. apply take_str_app. }
  change (HasPrefix ("[" +:+ g +:+ "]") "#") with false.
  change (HasPrefix ("[" +:+ g +:+ "]") ";") with false.
  change (HasPrefix ("[" +:+ g +:+ "]") "[") with (HasPrefix (g +:+ "]") EmptyString).
  rewrite bool_decide_eq_false_2 by done. cbn [orb].
  replace (HasPrefix (g +:+ "]") EmptyString) with true by (by destruct g).
  cbn [andb]. by rewrite Hg.
Qed.

Definition name_ok (n : string) : Prop :=
  solid n ∧ n ≠ EmptyString ∧
  HasPrefix n "#" = false ∧ HasPrefix n ";" = false ∧ HasPrefix n "[" = false.

Lemma parse_host_line p st n ws :
  name_ok n → Forall (λ w, solid w ∧ w ≠ EmptyString) ws → skipSection st = false →
  parse_line p st (n +:+ spaced ws) =
  {| hostMap := host_entry p (currentGroup st) (n :: ws) (hostMap st);
     currentGroup := currentGroup st; skipSection := skipSection st |}.
Proof.
  intros (Hn & Hne & H1 & H2 & H3) Hws Hsk. unfold parse_line.
  assert (Forall (λ w, solid w ∧ w ≠ EmptyString) (n :: ws)) as Hall by by constructor.
  rewrite TrimSpace_spaced, Fields_spaced by done.
  rewrite bool_decide_eq_false_2 by (by destruct n).
  rewrite !HasPrefix_first, H1, H2, H3 by done. cbn [orb andb]. by rewrite Hsk.
Qed.

Lemma parse_blank p st : parse_line p st EmptyString = st.
Proof. done. Qed.

(** ** Variables *)

Section roundtrip.
Context `{FmtLib} {fmt_laws : FmtLaws} `{MapOrder} {order_laws : MapOrderLaws}.

(** A variable that survives: a key without an equals sign and a string
    value, neither with white space. *)
Definition var_ok (kv : string * json) : Prop :=
  solid kv.1 ∧ kv.1 ≠ EmptyString ∧ IndexByte kv.1 equals_sign = None ∧
  ∃ s, kv.2 = JStr s ∧ solid s.

Definition var_word (kv : string * json) : string := kv.1 +:+ "=" +:+ fmt_s kv.2.

Lemma IndexByte_app k c t : IndexByte k c = None → IndexByte (k +:+ String c t) c = Some (String.length k).
Proof.
  induction k as [|a k IH]; intros Hk.
  - change (EmptyString +:+ String c t) with (String c t). simpl. by rewrite bool_decide_eq_true_2.
  - change (String a k +:+ String c t) with (String a (k +:+ String c t)). simpl in Hk |- *.
    destruct (bool_decide (a = c)); [done|]. apply fmap_None in Hk. by rewrite IH.
Qed.

Lemma drop_str_length k c t : drop_str (String.length k + 1) (k +:+ String c t) = t.
Proof. induction k as [|a k IH]; [by destruct t|]. exact IH. Qed.

Lemma parse_var_word v kv : var_ok kv → parse_var v (var_word kv) = <[kv.1 := kv.2]> v.
Proof.
  intros (Hk & Hne & Heq & s & E & Hs). unfold parse_var, var_word.
  rewrite E, fmt_s_string. change ("=" +:+ s) with (String equals_sign s).
  rewrite IndexByte_app by done. rewrite bool_decide_eq_true_2.
  - by rewrite take_str_app, drop_str_length.
  - destruct kv.1; [done|simpl; lia].
Qed.

Lemma var_word_solid kv : var_ok kv → solid (var_word kv) ∧ var_word kv ≠ EmptyString.
Proof.
  intros (Hk & Hne & Heq & s & E & Hs). unfold var_word. rewrite E, fmt_s_string.
  split; [|by destruct kv.1].
  apply (solid_app kv.1 equals_sign s); [done|done|]. by apply solid_ascii.
Qed.

Lemma parse_vars v l :
  Forall var_ok l → NoDup l.*1 → foldl parse_var v (var_word <$> l) = list_to_map l ∪ v.
Proof.
  intros Hl. revert v. induction Hl as [|kv l Hkv Hl IH]; intros v Hnd.
  { simpl. by rewrite (left_id_L ∅ (∪)). }
  apply NoDup_cons in Hnd as [Hni Hnd]. cbn [fmap list_fmap foldl].
  rewrite parse_var_word, IH by done. destruct kv as [k x]. simpl.
  rewrite <-insert_union_r by (by apply not_elem_of_list_to_map_1).
  by rewrite insert_union_l.
Qed.

(** ** Hosts *)

Definition host_ok (h : InventoryHost) : Prop :=
  name_ok (InventoryHost_Hostname h) ∧
  map_Forall (λ k v, var_ok (k, v)) (InventoryHost_Vars h) ∧
  Forall group_ok (InventoryHost_Groups h).

Definition host_words (h : InventoryHost) : list string :=
  ("ansible_host=" +:+ InventoryHost_Hostname h) :: (var_word <$> range_vars (InventoryHost_Vars h)).

Lemma host_line_words h : host_line h = InventoryHost_Hostname h +:+ spaced (host_words h).
Proof.
  unfold host_line, host_words. f_equal. rewrite spaced_cons.
  change (String space ("ansible_host=" +:+ InventoryHost_Hostname h))
    with (" ansible_host=" +:+ InventoryHost_Hostname h).
  rewrite <-(assoc_L String.append). f_equal. f_equal. unfold spaced. f_equal.
  rewrite <-list_fmap_compose. by apply list_fmap_ext.
Qed.

Lemma range_vars_ok h : host_ok h → Forall var_ok (range_vars (InventoryHost_Vars h)).
Proof.
  intros (_ & Hv & _). apply Forall_forall. intros [k x] Hkx.
  rewrite range_vars_perm, elem_of_map_to_list in Hkx. by apply Hv.
Qed.

Definition ansible_host_var (n : string) : string * json := ("ansible_host", JStr n).

Lemma ansible_host_ok n : solid n → var_ok (ansible_host_var n).
Proof. intros Hn. split; [reflexivity|]. split; [done|]. split; [reflexivity|]. by exists n. Qed.

Lemma host_words_vars h :
  host_words h = var_word <$> (ansible_host_var (InventoryHost_Hostname h) :: range_vars (InventoryHost_Vars h)).
Proof. unfold host_words. cbn [fmap list_fmap]. f_equal. unfold var_word. simpl. by rewrite fmt_s_string. Qed.

Lemma host_words_solid h : host_ok h → Forall (λ w, solid w ∧ w ≠ EmptyString) (host_words h).
Proof.
  intros Hh. rewrite host_words_vars, Forall_fmap.
  eapply Forall_impl; [|apply var_word_solid]. constructor; [|by apply range_vars_ok].
  apply ansible_host_ok, Hh.
Qed.

(** What parsing yields for a host: the groups come from the sections. *)
Definition parsed_host (p : uuid) (h : InventoryHost) (groups : list string) : InventoryHost := {|
  InventoryHost_ID := uuid_Nil; InventoryHost_ProjectID := p;
  InventoryHost_Hostname := InventoryHost_Hostname h; InventoryHost_Groups := groups;
  InventoryHost_Vars :=
    InventoryHost_Vars h ∪ {[ "ansible_host" := JStr (InventoryHost_Hostname h) ]};
  InventoryHost_CreatedAt := zero_Time; InventoryHost_UpdatedAt := zero_Time |}.

Lemma host_entry_all p h m :
  host_ok h → m !! InventoryHost_Hostname h = None →
  host_entry p "all" (InventoryHost_Hostname h :: host_words h) m =
  <[InventoryHost_Hostname h := parsed_host p h []]> m.
Proof.
  intros Hh Hm. unfold host_entry. rewrite Hm. rewrite host_words_vars.
  f_equal. unfold parsed_host. f_equal. cbn [default from_option id fresh_host InventoryHost_Vars].
  pose proof (range_vars_perm (InventoryHost_Vars h)) as Hp.
  cbn [fmap list_fmap foldl].
  rewrite parse_var_word by (apply ansible_host_ok, Hh).
  rewrite parse_vars.
  - rewrite (list_to_map_proper (range_vars (InventoryHost_Vars h)) (map_to_list (InventoryHost_Vars h))).
    + by rewrite list_to_map_to_list.
    + rewrite Hp. apply NoDup_fst_map_to_list.
    + exact Hp.
  - by apply range_vars_ok.
  - rewrite Hp. apply NoDup_fst_map_to_list.
Qed.

(** ** Groups *)

Lemma hostname_inj (hosts : list InventoryHost) h1 h2 :
  NoDup (InventoryHost_Hostname <$> hosts) → h1 ∈ hosts → h2 ∈ hosts →
  InventoryHost_Hostname h1 = InventoryHost_Hostname h2 → h1 = h2.
Proof.
  intros Hnd [i Hi]%list_elem_of_lookup [j Hj]%list_elem_of_lookup E.
  assert (i = j) as ->; [|congruence].
  eapply (NoDup_lookup _ _ _ (InventoryHost_Hostname h1) Hnd);
    rewrite list_lookup_fmap; [by rewrite Hi|by rewrite Hj, E].
Qed.

Lemma NoDup_hostnames (m : gmap string InventoryHost) :
  (∀ n h, m !! n = Some h → InventoryHost_Hostname h = n) →
  NoDup (InventoryHost_Hostname <$> map_vals m).
Proof.
  intros Hm. unfold map_vals. rewrite <-list_fmap_compose.
  rewrite (list_fmap_ext _ fst); [apply NoDup_fst_map_to_list|].
  intros i [n h] Hin%list_elem_of_lookup_2%elem_of_map_to_list. simpl. by apply Hm.
Qed.

Lemma collect_groups_nonempty hosts g : collect_groups hosts !! g ≠ Some [].
Proof.
  unfold collect_groups. assert (∀ m, m !! g ≠ Some [] →
    foldl (λ groups h, foldl (add_member (InventoryHost_Hostname h)) groups (InventoryHost_Groups h))
      m hosts !! g ≠ Some []) as Hf; [|by apply Hf; rewrite lookup_empty].
  assert (∀ name gs m, m !! g ≠ Some [] → foldl (add_member name) m gs !! g ≠ Some []) as Hgs.
  { intros name gs. induction gs as [|g' gs IH]; intros m Hm; [done|]. simpl. apply IH.
    unfold add_member. destruct (decide (g' = g)) as [->|Hne].
    - rewrite lookup_insert_eq. by destruct (default [] _).
    - by rewrite lookup_insert_ne. }
  induction hosts as [|h hosts IH]; intros m Hm; [done|]. simpl. by apply IH, Hgs.
Qed.

Lemma collect_groups_from n g hosts m :
  n ∈ default [] (foldl (λ groups h, foldl (add_member (InventoryHost_Hostname h)) groups
        (InventoryHost_Groups h)) m hosts !! g) ↔
  n ∈ default [] (m !! g) ∨
  ∃ h, h ∈ hosts ∧ InventoryHost_Hostname h = n ∧ g ∈ InventoryHost_Groups h.
Proof.
  assert (∀ name gs m, n ∈ default [] (foldl (add_member name) m gs !! g) ↔
            n ∈ default [] (m !! g) ∨ (name = n ∧ g ∈ gs)) as Hgs.
  { intros name gs. induction gs as [|g' gs IH]; intros m'; simpl; [set_solver|].
    rewrite IH. unfold add_member. destruct (decide (g' = g)) as [->|Hne].
    - rewrite lookup_insert_eq. simpl. set_solver.
    - rewrite lookup_insert_ne by done. set_solver. }
  revert m. induction hosts as [|h hosts IH]; intros m; simpl; [set_solver|].
  rewrite IH, Hgs. set_solver.
Qed.

Lemma collect_groups_members n g hosts :
  n ∈ default [] (collect_groups hosts !! g) ↔
  ∃ h, h ∈ hosts ∧ InventoryHost_Hostname h = n ∧ g ∈ InventoryHost_Groups h.
Proof. unfold collect_groups. rewrite collect_groups_from, lookup_empty. set_solver. Qed.

Lemma range_groups_members hosts n g :
  (∃ ms, (g, ms) ∈ range_groups (collect_groups hosts) ∧ n ∈ ms) ↔
  ∃ h, h ∈ hosts ∧ InventoryHost_Hostname h = n ∧ g ∈ InventoryHost_Groups h.
Proof.
  rewrite <-collect_groups_members. split.
  - intros (ms & Hms & Hn). rewrite range_groups_perm, elem_of_map_to_list in Hms. by rewrite Hms.
  - destruct (collect_groups hosts !! g) as [ms|] eqn:Hms; simpl; [|set_solver].
    intros Hn. exists ms. by rewrite range_groups_perm, elem_of_map_to_list.
Qed.

Section parse.
Context (p : uuid) (hosts : list InventoryHost).
Context (hosts_ok : Forall host_ok hosts) (hosts_nodup : NoDup (InventoryHost_Hostname <$> hosts)).

(** The map read so far: every host, each with the groups of [R]. *)
Definition parsed_as (R : string → string → Prop) (m : gmap string InventoryHost) : Prop :=
  (∀ n, is_Some (m !! n) → ∃ h, h ∈ hosts ∧ InventoryHost_Hostname h = n) ∧
  ∀ h, h ∈ hosts → ∃ gs, m !! InventoryHost_Hostname h = Some (parsed_host p h gs) ∧
                         NoDup gs ∧ ∀ g, g ∈ gs ↔ R (InventoryHost_Hostname h) g.

Lemma parsed_as_ext R R' m : (∀ n g, R n g ↔ R' n g) → parsed_as R m → parsed_as R' m.
Proof.
  intros HR [Hd Hm]. split; [done|]. intros h Hh. destruct (Hm h Hh) as (gs & E & Hnd & Hgs).
  exists gs. split; [done|]. split; [done|]. intros g. by rewrite Hgs.
Qed.

Lemma parse_hosts l m :
  Forall host_ok l → NoDup (InventoryHost_Hostname <$> l) →
  (∀ h, h ∈ l → m !! InventoryHost_Hostname h = None) →
  ∃ m', foldl (parse_line p) {| hostMap := m; currentGroup := "all"; skipSection := false |}
          (host_line <$> l) =
        {| hostMap := m'; currentGroup := "all"; skipSection := false |} ∧
  m' = list_to_map ((λ h, (InventoryHost_Hostname h, parsed_host p h [])) <$> l) ∪ m.
Proof.
  revert m. induction l as [|h l IH]; intros m Hl Hnd Hm.
  { exists m. split; [done|]. simpl. by rewrite (left_id_L ∅ (∪)). }
  apply Forall_cons in Hl as [Hh Hl]. apply NoDup_cons in Hnd as [Hni Hnd].
  cbn [fmap list_fmap foldl]. rewrite host_line_words, parse_host_line; [|apply Hh|by apply host_words_solid|done].
  cbn [hostMap currentGroup skipSection]. rewrite host_entry_all by (done || apply Hm; by left).
  destruct (IH (<[InventoryHost_Hostname h := parsed_host p h []]> m)) as (m' & -> & ->); [done|done| |].
  { intros h' Hh'. rewrite lookup_insert_ne; [apply Hm; by right|].
    intros E. apply Hni. rewrite E. by apply list_elem_of_fmap_2. }
  eexists. split; [done|]. cbn [fmap list_fmap list_to_map foldr uncurry].
  rewrite <-insert_union_r, insert_union_l; [done|].
  apply not_elem_of_list_to_map_1. by rewrite <-list_fmap_compose.
Qed.

(** The [all] section puts every host in the map, without groups. *)
Lemma parse_all_section :
  ∃ m, foldl (parse_line p) parse_init ("[all]" :: (host_line <$> hosts) ++ [EmptyString]) =
       {| hostMap := m; currentGroup := "all"; skipSection := false |} ∧
       parsed_as (λ _ _, False) m.
Proof.
  destruct (parse_hosts hosts ∅) as (m & Hm & ->); [done|done|intros; apply lookup_empty|].
  rewrite (right_id_L ∅ (∪)) in Hm. eexists. split.
  { cbn [foldl]. change "[all]" with ("[" +:+ "all" +:+ "]"). rewrite parse_section by done.
    rewrite foldl_app. cbn [parse_init hostMap]. rewrite Hm. cbn [foldl]. by rewrite parse_blank. }
  assert (NoDup ((λ h, (InventoryHost_Hostname h, parsed_host p h [])) <$> hosts).*1) as Hnd
    by (by rewrite <-list_fmap_compose).
  split.
  - intros n [h Hh]. apply elem_of_list_to_map, list_elem_of_fmap in Hh as (h' & E & Hh'); [|done].
    exists h'. split; [done|]. congruence.
  - intros h Hh. exists []. split; [|split; [constructor|set_solver]].
    apply elem_of_list_to_map; [done|]. apply list_elem_of_fmap. by exists h.
Qed.

Lemma parse_member R m g h :
  g ≠ EmptyString → g ≠ "all" → parsed_as R m → h ∈ hosts →
  ∃ m', parse_line p {| hostMap := m; currentGroup := g; skipSection := false |}
          (InventoryHost_Hostname h) =
        {| hostMap := m'; currentGroup := g; skipSection := false |} ∧
        parsed_as (λ n g', R n g' ∨ (n = InventoryHost_Hostname h ∧ g' = g)) m'.
Proof.
  intros Hg1 Hg2 [Hd Hm] Hh.
  pose proof (proj1 (Forall_forall _ _) hosts_ok h Hh) as (Hn & _).
  pose proof (parse_host_line p {| hostMap := m; currentGroup := g; skipSection := false |}
    (InventoryHost_Hostname h) [] Hn) as E. unfold spaced in E. simpl concat_str in E.
  rewrite (right_id_L EmptyString String.append) in E.
  rewrite E by (constructor || done). clear E. eexists. split; [done|].
  destruct (Hm h Hh) as (gs & Hlk & Hnd & Hgs).
  cbn [host_entry hostMap currentGroup]. rewrite Hlk. cbn [default from_option id foldl].
  split.
  { intros n. destruct (decide (n = InventoryHost_Hostname h)) as [->|Hne]; [by eauto|].
    rewrite lookup_insert_ne by done. apply Hd. }
  intros h' Hh'. destruct (decide (InventoryHost_Hostname h' = InventoryHost_Hostname h)) as [E|Hne].
  - assert (h' = h) as ->.
    { by apply (hostname_inj hosts). }
    rewrite lookup_insert_eq. exists (add_group g gs). split; [done|].
    unfold add_group. rewrite !bool_decide_eq_true_2 by done. cbn [andb].
    destruct (bool_decide_reflect (g ∈ gs)) as [Hin|Hin].
    + split; [done|]. intros g'. rewrite Hgs. set_solver.
    + split; [|intros g'; rewrite <-Hgs; set_solver].
      apply NoDup_app. split; [done|]. split; [set_solver|]. apply NoDup_singleton.
  - rewrite lookup_insert_ne by done. destruct (Hm h' Hh') as (gs' & Hlk' & Hnd' & Hgs').
    exists gs'. split; [done|]. split; [done|]. intros g'. rewrite Hgs'. naive_solver.
Qed.

Lemma parse_members R m g ms :
  g ≠ EmptyString → g ≠ "all" → parsed_as R m →
  (∀ n, n ∈ ms → ∃ h, h ∈ hosts ∧ InventoryHost_Hostname h = n) →
  ∃ m', foldl (parse_line p) {| hostMap := m; currentGroup := g; skipSection := false |} ms =
        {| hostMap := m'; currentGroup := g; skipSection := false |} ∧
        parsed_as (λ n g', R n g' ∨ (n ∈ ms ∧ g' = g)) m'.
Proof.
  intros Hg1 Hg2. revert R m. induction ms as [|n ms IH]; intros R m HR Hms.
  { exists m. split; [done|]. eapply parsed_as_ext; [|done]. set_solver. }
  destruct (Hms n) as (h & Hh & <-); [by left|].
  destruct (parse_member R m g h) as (m1 & E & HR1); [done..|]. cbn [foldl]. rewrite E.
  destruct (IH _ m1 HR1) as (m2 & -> & HR2); [intros n Hn; apply Hms; by right|].
  exists m2. split; [done|]. eapply parsed_as_ext; [|exact HR2]. set_solver.
Qed.

Lemma parse_groups R m g0 gms :
  (∀ g ms, (g, ms) ∈ gms → group_ok g ∧ ∀ n, n ∈ ms → ∃ h, h ∈ hosts ∧ InventoryHost_Hostname h = n) →
  parsed_as R m →
  ∃ st, foldl (parse_line p) {| hostMap := m; currentGroup := g0; skipSection := false |}
          (mjoin (group_lines <$> gms)) = st ∧
        parsed_as (λ n g, R n g ∨ ∃ ms, (g, ms) ∈ gms ∧ n ∈ ms) (hostMap st).
Proof.
  revert R m g0. induction gms as [|[g ms] gms IH]; intros R m g0 Hok HR.
  { eexists. split; [done|]. eapply parsed_as_ext; [|exact HR]. set_solver. }
  destruct (Hok g ms) as [(Hg1 & Hg2 & Hg3 & _) Hms]; [by left|].
  cbn [fmap list_fmap mjoin list_join]. rewrite foldl_app. unfold group_lines at 1. cbn [fst snd foldl].
  rewrite parse_section by done. rewrite foldl_app. cbn [hostMap].
  destruct (parse_members R m g ms) as (m1 & -> & HR1); [done..|]. cbn [foldl]. rewrite parse_blank.
  destruct (IH _ m1 g (λ g' ms' Hin, Hok g' ms' (list_elem_of_further _ _ _ Hin)) HR1) as (st & E & HR2).
  exists st. split; [exact E|]. eapply parsed_as_ext; [|exact HR2]. set_solver.
Qed.

Lemma group_name_ok g ms : (g, ms) ∈ range_groups (collect_groups hosts) →
  group_ok g ∧ ∀ n, n ∈ ms → ∃ h, h ∈ hosts ∧ InventoryHost_Hostname h = n.
Proof.
  intros Hin. assert (∀ n, n ∈ ms → ∃ h, h ∈ hosts ∧ InventoryHost_Hostname h = n ∧ g ∈ InventoryHost_Groups h) as Hms.
  { intros n Hn. apply range_groups_members. by exists ms. }
  split; [|naive_solver].
  assert (collect_groups hosts !! g = Some ms) as Hg
    by (by rewrite range_groups_perm, elem_of_map_to_list in Hin).
  destruct ms as [|n ms].
  { by apply collect_groups_nonempty in Hg. }
  destruct (Hms n) as (h & Hh & _ & Hgh); [by left|].
  pose proof (proj1 (Forall_forall _ _) hosts_ok h Hh) as (_ & _ & Hgs).
  by apply (proj1 (Forall_forall _ _) Hgs).
Qed.

(** Every line of the file is free of newlines. *)
Lemma inventory_lines_no_newline : Forall no_newline (inventory_lines hosts).
Proof.
  assert (∀ h, h ∈ hosts → no_newline (InventoryHost_Hostname h)) as Hn.
  { intros h Hh. apply solid_no_newline. by pose proof (proj1 (Forall_forall _ _) hosts_ok h Hh) as ((? & _) & _). }
  assert (∀ ws, Forall (λ w, solid w ∧ w ≠ EmptyString) ws → no_newline (spaced ws)) as Hsp.
  { intros ws Hws. induction Hws as [|w ws [Hw _] _ IH]; [constructor|].
    rewrite spaced_cons. apply no_newline_app. split; [|done].
    constructor; [by split|by apply solid_no_newline]. }
  unfold inventory_lines. apply Forall_app. split; [apply Forall_cons; split|apply Forall_forall].
  - repeat constructor; done.
  - apply Forall_app. split; [|by repeat constructor]. apply Forall_fmap, Forall_forall. intros h Hh.
    simpl. rewrite host_line_words. apply no_newline_app. split; [by apply Hn|].
    apply Hsp, host_words_solid. by apply (proj1 (Forall_forall _ _) hosts_ok).
  - intros l Hl. apply list_elem_of_join in Hl as (ls & Hl & Hls).
    apply list_elem_of_fmap in Hls as ([g ms] & -> & Hgm).
    apply group_name_ok in Hgm as [(_ & _ & _ & Hg) Hms]. unfold group_lines in Hl. simpl in Hl.
    apply elem_of_cons in Hl as [->|[Hl|Hl]%elem_of_app].
    + change ("[" +:+ g +:+ "]") with (String (Ascii.ascii_of_N 91) (g +:+ "]")).
      constructor; [done|]. apply no_newline_app. split; [done|]. by repeat constructor.
    + destruct (Hms l Hl) as (h & Hh & <-). by apply Hn.
    + apply list_elem_of_singleton in Hl as ->. constructor.
Qed.
End parse.

(** C16: the inventory an agent writes is the inventory of the payload: if
    every hostname is one word that cannot be mistaken for a comment or a
    section, the variables are strings that are words, the group names are proper
    (and not all), the hostnames are distinct and no line
    reaches the scanner's limit, then parsing the file by the controller's
    parser succeeds and gives each host once, with its own variables (and
    [ansible_host]) and exactly its groups, each once. *)
Theorem WriteInventory_parse_roundtrip (p : uuid) (path : string) (hosts : list InventoryHost)
    (Hhosts : Forall host_ok hosts)
    (Hnodup : NoDup (InventoryHost_Hostname <$> hosts))
    (Hshort : Forall (λ l, (N.of_nat (String.length l) < MaxScanTokenSize)%N) (inventory_lines hosts)) :
  ∃ parsed,
    parseINIInventory p path (Ok (WriteInventory path hosts).2) = Ok parsed ∧
    InventoryHost_Hostname <$> parsed ≡ₚ InventoryHost_Hostname <$> hosts ∧
    ∀ h', h' ∈ parsed → ∃ h, h ∈ hosts ∧ h' = parsed_host p h (InventoryHost_Groups h') ∧
      NoDup (InventoryHost_Groups h') ∧
      ∀ g, g ∈ InventoryHost_Groups h' ↔ g ∈ InventoryHost_Groups h.
Proof.
  assert (Scan (WriteInventory path hosts).2 = (inventory_lines hosts, None)) as Hscan.
  { apply Scan_unlines, Forall_and. split; [by apply inventory_lines_no_newline|done]. }
  destruct (parse_all_section p hosts) as (m & Em & Hm); [done..|].
  destruct (parse_groups p hosts Hhosts Hnodup (λ _ _, False) m "all"
    (range_groups (collect_groups hosts))) as (st & Est & Hd & Hst); [by apply group_name_ok|done|].
  unfold parseINIInventory. cbn [map_err mbind result_bind]. rewrite Hscan.
  unfold inventory_lines. rewrite foldl_app, Em, Est. eexists. split; [done|].
  assert (∀ n h', hostMap st !! n = Some h' → ∃ h, h ∈ hosts ∧ InventoryHost_Hostname h = n ∧
    h' = parsed_host p h (InventoryHost_Groups h') ∧ NoDup (InventoryHost_Groups h') ∧
      ∀ g, g ∈ InventoryHost_Groups h' ↔ g ∈ InventoryHost_Groups h) as Hall.
  { intros n h' Hlk. destruct (Hd n) as (h & Hh & <-); [by eauto|].
    destruct (Hst h Hh) as (gs & Hlk' & Hnd & Hgs). simplify_eq. exists h.
    do 3 (split; [done|]). split; [done|]. intros g. simpl. rewrite Hgs, range_groups_members.
    split; [intros [[]|(h2 & Hh2 & E & Hg)]|by intros; right; exists h].
    by rewrite <-(hostname_inj hosts h2 h). }
  split.
  - apply NoDup_Permutation; [|done|].
    + apply NoDup_hostnames. intros n h' Hlk. destruct (Hall n h' Hlk) as (h & _ & <- & -> & _). done.
    + intros n. rewrite !list_elem_of_fmap. split.
      * intros (h' & -> & [k Hlk]%elem_of_map_vals). destruct (Hall k h' Hlk) as (h & Hh & <- & -> & _).
        by exists h.
      * intros (h & -> & Hh). destruct (Hst h Hh) as (gs & Hlk & _). eexists. split; [|apply elem_of_map_vals; by eexists]. done.
  - intros h' [k Hlk]%elem_of_map_vals. destruct (Hall k h' Hlk) as (h & Hh & _ & Hrest). by exists h.
Qed.
End roundtrip.
