(* ===== verification/Scheduler.v ===== *)
(** * Cron schedules: controller/internal/scheduler/scheduler.go

    The scheduler keeps a cron runner (a library) and the map from schedules to
    runner entries.  The runner is modelled by what the scheduler uses of it:
    AddFunc appends an entry under a fresh identifier, Remove deletes one,
    Entries lists them. *)
From S2P Require Import Prelude.
From S2P Require Import Prog.
From S2P Require Import Types.
From S2P Require Import Text.
From S2P Require Import Db.
From S2P Require Import ControllerStore.

(** github.com/robfig/cron/v3 and time.LoadLocation: the specifications the
    parser of register accepts (Minute|Hour|Dom|Month|Dow), those the parser of
    cron.New(cron.WithSeconds()) accepts, and the name of a time zone. *)
Class CronLib := {
  cron_parse_std : string → result unit;
  cron_parse_seconds : string → result unit;
  LoadLocation : string → result string;
}.

(** One entry of the runner: its specification and the function, as the schedule
    whose values the closure captured. *)
Record Entry := {
  Entry_Spec : string;
  Entry_Schedule : Schedule;
}.

Record Cron := {
  cron_nextID : Z;
  cron_entries : gmap Z Entry;
}.

Record Scheduler := {
  sched_cron : Cron;
  sched_entryIDs : gmap uuid Z;
}.

(** cron.New and the entries of New. *)
Definition new_Scheduler : Scheduler :=
  {| sched_cron := {| cron_nextID := 0; cron_entries := ∅ |}; sched_entryIDs := ∅ |}.

Section scheduler.
Context `{CronLib} `{UuidLib}.

(** cron.AddFunc *)
Definition AddFunc (c : Cron) (spec : string) (sc : Schedule) : result (Z * Cron) :=
  _ ← cron_parse_seconds spec;
  let id := (cron_nextID c + 1)%Z in
  Ok (id, {| cron_nextID := id;
             cron_entries := <[id := {| Entry_Spec := spec; Entry_Schedule := sc |}]>
                               (cron_entries c) |}).

(** cron.Remove *)
Definition Remove (c : Cron) (id : Z) : Cron :=
  {| cron_nextID := cron_nextID c; cron_entries := delete id (cron_entries c) |}.

Definition spec_of (loc : string) (sc : Schedule) : string :=
  "CRON_TZ=" +:+ loc +:+ " " +:+ Schedule_CronExpr sc.

Definition register (s : Scheduler) (sc : Schedule) : result Scheduler :=
  loc ← map_err (ErrWrap ("load timezone " +:+ Schedule_Timezone sc))
          (LoadLocation (Schedule_Timezone sc));
  _ ← map_err (ErrWrap ("invalid cron expression " +:+ Schedule_CronExpr sc))
        (cron_parse_std (Schedule_CronExpr sc));
  '(entryID, c) ← map_err (ErrWrap "add cron func") (AddFunc (sched_cron s) (spec_of loc sc) sc);
  Ok {| sched_cron := c;
        sched_entryIDs := <[Schedule_ID sc := entryID]> (sched_entryIDs s) |}.

(** The first loop of sync: drop the entries of schedules no longer active. *)
Definition remove_inactive (active : gset uuid) (s : Scheduler) : Scheduler :=
  map_fold (λ id entryID s,
    if decide (id ∈ active) then s
    else {| sched_cron := Remove (sched_cron s) entryID;
            sched_entryIDs := delete id (sched_entryIDs s) |})
    s (sched_entryIDs s).

(** The second loop: register the schedules without an entry; errors are logged. *)
Definition register_new (s : Scheduler) (sc : Schedule) : Scheduler :=
  match sched_entryIDs s !! Schedule_ID sc with
  | Some _ => s
  | None => match register s sc with Ok s' => s' | Err _ => s end
  end.

Definition sync_with (schedules : list Schedule) (s : Scheduler) : Scheduler :=
  foldl register_new
    (remove_inactive (list_to_set (Schedule_ID <$> schedules)) s) schedules.

Definition sync (s : Scheduler) : prog Ev Scheduler :=
  try schedules <- GetActiveSchedules catch _ => mret s ;;
  mret (sync_with schedules s).

(** The loop over s.cron.Entries(): the next activation of the entry under which
    the schedule is registered, 0 being the value of an absent key. *)
Definition next_run (s : Scheduler) (Next : Z → Time) (sc : Schedule) : option Time :=
  let id := default 0%Z (sched_entryIDs s !! Schedule_ID sc) in
  if bool_decide (is_Some (cron_entries (sched_cron s) !! id)) then Some (Next id) else None.

(** The function of an entry; [s] is the scheduler when the job is created. *)
Definition fire (sc : Schedule) (s : Scheduler) (Next : Z → Time) : prog Ev unit :=
  try _ <- CreateJob (Schedule_TemplateID sc) (Some (Schedule_ExtraVars sc)) catch _ => mret () ;;
  _ ← UpdateScheduleLastRun (Schedule_ID sc) (next_run s Next sc);
  mret ().
End scheduler.
