(* ===== verification/SchedulerFacts.v ===== *)
(** * Correctness of the scheduler

    The scheduler's map and the cron runner agree, [sync] registers what is
    active, and an entry that fires creates a pending job. *)
From S2P Require Import Prelude.
From S2P Require Import Prog.
From S2P Require Import Types.
From S2P Require Import Text.
From S2P Require Import Db.
From S2P Require Import Hoare.
From S2P Require Import ControllerStore.
From S2P Require Import Scheduler.

(** The map is a bijection between registered schedules and runner entries, each
    entry running the schedule it is registered for. *)
Record sched_ok (s : Scheduler) : Prop := {
  ok_entry : ∀ id e, sched_entryIDs s !! id = Some e →
    ∃ en, cron_entries (sched_cron s) !! e = Some en ∧ Schedule_ID (Entry_Schedule en) = id;
  ok_id : ∀ e en, cron_entries (sched_cron s) !! e = Some en →
    sched_entryIDs s !! Schedule_ID (Entry_Schedule en) = Some e;
  ok_next : ∀ e en, cron_entries (sched_cron s) !! e = Some en →
    (0 < e <= cron_nextID (sched_cron s))%Z;
  ok_nextID : (0 <= cron_nextID (sched_cron s))%Z;
}.

Lemma new_Scheduler_ok : sched_ok new_Scheduler.
Proof. split; simpl; [intros id e He|intros e en He|intros e en He|done]; by rewrite lookup_empty in He. Qed.

(** What the first loop leaves. *)
Lemma remove_inactive_lookup active s :
  (∀ id e, sched_entryIDs (remove_inactive active s) !! id = Some e ↔
     sched_entryIDs s !! id = Some e ∧ id ∈ active) ∧
  (∀ e en, cron_entries (sched_cron (remove_inactive active s)) !! e = Some en ↔
     cron_entries (sched_cron s) !! e = Some en ∧
     ¬ (∃ id, (id ∉ active) ∧ sched_entryIDs s !! id = Some e)) ∧
  cron_nextID (sched_cron (remove_inactive active s)) = cron_nextID (sched_cron s).
Proof.
  unfold remove_inactive.
  assert (∀ m, (∀ id e, sched_entryIDs s !! id = Some e → is_Some (m !! id) → m !! id = Some e) →
    let r := map_fold (λ id entryID s, if decide (id ∈ active) then s
       else {| sched_cron := Remove (sched_cron s) entryID; sched_entryIDs := delete id (sched_entryIDs s) |}) s m in
    (∀ id e, sched_entryIDs r !! id = Some e ↔
       sched_entryIDs s !! id = Some e ∧ (is_Some (m !! id) → id ∈ active)) ∧
    (∀ e en, cron_entries (sched_cron r) !! e = Some en ↔
       cron_entries (sched_cron s) !! e = Some en ∧ ¬ (∃ id, (id ∉ active) ∧ m !! id = Some e)) ∧
    cron_nextID (sched_cron r) = cron_nextID (sched_cron s)) as Hfold.
  { intros m _. apply (map_fold_weak_ind (λ r m,
      (∀ id e, sched_entryIDs r !! id = Some e ↔
         sched_entryIDs s !! id = Some e ∧ (is_Some (m !! id) → id ∈ active)) ∧
      (∀ e en, cron_entries (sched_cron r) !! e = Some en ↔
         cron_entries (sched_cron s) !! e = Some en ∧ ¬ (∃ id, (id ∉ active) ∧ m !! id = Some e)) ∧
      cron_nextID (sched_cron r) = cron_nextID (sched_cron s))).
    - setoid_rewrite lookup_empty. setoid_rewrite is_Some_alt. naive_solver.
    - intros i x m' r Hi (IH1 & IH2 & IH3). case_decide as Hact; simpl.
      + split_and!; [| |done].
        * intros id e. rewrite IH1. destruct (decide (i = id)) as [->|Hne];
            [rewrite Hi, lookup_insert_eq; split; intros [? _]; split; try done; by intros [? ?]
            |by rewrite lookup_insert_ne].
        * intros e en. rewrite IH2. apply and_iff_compat_l, not_iff_compat.
          split; intros (id & Hna & Hid); exists id; (split; [done|]);
            destruct (decide (i = id)) as [->|Hne]; try done;
            by rewrite lookup_insert_ne in * by done.
      + split_and!; [| |done].
        * intros id e. rewrite lookup_delete_Some, IH1. destruct (decide (i = id)) as [->|Hne].
          -- rewrite lookup_insert_eq. split; [by intros []|]. intros [_ Ha]. exfalso. apply Hact, Ha. by eexists.
          -- rewrite lookup_insert_ne by done. naive_solver.
        * intros e en. rewrite lookup_delete_Some, IH2. split.
          -- intros (Hne & He & Hno). split; [done|]. intros (id & Hna & Hid).
             destruct (decide (i = id)) as [->|Hne']; [rewrite lookup_insert_eq in Hid; naive_solver|].
             rewrite lookup_insert_ne in Hid by done. apply Hno. by exists id.
          -- intros [He Hno]. split; [intros ->; apply Hno; exists i; by rewrite lookup_insert_eq|].
             split; [done|]. intros (id & Hna & Hid). apply Hno. exists id. split; [done|].
             rewrite lookup_insert_ne; [done|]. by intros ->; rewrite Hi in Hid. }
  destruct (Hfold (sched_entryIDs s)) as (H1 & H2 & H3); [done|]. split_and!; [|exact H2|exact H3].
  intros id e. rewrite H1. split; intros [He Ha]; (split; [done|]); [apply Ha; by eexists|done].
Qed.

Lemma remove_inactive_ok active s : sched_ok s → sched_ok (remove_inactive active s).
Proof.
  destruct (remove_inactive_lookup active s) as (H1 & H2 & H3). intros [E1 E2 E3 E4]. split.
  - intros id e [He Ha]%H1. destruct (E1 id e He) as (en & Hen & Hid). exists en. split; [|done].
    apply H2. split; [done|]. intros (id' & Hna & He').
    destruct (E1 id' e He') as (en' & Hen' & Hid'). assert (en = en') by congruence. by subst.
  - intros e en [He Hno]%H2. apply H1. split; [by apply E2|].
    destruct (decide (Schedule_ID (Entry_Schedule en) ∈ active)) as [|Hna]; [done|].
    exfalso. apply Hno. exists (Schedule_ID (Entry_Schedule en)). split; [done|by apply E2].
  - intros e en [He _]%H2. rewrite H3. by eapply E3.
  - by rewrite H3.
Qed.

Section facts.
Context `{CronLib} `{UuidLib}.

(** The time zone and both parsers accept the schedule. *)
Definition registrable (sc : Schedule) : Prop :=
  ∃ loc, LoadLocation (Schedule_Timezone sc) = Ok loc ∧
         cron_parse_std (Schedule_CronExpr sc) = Ok () ∧
         cron_parse_seconds (spec_of loc sc) = Ok ().

Lemma register_cases s sc :
  match register s sc with
  | Err _ => ¬ registrable sc
  | Ok s' =>
      registrable sc ∧
      cron_nextID (sched_cron s') = (cron_nextID (sched_cron s) + 1)%Z ∧
      sched_entryIDs s' = <[Schedule_ID sc := cron_nextID (sched_cron s')]> (sched_entryIDs s) ∧
      ∃ en, Entry_Schedule en = sc ∧
        cron_entries (sched_cron s') = <[cron_nextID (sched_cron s') := en]> (cron_entries (sched_cron s))
  end.
Proof.
  unfold register, registrable, AddFunc.
  destruct (LoadLocation (Schedule_Timezone sc)) as [loc|]; simpl; [|intros (loc' & Hl & _); congruence].
  destruct (cron_parse_std (Schedule_CronExpr sc)) as [[]|]; simpl; [|intros (loc' & _ & Hl & _); congruence].
  destruct (cron_parse_seconds (spec_of loc sc)) as [[]|] eqn:Hs; simpl; [|intros (loc' & Hl & _ & Hc); congruence].
  split_and!; [by eauto|done|done|]. eexists. split; [|done]. done.
Qed.

(** One step of the second loop keeps the invariant and every registration. *)
Lemma register_new_spec s sc :
  sched_ok s →
  sched_ok (register_new s sc) ∧
  (∀ id e, sched_entryIDs s !! id = Some e →
     sched_entryIDs (register_new s sc) !! id = Some e ∧
     cron_entries (sched_cron (register_new s sc)) !! e = cron_entries (sched_cron s) !! e) ∧
  (∀ id, is_Some (sched_entryIDs (register_new s sc) !! id) ↔
     is_Some (sched_entryIDs s !! id) ∨ (id = Schedule_ID sc ∧ registrable sc)).
Proof.
  intros Hok. unfold register_new. destruct (sched_entryIDs s !! Schedule_ID sc) as [e0|] eqn:Hreg.
  { split_and!; [done|done|]. intros id. split; [by left|]. intros [?|[-> _]]; [done|by eexists]. }
  pose proof (register_cases s sc) as Hr. destruct (register s sc) as [s'|err].
  2: { split_and!; [done|done|]. intros id. naive_solver. }
  destruct Hr as (Hreg' & Hn & Hids & en & Hen & Hentries).
  pose proof Hok as [E1 E2 E3 E4].
  assert (cron_entries (sched_cron s) !! cron_nextID (sched_cron s') = None) as Hfresh.
  { destruct (cron_entries (sched_cron s) !! _) as [en'|] eqn:He; [|done]. apply E3 in He. lia. }
  split_and!.
  - split; rewrite ?Hids, ?Hentries.
    + intros id e [[<- <-]|[Hne He]]%lookup_insert_Some.
      * exists en. rewrite lookup_insert_eq. by rewrite Hen.
      * destruct (E1 id e He) as (en' & Hen' & Hid). exists en'. split; [|done].
        rewrite lookup_insert_ne; [done|]. intros <-. congruence.
    + intros e en' [[<- <-]|[Hne He]]%lookup_insert_Some; [by rewrite Hen, lookup_insert_eq|].
      rewrite lookup_insert_ne; [by apply E2|]. intros Heq. apply E2 in He. congruence.
    + intros e en' [[<- <-]|[Hne He]]%lookup_insert_Some; [lia|]. apply E3 in He. lia.
    + lia.
  - intros id e He. rewrite Hids, Hentries. split.
    + rewrite lookup_insert_ne; [done|]. intros <-. congruence.
    + rewrite lookup_insert_ne; [done|]. intros <-. destruct (E1 id _ He) as (? & ? & _). congruence.
  - intros id. rewrite Hids. destruct (decide (Schedule_ID sc = id)) as [<-|Hne].
    + rewrite lookup_insert_eq. split; [by right|by eexists].
    + rewrite lookup_insert_ne by done. naive_solver.
Qed.

Lemma register_all_spec l s :
  sched_ok s →
  sched_ok (foldl register_new s l) ∧
  (∀ id e, sched_entryIDs s !! id = Some e →
     sched_entryIDs (foldl register_new s l) !! id = Some e ∧
     cron_entries (sched_cron (foldl register_new s l)) !! e = cron_entries (sched_cron s) !! e) ∧
  (∀ id, is_Some (sched_entryIDs (foldl register_new s l) !! id) ↔
     is_Some (sched_entryIDs s !! id) ∨ ∃ sc, sc ∈ l ∧ Schedule_ID sc = id ∧ registrable sc).
Proof.
  revert s. induction l as [|sc l IH]; intros s Hok; simpl.
  { split_and!; [done|done|]. intros id. set_solver. }
  destruct (register_new_spec s sc Hok) as (Hok1 & Hkeep1 & Hdom1).
  destruct (IH _ Hok1) as (Hok2 & Hkeep2 & Hdom2). split_and!; [done| |].
  - intros id e He. destruct (Hkeep1 id e He) as [He1 Hen1]. destruct (Hkeep2 id e He1) as [He2 Hen2].
    split; [done|congruence].
  - intros id. rewrite Hdom2, Hdom1. set_solver.
Qed.

(** C37: a sync keeps the map and the cron runner in bijection, and afterwards
    the registered schedules are exactly the active ones that were registered
    already or that the time zone database and both parsers accept: inactive
    schedules lose their entry and no entry is orphaned. *)
Theorem sync_with_registers l s :
  sched_ok s →
  sched_ok (sync_with l s) ∧
  ∀ id, is_Some (sched_entryIDs (sync_with l s) !! id) ↔
    id ∈ Schedule_ID <$> l ∧
    (is_Some (sched_entryIDs s !! id) ∨ ∃ sc, sc ∈ l ∧ Schedule_ID sc = id ∧ registrable sc).
Proof.
  intros Hok. unfold sync_with. set (active := list_to_set _).
  destruct (remove_inactive_lookup active s) as (H1 & _ & _).
  destruct (register_all_spec l _ (remove_inactive_ok active s Hok)) as (Hok' & _ & Hdom).
  split; [done|]. intros id. rewrite Hdom.
  assert (id ∈ active ↔ id ∈ Schedule_ID <$> l) as Hact by (unfold active; apply elem_of_list_to_set).
  split.
  - intros [[e [He Ha]%H1]|(sc & Hsc & <- & Hr)].
    + split; [by apply Hact|]. left. by eexists.
    + split; [by apply list_elem_of_fmap_2|]. right. by exists sc.
  - intros [Ha [[e He]|Hsc]]; [|by right]. left. exists e. apply H1. split; [done|by apply Hact].
Qed.

(** A sync never changes the entry of a schedule that stays active: the
    runner keeps the specification, the template and the variables with which it
    was first registered, whatever the database says now. *)
Lemma sync_with_keeps_entries l s id e :
  sched_ok s → sched_entryIDs s !! id = Some e → id ∈ Schedule_ID <$> l →
  sched_entryIDs (sync_with l s) !! id = Some e ∧
  cron_entries (sched_cron (sync_with l s)) !! e = cron_entries (sched_cron s) !! e.
Proof.
  intros Hok He Hid. unfold sync_with. set (active := list_to_set _).
  destruct (remove_inactive_lookup active s) as (H1 & H2 & _).
  destruct (register_all_spec l _ (remove_inactive_ok active s Hok)) as (_ & Hkeep & _).
  assert (id ∈ active) as Hact by (by apply elem_of_list_to_set).
  destruct (Hkeep id e) as [He' Hen']; [by apply H1|]. split; [done|]. rewrite Hen'.
  destruct (ok_entry s Hok id e He) as (en & Hen & Hen_id). rewrite Hen. apply H2. split; [done|].
  intros (id' & Hna & He2). destruct (ok_entry s Hok id' e He2) as (en2 & Hen2 & Hid2).
  simplify_eq. done.
Qed.

(** ** The two parsers *)

(** Go's cron parsers accept a specification by its number of fields: the parser
    of register five (a leading time zone apart), that of cron.WithSeconds()
    six, or a descriptor. *)
Definition tz_field (f : string) : bool := HasPrefix f "TZ=" || HasPrefix f "CRON_TZ=".

Class CronFieldLaws := {
  std_fields : ∀ s, cron_parse_std s = Ok () →
    match Fields s with
    | f :: fs => HasPrefix f "@" = false ∧ (length (f :: fs) = 5 ∨ tz_field f = true)
    | [] => False
    end;
  seconds_fields : ∀ tz loc s, LoadLocation tz = Ok loc →
    cron_parse_seconds ("CRON_TZ=" +:+ loc +:+ " " +:+ s) = Ok () →
    match Fields s with
    | f :: fs => HasPrefix f "@" = true ∨ (length (f :: fs) = 6 ∧ tz_field f = false)
    | [] => False
    end;
}.

(** C38: with parsers that count fields as documented, no schedule can be
    registered: register checks the expression against five fields and then
    gives it to a runner that requires six, so a scheduler started afresh never
    has an entry. *)
Theorem no_schedule_registers `{!CronFieldLaws} l : sync_with l new_Scheduler = new_Scheduler.
Proof.
  assert (∀ sc, ¬ registrable sc) as Hno.
  { intros sc (loc & Hloc & Hstd & Hsec). apply std_fields in Hstd.
    unfold spec_of in Hsec. apply (seconds_fields _ _ _ Hloc) in Hsec.
    destruct (Fields (Schedule_CronExpr sc)) as [|f fs]; [done|].
    destruct Hstd as [Hat Hlen]. destruct Hsec as [Hat'|[Hlen' Htz]]; [congruence|].
    destruct Hlen as [Hlen|Htz']; [congruence|congruence]. }
  unfold sync_with. assert (∀ active, remove_inactive active new_Scheduler = new_Scheduler) as ->.
  { intros active. unfold remove_inactive. simpl. by rewrite map_fold_empty. }
  induction l as [|sc l IH]; [done|]. simpl. rewrite <-IH at 2. f_equal.
  unfold register_new. simpl. rewrite lookup_empty.
  pose proof (register_cases new_Scheduler sc) as Hr. destruct (register new_Scheduler sc); [|done].
  destruct Hr as [Hr _]. by destruct (Hno sc).
Qed.

(** An entry that fires on a database that answers adds exactly one job:
    a new pending one of the schedule's template with the captured variables,
    provided the template still exists; the schedule's row records the run. *)
Lemma fire_creates_pending sc s Next a ans w t :
  Forall faultless (a :: ans) →
  db_job_templates (w_db w) !! Schedule_TemplateID sc = Some t →
  db_jobs (w_db w) !! an_uuid a 0 = None →
  let now := (w_now w + Z.of_N (an_elapsed a))%Z in
  let w' := (exec (fire sc s Next) (a :: ans) w).2.2 in
  db_jobs (w_db w') =
    <[an_uuid a 0 := new_job now (an_uuid a 0) (Schedule_TemplateID sc) None (Schedule_ExtraVars sc)]>
      (db_jobs (w_db w)) ∧
  ∃ later, (now <= later)%Z ∧
    db_schedules (w_db w') =
      alter (last_run_row later (next_run s Next sc)) (Schedule_ID sc) (db_schedules (w_db w)).
Proof.
  intros [Ha Hans]%Forall_cons Ht Hfresh now. unfold fire, CreateJob.
  erewrite exec_sql_bind; [|done|].
  2: { unfold insert_job_sql. simpl. rewrite Ht, Hfresh. simpl. reflexivity. }
  unfold UpdateScheduleLastRun. cbn [mbind prog_mbind].
  run_sql Hans. unfold UpdateScheduleLastRun_sql. simpl. split; [done|].
  exists (tx_now tx). split; [done|]. done.
Qed.
End facts.
