(* ===== verification/ApiStore.v ===== *)
(** * The API server's queries: api/internal/store/*.go

    One [Stmt] per SQL text ([X_sql]) and one program per method of Store.
    Methods whose name the controller's store also has are distinguished by the
    file: [ApiStore.CreateJob], [ControllerStore.CreateJob]. *)
From S2P Require Import Prelude.
From S2P Require Import Prog.
From S2P Require Import Types.
From S2P Require Import Db.
From S2P Require Import ControllerStore.

(** ** What the methods share *)

(** isNotFound: errors.Is(err, pgx.ErrNoRows) *)
Definition isNotFound (e : error) : bool := errors_Is e ErrNoRows.

(** [if isNotFound(err) { return nil, ErrNotFound }; return &v, err] *)
Definition or_not_found {A} (p : prog Ev (result A)) : prog Ev (result A) :=
  p ≫= λ r, mret (map_err (λ e, if isNotFound e then ErrNotFound else e) r).

(** [if tag.RowsAffected() == 0 { return ErrNotFound }; return nil] *)
Definition affected_or_not_found (p : prog Ev (result nat)) : prog Ev (result unit) :=
  try n <- p catch err => mret (Err err) ;;
  if bool_decide (n = 0) then mret (Err ErrNotFound) else mret (Ok ()).

(** UPDATE ... WHERE id = $1 RETURNING ... read with QueryRow. *)
Definition update_returning {V} (get : Db → gmap uuid V) (set : gmap uuid V → Db → Db)
    (id : uuid) (f : V → V) : Db → result (V * Db) := λ db,
  v ← by_id (get db) id;
  Ok (f v, set (<[id := f v]> (get db)) db).

(** INSERT of a row under a fresh primary key. *)
Definition insert_row {V} (get : Db → gmap uuid V) (set : gmap uuid V → Db → Db)
    (id : uuid) (v : V) : Db → result (V * Db) := λ db,
  _ ← check_violation (bool_decide (get db !! id = None)) unique_violation;
  Ok (v, set (<[id := v]> (get db)) db).

(** DELETE ... WHERE id = $1, without references: the number of rows. *)
Definition delete_row {V} (get : Db → gmap uuid V) (set : gmap uuid V → Db → Db)
    (id : uuid) (ok : V → bool) : Db → result (nat * Db) := λ db,
  match get db !! id with
  | Some v => if ok v then Ok (1, set (delete id (get db)) db) else Ok (0, db)
  | None => Ok (0, db)
  end.

(** No row of [t] satisfies [P]: the check of a foreign key without ON DELETE. *)
Definition unreferenced {V} (P : V → bool) (t : gmap uuid V) : bool :=
  forallb (λ v, negb (P v)) (map_vals t).

(** A Go int is sent as an integer column (int4) only within its range. *)
Definition int4_ok (n : Z) : bool := bool_decide (- 2 ^ 31 <= n < 2 ^ 31)%Z.
Definition out_of_range : error := ErrText "unable to encode: out of range for int4".

(** ** jobs.go *)

(** The filter's Status is "" when the request does not give one. *)
Record ListJobsFilter := {
  ListJobsFilter_Status : JobStatus;
  ListJobsFilter_TemplateID : option uuid;
  ListJobsFilter_AgentID : option uuid;
}.

Definition CreateJob (templateID : uuid) (workflowRunID : option uuid) (extraVars : option vars)
    : prog Ev (result Job) :=
  sql (insert_job_sql templateID workflowRunID (default ∅ extraVars)).

Definition GetJob (id : uuid) : prog Ev (result Job) :=
  or_not_found (sql (query (λ _ db, by_id (db_jobs db) id))).

(** The WHERE clause the method builds. *)
Definition job_matches (f : ListJobsFilter) (j : Job) : Prop :=
  (ListJobsFilter_Status f = EmptyString ∨ Job_Status j = ListJobsFilter_Status f) ∧
  (ListJobsFilter_TemplateID f = None ∨ Some (Job_TemplateID j) = ListJobsFilter_TemplateID f) ∧
  (ListJobsFilter_AgentID f = None ∨ Job_AgentID j = ListJobsFilter_AgentID f).

#[export] Instance job_matches_dec f j : Decision (job_matches f j).
Proof. unfold job_matches. apply _. Defined.

Definition created_after (j1 j2 : Job) : Prop := (Job_CreatedAt j2 <= Job_CreatedAt j1)%Z.

#[export] Instance created_after_dec j1 j2 : Decision (created_after j1 j2).
Proof. unfold created_after. apply _. Defined.

Definition ListJobs_sql (f : ListJobsFilter) : Stmt (list Job) := query (λ _ db,
  Ok (take 200 (merge_sort created_after (filter (job_matches f) (map_vals (db_jobs db)))))).

Definition ListJobs (f : ListJobsFilter) : prog Ev (result (list Job)) := sql (ListJobs_sql f).

(** The SET clauses of UpdateJobStatus. *)
Definition update_status_row (now : Time) (status : JobStatus) (agentID : option uuid)
    (failureReason : option string) (j : Job) : Job := {|
  Job_ID := Job_ID j;
  Job_TemplateID := Job_TemplateID j;
  Job_AgentID := match agentID with Some a => Some a | None => Job_AgentID j end;
  Job_WorkflowRunID := Job_WorkflowRunID j;
  Job_Status := status;
  Job_CreatedAt := Job_CreatedAt j;
  Job_UpdatedAt := now;
  Job_StartedAt :=
    if bool_decide (status = JobStatusRunning) && bool_decide (Job_StartedAt j = None)
    then Some now else Job_StartedAt j;
  Job_EndedAt :=
    if bool_decide (status = JobStatusSuccess ∨ status = JobStatusFailed
                    ∨ status = JobStatusCancelled)
    then Some now else Job_EndedAt j;
  Job_ExtraVars := Job_ExtraVars j;
  Job_Facts := Job_Facts j;
  Job_FailureReason :=
    match failureReason with Some r => Some r | None => Job_FailureReason j end;
|}.

(** The number of updated rows is not looked at. *)
Definition UpdateJobStatus_sql (id : uuid) (status : JobStatus) (agentID : option uuid)
    (failureReason : option string) : Stmt unit := λ tx db,
  match db_jobs db !! id with
  | None => Ok ((), db)
  | Some j =>
      _ ← check_violation (fk_ok agentID (db_agents db)) fk_violation;
      Ok ((), set_jobs (<[id := update_status_row (tx_now tx) status agentID failureReason j]>
                          (db_jobs db)) db)
  end.

Definition UpdateJobStatus (id : uuid) (status : JobStatus) (agentID : option uuid)
    (failureReason : option string) : prog Ev (result unit) :=
  sql (UpdateJobStatus_sql id status agentID failureReason).

Definition facts_row (now : Time) (facts : vars) (j : Job) : Job := {|
  Job_ID := Job_ID j; Job_TemplateID := Job_TemplateID j; Job_AgentID := Job_AgentID j;
  Job_WorkflowRunID := Job_WorkflowRunID j; Job_Status := Job_Status j;
  Job_CreatedAt := Job_CreatedAt j; Job_UpdatedAt := now; Job_StartedAt := Job_StartedAt j;
  Job_EndedAt := Job_EndedAt j; Job_ExtraVars := Job_ExtraVars j; Job_Facts := facts;
  Job_FailureReason := Job_FailureReason j |}.

Definition SetJobFacts_sql (id : uuid) (facts : vars) : Stmt unit := λ tx db,
  Ok ((), set_jobs (alter (facts_row (tx_now tx) facts) id (db_jobs db)) db).

Definition SetJobFacts (id : uuid) (facts : vars) : prog Ev (result unit) :=
  sql (SetJobFacts_sql id facts).

(** INSERT ... ON CONFLICT (job_id, seq) DO NOTHING. *)
Definition append_log_sql (jobID : uuid) (l : JobLogLine) : Stmt unit := λ _ db,
  _ ← check_violation (int4_ok (JobLogLine_Seq l)) out_of_range;
  match db_job_logs db !! (jobID, JobLogLine_Seq l) with
  | Some _ => Ok ((), db)
  | None =>
      _ ← check_violation (fk_ok (Some jobID) (db_jobs db)) fk_violation;
      Ok ((), set_job_logs (<[(jobID, JobLogLine_Seq l) := (JobLogLine_Line l, JobLogLine_Stream l)]>
                              (db_job_logs db)) db)
  end.

Definition AppendJobLogs (jobID : uuid) (lines : list JobLogLine) : prog Ev (result unit) :=
  for_each_err lines (λ l, sql (append_log_sql jobID l)).

Definition seq_le (l1 l2 : JobLogLine) : Prop := (JobLogLine_Seq l1 <= JobLogLine_Seq l2)%Z.

#[export] Instance seq_le_dec l1 l2 : Decision (seq_le l1 l2).
Proof. unfold seq_le. apply _. Defined.

(** The stored lines of a job. *)
Definition log_lines (jobID : uuid) (db : Db) : list JobLogLine :=
  (λ kv, {| JobLogLine_Seq := kv.1.2; JobLogLine_Line := kv.2.1; JobLogLine_Stream := kv.2.2 |})
  <$> filter (λ kv, kv.1.1 = jobID) (map_to_list (db_job_logs db)).

Definition GetJobLogs_sql (jobID : uuid) : Stmt (list JobLogLine) := query (λ _ db,
  Ok (merge_sort seq_le (log_lines jobID db))).

Definition GetJobLogs (jobID : uuid) : prog Ev (result (list JobLogLine)) :=
  sql (GetJobLogs_sql jobID).

Definition AddJobStatusEvent_sql (jobID : uuid) (from to : JobStatus) (reason : string)
    : Stmt unit := λ tx db,
  _ ← check_violation (fk_ok (Some jobID) (db_jobs db)) fk_violation;
  let id := tx_uuid tx 0 in
  '(_, db') ← insert_row db_job_status_events set_job_status_events id
    {| JobStatusEvent_ID := id; JobStatusEvent_JobID := jobID; JobStatusEvent_FromStatus := from;
       JobStatusEvent_ToStatus := to; JobStatusEvent_Timestamp := tx_now tx;
       JobStatusEvent_Reason := reason |} db;
  Ok ((), db').

Definition AddJobStatusEvent (jobID : uuid) (from to : JobStatus) (reason : string)
    : prog Ev (result unit) :=
  sql (AddJobStatusEvent_sql jobID from to reason).

(** ** agents.go *)

(** The columns the queries select: all but the number of running jobs. *)
Definition stored_agent (r : AgentRow) : Agent :=
  let a := AgentRow_Agent r in {|
  Agent_ID := Agent_ID a; Agent_Name := Agent_Name a; Agent_Address := Agent_Address a;
  Agent_Status := Agent_Status a; Agent_Labels := Agent_Labels a;
  Agent_Capacity := Agent_Capacity a; Agent_RunningJobs := 0;
  Agent_LastHeartbeatAt := Agent_LastHeartbeatAt a;
  Agent_RegisteredAt := Agent_RegisteredAt a; Agent_UpdatedAt := Agent_UpdatedAt a |}.

Definition new_agent (now : Time) (id : uuid) (name address : string)
    (labels : gmap string string) (capacity : Z) : Agent := {|
  Agent_ID := id; Agent_Name := name; Agent_Address := address;
  Agent_Status := AgentStatusOffline; Agent_Labels := labels; Agent_Capacity := capacity;
  Agent_RunningJobs := 0; Agent_LastHeartbeatAt := None; Agent_RegisteredAt := now;
  Agent_UpdatedAt := now |}.

Definition CreateAgent_sql (name address tokenHash : string) (labels : gmap string string)
    (capacity : Z) : Stmt Agent := λ tx db,
  _ ← check_violation (int4_ok capacity) out_of_range;
  _ ← check_violation (unreferenced (λ r, bool_decide (AgentRow_TokenHash r = tokenHash))
                         (db_agents db)) unique_violation;
  '(r, db') ← insert_row db_agents set_agents (tx_uuid tx 0)
    {| AgentRow_Agent := new_agent (tx_now tx) (tx_uuid tx 0) name address labels capacity;
       AgentRow_TokenHash := tokenHash |} db;
  Ok (stored_agent r, db').

Definition CreateAgent (name address tokenHash : string) (labels : gmap string string)
    (capacity : Z) : prog Ev (result Agent) :=
  sql (CreateAgent_sql name address tokenHash labels capacity).

Definition GetAgentByID (id : uuid) : prog Ev (result Agent) :=
  or_not_found (sql (query (λ _ db, r ← by_id (db_agents db) id; Ok (stored_agent r)))).

Definition GetAgentByTokenHash_sql (tokenHash : string) : Stmt Agent := query (λ _ db,
  match filter (λ r, AgentRow_TokenHash r = tokenHash) (map_vals (db_agents db)) with
  | r :: _ => Ok (stored_agent r)
  | [] => Err ErrNoRows
  end).

Definition GetAgentByTokenHash (tokenHash : string) : prog Ev (result Agent) :=
  or_not_found (sql (GetAgentByTokenHash_sql tokenHash)).

Definition registered_after (a1 a2 : Agent) : Prop :=
  (Agent_RegisteredAt a2 <= Agent_RegisteredAt a1)%Z.

#[export] Instance registered_after_dec a1 a2 : Decision (registered_after a1 a2).
Proof. unfold registered_after. apply _. Defined.

Definition ListAgents : prog Ev (result (list Agent)) :=
  sql (query (λ _ db, Ok (merge_sort registered_after (stored_agent <$> map_vals (db_agents db))))).

Definition with_status (now : Time) (status : AgentStatus) (hb : option Time) (r : AgentRow) : AgentRow :=
  let a := AgentRow_Agent r in {|
  AgentRow_Agent := {|
    Agent_ID := Agent_ID a; Agent_Name := Agent_Name a; Agent_Address := Agent_Address a;
    Agent_Status := status; Agent_Labels := Agent_Labels a; Agent_Capacity := Agent_Capacity a;
    Agent_RunningJobs := Agent_RunningJobs a; Agent_LastHeartbeatAt := hb;
    Agent_RegisteredAt := Agent_RegisteredAt a; Agent_UpdatedAt := now |};
  AgentRow_TokenHash := AgentRow_TokenHash r |}.

Definition UpdateAgentHeartbeat_sql (id : uuid) : Stmt nat := λ tx db,
  match db_agents db !! id with
  | Some r => Ok (1, set_agents (<[id := with_status (tx_now tx) AgentStatusOnline
                                            (Some (tx_now tx)) r]> (db_agents db)) db)
  | None => Ok (0, db)
  end.

(** The running count and the TTL are not used. *)
Definition UpdateAgentHeartbeat (id : uuid) (runningJobs : Z) (ttl : Duration)
    : prog Ev (result unit) :=
  affected_or_not_found (sql (UpdateAgentHeartbeat_sql id)).

Definition stale (now : Time) (ttl : Duration) (a : Agent) : Prop :=
  Agent_Status a = AgentStatusOnline ∧
  match Agent_LastHeartbeatAt a with Some hb => (hb < now - ttl)%Z | None => False end.

#[export] Instance stale_dec now ttl a : Decision (stale now ttl a).
Proof. unfold stale. destruct (Agent_LastHeartbeatAt a); apply _. Defined.

Definition MarkStaleAgentsOffline_sql (ttl : Duration) : Stmt unit := λ tx db,
  Ok ((), set_agents ((λ r,
    if decide (stale (tx_now tx) ttl (AgentRow_Agent r))
    then with_status (tx_now tx) AgentStatusOffline (Agent_LastHeartbeatAt (AgentRow_Agent r)) r
    else r) <$> db_agents db) db).

Definition MarkStaleAgentsOffline (ttl : Duration) : prog Ev (result unit) :=
  sql (MarkStaleAgentsOffline_sql ttl).

(** ** Facts about the building blocks *)

Lemma update_status_row_ended now status a r j :
  IsTerminal status = true → Job_EndedAt (update_status_row now status a r j) = Some now.
Proof. intros Ht. simpl. by rewrite bool_decide_eq_true_2 by by apply IsTerminal_iff. Qed.

Lemma insert_row_spec {V} get (set : gmap uuid V → Db → Db) id v db x db' :
  insert_row get set id v db = Ok (x, db') →
  x = v ∧ get db !! id = None ∧ db' = set (<[id := v]> (get db)) db.
Proof.
  unfold insert_row. intros Hi. inv_result Hi. simplify_eq.
  by apply check_violation_Ok, bool_decide_eq_true in Hr.
Qed.

Lemma update_returning_spec {V} get (set : gmap uuid V → Db → Db) id f db x db' :
  update_returning get set id f db = Ok (x, db') →
  ∃ v, get db !! id = Some v ∧ x = f v ∧ db' = set (<[id := f v]> (get db)) db.
Proof.
  unfold update_returning, by_id. intros Hi. inv_result Hi. simplify_eq.
  destruct (get db !! id); naive_solver.
Qed.

Lemma delete_row_spec {V} get (set : gmap uuid V → Db → Db) id ok db n db' :
  delete_row get set id ok db = Ok (n, db') →
  (db' = db ∧ n = 0) ∨ (db' = set (delete id (get db)) db ∧ is_Some (get db !! id) ∧ n = 1).
Proof. unfold delete_row. repeat case_match; naive_solver. Qed.

(** Unfold a successful statement into its checks and what it wrote. *)
Ltac inv_stmt :=
  repeat match goal with
  | H : (_ ≫= _) = Ok _ |- _ => apply result_bind_Ok in H as (? & ? & H)
  | H : map_err _ _ = Ok _ |- _ => apply map_err_Ok in H
  | H : check_violation _ _ = Ok _ |- _ => apply check_violation_Ok in H
  | H : @eq (result (_ * _)) _ (Ok ?p) |- _ => is_var p; destruct p
  | H : insert_row _ _ _ _ _ = Ok (_, _) |- _ => apply insert_row_spec in H as (-> & ? & ->)
  | H : update_returning _ _ _ _ _ = Ok (_, _) |- _ =>
      apply update_returning_spec in H as (? & ? & -> & ->)
  | H : delete_row _ _ _ _ _ = Ok (_, _) |- _ =>
      apply delete_row_spec in H as [[-> ->]|(-> & ? & ->)]
  | H : Ok _ = Ok _ |- _ => progress simplify_eq/=
  | H : Err _ = Ok _ |- _ => discriminate H
  | H : (match _ with _ => _ end) = Ok _ |- _ => case_match
  end.

