(* ===== verification/ApiResources.v ===== *)
(** * The API server's queries on its other resources

    api/internal/store: templates.go, projects.go, schedules.go, credentials.go,
    users.go, approvals.go and workflows.go.  The referential actions of the
    migrations (ON DELETE CASCADE, SET NULL, or none) are written out in the
    DELETE statements. *)
From S2P Require Import Prelude.
From S2P Require Import Prog.
From S2P Require Import Types.
From S2P Require Import Db.
From S2P Require Import ControllerStore.
From S2P Require Import Secrets.
From S2P Require Import ApiStore.

(** The collation PostgreSQL orders text columns by. *)
Class Collation := {
  text_le : string → string → Prop;
  text_le_dec :: ∀ s1 s2, Decision (text_le s1 s2);
}.

(** ORDER BY of a text column. *)
Definition by_text `{Collation} {V} (f : V → string) (v1 v2 : V) : Prop := text_le (f v1) (f v2).

#[export] Instance by_text_dec `{Collation} {V} (f : V → string) v1 v2 : Decision (by_text f v1 v2).
Proof. unfold by_text. apply _. Defined.

(** ORDER BY of an instant, descending. *)
Definition newest_first {V} (f : V → Time) (v1 v2 : V) : Prop := (f v2 <= f v1)%Z.

#[export] Instance newest_first_dec {V} (f : V → Time) v1 v2 : Decision (newest_first f v1 v2).
Proof. unfold newest_first. apply _. Defined.

Section resources.
Context `{PgxLib} `{Collation}.

(** A nil map sent as a NOT NULL jsonb column. *)
Definition not_null_vars (v : option vars) : result vars :=
  match v with
  | Some v => Ok v
  | None => if pgx_nil_is_null then Err not_null_violation else Ok ∅
  end.

(** ** templates.go *)

Definition CreateJobTemplate_sql (name description : string) (projectID : uuid) (playbook : string)
    (credentialID : option uuid) (defaultExtraVars : vars) : Stmt JobTemplate := λ tx db,
  _ ← check_violation (fk_ok (Some projectID) (db_projects db)) fk_violation;
  _ ← check_violation (fk_ok credentialID (db_credentials db)) fk_violation;
  let id := tx_uuid tx 0 in
  insert_row db_job_templates set_job_templates id
    {| JobTemplate_ID := id; JobTemplate_Name := name; JobTemplate_Description := description;
       JobTemplate_ProjectID := projectID; JobTemplate_Playbook := playbook;
       JobTemplate_CredentialID := credentialID; JobTemplate_DefaultExtraVars := defaultExtraVars;
       JobTemplate_CreatedAt := tx_now tx; JobTemplate_UpdatedAt := tx_now tx |} db.

Definition CreateJobTemplate (name description : string) (projectID : uuid) (playbook : string)
    (credentialID : option uuid) (defaultExtraVars : option vars) : prog Ev (result JobTemplate) :=
  sql (CreateJobTemplate_sql name description projectID playbook credentialID
         (default ∅ defaultExtraVars)).

Definition GetJobTemplate (id : uuid) : prog Ev (result JobTemplate) :=
  or_not_found (sql (query (λ _ db, by_id (db_job_templates db) id))).

Definition ListJobTemplates : prog Ev (result (list JobTemplate)) :=
  sql (query (λ _ db, Ok (merge_sort (by_text JobTemplate_Name) (map_vals (db_job_templates db))))).

Definition UpdateJobTemplate_sql (id : uuid) (name description playbook : string)
    (credentialID : option uuid) (defaultExtraVars : option vars) : Stmt JobTemplate := λ tx db,
  t ← by_id (db_job_templates db) id;
  v ← not_null_vars defaultExtraVars;
  _ ← check_violation (fk_ok credentialID (db_credentials db)) fk_violation;
  update_returning db_job_templates set_job_templates id (λ t,
    {| JobTemplate_ID := JobTemplate_ID t; JobTemplate_Name := name;
       JobTemplate_Description := description; JobTemplate_ProjectID := JobTemplate_ProjectID t;
       JobTemplate_Playbook := playbook; JobTemplate_CredentialID := credentialID;
       JobTemplate_DefaultExtraVars := v; JobTemplate_CreatedAt := JobTemplate_CreatedAt t;
       JobTemplate_UpdatedAt := tx_now tx |}) db.

Definition UpdateJobTemplate (id : uuid) (name description playbook : string)
    (credentialID : option uuid) (defaultExtraVars : option vars) : prog Ev (result JobTemplate) :=
  or_not_found (sql (UpdateJobTemplate_sql id name description playbook credentialID defaultExtraVars)).

(** jobs.template_id restricts the deletion, schedules.template_id cascades. *)
Definition DeleteJobTemplate_sql (id : uuid) : Stmt nat := λ _ db,
  _ ← check_violation (unreferenced (λ j, bool_decide (Job_TemplateID j = id)) (db_jobs db))
        fk_violation;
  delete_row db_job_templates set_job_templates id (λ _, true)
    (set_schedules (filter (λ kv, Schedule_TemplateID kv.2 ≠ id) (db_schedules db)) db).

Definition DeleteJobTemplate (id : uuid) : prog Ev (result unit) :=
  affected_or_not_found (sql (DeleteJobTemplate_sql id)).

(** ** projects.go *)

Definition CreateProject_sql (name repoURL branch inventoryPath : string)
    (credentialID : option uuid) : Stmt Project := λ tx db,
  _ ← check_violation (fk_ok credentialID (db_credentials db)) fk_violation;
  let id := tx_uuid tx 0 in
  insert_row db_projects set_projects id
    {| Project_ID := id; Project_Name := name; Project_RepoURL := repoURL;
       Project_Branch := branch; Project_InventoryPath := inventoryPath;
       Project_CredentialID := credentialID; Project_SyncStatus := InventorySyncStatusPending;
       Project_LastSyncedAt := None; Project_SyncError := None;
       Project_CreatedAt := tx_now tx; Project_UpdatedAt := tx_now tx |} db.

Definition CreateProject (name repoURL branch inventoryPath : string) (credentialID : option uuid)
    : prog Ev (result Project) :=
  sql (CreateProject_sql name repoURL branch inventoryPath credentialID).

Definition GetProject (id : uuid) : prog Ev (result Project) :=
  or_not_found (sql (query (λ _ db, by_id (db_projects db) id))).

Definition ListProjects : prog Ev (result (list Project)) :=
  sql (query (λ _ db, Ok (merge_sort (by_text Project_Name) (map_vals (db_projects db))))).

Definition UpdateProject_sql (id : uuid) (name repoURL branch inventoryPath : string)
    (credentialID : option uuid) : Stmt Project := λ tx db,
  _ ← by_id (db_projects db) id;
  _ ← check_violation (fk_ok credentialID (db_credentials db)) fk_violation;
  update_returning db_projects set_projects id (λ p,
    {| Project_ID := Project_ID p; Project_Name := name; Project_RepoURL := repoURL;
       Project_Branch := branch; Project_InventoryPath := inventoryPath;
       Project_CredentialID := credentialID; Project_SyncStatus := Project_SyncStatus p;
       Project_LastSyncedAt := Project_LastSyncedAt p; Project_SyncError := Project_SyncError p;
       Project_CreatedAt := Project_CreatedAt p; Project_UpdatedAt := tx_now tx |}) db.

Definition UpdateProject (id : uuid) (name repoURL branch inventoryPath : string)
    (credentialID : option uuid) : prog Ev (result Project) :=
  or_not_found (sql (UpdateProject_sql id name repoURL branch inventoryPath credentialID)).

(** job_templates.project_id restricts, inventory_hosts.project_id cascades. *)
Definition DeleteProject_sql (id : uuid) : Stmt nat := λ _ db,
  _ ← check_violation (unreferenced (λ t, bool_decide (JobTemplate_ProjectID t = id))
                         (db_job_templates db)) fk_violation;
  delete_row db_projects set_projects id (λ _, true)
    (set_inventory_hosts (filter (λ kv, InventoryHost_ProjectID kv.2 ≠ id)
                            (db_inventory_hosts db)) db).

Definition DeleteProject (id : uuid) : prog Ev (result unit) :=
  affected_or_not_found (sql (DeleteProject_sql id)).

Definition api_sync_status_row (now : Time) (status : InventorySyncStatus)
    (syncErr : option string) (p : Project) : Project := {|
  Project_ID := Project_ID p; Project_Name := Project_Name p; Project_RepoURL := Project_RepoURL p;
  Project_Branch := Project_Branch p; Project_InventoryPath := Project_InventoryPath p;
  Project_CredentialID := Project_CredentialID p; Project_SyncStatus := status;
  Project_LastSyncedAt :=
    if bool_decide (status = InventorySyncStatusOK) then Some now else Project_LastSyncedAt p;
  Project_SyncError := syncErr;
  Project_CreatedAt := Project_CreatedAt p; Project_UpdatedAt := now |}.

Definition UpdateProjectSyncStatus_sql (id : uuid) (status : InventorySyncStatus)
    (syncErr : option string) : Stmt unit := λ tx db,
  Ok ((), set_projects (alter (api_sync_status_row (tx_now tx) status syncErr) id
                          (db_projects db)) db).

Definition UpdateProjectSyncStatus (id : uuid) (status : InventorySyncStatus)
    (syncErr : option string) : prog Ev (result unit) :=
  sql (UpdateProjectSyncStatus_sql id status syncErr).

Definition ListInventoryHosts (projectID : uuid) : prog Ev (result (list InventoryHost)) :=
  sql (query (λ _ db, Ok (merge_sort (by_text InventoryHost_Hostname)
    (filter (λ h, InventoryHost_ProjectID h = projectID) (map_vals (db_inventory_hosts db)))))).

(** ** schedules.go *)

Definition CreateSchedule_sql (name : string) (templateID : uuid) (cronExpr timezone : string)
    (enabled : bool) (extraVars : vars) : Stmt Schedule := λ tx db,
  _ ← check_violation (fk_ok (Some templateID) (db_job_templates db)) fk_violation;
  let id := tx_uuid tx 0 in
  insert_row db_schedules set_schedules id
    {| Schedule_ID := id; Schedule_Name := name; Schedule_TemplateID := templateID;
       Schedule_CronExpr := cronExpr; Schedule_Timezone := timezone; Schedule_Enabled := enabled;
       Schedule_ExtraVars := extraVars; Schedule_LastRunAt := None; Schedule_NextRunAt := None;
       Schedule_CreatedAt := tx_now tx; Schedule_UpdatedAt := tx_now tx |} db.

Definition CreateSchedule (name : string) (templateID : uuid) (cronExpr timezone : string)
    (enabled : bool) (extraVars : option vars) : prog Ev (result Schedule) :=
  sql (CreateSchedule_sql name templateID cronExpr timezone enabled (default ∅ extraVars)).

Definition GetSchedule (id : uuid) : prog Ev (result Schedule) :=
  or_not_found (sql (query (λ _ db, by_id (db_schedules db) id))).

Definition ListSchedules : prog Ev (result (list Schedule)) :=
  sql (query (λ _ db, Ok (merge_sort (by_text Schedule_Name) (map_vals (db_schedules db))))).

Definition UpdateSchedule_sql (id : uuid) (name cronExpr timezone : string) (enabled : bool)
    (extraVars : vars) : Stmt Schedule := λ tx,
  update_returning db_schedules set_schedules id (λ s,
    {| Schedule_ID := Schedule_ID s; Schedule_Name := name;
       Schedule_TemplateID := Schedule_TemplateID s; Schedule_CronExpr := cronExpr;
       Schedule_Timezone := timezone; Schedule_Enabled := enabled; Schedule_ExtraVars := extraVars;
       Schedule_LastRunAt := Schedule_LastRunAt s; Schedule_NextRunAt := Schedule_NextRunAt s;
       Schedule_CreatedAt := Schedule_CreatedAt s; Schedule_UpdatedAt := tx_now tx |}).

Definition UpdateSchedule (id : uuid) (name cronExpr timezone : string) (enabled : bool)
    (extraVars : option vars) : prog Ev (result Schedule) :=
  or_not_found (sql (UpdateSchedule_sql id name cronExpr timezone enabled (default ∅ extraVars))).

Definition DeleteSchedule_sql (id : uuid) : Stmt nat := λ _,
  delete_row db_schedules set_schedules id (λ _, true).

Definition DeleteSchedule (id : uuid) : prog Ev (result unit) :=
  affected_or_not_found (sql (DeleteSchedule_sql id)).

(** ** credentials.go *)

(** The columns the queries return: all but encrypted_data. *)
Definition public_credential (c : Credential) : Credential := {|
  Credential_ID := Credential_ID c; Credential_Name := Credential_Name c;
  Credential_Kind := Credential_Kind c; Credential_Description := Credential_Description c;
  Credential_EncryptedData := []; Credential_CreatedAt := Credential_CreatedAt c;
  Credential_UpdatedAt := Credential_UpdatedAt c |}.

Definition CreateCredential_sql (name description : string) (kind : CredentialKind)
    (encryptedData : list Byte.byte) : Stmt Credential := λ tx db,
  let id := tx_uuid tx 0 in
  '(c, db') ← insert_row db_credentials set_credentials id
    {| Credential_ID := id; Credential_Name := name; Credential_Kind := kind;
       Credential_Description := description; Credential_EncryptedData := encryptedData;
       Credential_CreatedAt := tx_now tx; Credential_UpdatedAt := tx_now tx |} db;
  Ok (public_credential c, db').

Definition CreateCredential (name description : string) (kind : CredentialKind)
    (encryptedData : list Byte.byte) : prog Ev (result Credential) :=
  sql (CreateCredential_sql name description kind encryptedData).

Definition GetCredential (id : uuid) : prog Ev (result Credential) :=
  or_not_found (sql (query (λ _ db, c ← by_id (db_credentials db) id; Ok (public_credential c)))).

Definition GetCredentialWithSecret (id : uuid) : prog Ev (result Credential) :=
  or_not_found (sql (query (λ _ db, by_id (db_credentials db) id))).

Definition ListCredentials : prog Ev (result (list Credential)) :=
  sql (query (λ _ db, Ok (merge_sort (by_text Credential_Name)
    (public_credential <$> map_vals (db_credentials db))))).

Definition UpdateCredential_sql (id : uuid) (name description : string) (kind : CredentialKind)
    (encryptedData : list Byte.byte) : Stmt Credential := λ tx db,
  '(c, db') ← update_returning db_credentials set_credentials id (λ c,
    {| Credential_ID := Credential_ID c; Credential_Name := name; Credential_Kind := kind;
       Credential_Description := description; Credential_EncryptedData := encryptedData;
       Credential_CreatedAt := Credential_CreatedAt c; Credential_UpdatedAt := tx_now tx |}) db;
  Ok (public_credential c, db').

Definition UpdateCredential (id : uuid) (name description : string) (kind : CredentialKind)
    (encryptedData : list Byte.byte) : prog Ev (result Credential) :=
  or_not_found (sql (UpdateCredential_sql id name description kind encryptedData)).

(** ON DELETE SET NULL of projects.credential_id and job_templates.credential_id;
    the trigger touches the rows it updates. *)
Definition drop_project_credential (now : Time) (id : uuid) (p : Project) : Project :=
  if decide (Project_CredentialID p = Some id) then {|
    Project_ID := Project_ID p; Project_Name := Project_Name p;
    Project_RepoURL := Project_RepoURL p; Project_Branch := Project_Branch p;
    Project_InventoryPath := Project_InventoryPath p; Project_CredentialID := None;
    Project_SyncStatus := Project_SyncStatus p; Project_LastSyncedAt := Project_LastSyncedAt p;
    Project_SyncError := Project_SyncError p; Project_CreatedAt := Project_CreatedAt p;
    Project_UpdatedAt := now |}
  else p.

Definition drop_template_credential (now : Time) (id : uuid) (t : JobTemplate) : JobTemplate :=
  if decide (JobTemplate_CredentialID t = Some id) then {|
    JobTemplate_ID := JobTemplate_ID t; JobTemplate_Name := JobTemplate_Name t;
    JobTemplate_Description := JobTemplate_Description t;
    JobTemplate_ProjectID := JobTemplate_ProjectID t;
    JobTemplate_Playbook := JobTemplate_Playbook t; JobTemplate_CredentialID := None;
    JobTemplate_DefaultExtraVars := JobTemplate_DefaultExtraVars t;
    JobTemplate_CreatedAt := JobTemplate_CreatedAt t; JobTemplate_UpdatedAt := now |}
  else t.

Definition DeleteCredential_sql (id : uuid) : Stmt nat := λ tx db,
  delete_row db_credentials set_credentials id (λ _, true)
    (set_projects (drop_project_credential (tx_now tx) id <$> db_projects db)
    (set_job_templates (drop_template_credential (tx_now tx) id <$> db_job_templates db) db)).

Definition DeleteCredential (id : uuid) : prog Ev (result unit) :=
  affected_or_not_found (sql (DeleteCredential_sql id)).

(** ** users.go *)

Definition CreateUser_sql (email passwordHash : string) : Stmt User := λ tx db,
  _ ← check_violation (unreferenced (λ u, bool_decide (User_Email u = email)) (db_users db))
        unique_violation;
  let id := tx_uuid tx 0 in
  insert_row db_users set_users id
    {| User_ID := id; User_Email := email; User_PasswordHash := passwordHash;
       User_CreatedAt := tx_now tx; User_UpdatedAt := tx_now tx |} db.

Definition CreateUser (email passwordHash : string) : prog Ev (result User) :=
  sql (CreateUser_sql email passwordHash).

(** A SELECT read with QueryRow: the first row. *)
Definition first_row {V} (l : list V) : result V :=
  match l with v :: _ => Ok v | [] => Err ErrNoRows end.

Definition GetUserByEmail (email : string) : prog Ev (result User) :=
  or_not_found (sql (query (λ _ db,
    first_row (filter (λ u, User_Email u = email) (map_vals (db_users db)))))).

Definition GetUserByID (id : uuid) : prog Ev (result User) :=
  or_not_found (sql (query (λ _ db, by_id (db_users db) id))).

Definition CreateAPIToken_sql (userID : uuid) (name tokenHash : string) : Stmt APIToken := λ tx db,
  _ ← check_violation (fk_ok (Some userID) (db_users db)) fk_violation;
  _ ← check_violation (unreferenced (λ t, bool_decide (APIToken_TokenHash t = tokenHash))
                         (db_api_tokens db)) unique_violation;
  let id := tx_uuid tx 0 in
  insert_row db_api_tokens set_api_tokens id
    {| APIToken_ID := id; APIToken_UserID := userID; APIToken_Name := name;
       APIToken_TokenHash := tokenHash; APIToken_CreatedAt := tx_now tx;
       APIToken_LastUsedAt := None; APIToken_ExpiresAt := None |} db.

Definition CreateAPIToken (userID : uuid) (name tokenHash : string) : prog Ev (result APIToken) :=
  sql (CreateAPIToken_sql userID name tokenHash).

Definition GetAPITokenByHash (tokenHash : string) : prog Ev (result APIToken) :=
  or_not_found (sql (query (λ _ db,
    first_row (filter (λ t, APIToken_TokenHash t = tokenHash) (map_vals (db_api_tokens db)))))).

Definition ListAPITokens (userID : uuid) : prog Ev (result (list APIToken)) :=
  sql (query (λ _ db, Ok (merge_sort (newest_first APIToken_CreatedAt)
    (filter (λ t, APIToken_UserID t = userID) (map_vals (db_api_tokens db)))))).

Definition DeleteAPIToken_sql (id userID : uuid) : Stmt nat := λ _,
  delete_row db_api_tokens set_api_tokens id (λ t, bool_decide (APIToken_UserID t = userID)).

Definition DeleteAPIToken (id userID : uuid) : prog Ev (result unit) :=
  affected_or_not_found (sql (DeleteAPIToken_sql id userID)).

Definition touched (now : Time) (t : APIToken) : APIToken := {|
  APIToken_ID := APIToken_ID t; APIToken_UserID := APIToken_UserID t;
  APIToken_Name := APIToken_Name t; APIToken_TokenHash := APIToken_TokenHash t;
  APIToken_CreatedAt := APIToken_CreatedAt t; APIToken_LastUsedAt := Some now;
  APIToken_ExpiresAt := APIToken_ExpiresAt t |}.

Definition TouchAPIToken_sql (id : uuid) : Stmt unit := λ tx db,
  Ok ((), set_api_tokens (alter (touched (tx_now tx)) id (db_api_tokens db)) db).

Definition TouchAPIToken (id : uuid) : prog Ev (result unit) := sql (TouchAPIToken_sql id).

(** ** approvals.go *)

Definition GetApprovalRequest (id : uuid) : prog Ev (result ApprovalRequest) :=
  or_not_found (sql (query (λ _ db, by_id (db_approval_requests db) id))).

Definition approval_created_before (a1 a2 : ApprovalRequest) : Prop :=
  (ApprovalRequest_CreatedAt a1 <= ApprovalRequest_CreatedAt a2)%Z.

#[export] Instance approval_created_before_dec a1 a2 : Decision (approval_created_before a1 a2).
Proof. unfold approval_created_before. apply _. Defined.

Definition ListPendingApprovals : prog Ev (result (list ApprovalRequest)) :=
  sql (query (λ _ db, Ok (merge_sort approval_created_before
    (filter (λ a, ApprovalRequest_Status a = ApprovalStatusPending)
       (map_vals (db_approval_requests db)))))).

Definition resolved (now : Time) (status : ApprovalStatus) (reviewer : uuid) (note : option string)
    (a : ApprovalRequest) : ApprovalRequest := {|
  ApprovalRequest_ID := ApprovalRequest_ID a;
  ApprovalRequest_WorkflowRunID := ApprovalRequest_WorkflowRunID a;
  ApprovalRequest_NodeID := ApprovalRequest_NodeID a; ApprovalRequest_Status := status;
  ApprovalRequest_ReviewedBy := Some reviewer; ApprovalRequest_ReviewNote := note;
  ApprovalRequest_CreatedAt := ApprovalRequest_CreatedAt a;
  ApprovalRequest_ResolvedAt := Some now |}.

Definition ResolveApproval_sql (id : uuid) (status : ApprovalStatus) (reviewerID : uuid)
    (note : option string) : Stmt nat := λ tx db,
  match db_approval_requests db !! id with
  | Some a =>
      if decide (ApprovalRequest_Status a = ApprovalStatusPending) then
        _ ← check_violation (fk_ok (Some reviewerID) (db_users db)) fk_violation;
        Ok (1, set_approval_requests
                 (<[id := resolved (tx_now tx) status reviewerID note a]> (db_approval_requests db)) db)
      else Ok (0, db)
  | None => Ok (0, db)
  end.

Definition ResolveApproval (id : uuid) (status : ApprovalStatus) (reviewerID : uuid)
    (note : option string) : prog Ev (result unit) :=
  affected_or_not_found (sql (ResolveApproval_sql id status reviewerID note)).

(** ** workflows.go *)

Definition CreateWorkflow_sql (name description : string) : Stmt Workflow := λ tx,
  let id := tx_uuid tx 0 in
  insert_row db_workflows set_workflows id
    {| Workflow_ID := id; Workflow_Name := name; Workflow_Description := description;
       Workflow_CreatedAt := tx_now tx; Workflow_UpdatedAt := tx_now tx |}.

Definition CreateWorkflow (name description : string) : prog Ev (result Workflow) :=
  sql (CreateWorkflow_sql name description).

Definition GetWorkflow (id : uuid) : prog Ev (result Workflow) :=
  or_not_found (sql (query (λ _ db, by_id (db_workflows db) id))).

Definition ListWorkflows : prog Ev (result (list Workflow)) :=
  sql (query (λ _ db, Ok (merge_sort (by_text Workflow_Name) (map_vals (db_workflows db))))).

Definition UpdateWorkflow_sql (id : uuid) (name description : string) : Stmt Workflow := λ tx,
  update_returning db_workflows set_workflows id (λ w,
    {| Workflow_ID := Workflow_ID w; Workflow_Name := name; Workflow_Description := description;
       Workflow_CreatedAt := Workflow_CreatedAt w; Workflow_UpdatedAt := tx_now tx |}).

Definition UpdateWorkflow (id : uuid) (name description : string) : prog Ev (result Workflow) :=
  or_not_found (sql (UpdateWorkflow_sql id name description)).

(** DELETE FROM workflow_nodes WHERE workflow_id = $1: the edges from or to a
    deleted node go with it, an approval request for one prevents it. *)
Definition delete_nodes (workflowID : uuid) (db : Db) : result Db :=
  let doomed n := match db_workflow_nodes db !! n with
                  | Some node => bool_decide (WorkflowNode_WorkflowID node = workflowID)
                  | None => false end in
  _ ← check_violation (unreferenced (λ a, doomed (ApprovalRequest_NodeID a))
                         (db_approval_requests db)) fk_violation;
  Ok (set_workflow_nodes (filter (λ kv, WorkflowNode_WorkflowID kv.2 ≠ workflowID)
                            (db_workflow_nodes db))
     (set_workflow_edges (filter (λ kv, doomed (WorkflowEdge_SourceNodeID kv.2) = false ∧
                                        doomed (WorkflowEdge_TargetNodeID kv.2) = false)
                            (db_workflow_edges db)) db)).

(** workflow_runs.workflow_id restricts, nodes and edges cascade. *)
Definition DeleteWorkflow_sql (id : uuid) : Stmt nat := λ _ db,
  _ ← check_violation (unreferenced (λ r, bool_decide (WorkflowRun_WorkflowID r = id))
                         (db_workflow_runs db)) fk_violation;
  db1 ← delete_nodes id db;
  delete_row db_workflows set_workflows id (λ _, true)
    (set_workflow_edges (filter (λ kv, WorkflowEdge_WorkflowID kv.2 ≠ id)
                           (db_workflow_edges db1)) db1).

Definition DeleteWorkflow (id : uuid) : prog Ev (result unit) :=
  affected_or_not_found (sql (DeleteWorkflow_sql id)).

Definition insert_node (tx : Tx) (workflowID : uuid) (db : Db) (n : WorkflowNode) : result Db :=
  _ ← check_violation (fk_ok (Some workflowID) (db_workflows db)) fk_violation;
  '(_, db') ← insert_row db_workflow_nodes set_workflow_nodes (WorkflowNode_ID n)
    {| WorkflowNode_ID := WorkflowNode_ID n; WorkflowNode_WorkflowID := workflowID;
       WorkflowNode_Kind := WorkflowNode_Kind n; WorkflowNode_ResourceID := WorkflowNode_ResourceID n;
       WorkflowNode_Label := WorkflowNode_Label n; WorkflowNode_ExtraVars := WorkflowNode_ExtraVars n;
       WorkflowNode_CreatedAt := tx_now tx; WorkflowNode_UpdatedAt := tx_now tx |} db;
  Ok db'.

Definition insert_edge (workflowID : uuid) (db : Db) (e : WorkflowEdge) : result Db :=
  _ ← check_violation (fk_ok (Some workflowID) (db_workflows db)) fk_violation;
  _ ← check_violation (fk_ok (Some (WorkflowEdge_SourceNodeID e)) (db_workflow_nodes db)) fk_violation;
  _ ← check_violation (fk_ok (Some (WorkflowEdge_TargetNodeID e)) (db_workflow_nodes db)) fk_violation;
  '(_, db') ← insert_row db_workflow_edges set_workflow_edges (WorkflowEdge_ID e)
    {| WorkflowEdge_ID := WorkflowEdge_ID e; WorkflowEdge_WorkflowID := workflowID;
       WorkflowEdge_SourceNodeID := WorkflowEdge_SourceNodeID e;
       WorkflowEdge_TargetNodeID := WorkflowEdge_TargetNodeID e;
       WorkflowEdge_Condition := WorkflowEdge_Condition e |} db;
  Ok db'.

(** [for _, x := range xs { if err := f(x); err != nil { return err } }] within a
    transaction. *)
Fixpoint insert_all {X} (f : Db → X → result Db) (xs : list X) (db : Db) : result Db :=
  match xs with
  | [] => Ok db
  | x :: xs => db' ← f db x; insert_all f xs db'
  end.

(** One transaction, as in [UpsertInventoryHosts_sql]. *)
Definition UpsertWorkflowNodes_sql (workflowID : uuid) (nodes : list WorkflowNode) : Stmt unit :=
  λ tx db,
  db1 ← delete_nodes workflowID db;
  db2 ← insert_all (insert_node tx workflowID) nodes db1;
  Ok ((), db2).

Definition UpsertWorkflowNodes (workflowID : uuid) (nodes : list WorkflowNode)
    : prog Ev (result unit) :=
  sql (UpsertWorkflowNodes_sql workflowID nodes).

Definition UpsertWorkflowEdges_sql (workflowID : uuid) (edges : list WorkflowEdge) : Stmt unit :=
  λ _ db,
  db' ← insert_all (insert_edge workflowID) edges
    (set_workflow_edges (filter (λ kv, WorkflowEdge_WorkflowID kv.2 ≠ workflowID)
                           (db_workflow_edges db)) db);
  Ok ((), db').

Definition UpsertWorkflowEdges (workflowID : uuid) (edges : list WorkflowEdge)
    : prog Ev (result unit) :=
  sql (UpsertWorkflowEdges_sql workflowID edges).

Definition GetWorkflowNodes (workflowID : uuid) : prog Ev (result (list WorkflowNode)) :=
  sql (query (λ _ db, Ok (filter (λ n, WorkflowNode_WorkflowID n = workflowID)
                            (map_vals (db_workflow_nodes db))))).

Definition GetWorkflowEdges (workflowID : uuid) : prog Ev (result (list WorkflowEdge)) :=
  sql (query (λ _ db, Ok (filter (λ e, WorkflowEdge_WorkflowID e = workflowID)
                            (map_vals (db_workflow_edges db))))).

Definition CreateWorkflowRun_sql (workflowID : uuid) : Stmt WorkflowRun := λ tx db,
  _ ← check_violation (fk_ok (Some workflowID) (db_workflows db)) fk_violation;
  let id := tx_uuid tx 0 in
  insert_row db_workflow_runs set_workflow_runs id
    {| WorkflowRun_ID := id; WorkflowRun_WorkflowID := workflowID;
       WorkflowRun_Status := WorkflowRunStatusPending; WorkflowRun_Context := ∅;
       WorkflowRun_CreatedAt := tx_now tx; WorkflowRun_UpdatedAt := tx_now tx;
       WorkflowRun_StartedAt := None; WorkflowRun_EndedAt := None |} db.

Definition CreateWorkflowRun (workflowID : uuid) : prog Ev (result WorkflowRun) :=
  sql (CreateWorkflowRun_sql workflowID).

Definition GetWorkflowRun (id : uuid) : prog Ev (result WorkflowRun) :=
  or_not_found (sql (query (λ _ db, by_id (db_workflow_runs db) id))).

Definition ListWorkflowRuns (workflowID : uuid) : prog Ev (result (list WorkflowRun)) :=
  sql (query (λ _ db, Ok (merge_sort (newest_first WorkflowRun_CreatedAt)
    (filter (λ r, WorkflowRun_WorkflowID r = workflowID) (map_vals (db_workflow_runs db)))))).

(** api/internal/secrets: Provider.Resolve *)
Definition api_Resolve `{UuidLib} `{CryptoLib} `{FieldsJson} (key : bytes) (credentialID : uuid)
    : prog Ev (result CredentialSecret) :=
  try cred <- wrap_err ("credential " +:+ uuid_String credentialID)
                (GetCredentialWithSecret credentialID)
    catch err => mret (Err err) ;;
  mret (open_credential key ": unmarshal" credentialID cred).
End resources.
