(* ===== verification/Http.v ===== *)
(** * Requests and responses of the API server

    api/internal/handler/{handler,respond}.go and what the handlers use of
    net/http, chi and encoding/json.  A handler is a function from requests to
    programs that return the response. *)
From S2P Require Import Prelude.
From S2P Require Import Prog.
From S2P Require Import Types.
From S2P Require Import Db.

(** A request as a handler sees it: URL parameters of the route, query
    parameters, headers (absent ones read as ""), the body, and what the
    authentication middleware put in the context. *)
Record Request := {
  req_params : gmap string string;
  req_query : gmap string string;
  req_headers : gmap string string;
  req_body : string;
  req_user : option uuid;
  req_agent : option Agent;
}.

Definition lookup_str (m : gmap string string) (k : string) : string := default EmptyString (m !! k).

(** chi.URLParam, r.URL.Query().Get, r.Header.Get *)
Definition URLParam (r : Request) (k : string) : string := lookup_str (req_params r) k.
Definition Query (r : Request) (k : string) : string := lookup_str (req_query r) k.
Definition Header (r : Request) (k : string) : string := lookup_str (req_headers r) k.

(** encoding/json: Decoder.Decode into a variable of type [T]. *)
Class JsonDecode (T : Type) := { json_Decode : string → result T }.

(** The Go value a handler passes to respond. *)
Inductive Body :=
| BNone
| BError (msg : string)
| BJob (j : Job) | BJobs (l : list Job) | BLogs (l : list JobLogLine)
| BAgent (a : Agent) | BAgents (l : list Agent)
| BRegistered (agent_id : uuid) (token : string)
| BTemplate (t : JobTemplate) | BTemplates (l : list JobTemplate)
| BProject (p : Project) | BProjects (l : list Project) | BHosts (l : list InventoryHost)
| BSchedule (s : Schedule) | BSchedules (l : list Schedule)
| BCredential (c : Credential) | BCredentials (l : list Credential)
| BWorkflow (w : Workflow) | BWorkflows (l : list Workflow)
| BWorkflowGraph (w : Workflow) (nodes : list WorkflowNode) (edges : list WorkflowEdge)
| BRun (r : WorkflowRun) | BRuns (l : list WorkflowRun)
| BApproval (a : ApprovalRequest) | BApprovals (l : list ApprovalRequest)
| BToken (token : string)
| BNewAPIToken (id : uuid) (name token : string) (created_at : Time)
| BAPITokens (l : list APIToken)
| BHealth.

Record Response := { resp_status : Z; resp_body : Body }.

Definition respond (status : Z) (data : Body) : Response :=
  {| resp_status := status; resp_body := data |}.

Definition respondError (status : Z) (msg : string) : Response := respond status (BError msg).

Definition respondStoreErr (err : error) : Response :=
  if decide (err = ErrNotFound) then respondError StatusNotFound "not found"
  else if decide (err = ErrConflict) then respondError StatusConflict "conflict"
  else respondError StatusInternalServerError "internal error".

(** w.WriteHeader(status) alone. *)
Definition write_status (status : Z) : Response := respond status BNone.

Definition internal_error : Response := respondError StatusInternalServerError "internal error".
Definition bad_request (msg : string) : Response := respondError StatusBadRequest msg.
Definition unauthorized : Response := respondError StatusUnauthorized "unauthorized".

(** [x, err := r; if err != nil { respond h; return }; k] for a pure [r]. *)
Notation "'must' x <- r 'orelse' h ;; k" :=
  (match r with Ok x => k | Err _ => mret h end)
  (at level 10, x pattern, r at level 99, h at level 99, k at level 200) : aop_scope.

(** [x, ok := r; if !ok { respond h; return }; k] *)
Notation "'having' x <- r 'orelse' h ;; k" :=
  (match r with Some x => k | None => mret h end)
  (at level 10, x pattern, r at level 99, h at level 99, k at level 200) : aop_scope.

Definition Handler : Type := Request → prog Ev Response.

(** middleware.UserIDFromCtx and middleware.AgentFromCtx *)
Definition UserIDFromCtx (r : Request) : option uuid := req_user r.
Definition AgentFromCtx (r : Request) : option Agent := req_agent r.
