(* ===== verification/JobHandlers.v ===== *)
(** * Jobs over HTTP: api/internal/handler/jobs.go *)
From S2P Require Import Prelude.
From S2P Require Import Prog.
From S2P Require Import Types.
From S2P Require Import Db.
From S2P Require Import Http.
From S2P Require Import ApiStore.
From S2P Require Import ApiResources.

Module Jobs.

Record CreateJobBody := {
  CreateJobBody_TemplateID : string;
  CreateJobBody_ExtraVars : option vars;
}.

(** [Facts] is [∅] for a nil map: only its length is looked at. *)
Record ResultBody := {
  ResultBody_Status : JobStatus;
  ResultBody_ExitCode : Z;
  ResultBody_Facts : vars;
}.

Section handlers.
Context `{UuidLib} `{JsonDecode CreateJobBody} `{JsonDecode (list JobLogLine)} `{JsonDecode ResultBody}.

(** A query parameter that is ignored unless it is an identifier. *)
Definition query_uuid (s : string) : option uuid :=
  if bool_decide (s = EmptyString) then None
  else match uuid_Parse s with Ok id => Some id | Err _ => None end.

Definition ListJobs : Handler := λ r,
  let f := {| ListJobsFilter_Status := Query r "status";
              ListJobsFilter_TemplateID := query_uuid (Query r "template_id");
              ListJobsFilter_AgentID := query_uuid (Query r "agent_id") |} in
  try jobs <- ApiStore.ListJobs f catch _ => mret internal_error ;;
  mret (respond StatusOK (BJobs jobs)).

Definition CreateJob : Handler := λ r,
  must body <- json_Decode (T := CreateJobBody) (req_body r) orelse bad_request "invalid request" ;;
  must templateID <- uuid_Parse (CreateJobBody_TemplateID body)
    orelse bad_request "invalid template_id" ;;
  try _ <- ApiResources.GetJobTemplate templateID catch err => mret (respondStoreErr err) ;;
  try job <- ApiStore.CreateJob templateID None (CreateJobBody_ExtraVars body)
    catch _ => mret internal_error ;;
  mret (respond StatusCreated (BJob job)).

Definition GetJob : Handler := λ r,
  must id <- uuid_Parse (URLParam r "id") orelse bad_request "invalid id" ;;
  try job <- ApiStore.GetJob id catch err => mret (respondStoreErr err) ;;
  mret (respond StatusOK (BJob job)).

Definition CancelJob : Handler := λ r,
  must id <- uuid_Parse (URLParam r "id") orelse bad_request "invalid id" ;;
  try job <- ApiStore.GetJob id catch err => mret (respondStoreErr err) ;;
  if IsTerminal (Job_Status job)
  then mret (respondError StatusConflict "job is already in a terminal state") else
  try _ <- UpdateJobStatus id JobStatusCancelled None (Some "cancelled by user")
    catch _ => mret internal_error ;;
  mret (write_status StatusNoContent).

Definition GetJobLogs : Handler := λ r,
  must id <- uuid_Parse (URLParam r "id") orelse bad_request "invalid id" ;;
  try lines <- ApiStore.GetJobLogs id catch _ => mret internal_error ;;
  mret (respond StatusOK (BLogs lines)).

(** [job.AgentID == nil || *job.AgentID != agent.ID] *)
Definition not_assigned (job : Job) (agent : Agent) : bool :=
  match Job_AgentID job with
  | None => true
  | Some a => bool_decide (a ≠ Agent_ID agent)
  end.

Definition AgentPostLogs : Handler := λ r,
  having agent <- AgentFromCtx r orelse unauthorized ;;
  must jobID <- uuid_Parse (URLParam r "job_id") orelse bad_request "invalid job_id" ;;
  try job <- ApiStore.GetJob jobID catch err => mret (respondStoreErr err) ;;
  if not_assigned job agent then mret (respondError StatusForbidden "forbidden") else
  must lines <- json_Decode (T := list JobLogLine) (req_body r)
    orelse bad_request "invalid request" ;;
  try _ <- AppendJobLogs jobID lines catch _ => mret internal_error ;;
  mret (write_status StatusNoContent).

Definition AgentPostResult : Handler := λ r,
  having agent <- AgentFromCtx r orelse unauthorized ;;
  must jobID <- uuid_Parse (URLParam r "job_id") orelse bad_request "invalid job_id" ;;
  try job <- ApiStore.GetJob jobID catch err => mret (respondStoreErr err) ;;
  if not_assigned job agent then mret (respondError StatusForbidden "forbidden") else
  must body <- json_Decode (T := ResultBody) (req_body r) orelse bad_request "invalid request" ;;
  if negb (IsTerminal (ResultBody_Status body))
  then mret (bad_request "status must be terminal") else
  try _ <- UpdateJobStatus jobID (ResultBody_Status body) None None
    catch _ => mret internal_error ;;
  _ ← (if bool_decide (ResultBody_Facts body = ∅) then mret (Ok ())
       else SetJobFacts jobID (ResultBody_Facts body));
  mret (write_status StatusNoContent).
End handlers.
End Jobs.
