(* ===== verification/Auth.v ===== *)
(** * Authentication of the API server

    api/internal/auth/{jwt,registration}.go, api/internal/middleware/auth.go,
    and the handlers that issue tokens: api/internal/handler/{auth,agents}.go. *)
From S2P Require Import Prelude.
From S2P Require Import Prog.
From S2P Require Import Types.
From S2P Require Import Text.
From S2P Require Import Strconv.
From S2P Require Import Db.
From S2P Require Import Http.
From S2P Require Import ApiStore.
From S2P Require Import ApiResources.

(** crypto/sha256, as a function on strings. *)
Class HashLib := { sha256 : string → list Byte.byte }.

(** golang.org/x/crypto/bcrypt: CompareHashAndPassword returns nil. *)
Class BcryptLib := { bcrypt_matches : string → string → bool }.

Record Claims := {
  Claims_UserID : uuid;
  Claims_Email : string;
  Claims_ExpiresAt : Time;
  Claims_IssuedAt : Time;
}.

(** github.com/golang-jwt/jwt: signing with HS256, and parsing at an instant
    with a key function that accepts only HMAC methods. *)
Class JwtLib := {
  jwt_Sign : string → Claims → result string;
  jwt_Parse : string → string → Time → result Claims;
}.

(** A signed token is not empty, and until it expires it is read back, with the
    user it was issued to. *)
Class JwtLaws `{JwtLib} := {
  jwt_Sign_nonempty : ∀ secret c tok, jwt_Sign secret c = Ok tok → tok ≠ EmptyString;
  jwt_Parse_Sign : ∀ secret c tok now, jwt_Sign secret c = Ok tok → (now < Claims_ExpiresAt c)%Z →
    ∃ c', jwt_Parse secret tok now = Ok c' ∧ Claims_UserID c' = Claims_UserID c;
}.

(** NewNumericDate truncates to seconds. *)
Definition NewNumericDate (t : Time) : Time := (t - t `mod` 10 ^ 9)%Z.

(** ** api/internal/auth *)

(** StaticTokenValidator.Valid: subtle.ConstantTimeCompare(...) == 1. *)
Definition Valid (expected token : string) : bool := bool_decide (token = expected).

Section auth.
Context `{JwtLib}.

Definition IssueToken (secret : string) (userID : uuid) (email : string) (expiry : Duration)
    : prog Ev (result string) :=
  t1 ← trigger HostNow;
  t2 ← trigger HostNow;
  mret (jwt_Sign secret {|
    Claims_UserID := userID; Claims_Email := email;
    Claims_ExpiresAt := NewNumericDate (t1 + expiry);
    Claims_IssuedAt := NewNumericDate t2 |}).

Definition ParseToken (secret tokenStr : string) : prog Ev (result Claims) :=
  now ← trigger HostNow;
  mret (jwt_Parse secret tokenStr now).
End auth.

(** ** api/internal/middleware/auth.go *)

Definition with_user (r : Request) (u : uuid) : Request := {|
  req_params := req_params r; req_query := req_query r; req_headers := req_headers r;
  req_body := req_body r; req_user := Some u; req_agent := req_agent r |}.

Definition with_agent (r : Request) (a : Agent) : Request := {|
  req_params := req_params r; req_query := req_query r; req_headers := req_headers r;
  req_body := req_body r; req_user := req_user r; req_agent := Some a |}.

Section middleware.
Context `{HashLib} `{JwtLib}.

Definition hashToken (raw : string) : string := hex_EncodeToString (sha256 raw).

(** The bearer token of a request. *)
Definition bearer (r : Request) : string := TrimPrefix (Header r "Authorization") "Bearer ".

(** What RequireUser does before calling the next handler: refuse, or go on with
    the user in the context and, for an API token, with a goroutine that runs
    TouchAPIToken. *)
Definition RequireUser (jwtSecret : string) (r : Request)
    : prog Ev (option (Request * option uuid)) :=
  let raw := bearer r in
  if bool_decide (raw = EmptyString) then mret None else
  claims ← ParseToken jwtSecret raw;
  match claims with
  | Ok claims => mret (Some (with_user r (Claims_UserID claims), None))
  | Err _ =>
      try token <- GetAPITokenByHash (hashToken raw) catch _ => mret None ;;
      mret (Some (with_user r (APIToken_UserID token), Some (APIToken_ID token)))
  end.

Definition RequireAgent (r : Request) : prog Ev (option Request) :=
  let raw := bearer r in
  if bool_decide (raw = EmptyString) then mret None else
  try agent <- GetAgentByTokenHash (hashToken raw) catch _ => mret None ;;
  mret (Some (with_agent r agent)).

(** The goroutine [go st.TouchAPIToken(...)]; its error is dropped. *)
Definition touch (id : uuid) : prog Ev unit := _ ← TouchAPIToken id; mret ().

(** What serving a request comes to: the response, and the goroutines it started,
    which run beside the rest of it and after it. *)
Definition Served : Type := Response * list (prog Ev unit).

(** The wrapped handlers. *)
Definition as_user (jwtSecret : string) (next : Handler) (r : Request) : prog Ev Served :=
  a ← RequireUser jwtSecret r;
  match a with
  | None => mret (unauthorized, [])
  | Some (r', touched) =>
      let started := touch <$> option_list touched in
      resp ← next r';
      mret (resp, started)
  end.

Definition as_agent (next : Handler) : Handler := λ r,
  a ← RequireAgent r;
  match a with None => mret unauthorized | Some r' => next r' end.
End middleware.

(** ** handler/auth.go *)

Record LoginBody := { LoginBody_Email : string; LoginBody_Password : string }.
Record NameBody := { NameBody_Name : string }.

(** The fields of config.Config the handlers read. *)
Record ApiConfig := {
  cfg_EncryptionKey : list Byte.byte;
  cfg_JWTSecret : string;
  cfg_JWTExpiry : Duration;
  cfg_HeartbeatTTL : Duration;
  cfg_RegToken : string;
}.

Record RegisterBody := {
  RegisterBody_Name : string;
  RegisterBody_Address : string;
  RegisterBody_Labels : option (gmap string string);
  RegisterBody_Capacity : Z;
}.

Section handlers.
Context `{HashLib} `{JwtLib} `{BcryptLib} `{UuidLib}.
Context `{JsonDecode LoginBody} `{JsonDecode NameBody} `{JsonDecode RegisterBody}
  `{JsonDecode AgentHeartbeat}.
Context (cfg : ApiConfig).

Definition Login : Handler := λ r,
  must body <- json_Decode (T := LoginBody) (req_body r) orelse bad_request "invalid request" ;;
  try user <- GetUserByEmail (LoginBody_Email body)
    catch _ => mret (respondError StatusUnauthorized "invalid credentials") ;;
  if negb (bcrypt_matches (User_PasswordHash user) (LoginBody_Password body))
  then mret (respondError StatusUnauthorized "invalid credentials") else
  try token <- IssueToken (cfg_JWTSecret cfg) (User_ID user) (User_Email user) (cfg_JWTExpiry cfg)
    catch _ => mret internal_error ;;
  mret (respond StatusOK (BToken token)).

(** [raw := make([]byte, 32); rand.Read(raw)], the error ignored. *)
Definition raw_bytes (r : result (list Byte.byte)) : list Byte.byte :=
  match r with Ok b => b | Err _ => replicate 32 Byte.x00 end.

Definition random_raw : prog Ev string :=
  b ← trigger (HostRand 32);
  mret (hex_EncodeToString (raw_bytes b)).

Definition generateToken : prog Ev (string * string) :=
  raw ← random_raw; mret (raw, hashToken raw).

Definition CreateAPIToken : Handler := λ r,
  having userID <- UserIDFromCtx r orelse unauthorized ;;
  must body <- json_Decode (T := NameBody) (req_body r) orelse bad_request "name is required" ;;
  if bool_decide (NameBody_Name body = EmptyString) then mret (bad_request "name is required") else
  '(raw, hash) ← generateToken;
  try token <- ApiResources.CreateAPIToken userID (NameBody_Name body) hash
    catch _ => mret internal_error ;;
  mret (respond StatusCreated
    (BNewAPIToken (APIToken_ID token) (APIToken_Name token) raw (APIToken_CreatedAt token))).

Definition ListAPITokens : Handler := λ r,
  having userID <- UserIDFromCtx r orelse unauthorized ;;
  try tokens <- ApiResources.ListAPITokens userID catch _ => mret internal_error ;;
  mret (respond StatusOK (BAPITokens tokens)).

Definition DeleteAPIToken : Handler := λ r,
  having userID <- UserIDFromCtx r orelse unauthorized ;;
  must id <- uuid_Parse (URLParam r "id") orelse bad_request "invalid id" ;;
  try _ <- ApiResources.DeleteAPIToken id userID catch err => mret (respondStoreErr err) ;;
  mret (write_status StatusNoContent).

(** ** handler/agents.go *)

Definition RegisterAgent : Handler := λ r,
  must body <- json_Decode (T := RegisterBody) (req_body r) orelse bad_request "invalid request" ;;
  if bool_decide (RegisterBody_Name body = EmptyString)
     || bool_decide (RegisterBody_Address body = EmptyString)
  then mret (bad_request "name and address are required") else
  if negb (Valid (cfg_RegToken cfg) (Header r "X-Registration-Token"))
  then mret (respondError StatusUnauthorized "invalid registration token") else
  let capacity := if bool_decide (RegisterBody_Capacity body <= 0)%Z then 1%Z
                  else RegisterBody_Capacity body in
  let labels := default ∅ (RegisterBody_Labels body) in
  rawStr ← random_raw;
  let tokenHash := hex_EncodeToString (sha256 rawStr) in
  try agent <- CreateAgent (RegisterBody_Name body) (RegisterBody_Address body) tokenHash labels
                 capacity
    catch _ => mret internal_error ;;
  mret (respond StatusCreated (BRegistered (Agent_ID agent) rawStr)).

Definition AgentHeartbeat : Handler := λ r,
  having agent <- AgentFromCtx r orelse unauthorized ;;
  must body <- json_Decode (T := AgentHeartbeat) (req_body r) orelse bad_request "invalid request" ;;
  try _ <- UpdateAgentHeartbeat (Agent_ID agent) (AgentHeartbeat_RunningJobs body)
             (cfg_HeartbeatTTL cfg)
    catch err => mret (respondStoreErr err) ;;
  mret (write_status StatusNoContent).

Definition ListAgents : Handler := λ _,
  try agents <- ApiStore.ListAgents catch _ => mret internal_error ;;
  mret (respond StatusOK (BAgents agents)).

Definition GetAgent : Handler := λ r,
  must id <- uuid_Parse (URLParam r "id") orelse bad_request "invalid id" ;;
  try agent <- GetAgentByID id catch err => mret (respondStoreErr err) ;;
  mret (respond StatusOK (BAgent agent)).
End handlers.
