(* ===== verification/ResourceHandlers.v ===== *)
(** * The API server's other resources over HTTP

    api/internal/handler: templates.go, projects.go, schedules.go,
    credentials.go, workflows.go and approvals.go. *)
From S2P Require Import Prelude.
From S2P Require Import Prog.
From S2P Require Import Types.
From S2P Require Import Db.
From S2P Require Import Http.
From S2P Require Import Secrets.
From S2P Require Import ApiStore.
From S2P Require Import ApiResources.
From S2P Require Import Auth.

(** ** Request bodies *)

Module Resources.

Record CreateTemplateBody := {
  CreateTemplateBody_Name : string;
  CreateTemplateBody_Description : string;
  CreateTemplateBody_ProjectID : string;
  CreateTemplateBody_Playbook : string;
  CreateTemplateBody_CredentialID : option string;
  CreateTemplateBody_DefaultExtraVars : option vars;
}.

Record UpdateTemplateBody := {
  UpdateTemplateBody_Name : string;
  UpdateTemplateBody_Description : string;
  UpdateTemplateBody_Playbook : string;
  UpdateTemplateBody_CredentialID : option string;
  UpdateTemplateBody_DefaultExtraVars : option vars;
}.

Record ProjectBody := {
  ProjectBody_Name : string;
  ProjectBody_RepoURL : string;
  ProjectBody_Branch : string;
  ProjectBody_InventoryPath : string;
  ProjectBody_CredentialID : option string;
}.

Record CreateScheduleBody := {
  CreateScheduleBody_Name : string;
  CreateScheduleBody_TemplateID : string;
  CreateScheduleBody_CronExpr : string;
  CreateScheduleBody_Timezone : string;
  CreateScheduleBody_Enabled : bool;
  CreateScheduleBody_ExtraVars : option vars;
}.

Record UpdateScheduleBody := {
  UpdateScheduleBody_Name : string;
  UpdateScheduleBody_CronExpr : string;
  UpdateScheduleBody_Timezone : string;
  UpdateScheduleBody_Enabled : bool;
  UpdateScheduleBody_ExtraVars : option vars;
}.

Record CredentialBody := {
  CredentialBody_Name : string;
  CredentialBody_Description : string;
  CredentialBody_Kind : CredentialKind;
  CredentialBody_Fields : option (gmap string string);
}.

Record WorkflowBody := {
  WorkflowBody_Name : string;
  WorkflowBody_Description : string;
}.

Record UpdateWorkflowBody := {
  UpdateWorkflowBody_Name : string;
  UpdateWorkflowBody_Description : string;
  UpdateWorkflowBody_Nodes : option (list WorkflowNode);
  UpdateWorkflowBody_Edges : option (list WorkflowEdge);
}.

Record NoteBody := { NoteBody_Note : option string }.

Definition empty (s : string) : bool := bool_decide (s = EmptyString).

Section handlers.
Context `{UuidLib} `{PgxLib} `{Collation} `{CryptoLib} `{FieldsJson}.
Context `{JsonDecode CreateTemplateBody} `{JsonDecode UpdateTemplateBody} `{JsonDecode ProjectBody}
  `{JsonDecode CreateScheduleBody} `{JsonDecode UpdateScheduleBody} `{JsonDecode CredentialBody}
  `{JsonDecode WorkflowBody} `{JsonDecode UpdateWorkflowBody} `{JsonDecode NoteBody}.
Context (cfg : ApiConfig).

(** An optional identifier of a body: nil stays nil, a bad one is an error. *)
Definition parse_opt (s : option string) : result (option uuid) :=
  match s with None => Ok None | Some s => id ← uuid_Parse s; Ok (Some id) end.

(** ** templates.go *)

Definition ListJobTemplates : Handler := λ _,
  try templates <- ApiResources.ListJobTemplates catch _ => mret internal_error ;;
  mret (respond StatusOK (BTemplates templates)).

Definition CreateJobTemplate : Handler := λ r,
  must body <- json_Decode (T := CreateTemplateBody) (req_body r)
    orelse bad_request "invalid request" ;;
  if empty (CreateTemplateBody_Name body) || empty (CreateTemplateBody_ProjectID body)
     || empty (CreateTemplateBody_Playbook body)
  then mret (bad_request "name, project_id, and playbook are required") else
  must projectID <- uuid_Parse (CreateTemplateBody_ProjectID body)
    orelse bad_request "invalid project_id" ;;
  must credID <- parse_opt (CreateTemplateBody_CredentialID body)
    orelse bad_request "invalid credential_id" ;;
  try tmpl <- ApiResources.CreateJobTemplate (CreateTemplateBody_Name body)
      (CreateTemplateBody_Description body) projectID (CreateTemplateBody_Playbook body) credID
      (CreateTemplateBody_DefaultExtraVars body)
    catch _ => mret internal_error ;;
  mret (respond StatusCreated (BTemplate tmpl)).

Definition GetJobTemplate : Handler := λ r,
  must id <- uuid_Parse (URLParam r "id") orelse bad_request "invalid id" ;;
  try tmpl <- ApiResources.GetJobTemplate id catch err => mret (respondStoreErr err) ;;
  mret (respond StatusOK (BTemplate tmpl)).

Definition UpdateJobTemplate : Handler := λ r,
  must id <- uuid_Parse (URLParam r "id") orelse bad_request "invalid id" ;;
  must body <- json_Decode (T := UpdateTemplateBody) (req_body r)
    orelse bad_request "invalid request" ;;
  must credID <- parse_opt (UpdateTemplateBody_CredentialID body)
    orelse bad_request "invalid credential_id" ;;
  try tmpl <- ApiResources.UpdateJobTemplate id (UpdateTemplateBody_Name body)
      (UpdateTemplateBody_Description body) (UpdateTemplateBody_Playbook body) credID
      (UpdateTemplateBody_DefaultExtraVars body)
    catch err => mret (respondStoreErr err) ;;
  mret (respond StatusOK (BTemplate tmpl)).

Definition DeleteJobTemplate : Handler := λ r,
  must id <- uuid_Parse (URLParam r "id") orelse bad_request "invalid id" ;;
  try _ <- ApiResources.DeleteJobTemplate id catch err => mret (respondStoreErr err) ;;
  mret (write_status StatusNoContent).

(** ** projects.go *)

Definition ListProjects : Handler := λ _,
  try projects <- ApiResources.ListProjects catch _ => mret internal_error ;;
  mret (respond StatusOK (BProjects projects)).

Definition CreateProject : Handler := λ r,
  must body <- json_Decode (T := ProjectBody) (req_body r) orelse bad_request "invalid request" ;;
  if empty (ProjectBody_Name body) || empty (ProjectBody_RepoURL body)
     || empty (ProjectBody_InventoryPath body)
  then mret (bad_request "name, repo_url, and inventory_path are required") else
  let branch := if empty (ProjectBody_Branch body) then "main" else ProjectBody_Branch body in
  must credID <- parse_opt (ProjectBody_CredentialID body)
    orelse bad_request "invalid credential_id" ;;
  try project <- ApiResources.CreateProject (ProjectBody_Name body) (ProjectBody_RepoURL body)
      branch (ProjectBody_InventoryPath body) credID
    catch _ => mret internal_error ;;
  mret (respond StatusCreated (BProject project)).

Definition GetProject : Handler := λ r,
  must id <- uuid_Parse (URLParam r "id") orelse bad_request "invalid id" ;;
  try project <- ApiResources.GetProject id catch err => mret (respondStoreErr err) ;;
  mret (respond StatusOK (BProject project)).

Definition UpdateProject : Handler := λ r,
  must id <- uuid_Parse (URLParam r "id") orelse bad_request "invalid id" ;;
  must body <- json_Decode (T := ProjectBody) (req_body r) orelse bad_request "invalid request" ;;
  must credID <- parse_opt (ProjectBody_CredentialID body)
    orelse bad_request "invalid credential_id" ;;
  try project <- ApiResources.UpdateProject id (ProjectBody_Name body) (ProjectBody_RepoURL body)
      (ProjectBody_Branch body) (ProjectBody_InventoryPath body) credID
    catch err => mret (respondStoreErr err) ;;
  mret (respond StatusOK (BProject project)).

Definition DeleteProject : Handler := λ r,
  must id <- uuid_Parse (URLParam r "id") orelse bad_request "invalid id" ;;
  try _ <- ApiResources.DeleteProject id catch err => mret (respondStoreErr err) ;;
  mret (write_status StatusNoContent).

Definition SyncProject : Handler := λ r,
  must id <- uuid_Parse (URLParam r "id") orelse bad_request "invalid id" ;;
  try _ <- ApiResources.GetProject id catch err => mret (respondStoreErr err) ;;
  try _ <- ApiResources.UpdateProjectSyncStatus id "pending" None catch _ => mret internal_error ;;
  mret (write_status StatusAccepted).

Definition ListInventoryHosts : Handler := λ r,
  must id <- uuid_Parse (URLParam r "id") orelse bad_request "invalid id" ;;
  try hosts <- ApiResources.ListInventoryHosts id catch _ => mret internal_error ;;
  mret (respond StatusOK (BHosts hosts)).

(** ** schedules.go *)

Definition ListSchedules : Handler := λ _,
  try schedules <- ApiResources.ListSchedules catch _ => mret internal_error ;;
  mret (respond StatusOK (BSchedules schedules)).

Definition CreateSchedule : Handler := λ r,
  must body <- json_Decode (T := CreateScheduleBody) (req_body r)
    orelse bad_request "invalid request" ;;
  if empty (CreateScheduleBody_Name body) || empty (CreateScheduleBody_TemplateID body)
     || empty (CreateScheduleBody_CronExpr body)
  then mret (bad_request "name, template_id, and cron_expr are required") else
  must templateID <- uuid_Parse (CreateScheduleBody_TemplateID body)
    orelse bad_request "invalid template_id" ;;
  let timezone := if empty (CreateScheduleBody_Timezone body) then "UTC"
                  else CreateScheduleBody_Timezone body in
  try sc <- ApiResources.CreateSchedule (CreateScheduleBody_Name body) templateID
      (CreateScheduleBody_CronExpr body) timezone (CreateScheduleBody_Enabled body)
      (CreateScheduleBody_ExtraVars body)
    catch _ => mret internal_error ;;
  mret (respond StatusCreated (BSchedule sc)).

Definition GetSchedule : Handler := λ r,
  must id <- uuid_Parse (URLParam r "id") orelse bad_request "invalid id" ;;
  try sc <- ApiResources.GetSchedule id catch err => mret (respondStoreErr err) ;;
  mret (respond StatusOK (BSchedule sc)).

Definition UpdateSchedule : Handler := λ r,
  must id <- uuid_Parse (URLParam r "id") orelse bad_request "invalid id" ;;
  must body <- json_Decode (T := UpdateScheduleBody) (req_body r)
    orelse bad_request "invalid request" ;;
  try sc <- ApiResources.UpdateSchedule id (UpdateScheduleBody_Name body)
      (UpdateScheduleBody_CronExpr body) (UpdateScheduleBody_Timezone body)
      (UpdateScheduleBody_Enabled body) (UpdateScheduleBody_ExtraVars body)
    catch err => mret (respondStoreErr err) ;;
  mret (respond StatusOK (BSchedule sc)).

Definition DeleteSchedule : Handler := λ r,
  must id <- uuid_Parse (URLParam r "id") orelse bad_request "invalid id" ;;
  try _ <- ApiResources.DeleteSchedule id catch err => mret (respondStoreErr err) ;;
  mret (write_status StatusNoContent).

(** ** credentials.go *)

Definition ListCredentials : Handler := λ _,
  try creds <- ApiResources.ListCredentials catch _ => mret internal_error ;;
  mret (respond StatusOK (BCredentials creds)).

(** secrets.Encrypt with the nonce of crypto/rand, read only for a valid key. *)
Definition encrypt (key plaintext : list Byte.byte) : prog Ev (result (list Byte.byte)) :=
  match NewGCM key with
  | Err e => mret (Err e)
  | Ok _ => nonce ← trigger (HostRand NonceSize); mret (Encrypt nonce key plaintext)
  end.

Definition CreateCredential : Handler := λ r,
  must body <- json_Decode (T := CredentialBody) (req_body r) orelse bad_request "invalid request" ;;
  if empty (CredentialBody_Name body) || empty (CredentialBody_Kind body)
  then mret (bad_request "name and kind are required") else
  try encrypted <- encrypt (cfg_EncryptionKey cfg)
                     (json_Marshal_fields (CredentialBody_Fields body))
    catch _ => mret internal_error ;;
  try cred <- ApiResources.CreateCredential (CredentialBody_Name body)
      (CredentialBody_Description body) (CredentialBody_Kind body) encrypted
    catch _ => mret internal_error ;;
  mret (respond StatusCreated (BCredential cred)).

Definition GetCredential : Handler := λ r,
  must id <- uuid_Parse (URLParam r "id") orelse bad_request "invalid id" ;;
  try cred <- ApiResources.GetCredential id catch err => mret (respondStoreErr err) ;;
  mret (respond StatusOK (BCredential cred)).

Definition UpdateCredential : Handler := λ r,
  must id <- uuid_Parse (URLParam r "id") orelse bad_request "invalid id" ;;
  must body <- json_Decode (T := CredentialBody) (req_body r) orelse bad_request "invalid request" ;;
  if empty (CredentialBody_Name body) || empty (CredentialBody_Kind body)
  then mret (bad_request "name and kind are required") else
  try encrypted <- encrypt (cfg_EncryptionKey cfg)
                     (json_Marshal_fields (CredentialBody_Fields body))
    catch _ => mret internal_error ;;
  try cred <- ApiResources.UpdateCredential id (CredentialBody_Name body)
      (CredentialBody_Description body) (CredentialBody_Kind body) encrypted
    catch err => mret (respondStoreErr err) ;;
  mret (respond StatusOK (BCredential cred)).

Definition DeleteCredential : Handler := λ r,
  must id <- uuid_Parse (URLParam r "id") orelse bad_request "invalid id" ;;
  try _ <- ApiResources.DeleteCredential id catch err => mret (respondStoreErr err) ;;
  mret (write_status StatusNoContent).

(** ** workflows.go *)

Definition ListWorkflows : Handler := λ _,
  try workflows <- ApiResources.ListWorkflows catch _ => mret internal_error ;;
  mret (respond StatusOK (BWorkflows workflows)).

Definition CreateWorkflow : Handler := λ r,
  must body <- json_Decode (T := WorkflowBody) (req_body r) orelse bad_request "name is required" ;;
  if empty (WorkflowBody_Name body) then mret (bad_request "name is required") else
  try wf <- ApiResources.CreateWorkflow (WorkflowBody_Name body) (WorkflowBody_Description body)
    catch _ => mret internal_error ;;
  mret (respond StatusCreated (BWorkflow wf)).

(** [nodes, _ := f()]: the slice is nil if the query fails. *)
Definition or_nil {A} (p : prog Ev (result (list A))) : prog Ev (list A) :=
  r ← p; mret (match r with Ok l => l | Err _ => [] end).

Definition GetWorkflow : Handler := λ r,
  must id <- uuid_Parse (URLParam r "id") orelse bad_request "invalid id" ;;
  try wf <- ApiResources.GetWorkflow id catch err => mret (respondStoreErr err) ;;
  nodes ← or_nil (ApiResources.GetWorkflowNodes id);
  edges ← or_nil (ApiResources.GetWorkflowEdges id);
  mret (respond StatusOK (BWorkflowGraph wf nodes edges)).

(** [if xs != nil { if err := f(xs); err != nil { return err } }] *)
Definition when_given {A} (xs : option A) (f : A → prog Ev (result unit)) : prog Ev (result unit) :=
  match xs with None => mret (Ok ()) | Some xs => f xs end.

Definition UpdateWorkflow : Handler := λ r,
  must id <- uuid_Parse (URLParam r "id") orelse bad_request "invalid id" ;;
  must body <- json_Decode (T := UpdateWorkflowBody) (req_body r)
    orelse bad_request "invalid request" ;;
  try wf <- ApiResources.UpdateWorkflow id (UpdateWorkflowBody_Name body)
      (UpdateWorkflowBody_Description body)
    catch err => mret (respondStoreErr err) ;;
  try _ <- when_given (UpdateWorkflowBody_Nodes body) (ApiResources.UpsertWorkflowNodes id)
    catch _ => mret internal_error ;;
  try _ <- when_given (UpdateWorkflowBody_Edges body) (ApiResources.UpsertWorkflowEdges id)
    catch _ => mret internal_error ;;
  mret (respond StatusOK (BWorkflow wf)).

Definition DeleteWorkflow : Handler := λ r,
  must id <- uuid_Parse (URLParam r "id") orelse bad_request "invalid id" ;;
  try _ <- ApiResources.DeleteWorkflow id catch err => mret (respondStoreErr err) ;;
  mret (write_status StatusNoContent).

Definition RunWorkflow : Handler := λ r,
  must id <- uuid_Parse (URLParam r "id") orelse bad_request "invalid id" ;;
  try _ <- ApiResources.GetWorkflow id catch err => mret (respondStoreErr err) ;;
  try run <- ApiResources.CreateWorkflowRun id catch _ => mret internal_error ;;
  mret (respond StatusCreated (BRun run)).

Definition ListWorkflowRuns : Handler := λ r,
  must id <- uuid_Parse (URLParam r "id") orelse bad_request "invalid id" ;;
  try runs <- ApiResources.ListWorkflowRuns id catch _ => mret internal_error ;;
  mret (respond StatusOK (BRuns runs)).

Definition GetWorkflowRun : Handler := λ r,
  must id <- uuid_Parse (URLParam r "id") orelse bad_request "invalid id" ;;
  try run <- ApiResources.GetWorkflowRun id catch err => mret (respondStoreErr err) ;;
  mret (respond StatusOK (BRun run)).

(** ** approvals.go *)

Definition ListPendingApprovals : Handler := λ _,
  try approvals <- ApiResources.ListPendingApprovals catch _ => mret internal_error ;;
  mret (respond StatusOK (BApprovals approvals)).

Definition GetApproval : Handler := λ r,
  must id <- uuid_Parse (URLParam r "id") orelse bad_request "invalid id" ;;
  try a <- ApiResources.GetApprovalRequest id catch err => mret (respondStoreErr err) ;;
  mret (respond StatusOK (BApproval a)).

(** The status an action of the URL stands for. *)
Definition approval_action (action : string) : option ApprovalStatus :=
  if bool_decide (action = "approve") then Some ApprovalStatusApproved
  else if bool_decide (action = "deny") then Some ApprovalStatusDenied
  else None.

Definition ResolveApproval : Handler := λ r,
  having userID <- UserIDFromCtx r orelse unauthorized ;;
  must id <- uuid_Parse (URLParam r "id") orelse bad_request "invalid id" ;;
  having status <- approval_action (URLParam r "action")
    orelse bad_request "action must be approve or deny" ;;
  let note := match json_Decode (T := NoteBody) (req_body r) with
              | Ok body => NoteBody_Note body | Err _ => None end in
  try _ <- ApiResources.ResolveApproval id status userID note
    catch err => mret (respondStoreErr err) ;;
  mret (write_status StatusNoContent).
End handlers.
End Resources.
