(* ===== verification/Server.v ===== *)
(** * The API server's routes: api/internal/server/server.go

    [routes] is the table New builds, in its order.  chi matches the method and
    the path of a request to one of them; cors and the authentication middleware
    run before the handler. *)
From S2P Require Import Prelude.
From S2P Require Import Prog.
From S2P Require Import Types.
From S2P Require Import Text.
From S2P Require Import Db.
From S2P Require Import ControllerStore.
From S2P Require Import Secrets.
From S2P Require Import ApiStore.
From S2P Require Import ApiResources.
From S2P Require Import Http.
From S2P Require Import Auth.
From S2P Require Import JobHandlers.
From S2P Require Import ResourceHandlers.

(** The middleware of the group a route is in. *)
Inductive Guard := Public | UserGroup | AgentGroup.

Record Route := {
  route_method : string;
  route_pattern : string;
  route_guard : Guard;
  route_handler : Handler;
}.

(** r.Get(pattern, h) in a group, and so on. *)
Definition Get g p h : Route := Build_Route "GET" p g h.
Definition Post g p h : Route := Build_Route "POST" p g h.
Definition Put g p h : Route := Build_Route "PUT" p g h.
Definition Delete g p h : Route := Build_Route "DELETE" p g h.

Section server.
Context `{UuidLib} `{PgxLib} `{Collation} `{CryptoLib} `{FieldsJson} `{HashLib} `{JwtLib} `{BcryptLib}.
Context `{JsonDecode Jobs.CreateJobBody} `{JsonDecode (list JobLogLine)}
  `{JsonDecode Jobs.ResultBody}.
Context `{JsonDecode LoginBody} `{JsonDecode NameBody} `{JsonDecode RegisterBody}
  `{JsonDecode Types.AgentHeartbeat}.
Context `{JsonDecode Resources.CreateTemplateBody} `{JsonDecode Resources.UpdateTemplateBody}
  `{JsonDecode Resources.ProjectBody} `{JsonDecode Resources.CreateScheduleBody}
  `{JsonDecode Resources.UpdateScheduleBody} `{JsonDecode Resources.CredentialBody}
  `{JsonDecode Resources.WorkflowBody} `{JsonDecode Resources.UpdateWorkflowBody}
  `{JsonDecode Resources.NoteBody}.
Context (cfg : ApiConfig).

Definition health : Handler := λ _, mret (respond StatusOK BHealth).

Definition public_routes : list Route := [
  Get Public "/health" health;
  Post Public "/agents/register" (RegisterAgent cfg);
  Post Public "/auth/login" (Login cfg)].

Import Jobs Resources.

Definition user_routes : list Route := [
  Post UserGroup "/auth/tokens" Auth.CreateAPIToken;
  Get UserGroup "/auth/tokens" Auth.ListAPITokens;
  Delete UserGroup "/auth/tokens/{id}" Auth.DeleteAPIToken;
  Get UserGroup "/agents" Auth.ListAgents;
  Get UserGroup "/agents/{id}" Auth.GetAgent;
  Get UserGroup "/credentials" ListCredentials;
  Post UserGroup "/credentials" (CreateCredential cfg);
  Get UserGroup "/credentials/{id}" GetCredential;
  Put UserGroup "/credentials/{id}" (UpdateCredential cfg);
  Delete UserGroup "/credentials/{id}" DeleteCredential;
  Get UserGroup "/projects" ListProjects;
  Post UserGroup "/projects" CreateProject;
  Get UserGroup "/projects/{id}" GetProject;
  Put UserGroup "/projects/{id}" UpdateProject;
  Delete UserGroup "/projects/{id}" DeleteProject;
  Post UserGroup "/projects/{id}/sync" SyncProject;
  Get UserGroup "/projects/{id}/inventory" ListInventoryHosts;
  Get UserGroup "/job-templates" ListJobTemplates;
  Post UserGroup "/job-templates" CreateJobTemplate;
  Get UserGroup "/job-templates/{id}" GetJobTemplate;
  Put UserGroup "/job-templates/{id}" UpdateJobTemplate;
  Delete UserGroup "/job-templates/{id}" DeleteJobTemplate;
  Get UserGroup "/schedules" ListSchedules;
  Post UserGroup "/schedules" CreateSchedule;
  Get UserGroup "/schedules/{id}" GetSchedule;
  Put UserGroup "/schedules/{id}" UpdateSchedule;
  Delete UserGroup "/schedules/{id}" DeleteSchedule;
  Get UserGroup "/jobs" ListJobs;
  Post UserGroup "/jobs" CreateJob;
  Get UserGroup "/jobs/{id}" GetJob;
  Post UserGroup "/jobs/{id}/cancel" CancelJob;
  Get UserGroup "/jobs/{id}/logs" GetJobLogs;
  Get UserGroup "/workflows" ListWorkflows;
  Post UserGroup "/workflows" CreateWorkflow;
  Get UserGroup "/workflows/{id}" GetWorkflow;
  Put UserGroup "/workflows/{id}" UpdateWorkflow;
  Delete UserGroup "/workflows/{id}" DeleteWorkflow;
  Post UserGroup "/workflows/{id}/run" RunWorkflow;
  Get UserGroup "/workflows/{id}/runs" ListWorkflowRuns;
  Get UserGroup "/workflow-runs/{id}" GetWorkflowRun;
  Get UserGroup "/approvals" ListPendingApprovals;
  Get UserGroup "/approvals/{id}" GetApproval;
  Post UserGroup "/approvals/{id}/{action}" ResolveApproval].

Definition agent_routes : list Route := [
  Post AgentGroup "/agent/heartbeat" (Auth.AgentHeartbeat cfg);
  Post AgentGroup "/agent/jobs/{job_id}/logs" AgentPostLogs;
  Post AgentGroup "/agent/jobs/{job_id}/result" AgentPostResult].

Definition routes : list Route := public_routes ++ user_routes ++ agent_routes.

(** The handler of a route behind the middleware of its group. *)
Definition serve (rt : Route) (r : Request) : prog Ev Served :=
  match route_guard rt with
  | Public => resp ← route_handler rt r; mret (resp, [])
  | UserGroup => as_user (cfg_JWTSecret cfg) (route_handler rt) r
  | AgentGroup => resp ← as_agent (route_handler rt) r; mret (resp, [])
  end.
End server.

(** ** cors *)

(** strings.TrimRight(o, "/") *)
Fixpoint TrimRightSlash (s : string) : string :=
  match s with
  | EmptyString => EmptyString
  | String c s =>
      match TrimRightSlash s with
      | EmptyString => if bool_decide (c = slash) then EmptyString else String c EmptyString
      | t => String c t
      end
  end.

(** The header lines cors sets, and whether it answers the request itself (204). *)
Definition cors (allowedOrigins : list string) (method origin : string)
    : list (string * string) * bool :=
  let originSet : gset string := list_to_set (TrimRightSlash <$> allowedOrigins) in
  (if bool_decide (origin ∈ originSet) then
     [("Access-Control-Allow-Origin", origin);
      ("Access-Control-Allow-Headers", "Authorization, Content-Type");
      ("Access-Control-Allow-Methods", "GET, POST, PUT, DELETE, OPTIONS");
      ("Vary", "Origin")]
   else [],
   bool_decide (method = "OPTIONS")).
