(* ===== verification/Process.v ===== *)
(** * Running the programs: the Run loops and the main functions

    controller/internal/reconciler (Run), controller/internal/scheduler (Run),
    controller/inventory (Run), and main.go of api, controller, agent and genhash.
    A goroutine that waits for a ticker and for the end of its context is a
    program over the list of what its select statement receives. *)
From S2P Require Import Prelude.
From S2P Require Import Prog.
From S2P Require Import Types.
From S2P Require Import Text.
From S2P Require Import Strconv.
From S2P Require Import Config.
From S2P Require Import Db.
From S2P Require Import ControllerStore.
From S2P Require Import Selector.
From S2P Require Import Transport.
From S2P Require Import Secrets.
From S2P Require Import Reconciler.
From S2P Require Import Inventory.
From S2P Require Import Scheduler.
From S2P Require Import ApiStore.
From S2P Require Import ApiResources.
From S2P Require Import Http.
From S2P Require Import Auth.
From S2P Require Import JobHandlers.
From S2P Require Import ResourceHandlers.
From S2P Require Import Server.
From S2P Require Import AgentClient.
From S2P Require Import AgentServer.

(** What [select { case <-ctx.Done(): ... case <-ticker.C: ... }] receives. *)
Inductive Received := Tick | Done.

(** How far a goroutine came. *)
Inductive Outcome :=
| Returned
| Panicked
| Waiting.   (* in its select, after the events given *)

Section ticker.
Context {E : Type → Type} {S : Type}.

(** [for { select { case <-ctx.Done(): return; case <-ticker.C: body } }] *)
Fixpoint ticker_loop (body : S → prog E S) (events : list Received) (s : S) : prog E Outcome :=
  match events with
  | [] => mret Waiting
  | Done :: _ => mret Returned
  | Tick :: events => s' ← body s; ticker_loop body events s'
  end.

(** [ticker := time.NewTicker(interval)], which panics unless the interval is
    positive, then the loop. *)
Definition with_ticker (interval : Duration) (body : S → prog E S) (events : list Received) (s : S)
    : prog E Outcome :=
  if bool_decide (interval <= 0)%Z then mret Panicked else ticker_loop body events s.

(** A loop performs only what its body does. *)
Lemma all_events_ticker_loop (P : ∀ X, E X → Prop) body events s :
  (∀ s, all_events P (body s)) → all_events P (ticker_loop body events s).
Proof.
  intros Hb. revert s. induction events as [|[] events IH]; intros s; simpl; try done.
  by apply all_events_bind.
Qed.

Lemma all_events_with_ticker (P : ∀ X, E X → Prop) interval body events s :
  (∀ s, all_events P (body s)) → all_events P (with_ticker interval body events s).
Proof. intros Hb. unfold with_ticker. case_bool_decide; [done|]. by apply all_events_ticker_loop. Qed.
End ticker.

(** ** The goroutines of the controller *)

Definition Reconciler_Run `{JobStore} `{SecretsProvider} `{AgentSelector} `{AgentTransport}
    (cfg : Reconciler.Config) (interval : Duration) (events : list Received) : prog Ev Outcome :=
  with_ticker interval (λ _, tick cfg) events ().

(** The scheduler at the start of Run: its entries are those of New. *)
Definition Scheduler_Run `{CronLib} (syncInterval : Duration) (events : list Received) : prog Ev Outcome :=
  s ← sync new_Scheduler;
  with_ticker syncInterval sync events s.

Definition GitSync_Run `{UuidLib} `{PgxLib} `{OsEnv} (workspaceDir : string) (interval : Duration)
    (events : list Received) : prog Ev Outcome :=
  _ ← trigger (HostMkdirAll workspaceDir);   (* an error is only logged *)
  _ ← syncAll workspaceDir;
  with_ticker interval (λ _, syncAll workspaceDir) events ().

(** ** main.go *)

(** log.Fatal and os.Exit end the process; otherwise it is up. *)
Inductive Startup (A : Type) :=
| Exit (code : Z)
| Up (a : A).
Arguments Exit {A} code.
Arguments Up {A} a.

(** What main waits for once the process is up: a signal, or srv.Start returning
    in its goroutine. *)
Inductive Wake :=
| Signal
| StartReturned (err : error).

Definition ErrServerClosed : error := ErrText "http: Server closed".

(** [<-quit] and the shutdown after it, next to the goroutine that runs
    srv.Start: the exit code, [None] while main waits. *)
Fixpoint await (wakes : list Wake) : option Z :=
  match wakes with
  | [] => None
  | Signal :: _ => Some 0%Z
  | StartReturned err :: wakes => if decide (err = ErrServerClosed) then await wakes else Some 1%Z
  end.

(** github.com/jackc/pgx/v5/pgxpool: whether a pool can be made from a
    connection string; NewWithConfig is also given MaxConns and MinConns. *)
Class PgxPool := {
  pgxpool_New : string → result unit;
  pgxpool_ParseConfig : string → result unit;
  pgxpool_NewWithConfig : string → Z → Z → result unit;
}.

(** pool.Ping: a statement without effect. *)
Definition Ping : prog Ev (result unit) := sql (query (λ _ _, Ok ())).

(** *** controller/cmd/controller *)

Definition rec_config (cfg : Controller.Config) : Reconciler.Config := {|
  Config_APIURL := Controller.APIURL cfg;
  Config_HeartbeatTTL := Controller.HeartbeatTTL cfg;
  Config_DispatchTimeout := Controller.DispatchTimeout cfg;
  Config_RunningTimeout := Controller.RunningTimeout cfg |}.

Section controller.
Context `{UuidLib} `{PgxLib} `{CryptoLib} `{FieldsJson} `{NetLib} `{OsEnv} `{CronLib} `{PgxPool}.

(** rec.Run, sched.Run and gitSync.Run. *)
Definition goroutines (cfg : Controller.Config) : list (list Received → prog Ev Outcome) := [
  @Reconciler_Run _ (controller_SecretsProvider (Controller.EncryptionKey cfg)) _ _
    (rec_config cfg) (Controller.ReconcileInterval cfg);
  Scheduler_Run (Controller.SyncInterval cfg);
  GitSync_Run (Controller.WorkspaceDir cfg) (Controller.SyncInterval cfg)].

Definition controller_main (env : list string) : prog Ev (Startup (list (list Received → prog Ev Outcome))) :=
  match Controller.Load env with
  | Err _ => mret (Exit 1)
  | Ok cfg =>
      match pgxpool_New (Controller.DBURL cfg) with
      | Err _ => mret (Exit 1)
      | Ok _ =>
          try _ <- Ping catch _ => mret (Exit 1) ;;
          mret (Up (goroutines cfg))
      end
  end.
End controller.

(** *** api/cmd/api *)

(** store.Connect *)
Definition Connect `{PgxPool} (dbURL : string) : prog Ev (result unit) :=
  match (_ ← pgxpool_ParseConfig dbURL; pgxpool_NewWithConfig dbURL 20 2) with
  | Err err => mret (Err err)
  | Ok _ => Ping
  end.

(** What handler.New keeps of the configuration. *)
Definition handlers_config (cfg : Api.Config) : ApiConfig := {|
  cfg_EncryptionKey := Api.EncryptionKey cfg;
  cfg_JWTSecret := Api.JWTSecret cfg;
  cfg_JWTExpiry := Api.JWTExpiry cfg;
  cfg_HeartbeatTTL := Api.HeartbeatTTL cfg;
  cfg_RegToken := Api.RegToken cfg |}.

(** server.New: the address, the origins cors allows, and the routes. *)
Record ApiServer := {
  ApiServer_Addr : string;
  ApiServer_Origins : list string;
  ApiServer_Routes : list Route;
}.

Section api.
Context `{UuidLib} `{PgxLib} `{Collation} `{CryptoLib} `{FieldsJson} `{HashLib} `{JwtLib} `{BcryptLib} `{PgxPool}.
Context `{JsonDecode Jobs.CreateJobBody} `{JsonDecode (list JobLogLine)}
  `{JsonDecode Jobs.ResultBody}.
Context `{JsonDecode LoginBody} `{JsonDecode NameBody} `{JsonDecode RegisterBody}
  `{JsonDecode Types.AgentHeartbeat}.
Context `{JsonDecode Resources.CreateTemplateBody} `{JsonDecode Resources.UpdateTemplateBody}
  `{JsonDecode Resources.ProjectBody} `{JsonDecode Resources.CreateScheduleBody}
  `{JsonDecode Resources.UpdateScheduleBody} `{JsonDecode Resources.CredentialBody}
  `{JsonDecode Resources.WorkflowBody} `{JsonDecode Resources.UpdateWorkflowBody}
  `{JsonDecode Resources.NoteBody}.

Definition api_server (cfg : Api.Config) : ApiServer := {|
  ApiServer_Addr := ":" +:+ Api.Port cfg;
  ApiServer_Origins := Api.CORSOrigins cfg;
  ApiServer_Routes := routes (handlers_config cfg) |}.

Definition api_main (env : list string) : prog Ev (Startup ApiServer) :=
  match Api.Load env with
  | Err _ => mret (Exit 1)
  | Ok cfg =>
      try _ <- Connect (Api.DBUrl cfg) catch _ => mret (Exit 1) ;;
      mret (Up (api_server cfg))
  end.
End api.

(** *** api/cmd/genhash *)

(** golang.org/x/crypto/bcrypt: GenerateFromPassword, with the random salt it reads. *)
Class BcryptGen := { GenerateFromPassword : list Byte.byte → string → Z → result string }.

Class BcryptLaws `{BcryptLib} `{BcryptGen} := {
  bcrypt_matches_Generate : ∀ salt pw cost h,
    GenerateFromPassword salt pw cost = Ok h → bcrypt_matches h pw = true;
}.

(** [os.Args] without the program's name; what is printed. *)
Definition genhash_main `{BcryptGen} (salt : list Byte.byte) (args : list string) : Startup string :=
  match GenerateFromPassword salt (hd "password" args) 12 with
  | Err _ => Exit 1
  | Ok h => Up h
  end.

(** *** agent/cmd/agent *)

(** The agent's client, its server with the address and the directory of the
    jobs, and the interval of its heartbeats. *)
Record AgentUp := {
  AgentUp_Client : Client;
  AgentUp_Server : AgentServer.Server;
  AgentUp_Addr : string;
  AgentUp_WorkDir : string;
  AgentUp_Interval : Duration;
}.

Section agent.
Context `{UuidLib} `{NetLib}.

(** [hostname] is what os.Hostname returns, [mkdir] what os.MkdirAll does. *)
Definition agent_main (hostname : result string) (mkdir : string → result unit) (env : list string)
    : prog ClientEv (Startup AgentUp) :=
  match Agent.Load hostname env with
  | Err _ => mret (Exit 1)
  | Ok cfg =>
      match mkdir (Agent.WorkDir cfg) with
      | Err _ => mret (Exit 1)
      | Ok _ =>
          '(r, client) ← Register (AgentClient.New (Agent.APIURL cfg)) (Agent.RegistrationToken cfg)
            (Agent.AgentName cfg) (Agent.AgentAddress cfg) (Agent.Labels cfg) (Agent.Capacity cfg);
          match r with
          | Err _ => mret (Exit 1)
          | Ok _ => mret (Up {|
              AgentUp_Client := client;
              AgentUp_Server := AgentServer.New (Agent.Capacity cfg);
              AgentUp_Addr := ":" +:+ Agent.Port cfg;
              AgentUp_WorkDir := Agent.WorkDir cfg;
              AgentUp_Interval := Agent.HeartbeatInterval cfg |})
          end
      end
  end.

(** The heartbeat goroutine; [running] lists srv.RunningJobs() at its ticks. *)
Definition heartbeats (c : Client) (interval : Duration) (running : list Z) : prog ClientEv Outcome :=
  if bool_decide (interval <= 0)%Z then mret Panicked else
  _ ← for_each running (λ n, _ ← Heartbeat c n; mret ());
  mret Waiting.
End agent.
