(* ===== verification/Vocab.v ===== *)
(** * The statements of the two server programs

    [api_stmt] and [controller_stmt] list the statements the API server and the
    controller can send.  An invariant of the database is shown once per
    statement; that no handler or loop sends anything else is shown once here. *)
From S2P Require Import Prelude.
From S2P Require Import Prog.
From S2P Require Import Types.
From S2P Require Import Db.
From S2P Require Import ControllerStore.
From S2P Require Import Selector.
From S2P Require Import Transport.
From S2P Require Import Secrets.
From S2P Require Import Reconciler.
From S2P Require Import Inventory.
From S2P Require Import Scheduler.
From S2P Require Import ApiStore.
From S2P Require Import ApiResources.
From S2P Require Import Http.
From S2P Require Import Auth.
From S2P Require Import Server.
From S2P Require Import Process.
From S2P Require Import JobHandlers.
From S2P Require Import ResourceHandlers.

(** [issues V e]: [e] is a statement of the vocabulary [V], or not about the
    database, and not a request to an agent. *)
Definition issues (V : ∀ X, Stmt X → Prop) (X : Type) (e : Ev X) : Prop :=
  match e with
  | Sql st => V _ st
  | HttpPost _ _ => False
  | _ => True
  end.

Section vocab.
Context `{UuidLib} `{PgxLib}.

Inductive controller_stmt : ∀ X, Stmt X → Prop :=
| cs_query X (f : Tx → Db → result X) : controller_stmt X (query f)
| cs_claim id a r :
    controller_stmt bool (TransitionJob_sql id JobStatusPending JobStatusDispatched (Some a) r)
| cs_fail id from r :
    from ∈ [JobStatusPending; JobStatusDispatched; JobStatusRunning] →
    controller_stmt bool (TransitionJob_sql id from JobStatusFailed None r)
| cs_insert_job t v : controller_stmt Job (insert_job_sql t None v)
| cs_sync_status id s e :
    s ∈ [InventorySyncStatusPending; InventorySyncStatusOK; InventorySyncStatusFailed] →
    controller_stmt unit (ControllerStore.UpdateProjectSyncStatus_sql id s e)
| cs_upsert_hosts p hs : controller_stmt unit (UpsertInventoryHosts_sql p hs)
| cs_last_run id n : controller_stmt unit (UpdateScheduleLastRun_sql id n).

Inductive api_stmt : ∀ X, Stmt X → Prop :=
| as_query X (f : Tx → Db → result X) : api_stmt X (query f)
| as_insert_job t w v : api_stmt Job (insert_job_sql t w v)
| as_job_status id s r : IsTerminal s = true → api_stmt unit (UpdateJobStatus_sql id s None r)
| as_job_facts id f : api_stmt unit (SetJobFacts_sql id f)
| as_append_log id l : api_stmt unit (append_log_sql id l)
| as_create_agent n a h l c : api_stmt Agent (CreateAgent_sql n a h l c)
| as_heartbeat id : api_stmt nat (UpdateAgentHeartbeat_sql id)
| as_create_template n d p pb c v : api_stmt JobTemplate (CreateJobTemplate_sql n d p pb c v)
| as_update_template id n d pb c v : api_stmt JobTemplate (UpdateJobTemplate_sql id n d pb c v)
| as_delete_template id : api_stmt nat (DeleteJobTemplate_sql id)
| as_create_project n r b i c : api_stmt Project (CreateProject_sql n r b i c)
| as_update_project id n r b i c : api_stmt Project (UpdateProject_sql id n r b i c)
| as_delete_project id : api_stmt nat (DeleteProject_sql id)
| as_sync_status id s e :
    s ∈ [InventorySyncStatusPending; InventorySyncStatusOK; InventorySyncStatusFailed] →
    api_stmt unit (ApiResources.UpdateProjectSyncStatus_sql id s e)
| as_create_schedule n t c z e v : api_stmt Schedule (CreateSchedule_sql n t c z e v)
| as_update_schedule id n c z e v : api_stmt Schedule (UpdateSchedule_sql id n c z e v)
| as_delete_schedule id : api_stmt nat (DeleteSchedule_sql id)
| as_create_credential n d k b : api_stmt Credential (CreateCredential_sql n d k b)
| as_update_credential id n d k b : api_stmt Credential (UpdateCredential_sql id n d k b)
| as_delete_credential id : api_stmt nat (DeleteCredential_sql id)
| as_create_token u n h : api_stmt APIToken (CreateAPIToken_sql u n h)
| as_delete_token id u : api_stmt nat (DeleteAPIToken_sql id u)
| as_touch_token id : api_stmt unit (TouchAPIToken_sql id)
| as_resolve_approval id s u n :
    s ∈ [ApprovalStatusApproved; ApprovalStatusDenied] → api_stmt nat (ResolveApproval_sql id s u n)
| as_create_workflow n d : api_stmt Workflow (CreateWorkflow_sql n d)
| as_update_workflow id n d : api_stmt Workflow (UpdateWorkflow_sql id n d)
| as_delete_workflow id : api_stmt nat (DeleteWorkflow_sql id)
| as_upsert_nodes id ns : api_stmt unit (UpsertWorkflowNodes_sql id ns)
| as_upsert_edges id es : api_stmt unit (UpsertWorkflowEdges_sql id es)
| as_create_run id : api_stmt WorkflowRun (CreateWorkflowRun_sql id).
End vocab.

Create HintDb vocab discriminated.
#[export] Hint Constructors api_stmt controller_stmt : vocab.
#[export] Hint Extern 1 (api_stmt _ (GetJobLogs_sql _)) => apply as_query : vocab.
#[export] Hint Extern 1 (api_stmt _ (ApiStore.ListJobs_sql _)) => apply as_query : vocab.
#[export] Hint Extern 1 (api_stmt _ (GetAgentByTokenHash_sql _)) => apply as_query : vocab.
#[export] Hint Extern 1 (controller_stmt _ GetPendingJobs_sql) => apply cs_query : vocab.
#[export] Hint Extern 1 (controller_stmt _ (GetStuckJobs_sql _ _)) => apply cs_query : vocab.
#[export] Hint Extern 1 (controller_stmt _ (GetAvailableAgents_sql _)) => apply cs_query : vocab.

Lemma approval_action_status a s :
  Resources.approval_action a = Some s → s ∈ [ApprovalStatusApproved; ApprovalStatusDenied].
Proof. unfold Resources.approval_action. repeat case_match; intros [= <-]; repeat constructor. Qed.

(** The statuses written are constants, or what an approval's action means. *)
#[export] Hint Extern 2 (_ ∈ [InventorySyncStatusPending; _; _]) => solve [repeat constructor] : vocab.
#[export] Hint Extern 2 (_ ∈ [ApprovalStatusApproved; _]) =>
  eapply approval_action_status; eassumption : vocab.

(** Reduce a goal [all_events (issues V) p] to statements and discharge them. *)
Ltac solve_issues :=
  repeat
    lazymatch goal with
    | |- ∀ _, _ => intros ?
    | |- all_events _ (prog_bind _ _) => apply all_events_prog_bind
    | |- all_events _ (_ ≫= _) => apply all_events_bind
    | |- all_events _ (for_each _ _) => apply all_events_for_each
    | |- all_events _ (for_each_err _ _) => apply all_events_for_each_err
    | |- all_events _ (wrap_err _ _) => apply all_events_wrap_err
    | |- all_events _ (sql _) => apply all_events_trigger
    | |- all_events _ (trigger _) => apply all_events_trigger
    | |- all_events _ (mret _) => exact I
    | |- all_events _ (or_not_found _) => unfold or_not_found
    | |- all_events _ (affected_or_not_found _) => unfold affected_or_not_found
    | |- all_events _ (Resources.or_nil _) => unfold Resources.or_nil
    | |- all_events _ (Resources.when_given _ _) => unfold Resources.when_given
    | |- all_events _ (match _ with _ => _ end) => case_match
    | |- issues _ _ _ => unfold issues
    end; auto with vocab.

(** ** The API server *)

(** The methods of Store and the handlers, unfolded to look at their statements. *)
Create HintDb handlers.
#[export] Hint Unfold
  ApiStore.CreateJob ApiStore.GetJob ApiStore.ListJobs ApiStore.UpdateJobStatus
  ApiStore.SetJobFacts ApiStore.AppendJobLogs ApiStore.GetJobLogs ApiStore.AddJobStatusEvent
  ApiStore.CreateAgent ApiStore.GetAgentByID ApiStore.GetAgentByTokenHash ApiStore.ListAgents
  ApiStore.UpdateAgentHeartbeat ApiStore.MarkStaleAgentsOffline ApiResources.CreateJobTemplate
  ApiResources.GetJobTemplate ApiResources.ListJobTemplates ApiResources.UpdateJobTemplate
  ApiResources.DeleteJobTemplate ApiResources.CreateProject ApiResources.GetProject
  ApiResources.ListProjects ApiResources.UpdateProject ApiResources.DeleteProject
  ApiResources.UpdateProjectSyncStatus ApiResources.ListInventoryHosts
  ApiResources.CreateSchedule ApiResources.GetSchedule ApiResources.ListSchedules
  ApiResources.UpdateSchedule ApiResources.DeleteSchedule ApiResources.CreateCredential
  ApiResources.GetCredential ApiResources.GetCredentialWithSecret ApiResources.ListCredentials
  ApiResources.UpdateCredential ApiResources.DeleteCredential ApiResources.CreateUser
  ApiResources.GetUserByEmail ApiResources.GetUserByID ApiResources.CreateAPIToken
  ApiResources.GetAPITokenByHash ApiResources.ListAPITokens ApiResources.DeleteAPIToken
  ApiResources.TouchAPIToken ApiResources.GetApprovalRequest ApiResources.ListPendingApprovals
  ApiResources.ResolveApproval ApiResources.CreateWorkflow ApiResources.GetWorkflow
  ApiResources.ListWorkflows ApiResources.UpdateWorkflow ApiResources.DeleteWorkflow
  ApiResources.UpsertWorkflowNodes ApiResources.UpsertWorkflowEdges
  ApiResources.GetWorkflowNodes ApiResources.GetWorkflowEdges ApiResources.CreateWorkflowRun
  ApiResources.GetWorkflowRun ApiResources.ListWorkflowRuns : handlers.
#[export] Hint Unfold
  Jobs.ListJobs Jobs.CreateJob Jobs.GetJob Jobs.CancelJob
  Jobs.GetJobLogs Jobs.AgentPostLogs Jobs.AgentPostResult
  Resources.ListJobTemplates Resources.CreateJobTemplate
  Resources.GetJobTemplate Resources.UpdateJobTemplate
  Resources.DeleteJobTemplate Resources.ListProjects
  Resources.CreateProject Resources.GetProject Resources.UpdateProject
  Resources.DeleteProject Resources.SyncProject
  Resources.ListInventoryHosts Resources.ListSchedules
  Resources.CreateSchedule Resources.GetSchedule Resources.UpdateSchedule
  Resources.DeleteSchedule Resources.ListCredentials
  Resources.CreateCredential Resources.GetCredential
  Resources.UpdateCredential Resources.DeleteCredential
  Resources.ListWorkflows Resources.CreateWorkflow Resources.GetWorkflow
  Resources.UpdateWorkflow Resources.DeleteWorkflow Resources.RunWorkflow
  Resources.ListWorkflowRuns Resources.GetWorkflowRun
  Resources.ListPendingApprovals Resources.GetApproval
  Resources.ResolveApproval Auth.as_agent Auth.Login Auth.CreateAPIToken
  Auth.ListAPITokens Auth.DeleteAPIToken Auth.RegisterAgent Auth.AgentHeartbeat Auth.ListAgents
  Auth.GetAgent
  Server.health Auth.generateToken Auth.random_raw Auth.IssueToken Auth.ParseToken
  Resources.encrypt : handlers.

Section api.
Context `{UuidLib} `{PgxLib} `{Collation} `{CryptoLib} `{FieldsJson} `{HashLib} `{JwtLib} `{BcryptLib}.
Context `{JsonDecode Jobs.CreateJobBody} `{JsonDecode (list JobLogLine)}
  `{JsonDecode Jobs.ResultBody}.
Context `{JsonDecode LoginBody} `{JsonDecode NameBody} `{JsonDecode RegisterBody}
  `{JsonDecode Types.AgentHeartbeat}.
Context `{JsonDecode Resources.CreateTemplateBody} `{JsonDecode Resources.UpdateTemplateBody}
  `{JsonDecode Resources.ProjectBody} `{JsonDecode Resources.CreateScheduleBody}
  `{JsonDecode Resources.UpdateScheduleBody} `{JsonDecode Resources.CredentialBody}
  `{JsonDecode Resources.WorkflowBody} `{JsonDecode Resources.UpdateWorkflowBody}
  `{JsonDecode Resources.NoteBody}.
Context (cfg : ApiConfig).

Definition issues_only (h : Handler) : Prop := ∀ r, all_events (issues api_stmt) (h r).

Lemma job_status_issued body :
  negb (IsTerminal (Jobs.ResultBody_Status body)) = false →
  IsTerminal (Jobs.ResultBody_Status body) = true.
Proof. apply negb_false_iff. Qed.
Hint Resolve job_status_issued : vocab.

Lemma route_handlers_issue : Forall (λ rt, issues_only (route_handler rt)) (routes cfg).
Proof.
  repeat (apply Forall_cons; split; [intros r; simpl route_handler; autounfold with handlers; solve_issues|]).
  constructor.
Qed.

Lemma route_issues rt : rt ∈ routes cfg → issues_only (route_handler rt).
Proof. intros Hrt. pose proof route_handlers_issue as Hall. rewrite Forall_forall in Hall. by apply Hall. Qed.

Lemma as_user_issues secret h : issues_only h → ∀ r, all_events (issues api_stmt) (as_user secret h r).
Proof. intros Hh r. unfold as_user, RequireUser. autounfold with handlers. solve_issues. Qed.

Lemma as_agent_issues h : issues_only h → issues_only (as_agent h).
Proof. intros Hh r. unfold as_agent, RequireAgent. autounfold with handlers. solve_issues. Qed.

(** Whatever the route and the request, the API server sends only its statements. *)
Lemma serve_issues rt : rt ∈ routes cfg → ∀ r, all_events (issues api_stmt) (serve cfg rt r).
Proof.
  intros Hrt r. pose proof (route_issues rt Hrt) as Hall. unfold serve. destruct (route_guard rt).
  - apply all_events_bind; [apply Hall|done].
  - by apply as_user_issues.
  - apply all_events_bind; [by apply as_agent_issues|done].
Qed.

Lemma TouchAPIToken_issues id : all_events (issues api_stmt) (TouchAPIToken id).
Proof. unfold TouchAPIToken. solve_issues. Qed.

Lemma api_main_issues `{PgxPool} env : all_events (issues api_stmt) (api_main env).
Proof. unfold api_main, Connect, Ping. solve_issues. Qed.
End api.

(** ** The controller's background loops *)

Section controller.
Context `{UuidLib} `{PgxLib} `{OsEnv}.

Lemma syncProject_issues dir p : all_events (issues controller_stmt) (syncProject dir p).
Proof.
  unfold syncProject, sync_failed, fetchReset, cloneRepo, runGit, runGitIn,
    ControllerStore.GetCredentialWithSecret, UpsertInventoryHosts,
    ControllerStore.UpdateProjectSyncStatus.
  solve_issues.
Qed.

Lemma syncAll_issues dir : all_events (issues controller_stmt) (syncAll dir).
Proof.
  unfold syncAll, GetAllProjects. solve_issues. apply syncProject_issues.
Qed.

Lemma fire_issues sc s next : all_events (issues controller_stmt) (fire sc s next).
Proof. unfold fire, ControllerStore.CreateJob, UpdateScheduleLastRun. solve_issues. Qed.

Lemma sync_issues `{CronLib} s : all_events (issues controller_stmt) (sync s).
Proof. unfold sync, GetActiveSchedules. solve_issues. Qed.

Lemma Scheduler_Run_issues `{CronLib} interval events :
  all_events (issues controller_stmt) (Scheduler_Run interval events).
Proof.
  apply all_events_bind; [apply sync_issues|intros s]. apply all_events_with_ticker, sync_issues.
Qed.

Lemma GitSync_Run_issues dir interval events :
  all_events (issues controller_stmt) (GitSync_Run dir interval events).
Proof.
  unfold GitSync_Run. solve_issues; [apply syncAll_issues|]. apply all_events_with_ticker. intros _.
  apply syncAll_issues.
Qed.

Lemma controller_main_issues `{CryptoLib} `{FieldsJson} `{NetLib} `{CronLib} `{PgxPool} env :
  all_events (issues controller_stmt) (controller_main env).
Proof. unfold controller_main, Ping. solve_issues. Qed.
End controller.
