(* ===== verification/Refinement.v ===== *)
(** * Every statement respects the life cycle of jobs *)
From S2P Require Import Prelude.
From S2P Require Import Prog.
From S2P Require Import Types.
From S2P Require Import Db.
From S2P Require Import ControllerStore.
From S2P Require Import Lifecycle.
From S2P Require Import ApiStore.
From S2P Require Import ApiResources.
From S2P Require Import Vocab.

(** The SQL statements, unfolded to see what they write. *)
Create HintDb stmts.
#[export] Hint Unfold
  ApiStore.ListJobs_sql ApiStore.append_log_sql ApiStore.GetJobLogs_sql
  ApiStore.AddJobStatusEvent_sql ApiStore.CreateAgent_sql ApiStore.GetAgentByTokenHash_sql
  ApiStore.UpdateAgentHeartbeat_sql ApiStore.MarkStaleAgentsOffline_sql
  ApiResources.CreateJobTemplate_sql ApiResources.UpdateJobTemplate_sql
  ApiResources.DeleteJobTemplate_sql ApiResources.CreateProject_sql
  ApiResources.UpdateProject_sql ApiResources.DeleteProject_sql
  ApiResources.UpdateProjectSyncStatus_sql ApiResources.CreateSchedule_sql
  ApiResources.UpdateSchedule_sql ApiResources.DeleteSchedule_sql
  ApiResources.CreateCredential_sql ApiResources.UpdateCredential_sql
  ApiResources.DeleteCredential_sql ApiResources.CreateUser_sql ApiResources.CreateAPIToken_sql
  ApiResources.DeleteAPIToken_sql ApiResources.TouchAPIToken_sql
  ApiResources.ResolveApproval_sql ApiResources.CreateWorkflow_sql
  ApiResources.UpdateWorkflow_sql ApiResources.DeleteWorkflow_sql
  ApiResources.UpsertWorkflowNodes_sql ApiResources.UpsertWorkflowEdges_sql
  ApiResources.CreateWorkflowRun_sql : stmts.

Section evolves.
Context `{UuidLib} `{PgxLib}.

(** The UPDATE of AgentPostResult and CancelJob ends the job. *)
Lemma update_status_row_evolves now status reason j :
  IsTerminal status = true → job_evolves j (update_status_row now status None reason j).
Proof.
  intros Ht. assert (phase status = 3) as Hp by by apply phase_terminal.
  split; simpl; try done.
  - rewrite bool_decide_eq_false_2; [done|]. by intros ->.
  - destruct (decide (phase (Job_Status j) = 3)); [by right; right|]. right; left.
    pose proof (phase_bound (Job_Status j)). split; [by intros ->|lia].
  - rewrite bool_decide_eq_true_2 by by apply IsTerminal_iff. by eexists.
Qed.

Lemma UpdateJobStatus_evolves id status reason :
  IsTerminal status = true → stmt_respects db_evolves (UpdateJobStatus_sql id status None reason).
Proof.
  intros Ht tx db [] db' Hs. unfold UpdateJobStatus_sql in Hs.
  destruct (db_jobs db !! id) as [j|] eqn:Hj; simplify_eq/=; [|reflexivity].
  apply db_evolves_update with j; [done|]. by apply update_status_row_evolves.
Qed.

Lemma facts_row_evolves now facts j : job_evolves j (facts_row now facts j).
Proof. split; simpl; try done. Qed.

Lemma SetJobFacts_evolves id facts : stmt_respects db_evolves (SetJobFacts_sql id facts).
Proof.
  intros tx db [] db' [= <-]. destruct (db_jobs db !! id) as [j|] eqn:Hj.
  - erewrite alter_Some by done. apply db_evolves_update with j; [done|apply facts_row_evolves].
  - rewrite alter_None by done. by destruct db.
Qed.

Lemma delete_nodes_same_jobs id db db' : delete_nodes id db = Ok db' → same_jobs db db'.
Proof. unfold delete_nodes. intros Hs. by inv_stmt. Qed.

Lemma insert_all_preserves {X} (R : relation Db) `{!PreOrder R} (f : Db → X → result Db) xs db db' :
  (∀ x db db', f db x = Ok db' → R db db') → insert_all f xs db = Ok db' → R db db'.
Proof.
  intros Hf. revert db. induction xs as [|x xs IH]; intros db Hs; simpl in Hs.
  - by simplify_eq.
  - apply result_bind_Ok in Hs as (db1 & Hx & Hs). etransitivity; [by eapply Hf|by apply IH].
Qed.

Lemma insert_hosts_same_jobs tx p n hosts db db' :
  insert_hosts tx p n hosts db = Ok db' → same_jobs db db'.
Proof.
  revert n db. induction hosts as [|h hosts IH]; intros n db Hs; simpl in Hs; [by simplify_eq|].
  apply result_bind_Ok in Hs as (db1 & Hr & Hs). apply IH in Hs.
  apply map_err_Ok in Hr. by inv_stmt.
Qed.

Lemma insert_node_same_jobs tx id n db db' : insert_node tx id db n = Ok db' → same_jobs db db'.
Proof. unfold insert_node. intros Hs. by inv_stmt. Qed.

Lemma insert_edge_same_jobs id e db db' : insert_edge id db e = Ok db' → same_jobs db db'.
Proof. unfold insert_edge. intros Hs. by inv_stmt. Qed.

(** The statements that write the jobs table. *)
Inductive jobs_stmt : ∀ X, Stmt X → Prop :=
| js_insert t w v : jobs_stmt Job (insert_job_sql t w v)
| js_claim id a r :
    jobs_stmt bool (TransitionJob_sql id JobStatusPending JobStatusDispatched (Some a) r)
| js_fail id from r :
    from ∈ [JobStatusPending; JobStatusDispatched; JobStatusRunning] →
    jobs_stmt bool (TransitionJob_sql id from JobStatusFailed None r)
| js_status id s r : IsTerminal s = true → jobs_stmt unit (UpdateJobStatus_sql id s None r)
| js_facts id v : jobs_stmt unit (SetJobFacts_sql id v).

(** They are those of jobs.go and of the dispatch loop; all the others leave the
    table as it is. *)
Lemma api_stmt_jobs X (st : Stmt X) : api_stmt X st → stmt_respects same_jobs st ∨ jobs_stmt X st.
Proof.
  intros [].
  all: try (right; by constructor).
  all: left; try (apply query_respects, _).
  all: intros tx db x db' Hs; autounfold with stmts in Hs; inv_stmt; try done.
  all: repeat match goal with
       | H : delete_nodes _ _ = Ok _ |- _ => apply delete_nodes_same_jobs in H
       | H : insert_all (insert_node _ _) _ _ = Ok _ |- _ =>
           apply (insert_all_preserves same_jobs) in H; [|intros *; apply insert_node_same_jobs]
       | H : insert_all (insert_edge _) _ _ = Ok _ |- _ =>
           apply (insert_all_preserves same_jobs) in H; [|intros *; apply insert_edge_same_jobs]
       end; try done.
  by etransitivity.
Qed.

Lemma controller_stmt_jobs X (st : Stmt X) : controller_stmt X st → stmt_respects same_jobs st ∨ jobs_stmt X st.
Proof.
  intros [].
  all: try (right; by constructor).
  all: left.
  - apply query_respects, _.
  - by intros tx db [] db' [= <-].
  - intros tx db [] db' Hs. unfold UpsertInventoryHosts_sql in Hs.
    inv_stmt. match goal with H : insert_hosts _ _ _ _ _ = _ |- _ =>
      by apply insert_hosts_same_jobs in H end.
  - by intros tx db [] db' [= <-].
Qed.

Lemma jobs_stmt_evolves X (st : Stmt X) : jobs_stmt X st → stmt_respects db_evolves st.
Proof.
  intros []; eauto using insert_job_evolves, claim_evolves, fail_evolves, UpdateJobStatus_evolves, SetJobFacts_evolves.
Qed.

Lemma writes_evolve X (st : Stmt X) :
  stmt_respects same_jobs st ∨ jobs_stmt X st → stmt_respects db_evolves st.
Proof. intros [Hs|]; [exact (stmt_respects_impl _ _ _ same_jobs_evolves Hs)|by apply jobs_stmt_evolves]. Qed.

Lemma api_stmt_evolves X (st : Stmt X) : api_stmt X st → stmt_respects db_evolves st.
Proof. intros Hs. by apply writes_evolve, api_stmt_jobs. Qed.

Lemma controller_stmt_evolves X (st : Stmt X) :
  controller_stmt X st → stmt_respects db_evolves st.
Proof. intros Hs. by apply writes_evolve, controller_stmt_jobs. Qed.

(** A job is created when it is inserted. *)
Lemma jobs_stmt_born X (st : Stmt X) tx db x db' i j :
  stmt_respects same_jobs st ∨ jobs_stmt X st → st tx db = Ok (x, db') →
  db_jobs db !! i = None → db_jobs db' !! i = Some j → Job_CreatedAt j = tx_now tx.
Proof.
  intros [Hsame|Hst] Hs Hi Hj; [rewrite (Hsame _ _ _ _ Hs) in Hj; congruence|].
  assert (∀ id from to a r b db1, TransitionJob_sql id from to a r tx db = Ok (b, db1) → db_jobs db1 !! i = None) as Htr.
  { intros id from to a r b db1 Ht. pose proof (TransitionJob_sql_cases id from to a r tx db) as Hc. rewrite Ht in Hc.
    destruct b; [|by destruct Hc as [-> _]]. destruct Hc as (j0 & Hj0 & _ & _ & ->). cbn.
    rewrite lookup_insert_ne; [done|]. intros ->. congruence. }
  destruct Hst as [t w v| | |id st r|id v].
  - unfold insert_job_sql in Hs. inv_result Hs. simplify_eq. cbn in Hj.
    apply lookup_insert_Some in Hj as [[_ <-]|[_ ?]]; [done|congruence].
  - apply Htr in Hs. congruence.
  - apply Htr in Hs. congruence.
  - unfold UpdateJobStatus_sql in Hs. destruct (db_jobs db !! id) eqn:Hid; simplify_eq/=.
    rewrite lookup_insert_ne in Hj; [congruence|]. intros ->. congruence.
  - injection Hs as _ <-. cbn in Hj. rewrite lookup_alter_Some in Hj. naive_solver congruence.
Qed.
End evolves.
