(* ===== verification/System.v ===== *)
(** * The whole server side

    Any number of controllers and API servers run concurrently against one
    database: [sys_step] interleaves their programs, one external interaction at
    a time.  [Spawned] lists the programs that can start; a process that stops is
    a thread that is no longer scheduled. *)
From S2P Require Import Prelude.
From S2P Require Import Prog.
From S2P Require Import Types.
From S2P Require Import Db.
From S2P Require Import Hoare.
From S2P Require Import ControllerStore.
From S2P Require Import Lifecycle.
From S2P Require Import Selector.
From S2P Require Import Transport.
From S2P Require Import Secrets.
From S2P Require Import Reconciler.
From S2P Require Import ReconcilerFacts.
From S2P Require Import Token.
From S2P Require Import Inventory.
From S2P Require Import Scheduler.
From S2P Require Import ApiStore.
From S2P Require Import ApiResources.
From S2P Require Import Http.
From S2P Require Import Auth.
From S2P Require Import Server.
From S2P Require Import Config.
From S2P Require Import Process.
From S2P Require Import Vocab.
From S2P Require Import Refinement.
From S2P Require Import JobHandlers.
From S2P Require Import ResourceHandlers.

(** Forget the result of a program. *)
Definition ignore {A} (p : prog Ev A) : prog Ev unit := _ ← p; mret ().

Lemma all_events_ignore {A} (P : ∀ X, Ev X → Prop) (p : prog Ev A) :
  all_events P p → all_events P (ignore p).
Proof. intros Hp. by apply all_events_bind. Qed.

(** Time passes. *)
Definition time_passes (w w' : World) : Prop :=
  w_db w' = w_db w ∧ w_sent w' = w_sent w ∧ (w_now w <= w_now w')%Z.

Section system.
Context `{UuidLib} `{PgxLib} `{Collation} `{CryptoLib} `{FieldsJson} `{HashLib} `{JwtLib} `{BcryptLib}
  `{NetLib} `{OsEnv} `{CronLib} `{PgxPool}.
Context `{JsonDecode Jobs.CreateJobBody} `{JsonDecode (list JobLogLine)}
  `{JsonDecode Jobs.ResultBody}.
Context `{JsonDecode LoginBody} `{JsonDecode NameBody} `{JsonDecode RegisterBody}
  `{JsonDecode Types.AgentHeartbeat}.
Context `{JsonDecode Resources.CreateTemplateBody} `{JsonDecode Resources.UpdateTemplateBody}
  `{JsonDecode Resources.ProjectBody} `{JsonDecode Resources.CreateScheduleBody}
  `{JsonDecode Resources.UpdateScheduleBody} `{JsonDecode Resources.CredentialBody}
  `{JsonDecode Resources.WorkflowBody} `{JsonDecode Resources.UpdateWorkflowBody}
  `{JsonDecode Resources.NoteBody}.

(** The programs of the processes, whatever their configuration: the main
    function of a controller, the three goroutines it starts, with what their
    select statements receive, and the function of a cron entry; the main
    function of an API server, a request on a route, and the goroutine
    RequireUser starts, which may run at any time, or never. *)
Inductive Spawned : prog Ev unit → Prop :=
| spawn_controller env : Spawned (ignore (controller_main env))
| spawn_goroutine cfg g events : g ∈ goroutines cfg → Spawned (ignore (g events))
| spawn_fire sc s next : Spawned (fire sc s next)
| spawn_api env : Spawned (ignore (api_main env))
| spawn_request cfg rt r : rt ∈ routes cfg → Spawned (ignore (serve cfg rt r))
| spawn_touch id : Spawned (touch id).

(** The states reachable from [w] with no thread running. *)
Definition reachable (w : World) (s : World * list (prog Ev unit)) : Prop :=
  sys_reach perform Spawned time_passes (w, []) s.

(** The goroutines that requests start are threads of the system. *)
Lemma served_started cfg rt r ans w g :
  g ∈ (exec (serve cfg rt r) ans w).1.2 → Spawned g.
Proof.
  unfold serve, as_user. destruct (route_guard rt); rewrite exec_bind; intros Hg.
  - destruct (exec (route_handler rt r) ans w) as [? [? ?]]. by apply not_elem_of_nil in Hg.
  - destruct (exec (RequireUser _ r) ans w) as [[[r' touched]|] [ans' w']]; [|by apply not_elem_of_nil in Hg].
    rewrite exec_bind in Hg. destruct (exec (route_handler rt r') ans' w') as [? [? ?]].
    apply list_elem_of_fmap in Hg as (id & -> & _). apply spawn_touch.
  - destruct (exec (as_agent _ r) ans w) as [? [? ?]]. by apply not_elem_of_nil in Hg.
Qed.

(** One program started and run to its end is an interleaving. *)
Lemma reachable_run w p ans :
  Spawned p → reachable w ((exec p ans w).2.2, [Ret (exec p ans w).1]).
Proof.
  intros Hp. unfold reachable, sys_reach. eapply rtc_l; [by apply step_spawn|].
  apply (run_sys_reach perform quiet_answer Spawned time_passes p ans w [] []).
Qed.

(** ** Every interaction respects the life cycle *)

Lemma issues_evolves {A} V (p : prog Ev A) :
  (∀ X (st : Stmt X), V X st → stmt_respects db_evolves st) →
  all_events (issues V) p → all_events silent p.
Proof.
  intros HV. apply all_events_impl. intros X e. destruct e; simpl; try done. apply HV.
Qed.

(** A relation that every statement of the servers respects. *)
Lemma issues_respects {A} (R : relation Db) V (p : prog Ev A) :
  (∀ X (st : Stmt X), V X st → stmt_respects R st) →
  all_events (issues V) p → all_events (ev_respects R) p.
Proof. intros HV. apply all_events_impl. intros X e. destruct e; simpl; try done. apply HV. Qed.

(** The reconciler's goroutine, and all the others: those send only the
    statements of their program. *)
Definition reconciling (key : bytes) (cfg : Reconciler.Config) interval events : prog Ev unit :=
  ignore (@Reconciler_Run _ (controller_SecretsProvider key) _ _ cfg interval events).

Lemma Spawned_cases p :
  Spawned p →
  (∃ key cfg interval events, p = reconciling key cfg interval events) ∨
  all_events (issues controller_stmt) p ∨ all_events (issues api_stmt) p.
Proof.
  intros [env|cfg g events Hg|sc s next|env|cfg rt r Hrt|id].
  - right; left. apply all_events_ignore, controller_main_issues.
  - apply list_elem_of_In in Hg as [<-|[<-|[<-|[]]]]; [left; by repeat eexists|right; left..];
      apply all_events_ignore; [apply Scheduler_Run_issues|apply GitSync_Run_issues].
  - right; left. apply fire_issues.
  - right; right. apply all_events_ignore, api_main_issues.
  - right; right. by apply all_events_ignore, serve_issues.
  - right; right. apply all_events_ignore, TouchAPIToken_issues.
Qed.

(** All threads but the reconciler's send no job. *)
Lemma Spawned_silent p :
  Spawned p → (∃ key cfg interval events, p = reconciling key cfg interval events) ∨ all_events silent p.
Proof.
  intros [?|[Hi|Hi]]%Spawned_cases; [by left|right..];
    eapply issues_evolves, Hi; [apply controller_stmt_evolves|apply api_stmt_evolves].
Qed.

(** A relation that every statement of the servers respects, the programs do. *)
Lemma Spawned_respects (R : relation Db) `{!Reflexive R} p :
  (∀ X (st : Stmt X), controller_stmt X st → stmt_respects R st) →
  (∀ X (st : Stmt X), api_stmt X st → stmt_respects R st) →
  Spawned p → all_events (ev_respects R) p.
Proof.
  intros Hc Ha [(key & cfg & interval & events & ->)|[Hi|Hi]]%Spawned_cases;
    [|by apply (issues_respects R _ _ Hc)|by apply (issues_respects R _ _ Ha)].
  apply all_events_ignore, all_events_with_ticker. intros _.
  apply tick_events; try apply _. split; intros; apply Hc; by constructor.
Qed.

Lemma between_respects (R : relation Db) `{!PreOrder R} w s s' :
  (∀ X (st : Stmt X), controller_stmt X st → stmt_respects R st) →
  (∀ X (st : Stmt X), api_stmt X st → stmt_respects R st) →
  reachable w s → sys_reach perform Spawned time_passes s s' → R (w_db s.1) (w_db s'.1).
Proof.
  intros Hc Ha Hr Hr'.
  assert (∀ p, Spawned p → all_events (ev_respects R) p) as Hs by (intros p; by apply Spawned_respects; [apply _|..]).
  apply (sys_respects perform Spawned time_passes (on_db R) (ev_respects R) s s'); try done.
  - intros X a e w' He. by apply (perform_respects R).
  - intros w1 w2 (Hdb & _ & _). red. by rewrite Hdb.
  - by apply (sys_threads perform Spawned time_passes (ev_respects R) (w, []) s).
Qed.

Lemma reachable_respects (R : relation Db) `{!PreOrder R} w s :
  (∀ X (st : Stmt X), controller_stmt X st → stmt_respects R st) →
  (∀ X (st : Stmt X), api_stmt X st → stmt_respects R st) →
  reachable w s → R (w_db w) (w_db s.1).
Proof. intros Hc Ha Hr. apply (between_respects R w (w, []) s Hc Ha); [apply rtc_refl|done]. Qed.

Lemma reachable_evolves w s : reachable w s → db_evolves (w_db w) (w_db s.1).
Proof. apply reachable_respects; [apply _|apply controller_stmt_evolves|apply api_stmt_evolves]. Qed.

(** C3: The life cycle of jobs holds in every interleaving of any number of
    controllers and API servers: jobs are never deleted, only move forward
    (pending, dispatched, terminal) or from one terminal status to another,
    never become running, keep their template, variables and creation time, and
    keep their agent once they have left pending. *)
Theorem system_lifecycle w s id j :
  reachable w s → db_jobs (w_db w) !! id = Some j →
  ∃ j', db_jobs (w_db s.1) !! id = Some j' ∧ job_evolves j j'.
Proof.
  intros Hr Hj. pose proof (reachable_evolves w s Hr id) as He. by rewrite Hj in He.
Qed.

(** ** Dispatching *)

(** The databases that are queried. *)
Context (seen : Db → Prop).

(** The addresses the agent has had. *)
Definition lives (a : uuid) (addr : string) : Prop :=
  ∃ db row, seen db ∧ db_agents db !! a = Some row ∧ Agent_Address (AgentRow_Agent row) = addr.

(** The job has been stored, pending. *)
Definition queued (job : Job) : Prop :=
  ∃ db, seen db ∧ (∃ k, db_jobs db !! k = Some job) ∧ Job_Status job = JobStatusPending.

(** The payload is made of rows that have been stored, each read at some moment,
    with the key and the configuration of a controller. *)
Definition composed (p : JobPayload) : Prop :=
  ∃ key cfg job tmpl project dbt dbp dbh dbc creds,
    queued job ∧ (seen dbt ∧ db_job_templates dbt !! Job_TemplateID job = Some tmpl) ∧
    (seen dbp ∧ db_projects dbp !! JobTemplate_ProjectID tmpl = Some project) ∧ seen dbh ∧
    (seen dbc ∧ credentials_of key dbc (JobTemplate_CredentialID tmpl) = Some creds) ∧
    p = payload_from cfg job tmpl project (project_hosts dbh (JobTemplate_ProjectID tmpl)) creds.

(** What may be sent: a composed payload, to an address of its agent. *)
Definition fit (url : string) (a : uuid) (p : JobPayload) : Prop :=
  (∃ addr, url = addr +:+ "/dispatch" ∧ lives a addr) ∧ composed p.

(** One [try] of a program that sends nothing. *)
Lemma wp_try_silent {X Y} (φ : result X → Prop) (p : prog Ev (result X)) (h : error → prog Ev Y)
    (k : X → prog Ev Y) held Q :
  all_events silent p → returns φ p →
  (∀ e, wp seen fit (h e) held Q) → (∀ x, φ (Ok x) → wp seen fit (k x) held Q) →
  wp seen fit (prog_bind (λ r, match r with Ok x => k x | Err e => h e end) p) held Q.
Proof.
  intros Hs Hr Hh Hk. apply wp_prog_bind.
  eapply wp_mono; [|apply (wp_silent seen fit φ p held Hs Hr)]. intros [x|e] h' [-> Hφ]; auto.
Qed.

Context (key : bytes) (cfg : Config).

Lemma Resolve_wp c held :
  wp seen fit (controller_Resolve key c) held
    (λ r h, h = held ∧ ∀ x, r = Ok x → ∃ db, seen db ∧ credential_of key db c = Some x).
Proof.
  unfold controller_Resolve, credential_of. case_bool_decide; [done|].
  eapply wp_try_fetched; [apply wp_wrap_fetched, wp_wrap_fetched, wp_sql_query|done|].
  intros cred tx db Hs Hc. split; [done|]. intros x Hx. exists db. split; [done|].
  unfold by_id in Hc. destruct (db_credentials db !! c) as [cred'|]; [|done]. injection Hc as ->.
  cbn [mbind option_bind]. by rewrite Hx.
Qed.

Lemma buildPayload_wp job a held :
  queued job →
  wp seen fit (@buildPayload _ (controller_SecretsProvider key) cfg job a) held
    (λ r h, h = held ∧ ∀ p, r = Ok p → composed p ∧ JobPayload_JobID p = Job_ID job).
Proof.
  intros Hq. unfold buildPayload. 
  eapply wp_try_fetched; [apply wp_wrap_fetched, wp_sql_query|done|]. intros tmpl tx1 dbt Hs1 Ht.
  eapply wp_try_fetched; [apply wp_wrap_fetched, wp_sql_query|done|]. intros project tx2 dbp Hs2 Hp.
  eapply wp_try_fetched; [apply wp_wrap_fetched, wp_sql_query|done|]. intros hosts tx3 dbh Hs3 Hh.
  apply wp_prog_bind. apply (wp_mono _ _ _ _ (λ r h, h = held ∧ ∀ creds, r = Ok creds →
    ∃ db, seen db ∧ credentials_of key db (JobTemplate_CredentialID tmpl) = Some creds)).
  - intros [creds|e] h [-> Hc]; [|done]. split; [done|]. intros p [= <-]. split; [|done].
    destruct (Hc creds eq_refl) as (dbc & Hs4 & Hcr).
    exists key, cfg, job, tmpl, project, dbt, dbp, dbh, dbc, creds. injection Hh as <-.
    split_and!; try done; [by apply by_id_Ok|by apply by_id_Ok|].
    unfold payload_from. by rewrite !copy_vars_union, (right_id_L ∅ (∪)).
  - destruct (JobTemplate_CredentialID tmpl) as [c|]; cbn [credentials_of].
    + apply wp_prog_bind. eapply wp_mono; [|apply Resolve_wp]. intros [x|e] h [-> Hr]; [|done].
      split; [done|]. intros creds [= <-]. destruct (Hr x eq_refl) as (db & Hs & Hx). exists db. by rewrite Hx.
    + split; [done|]. intros creds [= <-]. by exists dbh.
Qed.

Lemma TransitionJob_fail_silent id from r :
  from ∈ [JobStatusPending; JobStatusDispatched; JobStatusRunning] →
  all_events silent (TransitionJob id from JobStatusFailed None r).
Proof. intros Hf. unfold TransitionJob. apply all_events_wrap_err, all_events_trigger. by apply fail_evolves. Qed.

(** Sending a composed payload to the agent uses up the token of its job. *)
Lemma REST_Dispatch_wp a p Q :
  composed p → (∀ r, Q r (Some (JobPayload_JobID p, a)) ∧ Q r None) →
  wp seen fit (REST_Dispatch a p) (Some (JobPayload_JobID p, a)) Q.
Proof.
  intros Hp HQ. unfold REST_Dispatch.
  eapply wp_try_fetched; [apply wp_wrap_fetched, wp_wrap_fetched, wp_sql_query|intros e; apply HQ|].
  intros addr tx db Hs Ha. unfold by_id in Ha. destruct (db_agents db !! a) as [row|] eqn:Hrow; [|done].
  injection Ha as <-. unfold post. case_match; [|apply HQ].
  apply wp_prog_bind, wp_wrap_err. simpl. split.
  - exists (JobPayload_JobID p, a). split; [done|]. split; [done|]. split; [|done].
    eexists. split; [done|]. by exists db, row.
  - intros [st|e]; simpl; [case_match|]; apply HQ.
Qed.

Lemma dispatchOne_wp job agents held :
  queued job →
  wp seen fit (@dispatchOne _ (controller_SecretsProvider key) _ _ cfg job agents) held (λ _ _, True).
Proof.
  intros Hq. unfold dispatchOne. destruct (Select agents) as [agent|e]; [|done].
  apply wp_prog_bind. eapply wp_mono; [|by apply buildPayload_wp]. intros [p|e] h0 [_ Hb]; [|done].
  destruct (Hb p eq_refl) as [Hc Hp]. apply wp_prog_bind. unfold store_TransitionJob, pg_JobStore.
  apply wp_wrap_err. exists (λ ok : bool, if ok then Some (Job_ID job, Agent_ID agent) else None).
  split; [apply claim_wins|]. split; [done|]. intros [|] _; [|done]. cbn [map_err negb take_token].
  apply wp_prog_bind. rewrite <-Hp. apply REST_Dispatch_wp; [done|]. intros [[]|e]; [done|].
  assert (∀ h, wp seen fit (try _ <- TransitionJob (JobPayload_JobID p) JobStatusDispatched JobStatusFailed
      None ("agent dispatch error: " +:+ Error e) catch terr => mret (Err terr) ;; mret (Ok ())) h
      (λ _ _, True)); [|by split].
  intros h. apply (wp_try_silent (λ _, True)); [|apply returns_any|done|done].
  apply TransitionJob_fail_silent. set_solver.
Qed.

Lemma dispatch_or_fail_wp agents job held :
  queued job →
  wp seen fit (@dispatch_or_fail _ (controller_SecretsProvider key) _ _ cfg agents job) held (λ _ _, True).
Proof.
  intros Hq. unfold dispatch_or_fail. apply wp_prog_bind. eapply wp_mono; [|by apply dispatchOne_wp].
  intros [[]|e] h _; [done|]. apply wp_bind. eapply wp_mono; [by intros|].
  apply wp_silent_any, TransitionJob_fail_silent. set_solver.
Qed.

Lemma failStuckJobs_silent status timeout reason :
  status ∈ [JobStatusPending; JobStatusDispatched; JobStatusRunning] →
  all_events silent (failStuckJobs status timeout reason).
Proof.
  intros Hs. eapply issues_evolves; [apply controller_stmt_evolves|].
  unfold failStuckJobs, store_GetStuckDispatchedJobs, store_GetStuckRunningJobs,
    store_TransitionJob, pg_JobStore, GetStuckDispatchedJobs, GetStuckRunningJobs, TransitionJob.
  solve_issues.
Qed.

Lemma dispatchPending_wp held :
  wp seen fit (@dispatchPending _ (controller_SecretsProvider key) _ _ cfg) held (λ _ _, True).
Proof.
  unfold dispatchPending, store_GetPendingJobs, store_GetAvailableAgents, pg_JobStore.
  eapply wp_try_fetched; [apply wp_wrap_fetched, wp_sql_query|done|]. intros jobs tx db Hs [= <-].
  case_decide; [done|].
  apply (wp_try_silent (λ _, True)); [|apply returns_any|done|intros agents _].
  { eapply issues_evolves; [apply controller_stmt_evolves|]. unfold GetAvailableAgents. solve_issues. }
  apply wp_for_each. intros job h Hin%elem_of_take_inv. apply dispatch_or_fail_wp.
  rewrite elem_of_merge_sort, list_elem_of_filter, elem_of_map_vals in Hin. destruct Hin as [[Hp _] Hk].
  by exists db.
Qed.

Lemma tick_wp held : wp seen fit (@tick _ (controller_SecretsProvider key) _ _ cfg) held (λ _ _, True).
Proof.
  unfold tick. apply wp_bind. eapply wp_mono; [|apply dispatchPending_wp]. intros _ h _.
  eapply wp_mono; [by intros|]. apply wp_silent_any. unfold failStuck.
  apply all_events_bind; [|intros _]; apply failStuckJobs_silent; set_solver.
Qed.

Lemma wp_ticker_loop {S} (body : S → prog Ev S) events s held :
  (∀ s h, wp seen fit (body s) h (λ _ _, True)) → wp seen fit (ticker_loop body events s) held (λ _ _, True).
Proof.
  intros Hb. revert s held. induction events as [|[] events IH]; intros s held; simpl; try done.
  apply wp_bind. eapply wp_mono; [|apply Hb]. intros s' h _. apply IH.
Qed.

Lemma reconciling_wp interval events held : wp seen fit (reconciling key cfg interval events) held (λ _ _, True).
Proof.
  apply wp_bind. apply (wp_mono seen fit _ _ (λ _ _, True)); [done|]. unfold Reconciler_Run, with_ticker.
  case_bool_decide; [done|]. apply wp_ticker_loop. intros _ h. apply tick_wp.
Qed.
End system.

Section safety.
Context `{UuidLib} `{PgxLib} `{Collation} `{CryptoLib} `{FieldsJson} `{HashLib} `{JwtLib} `{BcryptLib}
  `{NetLib} `{OsEnv} `{CronLib} `{PgxPool}.
Context `{JsonDecode Jobs.CreateJobBody} `{JsonDecode (list JobLogLine)}
  `{JsonDecode Jobs.ResultBody}.
Context `{JsonDecode LoginBody} `{JsonDecode NameBody} `{JsonDecode RegisterBody}
  `{JsonDecode Types.AgentHeartbeat}.
Context `{JsonDecode Resources.CreateTemplateBody} `{JsonDecode Resources.UpdateTemplateBody}
  `{JsonDecode Resources.ProjectBody} `{JsonDecode Resources.CreateScheduleBody}
  `{JsonDecode Resources.UpdateScheduleBody} `{JsonDecode Resources.CredentialBody}
  `{JsonDecode Resources.WorkflowBody} `{JsonDecode Resources.UpdateWorkflowBody}
  `{JsonDecode Resources.NoteBody}.

Lemma Spawned_wp seen p : Spawned p → wp seen (fit seen) p None (λ _ _, True).
Proof.
  intros [(key & cfg & interval & events & ->)|Hs]%Spawned_silent; [apply reconciling_wp|].
  eapply wp_mono; [|by apply wp_silent_any]. done.
Qed.

(** Every query of a path sees its databases. *)
Lemma token_inv_step seen s s' :
  sys_step perform Spawned time_passes s s' → seen (w_db s.1) →
  token_inv seen (fit seen) s → token_inv seen (fit seen) s'.
Proof.
  intros [w ts i X e k a Hi|w ts p Hp|w w' ts (Hdb & Hsent & _)] Hsn (hs & Hwp & Hent & Haddr & Hinv); simpl in *.
  - destruct (Forall2_lookup_l _ _ _ _ _ Hwp Hi) as (h & Hh & He). simpl in He.
    destruct (ev_wp_perform seen (fit seen) e h _ a w He Hsn) as (h' & Hk & Hev & Hent' & Haddr' & Hle);
      [by eapply Forall_lookup_1|done|].
    exists (<[i := h']> hs). split; [by apply Forall2_insert|]. split; [|split; [done|]].
    + apply Forall_insert; [|done]. eapply Forall_impl; [exact Hent|]. intros h0. by apply entitled_evolves.
    + intros id. specialize (Hinv id). specialize (Hle id). pose proof (holders_insert id hs i h h' Hh).
      cbn [fst]. lia.
  - exists (hs ++ [None]). split; [apply Forall2_app; [done|]; repeat constructor; by apply Spawned_wp|].
    split; [apply Forall_app; split; [done|by repeat constructor]|]. split; [done|].
    intros id. specialize (Hinv id). unfold holders in *. rewrite filter_app, length_app.
    change (filter (λ h : option Token, fst <$> h = Some id) [None]) with (@nil (option Token)). simpl. lia.
  - exists hs. cbn [fst snd]. rewrite Hdb. split; [done|]. split; [done|].
    split; [by apply (addressed_evolves (fit seen) w); rewrite ?Hdb|].
    intros id. specialize (Hinv id). unfold dispatches in *. by rewrite Hsent.
Qed.

(** The databases on the way from [w] to [s]. *)
Definition passed (w : World) (s : World * list (prog Ev unit)) (db : Db) : Prop :=
  ∃ s0, reachable w s0 ∧ sys_reach perform Spawned time_passes s0 s ∧ w_db s0.1 = db.

(** The addresses the agent has had on it. *)
Definition has_lived (w : World) (s : World * list (prog Ev unit)) : uuid → string → Prop := lives (passed w s).

Lemma token_inv_start seen w : w_sent w = [] → token_inv seen (fit seen) (w, []).
Proof.
  intros Hsent. exists []. split; [constructor|]. split; [constructor|]. cbn [fst]. split.
  - intros url p. rewrite Hsent. by intros ?%not_elem_of_nil.
  - intros id. unfold dispatches, holders. rewrite Hsent. simpl. lia.
Qed.

Lemma token_inv_path seen s s' :
  rtc (λ s1 s2, sys_step perform Spawned time_passes s1 s2 ∧ seen (w_db s1.1)) s s' →
  token_inv seen (fit seen) s → token_inv seen (fit seen) s'.
Proof.
  induction 1 as [s|s1 s2 s3 [Hstep Hsn] _ IH]; [done|]. intros Hinv. apply IH. by eapply token_inv_step.
Qed.

Lemma reachable_token_inv w s :
  w_sent w = [] → reachable w s → token_inv (passed w s) (fit (passed w s)) s.
Proof.
  intros Hsent Hr. eapply token_inv_path; [|by apply token_inv_start].
  eapply rtc_subrel; [|apply rtc_between, Hr]. intros s1 s2 (Hstep & Hr1 & Hr2). split; [done|].
  by exists s1.
Qed.

(** What a dispatch request tells: its job has left pending and belongs to the
    agent it was sent to, and its payload is composed of stored rows. *)
Lemma sent_to_agent w s url p :
  w_sent w = [] → reachable w s → (url, Some p) ∈ w_sent s.1 →
  composed (passed w s) p ∧
  ∃ j a addr, db_jobs (w_db s.1) !! JobPayload_JobID p = Some j ∧ Job_Status j ≠ JobStatusPending ∧
    Job_AgentID j = Some a ∧ url = addr +:+ "/dispatch" ∧ has_lived w s a addr.
Proof.
  intros Hsent Hr Hin. destruct (reachable_token_inv w s Hsent Hr) as (hs & _ & _ & Haddr & _).
  destruct (Haddr _ _ Hin) as ([id a] & [E [(addr & Hu & Hl) Hc]] & j & Hj & Hp & Ha). cbn in E, Hj, Ha, Hl. subst id.
  split; [done|]. exists j, a, addr. split_and!; try done. intros Hx. by rewrite Hx in Hp.
Qed.

(** C1: No job is dispatched twice, and none to another agent: in every interleaving
    of any number of controllers and API servers, started with no dispatch request
    sent, at most one request carries the payload of a given job, and if one does
    the job is stored, no longer pending, and assigned to an agent that had the
    address the request was sent to. *)
Theorem no_double_dispatch w s id :
  w_sent w = [] → reachable w s →
  length (filter (is_payload_for id) (w_sent s.1)) ≤ 1 ∧
  ∀ url p, (url, Some p) ∈ w_sent s.1 → JobPayload_JobID p = id →
    ∃ j a addr, db_jobs (w_db s.1) !! id = Some j ∧ Job_Status j ≠ JobStatusPending ∧
      Job_AgentID j = Some a ∧ url = addr +:+ "/dispatch" ∧ has_lived w s a addr.
Proof.
  intros Hsent Hr. split; [|intros url p Hin <-; by apply sent_to_agent].
  destruct (reachable_token_inv w s Hsent Hr) as (hs & _ & _ & _ & Hinv).
  specialize (Hinv id). unfold dispatches, claims in Hinv.
  destruct (db_jobs (w_db s.1) !! id); [case_decide|]; lia.
Qed.
End safety.
