(* ===== verification/Integrity.v ===== *)
(** * The integrity of the database

    [db_ok]: rows are stored under their primary key, every foreign key of the
    migrations refers to a row, the unique columns are unique, and the columns of
    a job agree with its status.  Every statement preserves it. *)
From S2P Require Import Prelude.
From S2P Require Import Prog.
From S2P Require Import Types.
From S2P Require Import Db.
From S2P Require Import Hoare.
From S2P Require Import ControllerStore.
From S2P Require Import Selector.
From S2P Require Import Transport.
From S2P Require Import Secrets.
From S2P Require Import Reconciler.
From S2P Require Import ReconcilerFacts.
From S2P Require Import Inventory.
From S2P Require Import Scheduler.
From S2P Require Import ApiStore.
From S2P Require Import ApiResources.
From S2P Require Import Http.
From S2P Require Import Auth.
From S2P Require Import Server.
From S2P Require Import Process.
From S2P Require Import Vocab.
From S2P Require Import Refinement.
From S2P Require Import System.
From S2P Require Import JobHandlers.
From S2P Require Import ResourceHandlers.

(** The nullable column [f] of table [t] refers to table [T]. *)
Definition refs {V W} (f : V → option uuid) (t : gmap uuid V) (T : gmap uuid W) : Prop :=
  ∀ k v u, t !! k = Some v → f v = Some u → is_Some (T !! u).

(** The column [f] of table [t] is unique. *)
Definition unique {V C} (f : V → C) (t : gmap uuid V) : Prop :=
  ∀ k1 k2 v1 v2, t !! k1 = Some v1 → t !! k2 = Some v2 → f v1 = f v2 → k1 = k2.

(** What the columns of a job say in each status; no job is ever running. *)
Record job_ok (j : Job) : Prop := {
  jok_running : Job_Status j ≠ JobStatusRunning;
  jok_started : Job_StartedAt j = None;
  jok_ended : is_Some (Job_EndedAt j) ↔ IsTerminal (Job_Status j) = true;
  jok_agent : Job_Status j = JobStatusDispatched → is_Some (Job_AgentID j);
  jok_pending : Job_Status j = JobStatusPending → Job_AgentID j = None;
}.

Definition rows_ok {V} (P : V → Prop) (t : gmap uuid V) : Prop := ∀ k v, t !! k = Some v → P v.

(** The log lines of a job, keyed by job and sequence number. *)
Definition logs_ok {L} (logs : gmap (uuid * Z) L) (jobs : gmap uuid Job) : Prop :=
  ∀ k v, logs !! k = Some v → is_Some (jobs !! k.1).

Record db_ok (db : Db) : Prop := {
  k_users : keyed User_ID (db_users db);
  k_api_tokens : keyed APIToken_ID (db_api_tokens db);
  k_agents : keyed (λ r, Agent_ID (AgentRow_Agent r)) (db_agents db);
  k_credentials : keyed Credential_ID (db_credentials db);
  k_projects : keyed Project_ID (db_projects db);
  k_inventory_hosts : keyed InventoryHost_ID (db_inventory_hosts db);
  k_job_templates : keyed JobTemplate_ID (db_job_templates db);
  k_schedules : keyed Schedule_ID (db_schedules db);
  k_workflows : keyed Workflow_ID (db_workflows db);
  k_workflow_nodes : keyed WorkflowNode_ID (db_workflow_nodes db);
  k_workflow_edges : keyed WorkflowEdge_ID (db_workflow_edges db);
  k_workflow_runs : keyed WorkflowRun_ID (db_workflow_runs db);
  k_jobs : keyed Job_ID (db_jobs db);
  k_job_status_events : keyed JobStatusEvent_ID (db_job_status_events db);
  k_approval_requests : keyed ApprovalRequest_ID (db_approval_requests db);
  r_token_user : refs (λ t, Some (APIToken_UserID t)) (db_api_tokens db) (db_users db);
  r_project_credential : refs Project_CredentialID (db_projects db) (db_credentials db);
  r_host_project : refs (λ h, Some (InventoryHost_ProjectID h)) (db_inventory_hosts db) (db_projects db);
  r_template_project : refs (λ t, Some (JobTemplate_ProjectID t)) (db_job_templates db) (db_projects db);
  r_template_credential : refs JobTemplate_CredentialID (db_job_templates db) (db_credentials db);
  r_schedule_template : refs (λ s, Some (Schedule_TemplateID s)) (db_schedules db) (db_job_templates db);
  r_node_workflow : refs (λ n, Some (WorkflowNode_WorkflowID n)) (db_workflow_nodes db) (db_workflows db);
  r_edge_workflow : refs (λ e, Some (WorkflowEdge_WorkflowID e)) (db_workflow_edges db) (db_workflows db);
  r_edge_source : refs (λ e, Some (WorkflowEdge_SourceNodeID e)) (db_workflow_edges db) (db_workflow_nodes db);
  r_edge_target : refs (λ e, Some (WorkflowEdge_TargetNodeID e)) (db_workflow_edges db) (db_workflow_nodes db);
  r_run_workflow : refs (λ r, Some (WorkflowRun_WorkflowID r)) (db_workflow_runs db) (db_workflows db);
  r_job_template : refs (λ j, Some (Job_TemplateID j)) (db_jobs db) (db_job_templates db);
  r_job_agent : refs Job_AgentID (db_jobs db) (db_agents db);
  r_job_run : refs Job_WorkflowRunID (db_jobs db) (db_workflow_runs db);
  r_event_job : refs (λ e, Some (JobStatusEvent_JobID e)) (db_job_status_events db) (db_jobs db);
  r_log_job : logs_ok (db_job_logs db) (db_jobs db);
  r_approval_run : refs (λ a, Some (ApprovalRequest_WorkflowRunID a)) (db_approval_requests db) (db_workflow_runs db);
  r_approval_node : refs (λ a, Some (ApprovalRequest_NodeID a)) (db_approval_requests db) (db_workflow_nodes db);
  r_approval_reviewer : refs ApprovalRequest_ReviewedBy (db_approval_requests db) (db_users db);
  u_email : unique User_Email (db_users db);
  u_token_hash : unique APIToken_TokenHash (db_api_tokens db);
  u_agent_hash : unique AgentRow_TokenHash (db_agents db);
  ok_jobs : rows_ok job_ok (db_jobs db);
}.

Create HintDb integrity discriminated.

(** ** Primary keys *)

Lemma keyed_delete {V} (id : V → uuid) t k : keyed id t → keyed id (delete k t).
Proof. intros Ht k' v [_ ?]%lookup_delete_Some. by apply Ht. Qed.

Lemma keyed_filter {V} (id : V → uuid) (P : uuid * V → Prop) `{!∀ x, Decision (P x)} t :
  keyed id t → keyed id (filter P t).
Proof. intros Ht k v [? _]%map_lookup_filter_Some. by apply Ht. Qed.

Lemma keyed_alter {V} (id : V → uuid) f t k :
  keyed id t → (∀ v, id (f v) = id v) → keyed id (alter f k t).
Proof.
  intros Ht Hf k' v. destruct (decide (k = k')) as [<-|].
  - rewrite lookup_alter_eq. intros (w & Hw & ->)%fmap_Some_1. rewrite Hf. by apply Ht.
  - rewrite lookup_alter_ne by done. apply Ht.
Qed.

Lemma keyed_fmap {V} (id : V → uuid) f t :
  keyed id t → (∀ v, id (f v) = id v) → keyed id (f <$> t).
Proof. intros Ht Hf k v. rewrite lookup_fmap. intros (w & Hw & ->)%fmap_Some_1. rewrite Hf. by apply Ht. Qed.

Lemma keyed_insert_same {V} (id : V → uuid) t k v v0 :
  keyed id t → t !! k = Some v0 → id v = id v0 → keyed id (<[k := v]> t).
Proof. intros Ht Hk Hv. apply keyed_insert; [done|]. rewrite Hv. by apply Ht. Qed.

(** ** Foreign keys *)

Section refs.
Context {V W : Type} (f : V → option uuid).
Implicit Types (t : gmap uuid V) (T : gmap uuid W).

Lemma refs_insert t T k v : refs f t T → fk_ok (f v) T = true → refs f (<[k := v]> t) T.
Proof.
  intros Ht Hv k' v' u [[<- <-]|[_ ?]]%lookup_insert_Some Hu; [|by eapply Ht].
  rewrite Hu in Hv. by apply bool_decide_eq_true in Hv.
Qed.

Lemma refs_insert_same t T k v v0 :
  refs f t T → t !! k = Some v0 → f v = f v0 → refs f (<[k := v]> t) T.
Proof.
  intros Ht Hk Hv k' v' u [[<- <-]|[_ ?]]%lookup_insert_Some Hu; [|by eapply Ht].
  rewrite Hv in Hu. by eapply Ht.
Qed.

Lemma refs_insert_target t T k v : refs f t T → refs f t (<[k := v]> T).
Proof.
  intros Ht k' v' u Hk Hu. destruct (decide (k = u)) as [<-|].
  - rewrite lookup_insert_eq. by eexists.
  - rewrite lookup_insert_ne by done. by eapply Ht.
Qed.

Lemma refs_subseteq t t' T : refs f t T → t' ⊆ t → refs f t' T.
Proof. intros Ht Hsub k v u Hk. eapply Ht. by eapply lookup_weaken. Qed.

Lemma refs_delete t T k : refs f t T → refs f (delete k t) T.
Proof. intros Ht. eapply refs_subseteq; [done|apply delete_subseteq]. Qed.

Lemma refs_filter (P : uuid * V → Prop) `{!∀ x, Decision (P x)} t T :
  refs f t T → refs f (filter P t) T.
Proof. intros Ht. eapply refs_subseteq; [done|apply map_filter_subseteq]. Qed.

Lemma refs_alter g t T k : refs f t T → (∀ v, f (g v) = f v) → refs f (alter g k t) T.
Proof.
  intros Ht Hg. destruct (t !! k) as [v|] eqn:Hk.
  - erewrite alter_Some by done. by eapply refs_insert_same.
  - by rewrite alter_None.
Qed.

Lemma refs_fmap g t T : refs f t T → (∀ v u, f (g v) = Some u → f v = Some u) → refs f (g <$> t) T.
Proof.
  intros Ht Hg k v u. rewrite lookup_fmap. intros (w & Hw & ->)%fmap_Some_1 Hu.
  eapply Ht; [done|]. by apply Hg.
Qed.

Lemma refs_alter_target g t T k : refs f t T → refs f t (alter g k T).
Proof.
  intros Ht. destruct (T !! k) as [w|] eqn:Hk.
  - erewrite alter_Some by done. by apply refs_insert_target.
  - by rewrite alter_None.
Qed.

Lemma refs_fmap_target (g : W → W) t T : refs f t T → refs f t (g <$> T).
Proof. intros Ht k v u Hk Hu. rewrite lookup_fmap. apply fmap_is_Some. by eapply Ht. Qed.

Lemma refs_filter_target (P : uuid * W → Prop) `{!∀ x, Decision (P x)} t T :
  refs f t T → (∀ k v u w, t !! k = Some v → f v = Some u → T !! u = Some w → P (u, w)) →
  refs f t (filter P T).
Proof.
  intros Ht HP k v u Hk Hu. destruct (Ht k v u Hk Hu) as [w Hw]. exists w.
  apply map_lookup_filter_Some. eauto.
Qed.

Lemma refs_delete_target t T k :
  refs f t T → (∀ k' v, t !! k' = Some v → f v ≠ Some k) → refs f t (delete k T).
Proof.
  intros Ht Hn k' v u Hk Hu. rewrite lookup_delete_ne; [by eapply Ht|].
  intros ->. by eapply Hn.
Qed.

(** ON DELETE CASCADE, and no action. *)
Lemma refs_cascade (g : V → uuid) t T id :
  refs (λ v, Some (g v)) t T →
  refs (λ v, Some (g v)) (filter (λ kv, g kv.2 ≠ id) t) (delete id T).
Proof.
  intros Ht k v u [Hk Hne]%map_lookup_filter_Some [= <-]. simpl in Hne.
  rewrite lookup_delete_ne by done. by eapply Ht.
Qed.
End refs.

Lemma logs_insert {L} (logs : gmap (uuid * Z) L) jobs k v :
  logs_ok logs jobs → fk_ok (Some k.1) jobs = true → logs_ok (<[k := v]> logs) jobs.
Proof.
  intros Ht Hv k' v' [[<- <-]|[_ ?]]%lookup_insert_Some; [|by eapply Ht].
  by apply bool_decide_eq_true in Hv.
Qed.

Lemma logs_insert_job {L} (logs : gmap (uuid * Z) L) jobs k v :
  logs_ok logs jobs → logs_ok logs (<[k := v]> jobs).
Proof.
  intros Ht k' v' Hk. destruct (decide (k = k'.1)) as [->|].
  - rewrite lookup_insert_eq. by eexists.
  - rewrite lookup_insert_ne by done. by eapply Ht.
Qed.

Lemma logs_alter_job {L} (logs : gmap (uuid * Z) L) jobs g k :
  logs_ok logs jobs → logs_ok logs (alter g k jobs).
Proof.
  intros Ht. destruct (jobs !! k) as [j|] eqn:Hk.
  - erewrite alter_Some by done. by apply logs_insert_job.
  - by rewrite alter_None.
Qed.

(** ** Unique columns *)

Lemma unreferenced_spec {V} (P : V → bool) (t : gmap uuid V) :
  unreferenced P t = true ↔ ∀ k v, t !! k = Some v → P v = false.
Proof.
  unfold unreferenced. rewrite forallb_forall. setoid_rewrite <-list_elem_of_In.
  setoid_rewrite elem_of_map_vals. setoid_rewrite negb_true_iff. naive_solver.
Qed.

Lemma refs_restrict {V W} (g : V → uuid) (t : gmap uuid V) (T : gmap uuid W) id :
  refs (λ v, Some (g v)) t T → unreferenced (λ v, bool_decide (g v = id)) t = true →
  refs (λ v, Some (g v)) t (delete id T).
Proof.
  intros Ht Hn k v u Hk [= <-]. rewrite unreferenced_spec in Hn.
  pose proof (Hn _ _ Hk) as Hne%bool_decide_eq_false. rewrite lookup_delete_ne by congruence. by eapply Ht.
Qed.

Section unique.
Context {V C : Type} `{EqDecision C} (f : V → C).
Implicit Types t : gmap uuid V.

Lemma unique_insert t k v :
  unique f t → unreferenced (λ w, bool_decide (f w = f v)) t = true → unique f (<[k := v]> t).
Proof.
  intros Ht Hn. rewrite unreferenced_spec in Hn.
  intros k1 k2 v1 v2 [[<- <-]|[? H1]]%lookup_insert_Some [[<- <-]|[? H2]]%lookup_insert_Some Hf;
    [done|..].
  - apply Hn, bool_decide_eq_false in H2. congruence.
  - apply Hn, bool_decide_eq_false in H1. congruence.
  - by eapply Ht.
Qed.

Lemma unique_insert_same t k v v0 :
  unique f t → t !! k = Some v0 → f v = f v0 → unique f (<[k := v]> t).
Proof.
  intros Ht Hk Hv k1 k2 v1 v2 [[<- <-]|[? H1]]%lookup_insert_Some
    [[<- <-]|[? H2]]%lookup_insert_Some Hf; [done|..]; try (by eapply Ht);
    rewrite Hv in Hf; by eapply Ht.
Qed.

Lemma unique_delete t k : unique f t → unique f (delete k t).
Proof. intros Ht k1 k2 v1 v2 [_ ?]%lookup_delete_Some [_ ?]%lookup_delete_Some. by eapply Ht. Qed.

Lemma unique_alter g t k : unique f t → (∀ v, f (g v) = f v) → unique f (alter g k t).
Proof.
  intros Ht Hg. destruct (t !! k) as [v|] eqn:Hk.
  - erewrite alter_Some by done. by eapply unique_insert_same.
  - by rewrite alter_None.
Qed.
End unique.

(** ** Rows *)

Lemma rows_insert {V} (P : V → Prop) t k v : rows_ok P t → P v → rows_ok P (<[k := v]> t).
Proof. intros Ht Hv k' v' [[<- <-]|[_ ?]]%lookup_insert_Some; [done|by eapply Ht]. Qed.

Lemma rows_alter {V} (P : V → Prop) g t k :
  rows_ok P t → (∀ v, P v → P (g v)) → rows_ok P (alter g k t).
Proof.
  intros Ht Hg. destruct (t !! k) as [v|] eqn:Hk.
  - erewrite alter_Some by done. apply rows_insert; [done|]. by eapply Hg, Ht.
  - by rewrite alter_None.
Qed.

Lemma new_job_ok now id t run v : job_ok (new_job now id t run v).
Proof. split; simpl; try done. Qed.

Lemma facts_row_ok now facts j : job_ok j → job_ok (facts_row now facts j).
Proof. intros []. by split. Qed.

Lemma is_Some_status_end (status : JobStatus) (now : Time) (e : option Time) P `{!Decision P} :
  (P ↔ IsTerminal status = true) → (is_Some e → IsTerminal status = true) →
  is_Some (if bool_decide P then Some now else e) ↔ IsTerminal status = true.
Proof. intros HP He. case_bool_decide; split; naive_solver. Qed.

Lemma update_status_row_ok now status reason j :
  IsTerminal status = true → job_ok j → job_ok (update_status_row now status None reason j).
Proof.
  intros Ht [? Hs ? ? ?]. split; simpl; rewrite ?Hs; try (by intros ->).
  - rewrite bool_decide_eq_false_2; [done|]. by intros ->.
  - apply is_Some_status_end; [by rewrite IsTerminal_iff|done].
Qed.

(** The two transitions of the controller. *)
Lemma claim_row_ok now agent r j :
  job_ok j → Job_Status j = JobStatusPending →
  job_ok (transition_row now JobStatusDispatched (Some agent) r j).
Proof.
  intros [? Hs He ? ?] Hp. split; simpl; rewrite ?Hs; try done.
  rewrite He, Hp. done.
Qed.

Lemma fail_row_ok now r j : job_ok j → job_ok (transition_row now JobStatusFailed None r j).
Proof. intros [? Hs ? ? ?]. split; simpl; rewrite ?Hs; try done. Qed.

(** ** Every statement preserves the integrity *)

(** The side conditions that are equations between columns. *)
#[export] Hint Extern 5 (_ = _) => reflexivity : integrity.
#[export] Hint Extern 6 (∀ v, _ = _) => intros ?; reflexivity : integrity.
#[export] Hint Resolve keyed_insert keyed_insert_same keyed_delete keyed_filter keyed_alter keyed_fmap
  refs_insert refs_insert_same refs_insert_target refs_delete refs_filter refs_alter
  refs_alter_target refs_fmap_target refs_cascade refs_restrict
  logs_insert logs_insert_job logs_alter_job
  unique_insert unique_insert_same unique_delete unique_alter
  rows_insert rows_alter new_job_ok facts_row_ok : integrity.

Ltac solve_integrity :=
  match goal with Hok : db_ok _ |- db_ok _ => destruct Hok; constructor end;
  simpl; try assumption; eauto 4 with integrity.

Section integrity.
Context `{UuidLib} `{PgxLib}.

Lemma query_ok {X} (f : Tx → Db → result X) : stmt_respects (keeps db_ok) (query f).
Proof. apply query_respects, _. Qed.

Lemma insert_job_ok t run v : stmt_respects (keeps db_ok) (insert_job_sql t run v).
Proof. intros tx db x db' Hs Hok. unfold insert_job_sql in Hs. inv_stmt. solve_integrity. Qed.

Lemma UpdateJobStatus_ok id status reason :
  IsTerminal status = true →
  stmt_respects (keeps db_ok) (UpdateJobStatus_sql id status None reason).
Proof.
  intros Ht tx db x db' Hs Hok. unfold UpdateJobStatus_sql in Hs. inv_stmt; [|done].
  solve_integrity. apply rows_insert; [done|]. apply update_status_row_ok; [done|]. by eapply ok_jobs0.
Qed.

Lemma claim_ok id agent r :
  stmt_respects (keeps db_ok) (TransitionJob_sql id JobStatusPending JobStatusDispatched (Some agent) r).
Proof.
  intros tx db b db' Hs Hok.
  pose proof (TransitionJob_sql_cases id JobStatusPending JobStatusDispatched (Some agent) r tx db) as Hc.
  rewrite Hs in Hc. destruct b; [|by destruct Hc as [-> _]]. destruct Hc as (j & Hj & Hp & Hfk & ->).
  solve_integrity. apply rows_insert; [done|]. apply claim_row_ok; [|done]. by eapply ok_jobs0.
Qed.

Lemma fail_ok id from r :
  stmt_respects (keeps db_ok) (TransitionJob_sql id from JobStatusFailed None r).
Proof.
  intros tx db b db' Hs Hok.
  pose proof (TransitionJob_sql_cases id from JobStatusFailed None r tx db) as Hc.
  rewrite Hs in Hc. destruct b; [|by destruct Hc as [-> _]]. destruct Hc as (j & Hj & Hp & Hfk & ->).
  solve_integrity. apply rows_insert; [done|]. apply fail_row_ok. by eapply ok_jobs0.
Qed.
(** DELETE with the referential actions of the migrations. *)
Lemma DeleteJobTemplate_ok id : stmt_respects (keeps db_ok) (DeleteJobTemplate_sql id).
Proof.
  intros tx db x db' Hs Hok. unfold DeleteJobTemplate_sql in Hs. inv_stmt; solve_integrity.
Qed.

Lemma DeleteProject_ok id : stmt_respects (keeps db_ok) (DeleteProject_sql id).
Proof.
  intros tx db x db' Hs Hok. unfold DeleteProject_sql in Hs. inv_stmt; solve_integrity.
Qed.

Lemma drop_project_id now id p : Project_ID (drop_project_credential now id p) = Project_ID p.
Proof. unfold drop_project_credential. by case_decide. Qed.

Lemma drop_template_id now id t : JobTemplate_ID (drop_template_credential now id t) = JobTemplate_ID t.
Proof. unfold drop_template_credential. by case_decide. Qed.

Lemma drop_template_project now id t :
  JobTemplate_ProjectID (drop_template_credential now id t) = JobTemplate_ProjectID t.
Proof. unfold drop_template_credential. by case_decide. Qed.

Lemma drop_project_refs {W} now id t (T : gmap uuid W) :
  refs Project_CredentialID t T →
  refs Project_CredentialID (drop_project_credential now id <$> t) (delete id T).
Proof.
  intros Ht k v u. rewrite lookup_fmap. intros (w & Hw & ->)%fmap_Some_1.
  unfold drop_project_credential. case_decide; simpl; [done|]. intros Hu.
  rewrite lookup_delete_ne by congruence. by eapply Ht.
Qed.

Lemma drop_template_refs {W} now id t (T : gmap uuid W) :
  refs JobTemplate_CredentialID t T →
  refs JobTemplate_CredentialID (drop_template_credential now id <$> t) (delete id T).
Proof.
  intros Ht k v u. rewrite lookup_fmap. intros (w & Hw & ->)%fmap_Some_1.
  unfold drop_template_credential. case_decide; simpl; [done|]. intros Hu.
  rewrite lookup_delete_ne by congruence. by eapply Ht.
Qed.

Lemma delete_absent {V} (t : gmap uuid V) k : t !! k = None → delete k t = t.
Proof. apply delete_id. Qed.

Lemma DeleteCredential_ok id : stmt_respects (keeps db_ok) (DeleteCredential_sql id).
Proof.
  intros tx db x db' Hs Hok. unfold DeleteCredential_sql, delete_row in Hs. simpl in Hs.
  assert (db' = set_credentials (delete id (db_credentials db))
    (set_projects (drop_project_credential (tx_now tx) id <$> db_projects db)
    (set_job_templates (drop_template_credential (tx_now tx) id <$> db_job_templates db) db))) as ->.
  { destruct (db_credentials db !! id) eqn:Hc; simplify_eq; [done|].
    unfold set_credentials. simpl. by rewrite delete_absent. }
  solve_integrity.
  - apply keyed_fmap; [done|apply drop_project_id].
  - apply keyed_fmap; [done|apply drop_template_id].
  - by apply drop_project_refs.
  - apply refs_fmap; [by apply refs_fmap_target|]. intros t u. by rewrite drop_template_project.
  - by apply drop_template_refs.
Qed.

Lemma delete_nodes_ok id db db' :
  delete_nodes id db = Ok db' → db_ok db →
  db_ok db' ∧ db_workflow_runs db' = db_workflow_runs db ∧
  db_workflows db' = db_workflows db ∧
  (∀ k n, db_workflow_nodes db' !! k = Some n → WorkflowNode_WorkflowID n ≠ id).
Proof.
  intros Hs Hok. unfold delete_nodes in Hs. inv_stmt.
  match goal with H : unreferenced _ _ = true |- _ => rewrite unreferenced_spec in H; rename H into Ha end.
  split; [|split_and!; [done|done|]; intros k n [_ Hn]%map_lookup_filter_Some; exact Hn].
  solve_integrity; apply refs_filter_target; eauto using refs_filter; simpl;
    intros k v u w Hk [= <-] Hw.
  - apply map_lookup_filter_Some in Hk as [_ [Hd _]]. simpl in Hd. rewrite Hw in Hd.
    by apply bool_decide_eq_false in Hd.
  - apply map_lookup_filter_Some in Hk as [_ [_ Hd]]. simpl in Hd. rewrite Hw in Hd.
    by apply bool_decide_eq_false in Hd.
  - apply Ha in Hk. simpl in Hk. rewrite Hw in Hk. by apply bool_decide_eq_false in Hk.
Qed.

Lemma DeleteWorkflow_ok id : stmt_respects (keeps db_ok) (DeleteWorkflow_sql id).
Proof.
  intros tx db x db' Hs Hok. unfold DeleteWorkflow_sql in Hs. inv_stmt;
  match goal with H : delete_nodes _ _ = Ok _ |- _ =>
    apply delete_nodes_ok in H as (Hok' & Hr & Hw & Hn); [|done] end;
  clear Hok; [solve_integrity|]. rewrite <-Hr in *. solve_integrity.
  apply refs_delete_target; [done|]. intros k n Hk [= ?]. by eapply Hn.
Qed.

Lemma insert_all_ok {X} (f : Db → X → result Db) xs db db' :
  (∀ x db db', f db x = Ok db' → db_ok db → db_ok db') →
  insert_all f xs db = Ok db' → db_ok db → db_ok db'.
Proof. intros Hf. by apply (insert_all_preserves (keeps db_ok)). Qed.

Lemma UpsertWorkflowNodes_ok id ns : stmt_respects (keeps db_ok) (UpsertWorkflowNodes_sql id ns).
Proof.
  intros tx db x db' Hs Hok. unfold UpsertWorkflowNodes_sql in Hs. inv_stmt.
  match goal with H : delete_nodes _ _ = Ok _ |- _ =>
    apply delete_nodes_ok in H as (Hok' & _); [|done] end.
  eapply insert_all_ok; [|done|done]. clear. intros n db db' Hs Hok.
  unfold insert_node in Hs. inv_stmt. solve_integrity.
Qed.

Lemma UpsertWorkflowEdges_ok id es : stmt_respects (keeps db_ok) (UpsertWorkflowEdges_sql id es).
Proof.
  intros tx db x db' Hs Hok. unfold UpsertWorkflowEdges_sql in Hs. inv_stmt.
  eapply insert_all_ok; [|done|by solve_integrity]. clear. intros n db db' Hs Hok.
  unfold insert_edge in Hs. inv_stmt. solve_integrity.
Qed.

Lemma api_stmt_ok X (st : Stmt X) : api_stmt X st → stmt_respects (keeps db_ok) st.
Proof.
  intros [].
  all: try (eauto using query_ok, insert_job_ok, UpdateJobStatus_ok, DeleteJobTemplate_ok,
    DeleteProject_ok, DeleteCredential_ok, DeleteWorkflow_ok, UpsertWorkflowNodes_ok,
    UpsertWorkflowEdges_ok; fail).
  all: intros tx db x db' Hs Hok.
  all: unfold SetJobFacts_sql in *; autounfold with stmts in Hs; inv_stmt; try done; solve_integrity.
Qed.
Lemma insert_hosts_ok tx p n hosts db db' :
  insert_hosts tx p n hosts db = Ok db' → db_ok db → db_ok db'.
Proof.
  revert n db. induction hosts as [|h hosts IH]; intros n db Hs Hok; simpl in Hs; [by simplify_eq|].
  apply result_bind_Ok in Hs as (db1 & Hr & Hs). eapply IH; [done|].
  inv_stmt. solve_integrity.
Qed.

Lemma controller_stmt_ok X (st : Stmt X) : controller_stmt X st → stmt_respects (keeps db_ok) st.
Proof.
  intros [].
  all: try (eauto using query_ok, insert_job_ok, claim_ok, fail_ok; fail).
  - intros tx db x db' [= <- <-] Hok. solve_integrity.
  - intros tx db x db' Hs Hok. unfold UpsertInventoryHosts_sql in Hs. inv_stmt.
    eapply insert_hosts_ok; [done|]. solve_integrity.
  - intros tx db x db' [= <- <-] Hok. solve_integrity.
Qed.
End integrity.

(** A freshly migrated database. *)
Lemma empty_db_ok : db_ok empty_db.
Proof. constructor; intros ?; intros; simpl in *; by simplify_map_eq. Qed.

Section system.
Context `{UuidLib} `{PgxLib} `{Collation} `{CryptoLib} `{FieldsJson} `{HashLib} `{JwtLib} `{BcryptLib}
  `{NetLib} `{OsEnv} `{CronLib} `{PgxPool}.
Context `{JsonDecode Jobs.CreateJobBody} `{JsonDecode (list JobLogLine)}
  `{JsonDecode Jobs.ResultBody}.
Context `{JsonDecode LoginBody} `{JsonDecode NameBody} `{JsonDecode RegisterBody}
  `{JsonDecode Types.AgentHeartbeat}.
Context `{JsonDecode Resources.CreateTemplateBody} `{JsonDecode Resources.UpdateTemplateBody}
  `{JsonDecode Resources.ProjectBody} `{JsonDecode Resources.CreateScheduleBody}
  `{JsonDecode Resources.UpdateScheduleBody} `{JsonDecode Resources.CredentialBody}
  `{JsonDecode Resources.WorkflowBody} `{JsonDecode Resources.UpdateWorkflowBody}
  `{JsonDecode Resources.NoteBody}.

(** C8: The integrity of the database is an invariant of the whole system: in
    every interleaving of any number of controllers and API servers, rows stay
    under their primary keys, every foreign key refers to a row, unique columns
    stay unique, and the columns of every job agree with its status: a job never
    is running nor has a start time, it has an end time exactly when its status
    is terminal, an agent when it is dispatched, and none while it is pending. *)
Theorem system_integrity w s :
  db_ok (w_db w) → reachable w s → db_ok (w_db s.1).
Proof.
  intros Hok Hr. by apply (reachable_respects (keeps db_ok) w s); [apply controller_stmt_ok|apply api_stmt_ok| |].
Qed.
End system.
