(* ===== verification/Liveness.v ===== *)
(** * Every job ends

    A job that a tick of the reconciler fetches is dispatched or failed by it, and
    a job that is dispatched but never reported is failed by the first tick
    after its timeout: together, no job stays unfinished. *)
From S2P Require Import Prelude.
From S2P Require Import Prog.
From S2P Require Import Types.
From S2P Require Import Db.
From S2P Require Import Hoare.
From S2P Require Import ControllerStore.
From S2P Require Import Lifecycle.
From S2P Require Import Selector.
From S2P Require Import Transport.
From S2P Require Import Secrets.
From S2P Require Import Reconciler.
From S2P Require Import ReconcilerFacts.
From S2P Require Import Scheduler.
From S2P Require Import ApiStore.
From S2P Require Import ApiResources.
From S2P Require Import Http.
From S2P Require Import Auth.
From S2P Require Import JobHandlers.
From S2P Require Import ResourceHandlers.
From S2P Require Import Process.
From S2P Require Import System.
From S2P Require Import Integrity.

(** ** Running a program with answers to spare *)

(** When the answers are used up the quiet one is given, so one more of them makes
    no difference to the result. *)
Lemma exec_more {A} (p : prog Ev A) w :
  (exec p [] w).1 = (exec p [quiet_answer] w).1 ∧ (exec p [] w).2.2 = (exec p [quiet_answer] w).2.2.
Proof. by destruct p. Qed.

Lemma exec_time {A} (p : prog Ev A) ans w : (w_now w <= w_now (exec p ans w).2.2)%Z.
Proof.
  unfold exec. revert ans w. induction p as [x|X e k IH]; intros ans w; simpl; [done|].
  assert (w_now w <= w_now (perform X (hd quiet_answer ans) e w).2)%Z as Hle.
  { destruct e; cbn; repeat case_match; cbn; lia. }
  destruct (perform _ _ _ _) as [x w']. cbn in Hle. etransitivity; [exact Hle|]. apply IH.
Qed.

(** Nothing fails, and no other session holds a row locked. *)
Definition undisturbed (a : Answer) : Prop := faultless a ∧ an_locked a = ∅.

Lemma undisturbed_faultless ans : Forall undisturbed ans → Forall faultless ans.
Proof. intros Ha. eapply Forall_impl; [exact Ha|]. by intros a []. Qed.

(** ** A tick and one job *)

(** A job past pending is left as it is, or ended. *)
Definition kept_or_ended (id : uuid) : relation Db := λ db db',
  ∀ j, db_jobs db !! id = Some j → Job_Status j ≠ JobStatusPending →
  ∃ j', db_jobs db' !! id = Some j' ∧ (j' = j ∨ IsTerminal (Job_Status j') = true).

Lemma terminal_not_pending s : IsTerminal s = true → s ≠ JobStatusPending.
Proof. by intros Ht ->. Qed.

#[export] Instance kept_or_ended_preorder id : PreOrder (kept_or_ended id).
Proof.
  split; [intros db j Hj _; eauto|]. intros db1 db2 db3 H12 H23 j Hj Hp.
  destruct (H12 j Hj Hp) as (j2 & Hj2 & [->|Ht]); [by apply H23|].
  destruct (H23 j2 Hj2) as (j3 & Hj3 & [->|Ht3]); [by apply terminal_not_pending|eauto..].
Qed.

Lemma transitions_keep_or_end `{UuidLib} id : transitions_respect (kept_or_ended id).
Proof.
  assert (∀ i from to a r, (from = JobStatusPending ∨ to = JobStatusFailed) →
    stmt_respects (kept_or_ended id) (TransitionJob_sql i from to a r)) as Hall.
  { intros i from to a r Hft tx db b db' Hs j Hj Hp.
    pose proof (TransitionJob_sql_cases i from to a r tx db) as Hc. rewrite Hs in Hc.
    destruct b; [|destruct Hc as [-> _]; eauto]. destruct Hc as (j0 & Hj0 & Hf & _ & ->). cbn.
    destruct (decide (i = id)) as [->|Hne]; [|rewrite lookup_insert_ne; eauto].
    rewrite lookup_insert_eq. eexists. split; [done|]. right. destruct Hft as [->| ->]; [congruence|done]. }
  split; intros; apply Hall; auto.
Qed.

Section tick.
Context `{UuidLib} `{CryptoLib} `{FieldsJson} `{NetLib}.
Context (key : bytes) (cfg : Reconciler.Config).
#[local] Instance sp : SecretsProvider := controller_SecretsProvider key.

(** What a tick fetched is past pending after it. *)
Lemma tick_takes a ans w jobs db' j :
  Forall faultless (a :: ans) →
  GetPendingJobs_sql (answer_tx a (w_now w + Z.of_N (an_elapsed a))) (w_db w) = Ok (jobs, db') → j ∈ jobs →
  not_pending (Job_ID j) (w_db (exec (tick cfg) (a :: ans) w).2.2).
Proof.
  intros Ha Hjobs Hin. unfold tick, exec. rewrite run_bind.
  pose proof (dispatchPending_empties cfg a ans w jobs db' Ha Hjobs j Hin) as Hnp. unfold exec in Hnp.
  destruct (run perform quiet_answer (dispatchPending cfg) (a :: ans) w) as [u [ans' w']]. cbn in Hnp.
  apply (exec_respects (keeps (not_pending (Job_ID j))) (failStuck cfg) ans' w'); [|done].
  apply failStuck_events; [apply _|]. split; intros; by apply TransitionJob_not_pending.
Qed.

(** A dispatched job whose timeout has passed is failed by a tick, if nothing else
    ended it. *)
Lemma failStuckJobs_ends ans w id j timeout reason :
  Forall undisturbed ans → keyed Job_ID (db_jobs (w_db w)) →
  db_jobs (w_db w) !! id = Some j → Job_Status j = JobStatusDispatched →
  (Job_UpdatedAt j < w_now w - timeout)%Z →
  ∃ j', db_jobs (w_db (exec (failStuckJobs JobStatusDispatched timeout reason) ans w).2.2) !! id = Some j' ∧
    IsTerminal (Job_Status j') = true.
Proof.
  intros Ha Hk Hj Hd Ht.
  assert (∀ a ans, Forall undisturbed (a :: ans) →
    ∃ j', db_jobs (w_db (exec (failStuckJobs JobStatusDispatched timeout reason) (a :: ans) w).2.2) !! id = Some j' ∧
      IsTerminal (Job_Status j') = true) as Hgen.
  { clear ans Ha. intros a ans Ha. pose proof (failStuckJobs_exact a ans w JobStatusDispatched timeout reason
      (undisturbed_faultless _ Ha) Hk (or_introl eq_refl) id) as Hx. rewrite Hj in Hx.
    apply Forall_cons in Ha as [[_ Hl] _]. rewrite decide_True in Hx.
    - destruct Hx as (now & Hx). eexists. split; [exact Hx|]. done.
    - split; [done|]. split; [cbn; lia|]. unfold unlocked. cbn. rewrite Hl. set_solver. }
  destruct ans as [|a ans]; [|by apply Hgen].
  destruct (exec_more (failStuckJobs JobStatusDispatched timeout reason) w) as [_ ->]. apply Hgen.
  repeat constructor.
Qed.

Lemma tick_ends ans w id j :
  Forall undisturbed ans → db_ok (w_db w) → db_jobs (w_db w) !! id = Some j →
  IsTerminal (Job_Status j) = true ∨
    (Job_Status j = JobStatusDispatched ∧ (Job_UpdatedAt j < w_now w - Config_DispatchTimeout cfg)%Z) →
  ∃ j', db_jobs (w_db (exec (tick cfg) ans w).2.2) !! id = Some j' ∧ IsTerminal (Job_Status j') = true.
Proof.
  intros Ha Hok Hj Hs. unfold tick, failStuck.
  assert (∀ (p : prog Ev unit) ans w j, all_events (ev_respects (kept_or_ended id)) p →
    db_jobs (w_db w) !! id = Some j → IsTerminal (Job_Status j) = true →
    ∃ j', db_jobs (w_db (exec p ans w).2.2) !! id = Some j' ∧ IsTerminal (Job_Status j') = true) as Hstay.
  { clear. intros p ans w j Hp Hj Ht.
    destruct (exec_respects (kept_or_ended id) p ans w Hp j Hj (terminal_not_pending _ Ht)) as (j' & ? & [->|?]); eauto. }
  assert (Job_Status j ≠ JobStatusPending) as Hnp by (destruct Hs as [?|[-> _]]; [by apply terminal_not_pending|done]).
  pose proof (dispatchPending_events cfg (kept_or_ended id) (transitions_keep_or_end id)) as Hdev.
  destruct (exec_respects _ _ ans w Hdev j Hj Hnp) as (j1 & Hj1 & Hc).
  assert (db_ok (w_db (exec (dispatchPending cfg) ans w).2.2)) as Hok1.
  { apply (exec_respects (keeps db_ok)); [|done]. apply dispatchPending_events; [apply _|].
    split; intros; [apply claim_ok|apply fail_ok]. }
  pose proof (exec_time (dispatchPending cfg) ans w) as Ht1.
  pose proof (exec_answers undisturbed (dispatchPending cfg) ans w Ha) as Ha1.
  rewrite exec_bind. destruct (exec (dispatchPending cfg) ans w) as [u [ans1 w1]]. cbn in Hj1, Hok1, Ht1, Ha1.
  rewrite exec_bind.
  assert (∃ j2, db_jobs (w_db (exec (failStuckJobs JobStatusDispatched (Config_DispatchTimeout cfg)
      "dispatch timeout: agent never reported running") ans1 w1).2.2) !! id = Some j2 ∧
      IsTerminal (Job_Status j2) = true) as (j2 & Hj2 & Ht2).
  { destruct Hc as [->|Hc].
    - destruct Hs as [Hterm|[Hd Htime]]; [|apply (failStuckJobs_ends ans1 w1 id j); [done|apply Hok1|done..|lia]].
      apply (Hstay _ ans1 w1 j); [|done..]. apply failStuckJobs_events; [apply _|].
      intros; apply (transitions_keep_or_end id); set_solver.
    - apply (Hstay _ ans1 w1 j1); [|done..]. apply failStuckJobs_events; [apply _|].
      intros; apply (transitions_keep_or_end id); set_solver. }
  destruct (exec (failStuckJobs _ _ _) ans1 w1) as [u' [ans2 w2]]. cbn in Hj2.
  apply (Hstay _ ans2 w2 j2); [|done..]. apply failStuckJobs_events; [apply _|].
  intros; apply (transitions_keep_or_end id); set_solver.
Qed.
End tick.

(** What GetPendingJobs returns is stored, and pending. *)
Lemma pending_stored tx db jobs db' j :
  keyed Job_ID (db_jobs db) → GetPendingJobs_sql tx db = Ok (jobs, db') → j ∈ jobs →
  db_jobs db !! Job_ID j = Some j ∧ Job_Status j = JobStatusPending.
Proof.
  intros Hk [= <- _] Hj%elem_of_take_inv. rewrite elem_of_merge_sort, list_elem_of_filter, elem_of_map_vals in Hj.
  destruct Hj as [[Hp _] [k Hj]]. by rewrite (Hk _ _ Hj).
Qed.

(** A pending job that has left pending is dispatched or ended. *)
Lemma past_pending s s' :
  status_evolves s s' → s = JobStatusPending → s' ≠ JobStatusPending →
  s' = JobStatusDispatched ∨ IsTerminal s' = true.
Proof.
  intros He -> Hp. destruct He as [->|[[Hr Hlt]|[? ?]]]; [done| |right; by apply phase_terminal].
  rewrite phase_pending in Hlt. pose proof (phase_bound s') as Hb.
  destruct (decide (phase s' = 2)) as [H2%phase_running|]; [done|].
  destruct (decide (phase s' = 1)) as [H1%phase_dispatched|]; [by left|]. right. apply phase_terminal. lia.
Qed.

Section system.
Context `{UuidLib} `{PgxLib} `{Collation} `{CryptoLib} `{FieldsJson} `{HashLib} `{JwtLib} `{BcryptLib}
  `{NetLib} `{OsEnv} `{CronLib} `{PgxPool}.
Context `{JsonDecode Jobs.CreateJobBody} `{JsonDecode (list JobLogLine)}
  `{JsonDecode Jobs.ResultBody}.
Context `{JsonDecode LoginBody} `{JsonDecode NameBody} `{JsonDecode RegisterBody}
  `{JsonDecode Types.AgentHeartbeat}.
Context `{JsonDecode Resources.CreateTemplateBody} `{JsonDecode Resources.UpdateTemplateBody}
  `{JsonDecode Resources.ProjectBody} `{JsonDecode Resources.CreateScheduleBody}
  `{JsonDecode Resources.UpdateScheduleBody} `{JsonDecode Resources.CredentialBody}
  `{JsonDecode Resources.WorkflowBody} `{JsonDecode Resources.UpdateWorkflowBody}
  `{JsonDecode Resources.NoteBody}.

(** Every job ends.  A job that a tick fetches, with a database that answers,
    has left pending after it; then let any number of controllers, API servers and
    requests do whatever they do, the agent included; the next tick that runs
    undisturbed after the dispatch timeout since the last change of the job
    leaves it in a terminal status, whether or not its agent has ever answered. *)
Lemma every_job_ends key key2 cfg cfg2 a ans w jobs db' j w2 ts ans2 :
  db_ok (w_db w) → Forall faultless (a :: ans) →
  GetPendingJobs_sql (answer_tx a (w_now w + Z.of_N (an_elapsed a))) (w_db w) = Ok (jobs, db') → j ∈ jobs →
  reachable (exec (@tick _ (controller_SecretsProvider key) _ _ cfg) (a :: ans) w).2.2 (w2, ts) →
  Forall undisturbed ans2 →
  (∀ j2, db_jobs (w_db w2) !! Job_ID j = Some j2 →
     (Job_UpdatedAt j2 < w_now w2 - Config_DispatchTimeout cfg2)%Z) →
  ∃ j3, db_jobs (w_db (exec (@tick _ (controller_SecretsProvider key2) _ _ cfg2) ans2 w2).2.2) !! Job_ID j = Some j3 ∧
    IsTerminal (Job_Status j3) = true.
Proof.
  intros Hok Ha Hq Hin Hr Ha2 Htime.
  destruct (pending_stored _ _ _ _ _ (k_jobs _ Hok) Hq Hin) as [Hj Hp].
  pose proof (tick_takes key cfg a ans w jobs db' j Ha Hq Hin) as Hnp.
  set (w1 := (exec _ (a :: ans) w).2.2) in *.
  assert (db_evolves (w_db w) (w_db w1)) as He1.
  { apply exec_respects; [apply _|]. apply tick_events; [apply _..|].
    split; intros; [apply claim_evolves|by apply fail_evolves]. }
  assert (db_ok (w_db w1)) as Hok1.
  { apply (exec_respects (keeps db_ok)); [|done]. apply tick_events; [apply _..|].
    split; intros; [apply claim_ok|apply fail_ok]. }
  assert (db_ok (w_db w2)) as Hok2
    by (by apply (reachable_respects (keeps db_ok) w1 (w2, ts)); [apply controller_stmt_ok|apply api_stmt_ok| |]).
  pose proof (reachable_evolves _ _ Hr) as He2. cbn in He2.
  specialize (He1 (Job_ID j)) as Hrow. rewrite Hj in Hrow. destruct Hrow as (j1 & Hj1 & Hev1).
  destruct (evolves_not_pending _ _ _ _ He2 Hj1 (Hnp j1 Hj1)) as (j2 & Hj2 & Hev2 & Hp2).
  apply (tick_ends key2 cfg2 ans2 w2 (Job_ID j) j2 Ha2 Hok2 Hj2).
  destruct (past_pending (Job_Status j) (Job_Status j2)) as [Hd|Ht]; [|done..| |by left].
  - apply evolves_status. by transitivity j1.
  - right. split; [done|by apply Htime].
Qed.
End system.
