(* ===== verification/Queue.v ===== *)
(** * No job waits for ever

    The queue of pending jobs is first in, first out: however many jobs are
    created and whatever else the servers do, a job is taken out of it by one of
    the next ticks, fifty jobs at a time. *)
From S2P Require Import Prelude.
From S2P Require Import Prog.
From S2P Require Import Types.
From S2P Require Import Db.
From S2P Require Import Hoare.
From S2P Require Import ControllerStore.
From S2P Require Import Lifecycle.
From S2P Require Import Selector.
From S2P Require Import Transport.
From S2P Require Import Secrets.
From S2P Require Import Reconciler.
From S2P Require Import ReconcilerFacts.
From S2P Require Import Scheduler.
From S2P Require Import ApiStore.
From S2P Require Import ApiResources.
From S2P Require Import Http.
From S2P Require Import Auth.
From S2P Require Import JobHandlers.
From S2P Require Import ResourceHandlers.
From S2P Require Import Process.
From S2P Require Import Vocab.
From S2P Require Import Refinement.
From S2P Require Import System.
From S2P Require Import Integrity.
From S2P Require Import Liveness.

(** ** The queue *)

(** The jobs that wait and were created at the time [t] or before. *)
Definition waiting (t : Time) (db : Db) : gset uuid :=
  dom (filter (λ ij, Job_Status ij.2 = JobStatusPending ∧ (Job_CreatedAt ij.2 <= t)%Z) (db_jobs db)).

Lemma elem_of_waiting t db i :
  i ∈ waiting t db ↔
  ∃ j, db_jobs db !! i = Some j ∧ Job_Status j = JobStatusPending ∧ (Job_CreatedAt j <= t)%Z.
Proof. unfold waiting. rewrite elem_of_dom. unfold is_Some. setoid_rewrite map_lookup_filter_Some. done. Qed.

(** How the worlds follow each other: the clock goes on, jobs evolve, and those
    that are new were created since. *)
Record later (w w' : World) : Prop := {
  later_now : (w_now w <= w_now w')%Z;
  later_evolves : db_evolves (w_db w) (w_db w');
  later_born : ∀ i j, db_jobs (w_db w) !! i = None → db_jobs (w_db w') !! i = Some j → (w_now w <= Job_CreatedAt j)%Z;
}.

#[export] Instance later_preorder : PreOrder later.
Proof.
  split; [intros w; split; [done|reflexivity|congruence]|]. intros w1 w2 w3 [N1 E1 B1] [N2 E2 B2].
  split; [lia|by etransitivity|]. intros i j H1 H3. destruct (db_jobs (w_db w2) !! i) as [j2|] eqn:H2.
  - specialize (E2 i). rewrite H2 in E2. destruct E2 as (j3 & H3' & He). rewrite H3 in H3'. injection H3' as <-.
    rewrite (evolves_CreatedAt _ _ He). eauto.
  - specialize (B2 i j H2 H3). lia.
Qed.

(** Nobody joins those who wait. *)
Lemma later_waiting t w w' : later w w' → (t < w_now w)%Z → waiting t (w_db w') ⊆ waiting t (w_db w).
Proof.
  intros [_ He Hb] Ht i (j' & Hj' & Hp & Hle)%elem_of_waiting. apply elem_of_waiting.
  destruct (db_jobs (w_db w) !! i) as [j|] eqn:Hj; [|specialize (Hb i j' Hj Hj'); lia].
  specialize (He i) as Hi. rewrite Hj in Hi. destruct Hi as (j1 & Hj1 & Hev). rewrite Hj' in Hj1. injection Hj1 as <-.
  exists j. split; [done|]. rewrite <-(evolves_CreatedAt _ _ Hev). split; [|done].
  destruct (decide (Job_Status j = JobStatusPending)) as [|Hn]; [done|].
  destruct (evolves_not_pending _ _ _ _ He Hj Hn) as (j2 & Hj2 & _ & Hn2). rewrite Hj' in Hj2. by injection Hj2 as <-.
Qed.

(** What respects [later]: statements that only evolve jobs and create them now. *)
Definition stmt_later {X} (st : Stmt X) : Prop :=
  stmt_respects db_evolves st ∧
  ∀ tx db x db' i j, st tx db = Ok (x, db') → db_jobs db !! i = None → db_jobs db' !! i = Some j →
    (tx_now tx <= Job_CreatedAt j)%Z.

Definition ev_later (X : Type) (e : Ev X) : Prop := match e with Sql st => stmt_later st | _ => True end.

Lemma perform_later X a (e : Ev X) w : ev_later X e → later w (perform X a e w).2.
Proof.
  intros He. assert (∀ now sent, (w_now w <= now)%Z → later w (MkWorld (w_db w) now sent)) as Hsame
    by (intros now sent Hn; split; cbn; [done|reflexivity|congruence]).
  destruct e as [X st| | | | | | | ]; cbn; try (apply Hsame; lia).
  destruct (an_fault a); [apply Hsame; lia|]. destruct (st _ _) as [[x db']|e] eqn:Hst; [|apply Hsame; lia].
  destruct He as [Hev Hb]. split; cbn; [lia|by eapply Hev|]. intros i j Hi Hj.
  specialize (Hb _ _ _ _ i j Hst Hi Hj). cbn in Hb. lia.
Qed.

Lemma exec_later {A} (p : prog Ev A) ans w : all_events ev_later p → later w (exec p ans w).2.2.
Proof. intros Hp. apply (run_respects _ _ later ev_later); [apply perform_later|done]. Qed.

Section vocab.
Context `{UuidLib} `{PgxLib}.

Lemma writes_later X (st : Stmt X) : stmt_respects same_jobs st ∨ jobs_stmt X st → stmt_later st.
Proof.
  intros Hs. split; [by apply writes_evolve|]. intros tx db x db' i j Hst Hi Hj.
  rewrite (jobs_stmt_born X st tx db x db' i j Hs Hst Hi Hj). lia.
Qed.

Lemma issues_later {A} V (p : prog Ev A) :
  (∀ X (st : Stmt X), V X st → stmt_respects same_jobs st ∨ jobs_stmt X st) →
  all_events (issues V) p → all_events ev_later p.
Proof. intros HV. apply all_events_impl. intros X e. destruct e; simpl; try done. intros Hs. by apply writes_later, HV. Qed.
End vocab.

(** A relation that implies it. *)
Definition no_births (db db' : Db) : Prop := db_evolves db db' ∧ ∀ i, db_jobs db !! i = None → db_jobs db' !! i = None.

#[export] Instance no_births_preorder : PreOrder no_births.
Proof.
  split; [by split|]. intros d1 d2 d3 [E1 N1] [E2 N2]. split; [by etransitivity|eauto].
Qed.

Lemma no_births_later X (e : Ev X) : ev_respects no_births X e → ev_later X e.
Proof.
  destruct e as [X st| | | | | | | ]; cbn; try done. intros Hs. split.
  - intros tx db x db' Hst. by destruct (Hs _ _ _ _ Hst).
  - intros tx db x db' i j Hst Hi Hj. destruct (Hs _ _ _ _ Hst) as [_ Hn]. rewrite Hn in Hj by done. done.
Qed.

Lemma TransitionJob_no_births id from to a r :
  stmt_respects db_evolves (TransitionJob_sql id from to a r) →
  stmt_respects no_births (TransitionJob_sql id from to a r).
Proof.
  intros He tx db b db' Hs. split; [by eapply He|]. intros i Hi.
  pose proof (TransitionJob_sql_cases id from to a r tx db) as Hc. rewrite Hs in Hc.
  destruct b; [|by destruct Hc as [-> _]]. destruct Hc as (j0 & Hj0 & _ & _ & ->). cbn.
  rewrite lookup_insert_ne; [done|]. intros ->. congruence.
Qed.

(** ** A tick *)

Section tick.
Context `{UuidLib} `{CryptoLib} `{FieldsJson} `{NetLib}.
Context (key : bytes) (cfg : Reconciler.Config).
#[local] Instance sp : SecretsProvider := controller_SecretsProvider key.

Lemma tick_later_events : all_events ev_later (tick cfg).
Proof.
  eapply all_events_impl; [intros X e; apply no_births_later|]. apply tick_events; [apply _|].
  split; intros; apply TransitionJob_no_births; [apply claim_evolves|by apply fail_evolves].
Qed.

(** The jobs that are returned are as many as their identifiers. *)
Lemma ids_size (l : list Job) db :
  NoDup l → (∀ j, j ∈ l → db_jobs db !! Job_ID j = Some j) →
  size (list_to_set (Job_ID <$> l) : gset uuid) = length l.
Proof.
  intros Hnd Hl. rewrite size_list_to_set, length_fmap; [done|].
  apply NoDup_fmap_2_strong; [|done]. intros x y Hx%Hl Hy%Hl E. rewrite E in Hx. congruence.
Qed.

(** A tick takes a waiting job out of the queue, or fifty others that are not
    newer. *)
Lemma tick_advances a ans w id j :
  Forall undisturbed (a :: ans) → db_ok (w_db w) → db_jobs (w_db w) !! id = Some j →
  Job_Status j = JobStatusPending → (Job_CreatedAt j < w_now w)%Z →
  let w' := (exec (tick cfg) (a :: ans) w).2.2 in
  not_pending id (w_db w') ∨
  size (waiting (Job_CreatedAt j) (w_db w')) + 50 <= size (waiting (Job_CreatedAt j) (w_db w)).
Proof.
  intros Ha Hok Hj Hp Ht w'. set (t := Job_CreatedAt j).
  set (tx := answer_tx a (w_now w + Z.of_N (an_elapsed a))).
  destruct (GetPendingJobs_sql tx (w_db w)) as [[l db']|] eqn:Hq; [|done].
  pose proof (GetPendingJobs_fifo tx (w_db w) l db' (k_jobs _ Hok) Hq) as (_ & _ & Hnd & _ & Hl & Hout).
  assert (∀ i, i ∈ l → not_pending (Job_ID i) (w_db w')) as Htaken
    by (intros i Hi; apply (tick_takes key cfg a ans w l db' i); [by apply undisturbed_faultless|done|done]).
  destruct (decide (id ∈ Job_ID <$> l)) as [(i & -> & Hi)%list_elem_of_fmap|Hn]; [left; by apply Htaken|right].
  destruct (Hout id j Hj Hp) as [Hlen Hold];
    [|intros Hin; apply Hn, list_elem_of_fmap; exists j; by rewrite (k_jobs _ Hok _ _ Hj)|].
  { apply Forall_cons in Ha as [[_ Hlock] _]. unfold unlocked. cbn. rewrite Hlock. set_solver. }
  set (taken := list_to_set (Job_ID <$> l) : gset uuid).
  assert (size taken = 50) as Hsize.
  { rewrite <-Hlen. apply (ids_size l (w_db w)); [done|]. intros i Hi. by destruct (Hl i Hi). }
  assert (taken ⊆ waiting t (w_db w)) as Hsub.
  { intros i Hi. apply elem_of_list_to_set, list_elem_of_fmap in Hi as (k & -> & Hk).
    destruct (Hl k Hk) as (Hs & Hpk & _). apply elem_of_waiting. exists k. split_and!; [done|done|by apply Hold]. }
  assert (waiting t (w_db w') ⊆ waiting t (w_db w) ∖ taken) as Hrest.
  { apply subseteq_difference_r.
    - intros i Hi Hi'. apply elem_of_list_to_set, list_elem_of_fmap in Hi' as (k & -> & Hk).
      apply elem_of_waiting in Hi as (k' & Hk' & Hpk & _). by apply (Htaken k Hk k').
    - apply later_waiting; [|done]. apply exec_later, tick_later_events. }
  apply subseteq_size in Hrest. rewrite size_difference in Hrest by done.
  apply subseteq_size in Hsub. lia.
Qed.
End tick.

(** ** Rounds of the servers *)

Section system.
Context `{UuidLib} `{PgxLib} `{Collation} `{CryptoLib} `{FieldsJson} `{HashLib} `{JwtLib} `{BcryptLib}
  `{NetLib} `{OsEnv} `{CronLib} `{PgxPool}.
Context `{JsonDecode Jobs.CreateJobBody} `{JsonDecode (list JobLogLine)}
  `{JsonDecode Jobs.ResultBody}.
Context `{JsonDecode LoginBody} `{JsonDecode NameBody} `{JsonDecode RegisterBody}
  `{JsonDecode Types.AgentHeartbeat}.
Context `{JsonDecode Resources.CreateTemplateBody} `{JsonDecode Resources.UpdateTemplateBody}
  `{JsonDecode Resources.ProjectBody} `{JsonDecode Resources.CreateScheduleBody}
  `{JsonDecode Resources.UpdateScheduleBody} `{JsonDecode Resources.CredentialBody}
  `{JsonDecode Resources.WorkflowBody} `{JsonDecode Resources.UpdateWorkflowBody}
  `{JsonDecode Resources.NoteBody}.


Lemma Spawned_later p : Spawned p → all_events ev_later p.
Proof.
  intros [(key & cfg & interval & events & ->)|[Hi|Hi]]%Spawned_cases.
  - apply all_events_ignore, all_events_with_ticker. intros _. apply tick_later_events.
  - eapply issues_later, Hi. apply controller_stmt_jobs.
  - eapply issues_later, Hi. apply api_stmt_jobs.
Qed.

(** [n] times: the servers do anything, then a tick of some controller runs
    undisturbed; then anything again. *)
Inductive rounds : nat → relation (World * list (prog Ev unit)) :=
| rounds_O s s' : sys_reach perform Spawned time_passes s s' → rounds 0 s s'
| rounds_S n s w ts key cfg a ans s' :
    sys_reach perform Spawned time_passes s (w, ts) → Forall undisturbed (a :: ans) →
    rounds n ((exec (@tick _ (controller_SecretsProvider key) _ _ cfg) (a :: ans) w).2.2, ts) s' →
    rounds (S n) s s'.

(** The integrity of the database, and threads that keep it. *)
Record settled (s : World * list (prog Ev unit)) : Prop := {
  settled_db : db_ok (w_db s.1);
  settled_later : Forall (all_events ev_later) s.2;
  settled_ok : Forall (all_events (ev_respects (keeps db_ok))) s.2;
}.

Lemma settled_reach s s' :
  sys_reach perform Spawned time_passes s s' → settled s → settled s' ∧ later s.1 s'.1.
Proof.
  intros Hr [Hdb Hl Hok].
  assert (∀ p, Spawned p → all_events (ev_respects (keeps db_ok)) p) as Hspawn
    by (intros p; by apply Spawned_respects; [apply _|apply controller_stmt_ok|apply api_stmt_ok]).
  split; [split|].
  - assert (on_db (keeps db_ok) s.1 s'.1) as Hk; [|by apply Hk].
    apply (sys_respects perform Spawned time_passes (on_db (keeps db_ok)) (ev_respects (keeps db_ok)) s s'); try done.
    + intros X a e w' He. by apply (perform_respects (keeps db_ok)).
    + intros w1 w2 (E & _ & _). red. by rewrite E.
  - apply (sys_threads perform Spawned time_passes ev_later s s'); [apply Spawned_later|done..].
  - by apply (sys_threads perform Spawned time_passes _ s s').
  - apply (sys_respects perform Spawned time_passes later ev_later s s'); try done.
    + intros X a e w'. apply perform_later.
    + apply Spawned_later.
    + intros w1 w2 (E & _ & Hn). split; rewrite ?E; [done|reflexivity|congruence].
Qed.

Lemma settled_tick w ts key cfg ans :
  settled (w, ts) → let w' := (exec (@tick _ (controller_SecretsProvider key) _ _ cfg) ans w).2.2 in
  settled (w', ts) ∧ later w w'.
Proof.
  intros [Hdb Hl Hok] w'. split; [split; [|done..]|apply exec_later, tick_later_events]. cbn [fst snd] in *.
  apply (exec_respects (keeps db_ok) (@tick _ (controller_SecretsProvider key) _ _ cfg) ans w); [|done]. apply tick_events; [apply _|].
  split; intros; [apply claim_ok|by apply fail_ok].
Qed.

(** The job has left the queue for good. *)
Lemma later_not_pending w w' id j :
  later w w' → db_jobs (w_db w) !! id = Some j → not_pending id (w_db w) →
  ∃ j', db_jobs (w_db w') !! id = Some j' ∧ Job_Status j' ≠ JobStatusPending.
Proof.
  intros Hl Hj Hn. destruct (evolves_not_pending _ _ _ _ (later_evolves _ _ Hl) Hj (Hn j Hj)) as (j' & ? & _ & ?). eauto.
Qed.

Lemma rounds_settled n s s' : rounds n s s' → settled s → settled s' ∧ later s.1 s'.1.
Proof.
  intros Hr. induction Hr as [s s' Hr|n s w ts key cfg a ans s' Hr Ha _ IH]; intros Hs.
  - by apply settled_reach.
  - destruct (settled_reach _ _ Hr Hs) as [Hs1 Hl1]. destruct (settled_tick w ts key cfg (a :: ans) Hs1) as [Hs2 Hl2].
    destruct (IH Hs2) as [Hs3 Hl3]. split; [done|]. etransitivity; [exact Hl1|]. by etransitivity.
Qed.

Lemma rounds_drain n s s' id j :
  rounds n s s' → settled s → db_jobs (w_db s.1) !! id = Some j →
  (Job_CreatedAt j < w_now s.1)%Z → size (waiting (Job_CreatedAt j) (w_db s.1)) <= 50 * n →
  ∃ j', db_jobs (w_db s'.1) !! id = Some j' ∧ Job_Status j' ≠ JobStatusPending.
Proof.
  intros Hr. revert j. induction Hr as [s s' Hr|n s w ts key cfg a ans s' Hr Ha Hrs IH]; intros j Hs Hj Ht Hsize.
  - destruct (settled_reach _ _ Hr Hs) as [_ Hl]. apply (later_not_pending _ _ id j Hl Hj).
    intros k Hk Hp. assert (id ∈ waiting (Job_CreatedAt j) (w_db s.1)) as Hin.
    { apply elem_of_waiting. exists j. rewrite Hj in Hk. injection Hk as <-. done. }
    apply elem_of_subseteq_singleton, subseteq_size in Hin. rewrite size_singleton in Hin. lia.
  - destruct (settled_reach _ _ Hr Hs) as [Hs1 Hl1]. destruct (settled_tick w ts key cfg (a :: ans) Hs1) as [Hs2 Hl2].
    cbn [fst] in *. set (w' := (exec _ (a :: ans) w).2.2) in *.
    specialize (later_evolves _ _ Hl1 id) as He. rewrite Hj in He. destruct He as (j1 & Hj1 & He1).
    pose proof (evolves_CreatedAt _ _ He1) as Hc1.
    destruct (decide (Job_Status j1 = JobStatusPending)) as [Hp|Hn].
    2: { apply (later_not_pending w s'.1 id j1); [|done|intros k Hk; congruence].
         etransitivity; [exact Hl2|]. by apply (rounds_settled _ _ _ Hrs). }
    assert (Job_CreatedAt j1 < w_now w)%Z as Ht1 by (pose proof (later_now _ _ Hl1); rewrite Hc1; lia).
    specialize (later_evolves _ _ Hl2 id) as He. rewrite Hj1 in He. destruct He as (j2 & Hj2 & He2).
    pose proof (evolves_CreatedAt _ _ He2) as Hc2.
    destruct (tick_advances key cfg a ans w id j1 Ha (settled_db _ Hs1) Hj1 Hp Ht1) as [Hn|Hdec].
    + apply (later_not_pending w' s'.1 id j2); [|done..]. by apply (rounds_settled _ _ _ Hrs).
    + apply (IH j2); [done|done|pose proof (later_now _ _ Hl2); cbn; lia|]. cbn [fst].
      pose proof (subseteq_size _ _ (later_waiting (Job_CreatedAt j) _ _ Hl1 Ht)) as Hle. cbn [fst] in Hle.
      rewrite Hc1 in Hdec, Hc2. rewrite Hc2.
      change (exec _ (a :: ans) w).2.2 with w' in Hdec. lia.
Qed.

(** C7: No job waits for ever, whatever is created after it: if at most fifty times
    [n] pending jobs are as old as a job, itself included, then after [n]
    undisturbed ticks of any controllers the job has left pending, whatever the
    controllers and the API servers do before, between and after these ticks. *)
Theorem no_starvation n w s id j :
  db_ok (w_db w) → db_jobs (w_db w) !! id = Some j → (Job_CreatedAt j < w_now w)%Z →
  size (waiting (Job_CreatedAt j) (w_db w)) <= 50 * n → rounds n (w, []) s →
  ∃ j', db_jobs (w_db s.1) !! id = Some j' ∧ Job_Status j' ≠ JobStatusPending.
Proof. intros Hok Hj Ht Hsize Hr. apply (rounds_drain n (w, []) s id j Hr); [by split|done..]. Qed.
End system.
