(* ===== verification/Statuses.v ===== *)
(** * The types of the status columns

    The migrations store every status as TEXT without a CHECK.  [db_typed]: each
    of these columns holds one of the constants of pkg/types, and more precisely
    one of those the programs ever write.  Every statement preserves it. *)
From S2P Require Import Prelude.
From S2P Require Import Prog.
From S2P Require Import Types.
From S2P Require Import Db.
From S2P Require Import Hoare.
From S2P Require Import ControllerStore.
From S2P Require Import Lifecycle.
From S2P Require Import Secrets.
From S2P Require Import Transport.
From S2P Require Import Reconciler.
From S2P Require Import ReconcilerFacts.
From S2P Require Import Scheduler.
From S2P Require Import ApiStore.
From S2P Require Import ApiResources.
From S2P Require Import Http.
From S2P Require Import Auth.
From S2P Require Import JobHandlers.
From S2P Require Import ResourceHandlers.
From S2P Require Import Server.
From S2P Require Import Process.
From S2P Require Import Vocab.
From S2P Require Import Refinement.
From S2P Require Import System.
From S2P Require Import Integrity.

Definition agent_typed (r : AgentRow) : Prop :=
  Agent_Status (AgentRow_Agent r) ∈ [AgentStatusOnline; AgentStatusOffline].
Definition project_typed (p : Project) : Prop :=
  Project_SyncStatus p ∈ [InventorySyncStatusPending; InventorySyncStatusOK; InventorySyncStatusFailed].
Definition job_typed (j : Job) : Prop :=
  Job_Status j ∈ [JobStatusPending; JobStatusDispatched; JobStatusSuccess; JobStatusFailed; JobStatusCancelled].
Definition run_typed (r : WorkflowRun) : Prop := WorkflowRun_Status r = WorkflowRunStatusPending.
Definition approval_typed (a : ApprovalRequest) : Prop :=
  ApprovalRequest_Status a ∈ [ApprovalStatusPending; ApprovalStatusApproved; ApprovalStatusDenied].

Record db_typed (db : Db) : Prop := {
  ty_agents : rows_ok agent_typed (db_agents db);
  ty_projects : rows_ok project_typed (db_projects db);
  ty_jobs : rows_ok job_typed (db_jobs db);
  ty_runs : rows_ok run_typed (db_workflow_runs db);
  ty_approvals : rows_ok approval_typed (db_approval_requests db);
}.

(** ** Rows *)

Section rows.
Context {V : Type} (P : V → Prop).

Lemma rows_delete t k : rows_ok P t → rows_ok P (delete k t).
Proof. intros Ht k' v [_ ?]%lookup_delete_Some. by eapply Ht. Qed.

Lemma rows_filter (Q : uuid * V → Prop) `{!∀ x, Decision (Q x)} t : rows_ok P t → rows_ok P (filter Q t).
Proof. intros Ht k v [? _]%map_lookup_filter_Some. by eapply Ht. Qed.

Lemma rows_fmap (g : V → V) t : (∀ v, P v → P (g v)) → rows_ok P t → rows_ok P (g <$> t).
Proof. intros Hg Ht k v. rewrite lookup_fmap. intros (w & Hw & ->)%fmap_Some_1. by eapply Hg, Ht. Qed.

(** A row that is replaced. *)
Lemma rows_update t k v v0 : rows_ok P t → t !! k = Some v0 → (P v0 → P v) → rows_ok P (<[k := v]> t).
Proof. intros Ht Hk Hv. apply rows_insert; [done|]. by eapply Hv, Ht. Qed.
End rows.

Lemma drop_project_typed now id p : project_typed p → project_typed (drop_project_credential now id p).
Proof. unfold drop_project_credential. by case_decide. Qed.

Lemma terminal_typed j : IsTerminal (Job_Status j) = true → job_typed j.
Proof. rewrite IsTerminal_iff. unfold job_typed. intros Hs. set_solver. Qed.

(** ** Every statement keeps the types *)

Create HintDb typed discriminated.
#[export] Hint Resolve rows_insert rows_alter rows_delete rows_filter rows_fmap drop_project_typed : typed.
#[export] Hint Extern 3 (_ ∈ _) => solve [repeat constructor] : typed.
#[export] Hint Extern 3 (agent_typed _) => red; simpl : typed.
#[export] Hint Extern 3 (project_typed _) => red; simpl : typed.
#[export] Hint Extern 3 (job_typed _) => red; simpl : typed.
#[export] Hint Extern 3 (run_typed _) => red; reflexivity : typed.

(** A statement that leaves the rows of a table alone, or replaces one. *)
Ltac solve_typed :=
  match goal with Hty : db_typed _ |- db_typed _ => destruct Hty; constructor end;
  simpl; try assumption; try (eapply rows_update; [eassumption|eassumption|by intros ?]); eauto 4 with typed.

Section typed.
Context `{UuidLib} `{PgxLib}.

Lemma query_typed {X} (f : Tx → Db → result X) : stmt_respects (keeps db_typed) (query f).
Proof. apply query_respects, _. Qed.

Lemma insert_job_typed t run v : stmt_respects (keeps db_typed) (insert_job_sql t run v).
Proof. intros tx db x db' Hs Hty. unfold insert_job_sql in Hs. inv_stmt. solve_typed. Qed.

Lemma UpdateJobStatus_typed id status reason :
  IsTerminal status = true → stmt_respects (keeps db_typed) (UpdateJobStatus_sql id status None reason).
Proof.
  intros Ht tx db x db' Hs Hty. unfold UpdateJobStatus_sql in Hs. inv_stmt; [|done]. solve_typed.
  apply rows_insert; [done|]. by apply terminal_typed.
Qed.

Lemma transition_typed id from to agent r :
  to ∈ [JobStatusDispatched; JobStatusFailed] → stmt_respects (keeps db_typed) (TransitionJob_sql id from to agent r).
Proof.
  intros Hto tx db b db' Hs Hty. pose proof (TransitionJob_sql_cases id from to agent r tx db) as Hc.
  rewrite Hs in Hc. destruct b; [|by destruct Hc as [-> _]]. destruct Hc as (j & Hj & Hp & Hfk & ->).
  solve_typed. apply rows_insert; [done|]. red. simpl. set_solver.
Qed.

Lemma delete_nodes_typed id db db' : delete_nodes id db = Ok db' → db_typed db → db_typed db'.
Proof. unfold delete_nodes. intros Hs Hty. inv_stmt. solve_typed. Qed.

Lemma insert_node_typed tx id db n db' : insert_node tx id db n = Ok db' → db_typed db → db_typed db'.
Proof. unfold insert_node. intros Hs Hty. inv_stmt. solve_typed. Qed.

Lemma insert_edge_typed id db e db' : insert_edge id db e = Ok db' → db_typed db → db_typed db'.
Proof. unfold insert_edge. intros Hs Hty. inv_stmt. solve_typed. Qed.

Lemma insert_hosts_typed tx p n hosts db db' : insert_hosts tx p n hosts db = Ok db' → db_typed db → db_typed db'.
Proof.
  revert n db. induction hosts as [|h hosts IH]; intros n db Hs Hty; simpl in Hs; [by simplify_eq|].
  apply result_bind_Ok in Hs as (db1 & Hr & Hs). eapply IH; [done|]. inv_stmt. solve_typed.
Qed.

Lemma api_stmt_typed X (st : Stmt X) : api_stmt X st → stmt_respects (keeps db_typed) st.
Proof.
  intros [].
  all: try (eauto using query_typed, insert_job_typed, UpdateJobStatus_typed; fail).
  all: intros tx db x db' Hs Hty.
  all: unfold SetJobFacts_sql in *; autounfold with stmts in Hs; inv_stmt; try done;
    try match goal with
    | H : delete_nodes _ _ = Ok _ |- _ => apply delete_nodes_typed in H; [clear Hty|exact Hty] end;
    try (solve_typed; fail).
  - solve_typed. apply rows_insert; [done|]. red. simpl. set_solver.
  - match goal with H : insert_all _ _ _ = Ok _ |- _ =>
      apply (insert_all_preserves (keeps db_typed)) in H; [by apply H|] end.
    intros n' db1 db2 Hn Hty'. by eapply insert_node_typed.
  - match goal with H : insert_all _ _ _ = Ok _ |- _ =>
      apply (insert_all_preserves (keeps db_typed)) in H; [apply H; solve_typed|] end.
    intros e' db1 db2 He Hty'. by eapply insert_edge_typed.
Qed.

Lemma controller_stmt_typed X (st : Stmt X) : controller_stmt X st → stmt_respects (keeps db_typed) st.
Proof.
  intros [].
  all: try (eauto using query_typed, insert_job_typed; fail).
  1-2: apply transition_typed; set_solver.
  - intros tx db x db' [= <- <-] Hty. solve_typed.
  - intros tx db x db' Hs Hty. unfold UpsertInventoryHosts_sql in Hs. inv_stmt.
    eapply insert_hosts_typed; [done|]. solve_typed.
  - intros tx db x db' [= <- <-] Hty. solve_typed.
Qed.
End typed.

Section system.
Context `{UuidLib} `{PgxLib} `{Collation} `{CryptoLib} `{FieldsJson} `{HashLib} `{JwtLib} `{BcryptLib}
  `{NetLib} `{OsEnv} `{CronLib} `{PgxPool}.
Context `{JsonDecode Jobs.CreateJobBody} `{JsonDecode (list JobLogLine)}
  `{JsonDecode Jobs.ResultBody}.
Context `{JsonDecode LoginBody} `{JsonDecode NameBody} `{JsonDecode RegisterBody}
  `{JsonDecode Types.AgentHeartbeat}.
Context `{JsonDecode Resources.CreateTemplateBody} `{JsonDecode Resources.UpdateTemplateBody}
  `{JsonDecode Resources.ProjectBody} `{JsonDecode Resources.CreateScheduleBody}
  `{JsonDecode Resources.UpdateScheduleBody} `{JsonDecode Resources.CredentialBody}
  `{JsonDecode Resources.WorkflowBody} `{JsonDecode Resources.UpdateWorkflowBody}
  `{JsonDecode Resources.NoteBody}.

(** C30: The status columns are well typed in every state the servers reach: an agent
    is online or offline (never draining), a project's sync is pending, ok or
    failed, a job has one of the statuses of the life cycle other than running, a
    workflow run is pending (none is ever executed), an approval is pending,
    approved or denied. *)
Theorem statuses_typed w s :
  db_typed (w_db w) → reachable w s → db_typed (w_db s.1).
Proof.
  intros Hty Hr.
  by apply (reachable_respects (keeps db_typed) w s); [apply controller_stmt_typed|apply api_stmt_typed| |].
Qed.
End system.
