(* ===== verification/Registry.v ===== *)
(** * The registry of agents

    What becomes of the row of a registered agent: in every interleaving of the
    servers it stays, with the identity the agent registered under, and the agent
    stays online once it has been; nothing runs MarkStaleAgentsOffline. *)
From S2P Require Import Prelude.
From S2P Require Import Prog.
From S2P Require Import Types.
From S2P Require Import Db.
From S2P Require Import Hoare.
From S2P Require Import ControllerStore.
From S2P Require Import Lifecycle.
From S2P Require Import Secrets.
From S2P Require Import Transport.
From S2P Require Import Reconciler.
From S2P Require Import ReconcilerFacts.
From S2P Require Import Scheduler.
From S2P Require Import ApiStore.
From S2P Require Import ApiResources.
From S2P Require Import Http.
From S2P Require Import Auth.
From S2P Require Import JobHandlers.
From S2P Require Import ResourceHandlers.
From S2P Require Import Server.
From S2P Require Import Process.
From S2P Require Import Vocab.
From S2P Require Import Refinement.
From S2P Require Import System.
From S2P Require Import Integrity.

(** What a row of an agent keeps. *)
Record agent_kept (r r' : AgentRow) : Prop := {
  kept_token : AgentRow_TokenHash r' = AgentRow_TokenHash r;
  kept_id : Agent_ID (AgentRow_Agent r') = Agent_ID (AgentRow_Agent r);
  kept_name : Agent_Name (AgentRow_Agent r') = Agent_Name (AgentRow_Agent r);
  kept_address : Agent_Address (AgentRow_Agent r') = Agent_Address (AgentRow_Agent r);
  kept_labels : Agent_Labels (AgentRow_Agent r') = Agent_Labels (AgentRow_Agent r);
  kept_capacity : Agent_Capacity (AgentRow_Agent r') = Agent_Capacity (AgentRow_Agent r);
  kept_registered : Agent_RegisteredAt (AgentRow_Agent r') = Agent_RegisteredAt (AgentRow_Agent r);
  kept_online : Agent_Status (AgentRow_Agent r) = AgentStatusOnline → Agent_Status (AgentRow_Agent r') = AgentStatusOnline;
  kept_heartbeat : is_Some (Agent_LastHeartbeatAt (AgentRow_Agent r)) → is_Some (Agent_LastHeartbeatAt (AgentRow_Agent r'));
}.

#[export] Instance agent_kept_preorder : PreOrder agent_kept.
Proof. split; [by split|]. intros r1 r2 r3 [] []. split; try congruence; auto. Qed.

(** Every row is kept. *)
Definition registry_kept (db db' : Db) : Prop :=
  ∀ id r, db_agents db !! id = Some r → ∃ r', db_agents db' !! id = Some r' ∧ agent_kept r r'.

#[export] Instance registry_kept_preorder : PreOrder registry_kept.
Proof.
  split; [intros db id r Hr; by exists r|]. intros db1 db2 db3 H12 H23 id r Hr.
  destruct (H12 id r Hr) as (r2 & Hr2 & Hk2). destruct (H23 id r2 Hr2) as (r3 & Hr3 & Hk3).
  exists r3. split; [done|]. by etrans.
Qed.

Lemma same_agents db db' : db_agents db' = db_agents db → registry_kept db db'.
Proof. intros E id r Hr. exists r. by rewrite E. Qed.

Section registry.
Context `{UuidLib} `{PgxLib}.

Lemma query_kept {X} (f : Tx → Db → result X) : stmt_respects registry_kept (query f).
Proof. apply query_respects, _. Qed.

Lemma transition_kept id from to agent r : stmt_respects registry_kept (TransitionJob_sql id from to agent r).
Proof.
  intros tx db b db' Hs. pose proof (TransitionJob_sql_cases id from to agent r tx db) as Hc.
  rewrite Hs in Hc. destruct b; [|by destruct Hc as [-> _]]. destruct Hc as (j & _ & _ & _ & ->). by apply same_agents.
Qed.

Lemma delete_nodes_kept id db db' : delete_nodes id db = Ok db' → registry_kept db db'.
Proof. unfold delete_nodes. intros Hs. inv_stmt. by apply same_agents. Qed.

Lemma insert_node_kept tx id db n db' : insert_node tx id db n = Ok db' → registry_kept db db'.
Proof. unfold insert_node. intros Hs. inv_stmt. by apply same_agents. Qed.

Lemma insert_edge_kept id db e db' : insert_edge id db e = Ok db' → registry_kept db db'.
Proof. unfold insert_edge. intros Hs. inv_stmt. by apply same_agents. Qed.

Lemma insert_hosts_kept tx p n hosts db db' : insert_hosts tx p n hosts db = Ok db' → registry_kept db db'.
Proof.
  revert n db. induction hosts as [|h hosts IH]; intros n db Hs; simpl in Hs; [by simplify_eq|].
  apply result_bind_Ok in Hs as (db1 & Hr & Hs). etrans; [|by eapply IH]. inv_stmt. by apply same_agents.
Qed.

Lemma heartbeat_kept id : stmt_respects registry_kept (UpdateAgentHeartbeat_sql id).
Proof.
  intros tx db x db' Hs. unfold UpdateAgentHeartbeat_sql in Hs.
  destruct (db_agents db !! id) as [r|] eqn:Hr; [|by simplify_eq]. injection Hs as _ <-.
  intros id' r' Hr'. cbn. destruct (decide (id' = id)) as [->|Hne].
  - rewrite lookup_insert_eq. eexists. split; [done|]. rewrite Hr in Hr'. injection Hr' as <-. split; done.
  - rewrite lookup_insert_ne by done. by exists r'.
Qed.

Lemma create_agent_kept n a h l c : stmt_respects registry_kept (CreateAgent_sql n a h l c).
Proof.
  intros tx db x db' Hs. unfold CreateAgent_sql in Hs. inv_stmt.
  intros id r Hr. exists r. split; [|done]. cbn. rewrite lookup_insert_ne; [done|]. congruence.
Qed.

Lemma api_stmt_kept X (st : Stmt X) : api_stmt X st → stmt_respects registry_kept st.
Proof.
  intros [].
  all: try (eauto using query_kept, heartbeat_kept, create_agent_kept; fail).
  all: intros tx db x db' Hs.
  all: unfold insert_job_sql, UpdateJobStatus_sql, SetJobFacts_sql in *; autounfold with stmts in Hs; inv_stmt; try done;
    try (by apply same_agents);
    try match goal with
    | Hd : delete_nodes _ _ = Ok _ |- _ => apply delete_nodes_kept in Hd; etrans; [exact Hd|] end;
    try (by apply same_agents).
  - eapply (insert_all_preserves registry_kept); [|eassumption]. intros n db1 db2 Hn. by eapply insert_node_kept.
  - match goal with Hi : insert_all _ _ _ = Ok _ |- _ =>
      apply (insert_all_preserves registry_kept) in Hi; [etrans; [|exact Hi]; by apply same_agents|] end.
    intros e db1 db2 He. by eapply insert_edge_kept.
Qed.

Lemma controller_stmt_kept X (st : Stmt X) : controller_stmt X st → stmt_respects registry_kept st.
Proof.
  intros [].
  all: try (eauto using query_kept, transition_kept; fail).
  all: intros tx db x db' Hs.
  - unfold insert_job_sql in Hs. inv_stmt. by apply same_agents.
  - injection Hs as <- <-. by apply same_agents.
  - unfold UpsertInventoryHosts_sql in Hs. inv_stmt. etrans; [|by eapply insert_hosts_kept]. by apply same_agents.
  - injection Hs as <- <-. by apply same_agents.
Qed.
End registry.

Section system.
Context `{UuidLib} `{PgxLib} `{Collation} `{CryptoLib} `{FieldsJson} `{HashLib} `{JwtLib} `{BcryptLib}
  `{NetLib} `{OsEnv} `{CronLib} `{PgxPool}.
Context `{JsonDecode Jobs.CreateJobBody} `{JsonDecode (list JobLogLine)}
  `{JsonDecode Jobs.ResultBody}.
Context `{JsonDecode LoginBody} `{JsonDecode NameBody} `{JsonDecode RegisterBody}
  `{JsonDecode Types.AgentHeartbeat}.
Context `{JsonDecode Resources.CreateTemplateBody} `{JsonDecode Resources.UpdateTemplateBody}
  `{JsonDecode Resources.ProjectBody} `{JsonDecode Resources.CreateScheduleBody}
  `{JsonDecode Resources.UpdateScheduleBody} `{JsonDecode Resources.CredentialBody}
  `{JsonDecode Resources.WorkflowBody} `{JsonDecode Resources.UpdateWorkflowBody}
  `{JsonDecode Resources.NoteBody}.


(** C14: the registry of agents only grows: whatever any number of controllers and
    API servers do, the row of a registered agent stays, with its identifier, the
    hash of its token, its name, address, labels and capacity as registered; and
    an agent that is stored online stays online for ever, however long ago its
    last heartbeat was. *)
Theorem registry_permanent w s s' id r :
  reachable w s → sys_reach perform Spawned time_passes s s' → db_agents (w_db s.1) !! id = Some r →
  ∃ r', db_agents (w_db s'.1) !! id = Some r' ∧ agent_kept r r'.
Proof.
  intros Hr Hs. apply (between_respects registry_kept w s s'); [apply controller_stmt_kept|apply api_stmt_kept|done|done].
Qed.
End system.
