(* ===== verification/Dormant.v ===== *)
(** * The tables the servers never add to

    Nothing calls CreateUser or AddJobStatusEvent, nothing inserts into
    approval_requests, and no other statement the servers send adds to these
    tables: users, the history of the jobs' statuses and approval requests are
    only read, updated and deleted. *)
From S2P Require Import Prelude.
From S2P Require Import Prog.
From S2P Require Import Types.
From S2P Require Import Db.
From S2P Require Import Hoare.
From S2P Require Import ControllerStore.
From S2P Require Import Lifecycle.
From S2P Require Import Secrets.
From S2P Require Import Transport.
From S2P Require Import Reconciler.
From S2P Require Import ReconcilerFacts.
From S2P Require Import Scheduler.
From S2P Require Import ApiStore.
From S2P Require Import ApiResources.
From S2P Require Import Http.
From S2P Require Import Auth.
From S2P Require Import JobHandlers.
From S2P Require Import ResourceHandlers.
From S2P Require Import Server.
From S2P Require Import Process.
From S2P Require Import Vocab.
From S2P Require Import Refinement.
From S2P Require Import System.
From S2P Require Import Integrity.

(** No row is added. *)
Definition no_new {V} (m m' : gmap uuid V) : Prop := ∀ k, m !! k = None → m' !! k = None.

Record dormant (db db' : Db) : Prop := {
  dormant_users : no_new (db_users db) (db_users db');
  dormant_events : no_new (db_job_status_events db) (db_job_status_events db');
  dormant_approvals : no_new (db_approval_requests db) (db_approval_requests db');
}.

#[export] Instance dormant_preorder : PreOrder dormant.
Proof.
  split; [intros db; by split; intros k|]. intros db1 db2 db3 [] []. split; unfold no_new in *; eauto.
Qed.

Section rows.
Context {V : Type}.
Implicit Types m : gmap uuid V.

Lemma no_new_refl m : no_new m m.
Proof. by intros k. Qed.

Lemma no_new_delete m k : no_new m (delete k m).
Proof. intros k' Hk. apply lookup_delete_None. by right. Qed.

Lemma no_new_filter (Q : uuid * V → Prop) `{!∀ x, Decision (Q x)} m : no_new m (filter Q m).
Proof. intros k Hk. apply map_lookup_filter_None. by left. Qed.

Lemma no_new_fmap (g : V → V) m : no_new m (g <$> m).
Proof. intros k Hk. by rewrite lookup_fmap, Hk. Qed.

Lemma no_new_update m k v v0 : m !! k = Some v0 → no_new m (<[k := v]> m).
Proof. intros Hm k' Hk. rewrite lookup_insert_ne; [done|]. congruence. Qed.

Lemma no_new_empty m m' : m = ∅ → no_new m m' → m' = ∅.
Proof. intros -> Hm. apply map_empty. intros k. apply Hm, lookup_empty. Qed.
End rows.

Create HintDb dormant discriminated.
#[export] Hint Resolve no_new_refl no_new_delete no_new_filter no_new_fmap no_new_update : dormant.

(** A statement that inserts into none of the tables. *)
Ltac solve_dormant := split; simpl; eauto with dormant.

Section dormant.
Context `{UuidLib} `{PgxLib}.

Lemma query_dormant {X} (f : Tx → Db → result X) : stmt_respects dormant (query f).
Proof. apply query_respects, _. Qed.

Lemma transition_dormant id from to agent r : stmt_respects dormant (TransitionJob_sql id from to agent r).
Proof.
  intros tx db b db' Hs. pose proof (TransitionJob_sql_cases id from to agent r tx db) as Hc.
  rewrite Hs in Hc. destruct b; [|by destruct Hc as [-> _]]. destruct Hc as (j & _ & _ & _ & ->). solve_dormant.
Qed.

Lemma delete_nodes_dormant id db db' : delete_nodes id db = Ok db' → dormant db db'.
Proof. unfold delete_nodes. intros Hs. inv_stmt. solve_dormant. Qed.

Lemma insert_node_dormant tx id db n db' : insert_node tx id db n = Ok db' → dormant db db'.
Proof. unfold insert_node. intros Hs. inv_stmt. solve_dormant. Qed.

Lemma insert_edge_dormant id db e db' : insert_edge id db e = Ok db' → dormant db db'.
Proof. unfold insert_edge. intros Hs. inv_stmt. solve_dormant. Qed.

Lemma insert_hosts_dormant tx p n hosts db db' : insert_hosts tx p n hosts db = Ok db' → dormant db db'.
Proof.
  revert n db. induction hosts as [|h hosts IH]; intros n db Hs; simpl in Hs; [by simplify_eq|].
  apply result_bind_Ok in Hs as (db1 & Hr & Hs). etrans; [|by eapply IH]. inv_stmt. solve_dormant.
Qed.

Lemma api_stmt_dormant X (st : Stmt X) : api_stmt X st → stmt_respects dormant st.
Proof.
  intros [].
  all: try (apply query_dormant).
  all: intros tx db x db' Hs.
  all: unfold insert_job_sql, UpdateJobStatus_sql, SetJobFacts_sql, UpdateAgentHeartbeat_sql in *;
    autounfold with stmts in Hs; inv_stmt; try done; try (by solve_dormant);
    try match goal with
    | Hd : delete_nodes _ _ = Ok _ |- _ => apply delete_nodes_dormant in Hd; etrans; [exact Hd|] end;
    try (by solve_dormant).
  - eapply (insert_all_preserves dormant); [|eassumption]. intros n db1 db2 Hn. by eapply insert_node_dormant.
  - match goal with Hi : insert_all _ _ _ = Ok _ |- _ =>
      apply (insert_all_preserves dormant) in Hi; [etrans; [|exact Hi]; solve_dormant|] end.
    intros e db1 db2 He. by eapply insert_edge_dormant.
Qed.

Lemma controller_stmt_dormant X (st : Stmt X) : controller_stmt X st → stmt_respects dormant st.
Proof.
  intros [].
  all: try (eauto using query_dormant, transition_dormant; fail).
  all: intros tx db x db' Hs.
  - unfold insert_job_sql in Hs. inv_stmt. solve_dormant.
  - injection Hs as <- <-. solve_dormant.
  - unfold UpsertInventoryHosts_sql in Hs. inv_stmt. etrans; [|by eapply insert_hosts_dormant]. solve_dormant.
  - injection Hs as <- <-. solve_dormant.
Qed.
End dormant.

Section system.
Context `{UuidLib} `{PgxLib} `{Collation} `{CryptoLib} `{FieldsJson} `{HashLib} `{JwtLib} `{BcryptLib}
  `{NetLib} `{OsEnv} `{CronLib} `{PgxPool}.
Context `{JsonDecode Jobs.CreateJobBody} `{JsonDecode (list JobLogLine)}
  `{JsonDecode Jobs.ResultBody}.
Context `{JsonDecode LoginBody} `{JsonDecode NameBody} `{JsonDecode RegisterBody}
  `{JsonDecode Types.AgentHeartbeat}.
Context `{JsonDecode Resources.CreateTemplateBody} `{JsonDecode Resources.UpdateTemplateBody}
  `{JsonDecode Resources.ProjectBody} `{JsonDecode Resources.CreateScheduleBody}
  `{JsonDecode Resources.UpdateScheduleBody} `{JsonDecode Resources.CredentialBody}
  `{JsonDecode Resources.WorkflowBody} `{JsonDecode Resources.UpdateWorkflowBody}
  `{JsonDecode Resources.NoteBody}.



(** C31: no history of a job's statuses is ever recorded, no approval is ever asked
    for and no user is ever created: in every interleaving of any number of
    controllers and API servers the tables job_status_events, approval_requests
    and users gain no row, so that those that were empty stay empty. *)
Theorem nothing_recorded w s :
  reachable w s →
  dormant (w_db w) (w_db s.1) ∧
  (db_job_status_events (w_db w) = ∅ → db_job_status_events (w_db s.1) = ∅) ∧
  (db_approval_requests (w_db w) = ∅ → db_approval_requests (w_db s.1) = ∅).
Proof.
  intros Hr. assert (dormant (w_db w) (w_db s.1)) as Hd.
  { apply (reachable_respects dormant w s); [apply controller_stmt_dormant|apply api_stmt_dormant|done]. }
  split; [done|]. destruct Hd as [_ He Ha]. split; intros Hm; by eapply no_new_empty.
Qed.
End system.
