(* ===== verification/Platform.v ===== *)
(** * Servers and agents together

    Controllers, API servers and the listeners of any number of agents, in every
    interleaving.  A dispatch request a controller has sent reaches the agent at
    its address at most once, or gets lost; agents start, and stop or crash, at
    any time, which loses what they were doing.  Dispatches come from
    controllers only: the listener does not authenticate its clients. *)
From S2P Require Import Prelude.
From S2P Require Import Prog.
From S2P Require Import Types.
From S2P Require Import Db.
From S2P Require Import ControllerStore.
From S2P Require Import Lifecycle.
From S2P Require Import Token.
From S2P Require Import Secrets.
From S2P Require Import Transport.
From S2P Require Import Scheduler.
From S2P Require Import ApiStore.
From S2P Require Import ApiResources.
From S2P Require Import Http.
From S2P Require Import Auth.
From S2P Require Import JobHandlers.
From S2P Require Import ResourceHandlers.
From S2P Require Import Process.
From S2P Require Import System.
From S2P Require Import AgentInventory.
From S2P Require Import AgentRunner.
From S2P Require Import AgentServer.
From S2P Require Import AgentServerFacts.

(** The servers, the agents by their address, the dispatch requests (as indices
    of the requests sent) that have reached their agent, and the history: the
    jobs started and the jobs reported, with the address of the agent. *)
Record Platform := MkPlatform {
  pl_sys : World * list (prog Ev unit);
  pl_agents : gmap string Server;
  pl_delivered : gset nat;
  pl_started : list (string * uuid);
  pl_reported : list (string * uuid);
}.

(** The job a step of an agent starts, or reports. *)
Definition starts_job (s : Server) (act : Act) : option uuid :=
  match act with
  | Go t _ _ => match srv_threads s !! t with Some (AtCount p _) => Some (JobPayload_JobID p) | _ => None end
  | _ => None
  end.

Definition reports_job (s : Server) (act : Act) : option uuid :=
  match act with
  | Go t _ _ => match srv_threads s !! t with Some (AtReport p _ _) => Some (JobPayload_JobID p) | _ => None end
  | _ => None
  end.

Definition record (addr : string) (id : option uuid) (h : list (string * uuid)) : list (string * uuid) :=
  h ++ match id with Some id => [(addr, id)] | None => [] end.

Lemma elem_of_record a o h b x : (b, x) ∈ record a o h ↔ (b, x) ∈ h ∨ (b = a ∧ o = Some x).
Proof.
  unfold record. rewrite elem_of_app. destruct o as [id|].
  - rewrite list_elem_of_singleton. naive_solver.
  - rewrite elem_of_nil. naive_solver.
Qed.


(** ** What happens at most once for each job *)

(** The goroutine [t] of the agent at [a] holds the right of the job [id]. *)
Definition holding (holds : Thread → option uuid) (ags : gmap string Server) (a : string) (t : nat) (id : uuid)
    : Prop :=
  (s ← ags !! a; th ← srv_threads s !! t; holds th) = Some id.

(** The right of a job is with the agent the job was sent to; one goroutine holds
    it, or it is used up, once. *)
Record once (holds : Thread → option uuid) (ags : gmap string Server) (used : list (string * uuid))
    (sent : string → uuid → Prop) : Prop := {
  once_held : ∀ a t id, holding holds ags a t id → sent a id;
  once_used : ∀ a id, (a, id) ∈ used → sent a id;
  once_one : ∀ a1 t1 a2 t2 id, holding holds ags a1 t1 id → holding holds ags a2 t2 id → a1 = a2 ∧ t1 = t2;
  once_excl : ∀ a t id, holding holds ags a t id → id ∉ used.*2;
  once_nodup : NoDup used.*2;
}.

Section once.
Context (holds : Thread → option uuid).
Implicit Types (ags : gmap string Server) (sent : string → uuid → Prop).

(** No goroutine gains a right. *)
Lemma once_keep ags ags' used sent sent' :
  once holds ags used sent → (∀ a id, sent a id → sent' a id) →
  (∀ a t id, holding holds ags' a t id → holding holds ags a t id) → once holds ags' used sent'.
Proof. intros [H1 H2 H3 H4 H5] Hs Hk. split; eauto. Qed.

(** A goroutine uses its right. *)
Lemma once_use ags ags' used sent a t id :
  once holds ags used sent → holding holds ags a t id →
  (∀ a' t' id', holding holds ags' a' t' id' → holding holds ags a' t' id' ∧ (a', t') ≠ (a, t)) →
  once holds ags' (used ++ [(a, id)]) sent.
Proof.
  intros [H1 H2 H3 H4 H5] Hh Hk. split.
  - intros a' t' id' [Hx _]%Hk. eauto.
  - intros a' id' [Hin|[= -> ->]%list_elem_of_singleton]%elem_of_app; eauto.
  - intros a1 t1 a2 t2 id' [Hx _]%Hk [Hy _]%Hk. eauto.
  - intros a' t' id' [Hx Hne]%Hk. rewrite fmap_app, elem_of_app. intros [Hin|Hin].
    + by eapply H4.
    + cbn in Hin. apply list_elem_of_singleton in Hin as ->.
      destruct (H3 _ _ _ _ _ Hx Hh) as [-> ->]. done.
  - rewrite fmap_app. apply NoDup_app. split; [done|]. split; [|apply NoDup_singleton].
    intros id' Hin [->|[]%elem_of_nil]%elem_of_cons. by eapply H4.
Qed.

(** A right nobody has is given to one goroutine. *)
Lemma once_give ags ags' used sent sent' a t id :
  once holds ags used sent → (∀ a id, sent a id → sent' a id) → sent' a id → (∀ a', ¬ sent a' id) →
  (∀ a' t' id', holding holds ags' a' t' id' → holding holds ags a' t' id' ∨ (a' = a ∧ t' = t ∧ id' = id)) →
  once holds ags' used sent'.
Proof.
  intros [H1 H2 H3 H4 H5] Hs Hs' Hn Hk. split; [..|done].
  - intros a' t' id' [Hx|(-> & -> & ->)]%Hk; eauto.
  - eauto.
  - intros a1 t1 a2 t2 id' [Hx|(-> & -> & ->)]%Hk [Hy|(-> & -> & E)]%Hk; [by eauto|..|done]; subst;
      exfalso; by eapply Hn, H1.
  - intros a' t' id' [Hx|(-> & -> & ->)]%Hk; [eauto|].
    intros ([a1 id1] & -> & Hin)%list_elem_of_fmap. apply (Hn a1). by eapply H2.
Qed.
End once.

(** ** The steps of the agents *)

Definition is_dispatch (act : Act) : bool := match act with Receive _ (Ok _) => true | _ => false end.

(** Accepted or to be decided, and not yet started; not yet reported. *)
Definition unstarted (th : Thread) : option uuid :=
  match th with
  | AtCapacityCheck p | AtRegister p | AtCount p _ => Some (JobPayload_JobID p)
  | _ => None
  end.

Definition unreported (th : Thread) : option uuid :=
  match th with
  | AtCapacityCheck p | AtRegister p | AtCount p _ | Executing p _ | AtReport p _ _ => Some (JobPayload_JobID p)
  | _ => None
  end.

Definition held (holds : Thread → option uuid) (s : Server) (t : nat) : option uuid :=
  th ← srv_threads s !! t; holds th.

Lemma holding_insert holds ags a s a' t id :
  holding holds (<[a := s]> ags) a' t id ↔
  (a' = a ∧ held holds s t = Some id) ∨ (a' ≠ a ∧ holding holds ags a' t id).
Proof.
  unfold holding. destruct (decide (a' = a)) as [->|Hne].
  - rewrite lookup_insert_eq. cbn. naive_solver.
  - rewrite lookup_insert_ne by done. naive_solver.
Qed.

Lemma holding_of holds ags a s t id :
  ags !! a = Some s → holding holds ags a t id ↔ held holds s t = Some id.
Proof. unfold holding. by intros ->. Qed.

Section agents.
Context `{UuidLib} `{OsEnv} `{VarsJson} `{FmtLib} `{MapOrder}.

(** What a goroutine holds after a step of its own. *)
Lemma step_held dir s act s' :
  srv_step dir s act = Some s' → is_dispatch act = false →
  (∀ id, held unstarted s' (act_thread act) = Some id →
     held unstarted s (act_thread act) = Some id ∧ starts_job s act = None) ∧
  (∀ id, held unreported s' (act_thread act) = Some id →
     held unreported s (act_thread act) = Some id ∧ reports_job s act = None).
Proof.
  intros Hs Hd. unfold held. destruct act as [u body|u param|u ans h]; cbn in Hs, Hd |- *.
  - case_decide; [|done]. injection Hs as <-. destruct body; [done|]. cbn. by rewrite lookup_delete_eq.
  - case_decide; [|done]. injection Hs as <-. unfold receive_cancel.
    repeat case_match; cbn; by rewrite ?lookup_insert_eq, ?lookup_delete_eq.
  - destruct (srv_threads s !! u) as [[]|]; [..|done]; injection Hs as <-; unfold check_capacity;
      repeat case_match; cbn; by rewrite ?lookup_insert_eq, ?lookup_delete_eq.
Qed.

Lemma starts_held s act id : starts_job s act = Some id → held unstarted s (act_thread act) = Some id.
Proof. unfold starts_job, held. destruct act; cbn; repeat case_match; cbn; congruence. Qed.

Lemma reports_held s act id : reports_job s act = Some id → held unreported s (act_thread act) = Some id.
Proof. unfold reports_job, held. destruct act; cbn; repeat case_match; cbn; congruence. Qed.

(** A step of an agent that no dispatch reaches uses at most the right it holds. *)
Lemma once_agent holds (uses : Server → Act → option uuid) dir ags a s act s' used sent :
  (∀ id, held holds s' (act_thread act) = Some id → held holds s (act_thread act) = Some id ∧ uses s act = None) →
  (∀ id, uses s act = Some id → held holds s (act_thread act) = Some id) →
  ags !! a = Some s → srv_step dir s act = Some s' →
  once holds ags used sent → once holds (<[a := s']> ags) (record a (uses s act) used) sent.
Proof.
  intros Hkeep Huse Ha Hs Ho.
  assert (∀ a' t id, holding holds (<[a := s']> ags) a' t id →
    holding holds ags a' t id ∧ ((a', t) = (a, act_thread act) → uses s act = None)) as Hh.
  { intros a' t id [[-> Ht]|[Hne Ht]]%holding_insert; [|split; [done|by intros [= -> _]]].
    rewrite (holding_of _ _ _ s) by done. destruct (decide (t = act_thread act)) as [->|Hne].
    - destruct (Hkeep _ Ht). done.
    - split; [|by intros [= E]]. revert Ht. unfold held. by rewrite (step_frame _ _ _ _ _ Hs Hne). }
  unfold record. destruct (uses s act) as [id|] eqn:Hu.
  - apply (once_use _ ags _ _ _ _ (act_thread act)); [done|..].
    + rewrite (holding_of _ _ _ s) by done. by apply Huse.
    + intros a' t' id' [Hx Hne]%Hh. split; [done|]. intros E. by apply Hne in E.
  - rewrite app_nil_r. apply (once_keep _ ags _ _ sent); [done|done|]. by intros a' t id [Hx _]%Hh.
Qed.

(** A dispatch that reaches an agent gives one goroutine the right of its job. *)
Lemma dispatch_held (holds : Thread → option uuid) dir s t p s' t' id :
  (∀ q, holds (AtCapacityCheck q) = Some (JobPayload_JobID q)) →
  srv_step dir s (Receive t (Ok p)) = Some s' → held holds s' t' = Some id →
  held holds s t' = Some id ∨ (t' = t ∧ id = JobPayload_JobID p).
Proof.
  intros Hc Hs Ht. destruct (decide (t' = t)) as [->|Hne].
  - right. cbn in Hs. case_decide; [|done]. injection Hs as <-. revert Ht. unfold held, receive_dispatch.
    case_bool_decide; cbn; [by rewrite lookup_delete_eq|]. rewrite lookup_insert_eq. cbn. rewrite Hc. naive_solver.
  - left. revert Ht. unfold held. by rewrite (step_frame _ _ _ _ _ Hs) by done.
Qed.

Lemma once_dispatch holds dir ags a s t p s' used sent sent' :
  (∀ q, holds (AtCapacityCheck q) = Some (JobPayload_JobID q)) →
  ags !! a = Some s → srv_step dir s (Receive t (Ok p)) = Some s' →
  (∀ a id, sent a id → sent' a id) → sent' a (JobPayload_JobID p) → (∀ a', ¬ sent a' (JobPayload_JobID p)) →
  once holds ags used sent → once holds (<[a := s']> ags) used sent'.
Proof.
  intros Hc Ha Hs Hsent Hs' Hn Ho. apply (once_give _ ags _ _ sent _ a t (JobPayload_JobID p)); try done.
  intros a' t' id [[-> Ht]|[Hne Ht]]%holding_insert; [|by left].
  rewrite (holding_of _ _ _ s) by done. by destruct (dispatch_held _ _ _ _ _ _ _ _ Hc Hs Ht) as [?|[-> ->]]; [left|right].
Qed.
End agents.

(** ** The steps of the platform *)

(** A dispatch request for the job was sent to the address and has reached it. *)
Definition sent_to (w : World) (delivered : gset nat) (addr : string) (id : uuid) : Prop :=
  ∃ i p, i ∈ delivered ∧ w_sent w !! i = Some (addr +:+ "/dispatch", Some p) ∧ JobPayload_JobID p = id.

Lemma sent_to_mono w w' dl dl' a id :
  (∀ i m, w_sent w !! i = Some m → w_sent w' !! i = Some m) → dl ⊆ dl' → sent_to w dl a id → sent_to w' dl' a id.
Proof. intros Hw Hdl (i & p & Hi & Hp & Hid). exists i, p. split_and!; [set_solver|by apply Hw|done]. Qed.

Section platform.
Context `{UuidLib} `{PgxLib} `{Collation} `{CryptoLib} `{FieldsJson} `{HashLib} `{JwtLib} `{BcryptLib}
  `{NetLib} `{OsEnv} `{CronLib} `{PgxPool} `{VarsJson} `{FmtLib} `{MapOrder}.
Context `{JsonDecode Jobs.CreateJobBody} `{JsonDecode (list JobLogLine)}
  `{JsonDecode Jobs.ResultBody}.
Context `{JsonDecode LoginBody} `{JsonDecode NameBody} `{JsonDecode RegisterBody}
  `{JsonDecode Types.AgentHeartbeat}.
Context `{JsonDecode Resources.CreateTemplateBody} `{JsonDecode Resources.UpdateTemplateBody}
  `{JsonDecode Resources.ProjectBody} `{JsonDecode Resources.CreateScheduleBody}
  `{JsonDecode Resources.UpdateScheduleBody} `{JsonDecode Resources.CredentialBody}
  `{JsonDecode Resources.WorkflowBody} `{JsonDecode Resources.UpdateWorkflowBody}
  `{JsonDecode Resources.NoteBody}.
(** The working directory of the agent at an address. *)
Context (dir : string → string).

Inductive platform_step : relation Platform :=
| pl_server sys sys' ags dl st rp :
    sys_step perform Spawned time_passes sys sys' →
    platform_step (MkPlatform sys ags dl st rp) (MkPlatform sys' ags dl st rp)
| pl_start sys ags dl st rp addr capacity :   (* an agent starts; what ran there before is gone *)
    platform_step (MkPlatform sys ags dl st rp) (MkPlatform sys (<[addr := New capacity]> ags) dl st rp)
| pl_stop sys ags dl st rp addr :
    platform_step (MkPlatform sys ags dl st rp) (MkPlatform sys (delete addr ags) dl st rp)
| pl_deliver sys ags dl st rp i addr p t s s' :
    w_sent sys.1 !! i = Some (addr +:+ "/dispatch", Some p) → i ∉ dl →
    ags !! addr = Some s → srv_step (dir addr) s (Receive t (Ok p)) = Some s' →
    platform_step (MkPlatform sys ags dl st rp) (MkPlatform sys (<[addr := s']> ags) ({[ i ]} ∪ dl) st rp)
| pl_agent sys ags dl st rp addr act s s' :
    is_dispatch act = false → ags !! addr = Some s → srv_step (dir addr) s act = Some s' →
    platform_step (MkPlatform sys ags dl st rp)
      (MkPlatform sys (<[addr := s']> ags) dl (record addr (starts_job s act) st)
        (record addr (reports_job s act) rp)).

(** The states reached from servers over the world [w] and no agents. *)
Definition platform_reach (w : World) : Platform → Prop :=
  rtc platform_step (MkPlatform (w, []) ∅ ∅ [] []).

(** What holds of each agent: its state is one of an agent no job is dispatched to
    twice at once, and what it runs has been started. *)
Definition agent_ok (started : list (string * uuid)) (addr : string) (s : Server) : Prop :=
  (∃ capacity, srv_reach (dir addr) fresh_ids (New capacity) s) ∧
  ∀ t th id, srv_threads s !! t = Some th → counted th = true → job_of th = Some id → (addr, id) ∈ started.

Record platform_ok (pl : Platform) : Prop := {
  ok_tokens : token_inv (λ _, True) (fit (λ _, True)) (pl_sys pl);
  ok_started : once unstarted (pl_agents pl) (pl_started pl) (sent_to (pl_sys pl).1 (pl_delivered pl));
  ok_reported : once unreported (pl_agents pl) (pl_reported pl) (sent_to (pl_sys pl).1 (pl_delivered pl));
  ok_agents : map_Forall (agent_ok (pl_started pl)) (pl_agents pl);
}.

(** The requests sent are kept, in order. *)
Lemma sys_step_sent sys sys' i m :
  sys_step perform Spawned time_passes sys sys' → w_sent sys.1 !! i = Some m → w_sent sys'.1 !! i = Some m.
Proof.
  intros [w ts k X e f a Hi|w ts p Hp|w w' ts (_ & Hs & _)] Hm; cbn in *; [|done|by rewrite Hs].
  destruct e; cbn; try done; repeat case_match; try done. by apply lookup_app_l_Some.
Qed.

(** The requests that carry one job are one request. *)
Lemma one_request seen fits sys i j id m1 m2 :
  token_inv seen fits sys → w_sent sys.1 !! i = Some m1 → w_sent sys.1 !! j = Some m2 →
  is_payload_for id m1 → is_payload_for id m2 → i = j.
Proof.
  intros (hs & _ & _ & _ & Hinv) Hi Hj Hm1 Hm2. specialize (Hinv id). unfold dispatches, claims in Hinv.
  assert (length (filter (is_payload_for id) (w_sent sys.1)) ≤ 1) as Hle
    by (destruct (db_jobs _ !! id); [case_decide|]; lia).
  eapply (filter_one_lookup (is_payload_for id)); done.
Qed.

(** A request that has not reached its agent is the only one for its job. *)
Lemma undelivered seen fits sys dl i u p :
  token_inv seen fits sys → w_sent sys.1 !! i = Some (u, Some p) → i ∉ dl →
  ∀ a, ¬ sent_to sys.1 dl a (JobPayload_JobID p).
Proof.
  intros Ht Hi Hdl a (j & q & Hj & Hq & Hid). apply Hdl. replace i with j; [done|].
  apply (one_request _ _ sys j i (JobPayload_JobID p) _ _ Ht Hq Hi); unfold is_payload_for; cbn; congruence.
Qed.

Lemma step_counted d s act s' th id :
  srv_step d s act = Some s' → srv_threads s' !! act_thread act = Some th → counted th = true →
  job_of th = Some id →
  starts_job s act = Some id ∨
  ∃ th0, srv_threads s !! act_thread act = Some th0 ∧ counted th0 = true ∧ job_of th0 = Some id.
Proof.
  intros Hs Hth Hc Hj. destruct act as [u body|u param|u ans h]; cbn in Hs, Hth |- *.
  - case_decide; [|done]. injection Hs as <-. revert Hth. unfold receive_dispatch.
    repeat case_match; cbn; rewrite ?lookup_insert_eq, ?lookup_delete_eq; intros ?; by simplify_eq/=.
  - case_decide; [|done]. injection Hs as <-. revert Hth. unfold receive_cancel.
    repeat case_match; cbn; rewrite ?lookup_insert_eq, ?lookup_delete_eq; intros ?; by simplify_eq/=.
  - destruct (srv_threads s !! u) as [[]|]; [..|done]; injection Hs as <-; revert Hth; unfold check_capacity;
      repeat case_match; cbn; rewrite ?lookup_insert_eq, ?lookup_delete_eq; intros ?; simplify_eq/=;
      first [by left|right; eexists; by split_and!].
Qed.

(** The id under which a job is to be registered is free. *)
Lemma agent_fresh ags started sent a s act :
  once unstarted ags started sent → ags !! a = Some s → agent_ok started a s → fresh_ids s act.
Proof.
  intros Ho Ha [(capacity & Hr) Hc]. destruct act as [u body|u param|u ans h]; [done..|]. cbn.
  destruct (srv_threads s !! u) as [[p|p|p ctx|p ctx|p ctx r|p ctx|p ctx|ctx]|] eqn:Hu; try done.
  assert (holding unstarted ags a u (JobPayload_JobID p)) as Hh
    by (rewrite (holding_of _ _ _ s) by done; unfold held; by rewrite Hu).
  destruct (srv_running s !! JobPayload_JobID p) as [c|] eqn:Hrun; [|done]. exfalso.
  apply entries_reach in Hr as [Hsound _ _ _]. apply Hsound in Hrun as (t' & Hruns). unfold runs in Hruns.
  destruct (srv_threads s !! t') as [th|] eqn:Ht'; [|done]. cbn in Hruns.
  assert (held unstarted s t' = Some (JobPayload_JobID p) ∨ counted th = true ∧ job_of th = Some (JobPayload_JobID p))
    as [Hx|[Hx Hj]].
  { unfold held. rewrite Ht'. destruct th; cbn in Hruns |- *; try discriminate; injection Hruns as Hid Hctx; try rewrite Hid; by auto. }
  - rewrite <-(holding_of _ ags a s) in Hx by done. destruct (once_one _ _ _ _ Ho _ _ _ _ _ Hh Hx) as [_ <-].
    rewrite Hu in Ht'. by injection Ht' as <-.
  - apply (once_excl _ _ _ _ Ho _ _ _ Hh). apply list_elem_of_fmap. exists (a, JobPayload_JobID p). split; [done|].
    by apply (Hc t' th).
Qed.

Lemma agent_ok_step ags started sent a s act s' :
  once unstarted ags started sent → ags !! a = Some s → agent_ok started a s →
  srv_step (dir a) s act = Some s' → agent_ok (record a (starts_job s act) started) a s'.
Proof.
  intros Ho Ha Hok Hs. pose proof (agent_fresh _ _ _ _ _ act Ho Ha Hok) as Hf. destruct Hok as [(capacity & Hr) Hc].
  split; [exists capacity; by eapply reach_step|]. intros t th id Hth Hcount Hj. rewrite elem_of_record.
  destruct (decide (t = act_thread act)) as [->|Hne].
  - destruct (step_counted _ _ _ _ _ _ Hs Hth Hcount Hj) as [?|(th0 & ? & ? & ?)]; [by right|left]. by eapply Hc.
  - left. rewrite (step_frame _ _ _ _ _ Hs Hne) in Hth. by eapply Hc.
Qed.

Lemma agent_ok_more a o started b s : agent_ok started b s → agent_ok (record a o started) b s.
Proof.
  intros [Hr Hc]. split; [done|]. intros t th id Hth Hcount Hj. rewrite elem_of_record. left. by eapply Hc.
Qed.

Lemma agents_insert a o started (ags : gmap string Server) s' :
  map_Forall (agent_ok started) ags → agent_ok (record a o started) a s' →
  map_Forall (agent_ok (record a o started)) (<[a := s']> ags).
Proof.
  intros Hags Hs'. apply map_Forall_insert_2; [done|]. intros b s Hb. by apply agent_ok_more, Hags.
Qed.

Lemma platform_ok_step pl pl' : platform_step pl pl' → platform_ok pl → platform_ok pl'.
Proof.
  intros [sys sys' ags dl st rp Hsys|sys ags dl st rp addr capacity|sys ags dl st rp addr
    |sys ags dl st rp i addr p t s s' Hi Hdl Ha Hs|sys ags dl st rp addr act s s' Hd Ha Hs] [Ht Hst Hrp Hag];
    cbn [pl_sys pl_agents pl_delivered pl_started pl_reported] in *.
  - assert (∀ a id, sent_to sys.1 dl a id → sent_to sys'.1 dl a id) as Hmono.
    { intros a id. apply sent_to_mono; [|done]. intros i m. by apply sys_step_sent. }
    split; cbn; [by eapply token_inv_step, Ht| | |done]; by eapply once_keep.
  - assert (∀ holds a t id, holding holds (<[addr := New capacity]> ags) a t id → holding holds ags a t id) as Hk.
    { intros holds a t id [[_ Hx]|[_ ?]]%holding_insert; [|done]. done. }
    split; cbn; [done|by eapply once_keep; eauto..|].
    apply map_Forall_insert_2; [|done]. split; [exists capacity; apply reach_start|done].
  - assert (∀ holds a t id, holding holds (delete addr ags) a t id → holding holds ags a t id) as Hk.
    { intros holds a t id. unfold holding. destruct (decide (a = addr)) as [->|Hne];
        [by rewrite lookup_delete_eq|by rewrite lookup_delete_ne]. }
    split; cbn; [done|by eapply once_keep; eauto..|]. by apply map_Forall_delete.
  - pose proof (undelivered _ _ _ _ _ _ _ Ht Hi Hdl) as Hnew.
    assert (∀ a id, sent_to sys.1 dl a id → sent_to sys.1 ({[ i ]} ∪ dl) a id) as Hmono
      by (intros a id; apply sent_to_mono; [done|set_solver]).
    assert (sent_to sys.1 ({[ i ]} ∪ dl) addr (JobPayload_JobID p)) as Hsent
      by (exists i, p; split; [set_solver|done]).
    split; cbn; [done|by eapply once_dispatch|by eapply once_dispatch|].
    pose proof (agent_ok_step _ _ _ _ _ (Receive t (Ok p)) s' Hst Ha (Hag _ _ Ha) Hs) as Hs'. cbn in Hs'.
    pose proof (agents_insert addr None st ags s' Hag Hs') as Hx. unfold record in Hx. by rewrite app_nil_r in Hx.
  - destruct (step_held _ _ _ _ Hs Hd) as [Hk1 Hk2].
    split; cbn; [done| | |].
    + eapply once_agent; [exact Hk1|apply starts_held|done..].
    + eapply once_agent; [exact Hk2|apply reports_held|done..].
    + apply agents_insert; [done|]. by eapply agent_ok_step; [| |apply Hag|].
Qed.

Lemma platform_ok_start w : w_sent w = [] → platform_ok (MkPlatform (w, []) ∅ ∅ [] []).
Proof.
  intros Hw. assert (∀ holds, once holds ∅ [] (sent_to w ∅)) as Ho.
  { intros holds. split; try (intros *; unfold holding; by rewrite lookup_empty); cbn.
    - by intros a id ?%not_elem_of_nil.
    - by constructor. }
  split; cbn; [by apply token_inv_start|apply Ho|apply Ho|apply map_Forall_empty].
Qed.

Lemma platform_ok_steps pl pl' : rtc platform_step pl pl' → platform_ok pl → platform_ok pl'.
Proof. induction 1 as [|pl1 pl2 pl3 Hstep _ IH]; [done|]. intros Hok. apply IH. by eapply platform_ok_step. Qed.

Lemma platform_reach_ok w pl : w_sent w = [] → platform_reach w pl → platform_ok pl.
Proof. intros Hw Hr. eapply platform_ok_steps, platform_ok_start, Hw. exact Hr. Qed.

(** The servers may run on by themselves. *)
Lemma server_reach sys sys' ags dl st rp :
  sys_reach perform Spawned time_passes sys sys' →
  rtc platform_step (MkPlatform sys ags dl st rp) (MkPlatform sys' ags dl st rp).
Proof.
  intros Hr. induction Hr as [sys|sys1 sys2 sys3 Hs _ IH]; [apply rtc_refl|].
  eapply rtc_l; [by apply pl_server|done].
Qed.

(** So may an agent. *)
Lemma agent_path acts sys ags dl st rp addr s s' :
  Forall (λ act, is_dispatch act = false) acts → ags !! addr = Some s → srv_run (dir addr) acts s = Some s' →
  ∃ st' rp', rtc platform_step (MkPlatform sys ags dl st rp) (MkPlatform sys (<[addr := s']> ags) dl st' rp').
Proof.
  revert ags st rp s. induction acts as [|act acts IH]; intros ags st rp s Hd Ha Hs.
  - injection Hs as <-. rewrite insert_id by done. by exists st, rp.
  - apply Forall_cons in Hd as [Hd Hds]. rewrite srv_run_cons in Hs.
    destruct (srv_step (dir addr) s act) as [s1|] eqn:Hact; [|done]. cbn in Hs.
    destruct (IH (<[addr := s1]> ags) (record addr (starts_job s act) st) (record addr (reports_job s act) rp) s1)
      as (st' & rp' & Hr); [done|apply lookup_insert_eq|done|].
    rewrite insert_insert_eq in Hr. exists st', rp'. eapply rtc_l, Hr. by eapply pl_agent.
Qed.

(** The servers of the platform are in a state they can reach by themselves. *)
Lemma platform_servers w pl : platform_reach w pl → reachable w (pl_sys pl).
Proof.
  intros Hr. assert (reachable w (pl_sys (MkPlatform (w, []) ∅ ∅ [] []))) as Hinit by apply rtc_refl.
  revert Hinit. unfold platform_reach in Hr. induction Hr as [|pl1 pl2 pl3 Hstep _ IH]; [done|].
  intros Hinit. apply IH. clear IH. destruct Hstep; cbn in *; [|done..]. by eapply rtc_r.
Qed.

(** C2: Every job is executed at most once, over all agents and for ever, and by the
    agent it is assigned to: in every interleaving of any number of controllers,
    API servers and agents, whatever requests are lost and whatever stops, no job
    is started twice or reported twice, at most one goroutine of all agents has a
    given job to run or to report, and a job is started only at the address its
    one dispatch request was sent to, an address of the agent to which the job is
    stored as assigned, when it is no longer pending. *)
Theorem job_executed_once w pl :
  w_sent w = [] → platform_reach w pl →
  NoDup (pl_started pl).*2 ∧ NoDup (pl_reported pl).*2 ∧
  (∀ a1 t1 a2 t2 id, holding unreported (pl_agents pl) a1 t1 id → holding unreported (pl_agents pl) a2 t2 id →
     a1 = a2 ∧ t1 = t2) ∧
  ∀ addr id, (addr, id) ∈ pl_started pl →
    (∃ p, (addr +:+ "/dispatch", Some p) ∈ w_sent (pl_sys pl).1 ∧ JobPayload_JobID p = id) ∧
    ∃ j a, db_jobs (w_db (pl_sys pl).1) !! id = Some j ∧ Job_Status j ≠ JobStatusPending ∧
      Job_AgentID j = Some a ∧ has_lived w (pl_sys pl) a addr.
Proof.
  intros Hw Hr. destruct (platform_reach_ok w pl Hw Hr) as [_ [_ Hs2 _ _ Hs5] [_ _ Hr3 _ Hr5] _].
  split_and!; [done|done|done|]. intros addr id Hin. destruct (Hs2 _ _ Hin) as (i & p & _ & Hi & <-).
  apply list_elem_of_lookup_2 in Hi. split; [by exists p|].
  destruct (sent_to_agent w _ _ p Hw (platform_servers w pl Hr) Hi) as (_ & j & a & addr' & Hj & Hp & Ha & Hu & Hl).
  apply append_cancel_r in Hu as ->. by exists j, a.
Qed.

(** C23: A cancel request reaches the job it names and no other: at every agent, in
    every reachable state, it is answered 202 and cancels the context of the
    goroutine that runs that job, which is no other job's context; or it is
    answered 404 and cancels nothing, exactly when no goroutine runs the job. *)
Theorem cancel_reaches_its_job w pl addr s t param id ans h :
  w_sent w = [] → platform_reach w pl → pl_agents pl !! addr = Some s →
  srv_threads s !! t = None → uuid_Parse param = Ok id →
  (∃ t' c s', runs s t' id c ∧ (∀ t2 id2, runs s t2 id2 c → t2 = t') ∧
     srv_run (dir addr) [ReceiveCancel t param; Go t ans h] s = Some s' ∧
     srv_cancelled s' = {[ c ]} ∪ srv_cancelled s ∧ srv_threads s' = srv_threads s ∧
     srv_responses s' = srv_responses s ++ [(t, StatusAccepted)]) ∨
  ((∀ t' c, ¬ runs s t' id c) ∧
   ∃ s', srv_run (dir addr) [ReceiveCancel t param] s = Some s' ∧
     srv_cancelled s' = srv_cancelled s ∧ srv_threads s' = srv_threads s ∧
     srv_responses s' = srv_responses s ++ [(t, StatusNotFound)]).
Proof.
  intros Hw Hr Ha Hfree Hp. destruct (platform_reach_ok w pl Hw Hr) as [_ _ _ Hag].
  destruct (Hag _ _ Ha) as [(capacity & Hreach) _]. by apply (cancel_cases (dir addr) capacity).
Qed.
End platform.
