(* ===== verification/Sharing.v ===== *)
(** * The agent at the grain of host interactions

    [AgentServer] runs a job in one step on a host of its own.  The goroutines of
    an agent share one host, and their files, processes and log lines
    interleave.  Here every interaction of runner.Run is a step, a job learns of
    its cancellation from the contexts the listener cancelled, and the coarse model
    is shown right: its states are the ones reached, and what a job does in its
    directory is what it would do alone.  [Grain] carries both to the platform. *)
From S2P Require Import Prelude.
From S2P Require Import Prog.
From S2P Require Import Types.
From S2P Require Import Text.
From S2P Require Import Paths.
From S2P Require Import AgentInventory.
From S2P Require Import AgentRunner.
From S2P Require Import AgentRunnerFacts.
From S2P Require Import AgentServer.
From S2P Require Import AgentServerFacts.

(** The documented form of an identifier, hexadecimal digits and hyphens: the
    name of a file. *)
Class UuidText `{UuidLib} := { uuid_String_plain : ∀ u, plain (uuid_String u) }.

(** ** The directories of the jobs *)

Lemma is_under_spec d path :
  is_under d path = true ↔ ∃ r, path = d +:+ r ∧ (r = EmptyString ∨ ∃ z, r = String slash z).
Proof.
  unfold is_under. rewrite orb_true_iff, bool_decide_eq_true. split.
  - intros [->|[r ->]%HasPrefix_inv].
    + exists EmptyString. rewrite append_nil_r. auto.
    + exists (String slash r). rewrite <-append_assoc. eauto.
  - intros (r & -> & [->|(z & ->)]).
    + left. by rewrite append_nil_r.
    + right. change (String slash z) with ("/" +:+ z). rewrite append_assoc. apply HasPrefix_app.
Qed.

Lemma is_under_self d : is_under d d = true.
Proof. apply is_under_spec. exists EmptyString. rewrite append_nil_r. auto. Qed.

Lemma is_under_below d x path : is_under (d +:+ String slash x) path = true → is_under d path = true.
Proof.
  intros (r & -> & _)%is_under_spec. apply is_under_spec. exists (String slash x +:+ r).
  rewrite <-append_assoc. eauto.
Qed.

Section dirs.
Context `{!UuidLib} `{!UuidLaws} `{!UuidText}.
Context (workDir : string).

(** The directory of the job with this id. *)
Definition id_dir (id : uuid) : string := filepath_Join [workDir; uuid_String id].

Lemma id_dir_render : ∃ rooted l, clean_list rooted l ∧ ∀ id, id_dir id = render rooted (l ++ [uuid_String id]).
Proof. destruct (Join_dir workDir) as (rooted & l & Hl & Hj). exists rooted, l. split; [done|]. intros id. apply Hj, uuid_String_plain. Qed.

(** A path is in the directory of one job at most. *)
Lemma id_dir_disjoint id1 id2 path :
  is_under (id_dir id1) path = true → is_under (id_dir id2) path = true → id1 = id2.
Proof.
  destruct id_dir_render as (rooted & l & _ & Hd). rewrite !Hd, !render_prefix.
  intros (r1 & -> & Hr1)%is_under_spec (r2 & E & Hr2)%is_under_spec.
  rewrite <-!append_assoc in E. apply append_cancel_l in E.
  apply unsplit_head in E; [|apply uuid_String_plain..|done|done].
  apply (f_equal uuid_Parse) in E. rewrite !uuid_Parse_String in E. by injection E.
Qed.

(** A name joined to the directory is in it. *)
Lemma id_dir_Join id x : plain x → filepath_Join [id_dir id; x] = id_dir id +:+ String slash x.
Proof.
  intros Hx. destruct id_dir_render as (rooted & l & Hl & Hd). rewrite Hd.
  apply (Join_in rooted l (uuid_String id) x); [done|apply uuid_String_plain|done].
Qed.

Lemma id_dir_file id x : plain x → is_under (id_dir id) (filepath_Join [id_dir id; x]) = true.
Proof. intros Hx. rewrite id_dir_Join by done. eapply is_under_below, is_under_self. Qed.
End dirs.

(** ** What an interaction changes on the host *)

(** What becomes of the file at [path], with the contents [old] or absent. *)
Definition file_effect {X} (a : HostAnswer) (e : HostEv X) (path : string) (old : option (Z * string))
    : option (Z * string) :=
  match e with
  | RemoveAll d => if survives a d path then old else None
  | Remove q => match ha_remove a with Ok _ => if bool_decide (path = q) then None else old | Err _ => old end
  | WriteFile q data perm =>
      if bool_decide (path = q) then
        match ha_write a, ha_partial a with
        | Ok _, _ => Some (default perm (fst <$> old), data)
        | Err _, Some part => Some (default perm (fst <$> old), part)
        | Err _, None => old
        end
      else old
  | RunGit _ _ | AwaitPlaybook => match ha_writes a !! path with Some f => Some f | None => old end
  | _ => old
  end.

Lemma write_at_lookup path q data perm files :
  write_at q data perm files !! path =
  if bool_decide (path = q) then Some (default perm (fst <$> files !! path), data) else files !! path.
Proof.
  unfold write_at. case_bool_decide as E; [subst q|by rewrite lookup_insert_ne].
  rewrite lookup_insert_eq. by destruct (files !! path) as [[]|].
Qed.

Lemma host_perform_file {X} (a : HostAnswer) (e : HostEv X) h path :
  h_files (host_perform X a e h).2 !! path = file_effect a e path (h_files h !! path).
Proof.
  destruct e; cbn; try done.
  - rewrite map_lookup_filter. destruct (h_files h !! path) as [f|] eqn:E; cbn; [|by destruct (survives _ _ _)].
    by destruct (survives a path0 path) eqn:Es; [rewrite option_guard_True|rewrite option_guard_False].
  - destruct (ha_remove a) as [[]|er]; cbn.
    + case_bool_decide as E; [subst; by rewrite lookup_delete_eq|by rewrite lookup_delete_ne].
    + done.
  - destruct (ha_write a) as [[]|er]; [|destruct (ha_partial a)]; cbn; rewrite ?write_at_lookup; try done.
    by case_bool_decide.
  - rewrite lookup_union. destruct (ha_writes a !! path); [|by rewrite (left_id_L None _)]. by destruct (h_files h !! path).
  - rewrite lookup_union. destruct (ha_writes a !! path); [|by rewrite (left_id_L None _)]. by destruct (h_files h !! path).
Qed.

(** What an interaction answers does not depend on the host. *)
Lemma host_perform_answer {X} (a : HostAnswer) (e : HostEv X) h1 h2 :
  (host_perform X a e h1).1 = (host_perform X a e h2).1.
Proof. by destruct e. Qed.

(** The paths an interaction names are in the directory. *)
Definition within (d : string) (X : Type) (e : HostEv X) : Prop :=
  match e with
  | MkdirAll q | Remove q | WriteFile q _ _ => is_under d q = true
  | RemoveAll q => q = d
  | _ => True
  end.

Lemma file_effect_elsewhere {X} a (e : HostEv X) d path old :
  within d X e → is_under d path = false → ha_writes a !! path = None → file_effect a e path old = old.
Proof.
  intros He Hp Hw. destruct e; cbn in *; rewrite ?Hw; try done.
  - subst. unfold survives. by rewrite Hp.
  - destruct (ha_remove a); [|done]. case_bool_decide; [congruence|done].
  - case_bool_decide; [congruence|done].
Qed.

(** ** A job alone *)

(** The first interactions of a program, with these answers, on a host of its own. *)
Fixpoint alone {X} (p : prog HostEv X) (us : list HostAnswer) (h : Host) {struct us} : prog HostEv X * Host :=
  match us with
  | [] => (p, h)
  | a :: us =>
      match p with
      | Ret _ => (p, h)
      | Vis e k => alone (k (host_perform _ a e h).1) us (host_perform _ a e h).2
      end
  end.

Lemma alone_snoc {X Y} (p : prog HostEv X) us h (e : HostEv Y) k h1 a :
  alone p us h = (Vis e k, h1) → alone p (us ++ [a]) h = (k (host_perform Y a e h1).1, (host_perform Y a e h1).2).
Proof.
  revert p h. induction us as [|b us IH]; intros p h Hp; cbn in *; [by apply pair_equal_spec in Hp as [-> ->]|].
  destruct p as [x|Z e' k']; [done|]. by apply IH.
Qed.

Lemma alone_done {X} (p : prog HostEv X) us h r h1 :
  alone p us h = (Ret r, h1) → ∃ rest, host_run p us h = (r, (rest, h1)).
Proof.
  unfold host_run. revert p h. induction us as [|a us IH]; intros p h Hp; cbn in Hp.
  - apply pair_equal_spec in Hp as [-> ->]. by exists [].
  - destruct p as [x|Z e k]; [apply pair_equal_spec in Hp as [[= ->] ->]; by exists (a :: us)|].
    destruct (IH _ _ Hp) as (rest & Hr). exists rest. cbn. by destruct (host_perform _ _ _ _).
Qed.

Lemma alone_events {X} P (p : prog HostEv X) us h : all_events P p → all_events P (alone p us h).1.
Proof.
  revert p h. induction us as [|a us IH]; intros p h Hp; [done|]. destruct p as [x|Z e k]; [done|].
  cbn. apply IH, Hp.
Qed.

(** Run keeps to the directory of its job, in the paths it names itself. *)
Section footprint.
Context `{UuidLib} `{!UuidLaws} `{!UuidText} `{OsEnv} `{VarsJson} `{FmtLib} `{MapOrder}.
Context (workDir : string).

Lemma Materialize_within id r creds : all_events (within (id_dir workDir id)) (Materialize (id_dir workDir id) r creds).
Proof.
  revert r. induction creds as [|c creds IH]; intros r; cbn [Materialize]; [done|].
  apply all_events_prog_bind; [|intros [r'|e]; [apply IH|done]]. unfold materialize_one, writeSecret.
  solve_events; by apply id_dir_file.
Qed.

(** What the credentials recorded as written is in the directory. *)
Definition in_dir (id : uuid) (res : result Creds) : Prop :=
  match res with Ok r => Forall (λ q, is_under (id_dir workDir id) q = true) (Creds_written r) | Err _ => True end.

Lemma materialize_one_paths id r c : in_dir id (Ok r) → returns (in_dir id) (materialize_one (id_dir workDir id) r c).
Proof.
  intros Hr. unfold materialize_one, writeSecret.
  repeat case_bool_decide; cbn; try done; intros [[]|e]; cbn; try done; apply Forall_app;
    (split; [done|]); (constructor; [by apply id_dir_file|done]).
Qed.

Lemma Materialize_paths id r creds : in_dir id (Ok r) → returns (in_dir id) (Materialize (id_dir workDir id) r creds).
Proof.
  revert r. induction creds as [|c creds IH]; intros r Hr; cbn [Materialize]; [done|].
  eapply returns_bind; [by apply materialize_one_paths|]. intros [r'|e]; [apply IH|done].
Qed.

Lemma Run_within p : all_events (within (job_dir workDir p)) (Run workDir p).
Proof.
  unfold Run. change (job_dir workDir p) with (id_dir workDir (JobPayload_JobID p)).
  set (id := JobPayload_JobID p). solve_events; [apply is_under_self|..|done].
  unfold run_in. eapply all_events_bind_returns; [apply Materialize_within|apply Materialize_paths; constructor|].
  intros [creds|e] Hc; [|done]. solve_events.
  - unfold run_with, gitClone, writeExtraVars, runPlaybook, WriteInventory. cbv beta iota zeta.
    solve_events; first [exact I|by apply id_dir_file].
  - unfold Cleanup. solve_events. cbn in Hc |- *. rewrite Forall_forall in Hc. auto.
Qed.
End footprint.

(** ** The shared host *)

(** The listener, what each executing job has still to do, and the host. *)
Record Agent := MkAgent {
  ag_srv : Server;
  ag_runs : gmap nat (prog HostEv Result);
  ag_host : Host;
}.

Definition start (capacity : Z) (h : Host) : Agent := MkAgent (New capacity) ∅ h.

(** A step of the listener that neither starts nor runs a job. *)
Definition listens (s : Server) (act : Act) : bool :=
  match act with
  | Go t _ _ => match srv_threads s !! t with Some (AtCount _ _ | Executing _ _) => false | _ => true end
  | _ => true
  end.

Section sharing.
Context `{UuidLib} `{!UuidLaws} `{!UuidText} `{OsEnv} `{VarsJson} `{FmtLib} `{MapOrder}.
Context (workDir : string).
(** What the host may answer to the job with this id. *)
Context (A : uuid → HostAnswer → Prop).

(** The label of a step is the action of the listener's model it stands for, if
    any; the answers in it do not matter. *)
Inductive agent_step : Agent → option Act → Agent → Prop :=
| listener_step srv runs h act srv' :
    listens srv act = true → srv_step workDir srv act = Some srv' →
    agent_step (MkAgent srv runs h) (Some act) (MkAgent srv' runs h)
| job_started srv runs h t p ctx :
    srv_threads srv !! t = Some (AtCount p ctx) →
    agent_step (MkAgent srv runs h) (Some (Go t [] h))
      (MkAgent (start_job t p ctx srv) (<[t := Run workDir p]> runs) h)
| job_step srv runs h t p ctx X (e : HostEv X) k a :
    srv_threads srv !! t = Some (Executing p ctx) → runs !! t = Some (Vis e k) →
    A (JobPayload_JobID p) a → ha_cancelled a = bool_decide (ctx ∈ srv_cancelled srv) →
    agent_step (MkAgent srv runs h) None
      (MkAgent srv (<[t := k (host_perform X a e h).1]> runs) (host_perform X a e h).2)
| job_returned srv runs h t p ctx r :
    srv_threads srv !! t = Some (Executing p ctx) → runs !! t = Some (Ret r) →
    agent_step (MkAgent srv runs h) (Some (Go t [] h)) (MkAgent (finish_run t p ctx r srv) runs h).

(** No job is dispatched twice at once. *)
Definition fresh_step (s s' : Agent) : Prop :=
  ∃ l, agent_step s l s' ∧ match l with Some act => fresh_ids (ag_srv s) act | None => True end.

Definition agent_reach : Agent → Agent → Prop := rtc fresh_step.

(** ** The listener's model is reached *)

(** Each executing job is some way through its run. *)
Definition on_the_way (h0 : Host) (s : Agent) : Prop :=
  ∀ t p ctx, srv_threads (ag_srv s) !! t = Some (Executing p ctx) →
  ∃ us q h1, Forall (A (JobPayload_JobID p)) us ∧ ag_runs s !! t = Some q ∧ alone (Run workDir p) us h0 = (q, h1).

(** The listener's own steps start no job. *)
Lemma listens_executing srv act srv' t p ctx :
  listens srv act = true → srv_step workDir srv act = Some srv' →
  srv_threads srv' !! t = Some (Executing p ctx) → srv_threads srv !! t = Some (Executing p ctx).
Proof.
  intros Hl Hs Ht. destruct (decide (t = act_thread act)) as [->|Hne]; [|by rewrite (step_frame _ _ _ _ _ Hs Hne) in Ht].
  exfalso. destruct act as [u body|u param|u ans h]; cbn in Hl, Hs, Ht.
  - case_decide; [|done]. injection Hs as <-. revert Ht. unfold receive_dispatch.
    repeat case_match; cbn; by rewrite ?lookup_insert_eq, ?lookup_delete_eq.
  - case_decide; [|done]. injection Hs as <-. revert Ht. unfold receive_cancel.
    repeat case_match; cbn; by rewrite ?lookup_insert_eq, ?lookup_delete_eq.
  - destruct (srv_threads srv !! u) as [[]|]; try done; injection Hs as <-; revert Ht; unfold check_capacity;
      repeat case_match; cbn; by rewrite ?lookup_insert_eq, ?lookup_delete_eq.
Qed.

Lemma listens_executing_back srv act srv' t p ctx :
  listens srv act = true → srv_step workDir srv act = Some srv' →
  srv_threads srv !! t = Some (Executing p ctx) → srv_threads srv' !! t = Some (Executing p ctx).
Proof.
  intros Hl Hs Ht. rewrite (step_frame _ _ _ _ _ Hs); [done|]. intros ->.
  destruct act as [u body|u param|u ans h]; cbn in Hl, Hs, Ht.
  - by rewrite decide_False in Hs by (by rewrite Ht).
  - by rewrite decide_False in Hs by (by rewrite Ht).
  - by rewrite Ht in Hl.
Qed.

Lemma on_the_way_step h0 s l s' : agent_step s l s' → on_the_way h0 s → on_the_way h0 s'.
Proof.
  intros Hs Hw t' p' ctx'. destruct Hs as [srv runs h act srv' Hl Hs|srv runs h t p ctx Ht|
    srv runs h t p ctx X e k a Ht Hk Ha _|srv runs h t p ctx r Ht Hk]; cbn [ag_srv ag_runs]; intros Ht'.
  - eapply Hw, listens_executing; eauto.
  - cbn [start_job finish_run goto srv_threads] in Ht'. apply lookup_insert_Some in Ht' as [[<- [= <- <-]]|[Hne Ht']].
    + exists [], (Run workDir p), h0. by rewrite lookup_insert_eq.
    + rewrite lookup_insert_ne by done. by eapply Hw.
  - destruct (Hw _ _ _ Ht') as (us & q & h1 & Hus & Hq & Hal). cbn [ag_runs] in Hq. destruct (decide (t = t')) as [<-|Hne].
    + rewrite Ht in Ht'. injection Ht' as <- <-. rewrite Hk in Hq. injection Hq as <-.
      eexists (us ++ [a]), _, _. rewrite lookup_insert_eq, (alone_snoc _ _ _ _ _ _ a Hal).
      split; [by apply Forall_app; auto|]. by rewrite (host_perform_answer a e h h1).
    + rewrite lookup_insert_ne by done. eauto.
  - cbn [start_job finish_run goto srv_threads] in Ht'. apply lookup_insert_Some in Ht' as [[_ ?]|[Hne Ht']]; [done|]. by eapply Hw.
Qed.

Lemma on_the_way_reach capacity h0 h s : agent_reach (start capacity h) s → on_the_way h0 s.
Proof.
  intros Hr. assert (on_the_way h0 (start capacity h)) as Hi by (intros t p ctx; cbn; by rewrite lookup_empty).
  induction Hr as [|s1 s2 s3 (l & Hs & _) _ IH]; [done|]. apply IH. by eapply on_the_way_step.
Qed.

(** The same action, but for the answers of the host. *)
Definition same_act (act act' : Act) : Prop :=
  match act with Go t _ _ => ∃ ans h, act' = Go t ans h | _ => act' = act end.

Lemma same_act_fresh srv act act' : same_act act act' → fresh_ids srv act → fresh_ids srv act'.
Proof. destruct act; cbn; [by intros ->..|]. by intros (? & ? & ->). Qed.

(** A step is one of the listener's model, or none. *)
Lemma agent_simulates h0 s l s' :
  agent_step s l s' → on_the_way h0 s →
  match l with
  | Some act => ∃ act', same_act act act' ∧ srv_step workDir (ag_srv s) act' = Some (ag_srv s')
  | None => ag_srv s' = ag_srv s
  end.
Proof.
  intros Hs Hw. destruct Hs as [srv runs h act srv' _ Hs|srv runs h t p ctx Ht|srv runs h t p ctx X e k a|
    srv runs h t p ctx r Ht Hk]; cbn [ag_srv].
  - exists act. split; [|done]. destruct act; cbn; eauto.
  - exists (Go t [] h0). split; [by eexists _, _|]. cbn [srv_step]. by rewrite Ht.
  - done.
  - destruct (Hw _ _ _ Ht) as (us & q & h1 & _ & Hq & Hal). cbn [ag_runs] in Hq.
    rewrite Hk in Hq. injection Hq as <-. apply alone_done in Hal as (rest & Hr).
    exists (Go t us h0). split; [by eexists _, _|]. cbn [srv_step]. by rewrite Ht, Hr.
Qed.

(** What holds of the listener's model holds of the listener. *)
Lemma agent_inv (I : Server → Prop) capacity h s :
  I (New capacity) →
  (∀ srv act srv', I srv → fresh_ids srv act → srv_step workDir srv act = Some srv' → I srv') →
  agent_reach (start capacity h) s → I (ag_srv s).
Proof.
  intros Hi Hstep Hr. assert (I (ag_srv s) ∧ on_the_way h s) as [? _]; [|done].
  assert (I (ag_srv (start capacity h)) ∧ on_the_way h (start capacity h)) as Hs
    by (split; [done|by apply (on_the_way_reach capacity h h); constructor]).
  clear Hi. induction Hr as [s|s1 s2 s3 (l & Hs12 & Hl) _ IH]; [done|]. apply IH. destruct Hs as [Hi Hw].
  split; [|by eapply on_the_way_step]. pose proof (agent_simulates _ _ _ _ Hs12 Hw) as Hsim.
  destruct l as [act|]; [|by rewrite Hsim]. destruct Hsim as (act' & Hsame & Hs).
  eapply Hstep; [exact Hi| |exact Hs]. by eapply same_act_fresh.
Qed.

(** The map of running jobs and the goroutines tell the same. *)
Lemma agent_entries capacity h s : agent_reach (start capacity h) s → entries_ok (ag_srv s).
Proof.
  apply agent_inv; [apply (entries_reach workDir capacity); constructor|].
  intros srv act srv'. apply entries_step.
Qed.

(** Running each job in one step on a host of its own loses nothing of the
    listener: when the goroutines of an agent take turns at every single
    interaction with the shared host, and a job learns of its cancellation from
    the contexts that cancel requests cancelled, the listener is still in a
    state that the model of whole runs reaches, so every result about that
    model holds of the agent as it interleaves. *)
Lemma agent_refines capacity h s :
  agent_reach (start capacity h) s → srv_reach workDir fresh_ids (New capacity) (ag_srv s).
Proof.
  apply agent_inv; [constructor|]. intros srv act srv' Hr Hf Hs. by eapply reach_step.
Qed.
End sharing.

(** ** Executing the agent *)

(** A step of the agent, chosen: one of the listener, the start of a job, the
    host's answer to the goroutine of the job with an id, the return of Run. *)
Inductive Move :=
| Listen (act : Act)
| Start (t : nat)
| Answered (t : nat) (id : uuid) (a : HostAnswer)
| Return (t : nat).

#[export] Instance fresh_ids_dec s act : Decision (fresh_ids s act).
Proof. unfold fresh_ids. repeat case_match; apply _. Defined.

Definition move `{UuidLib} `{OsEnv} `{VarsJson} `{FmtLib} `{MapOrder} (workDir : string) (s : Agent) (m : Move)
    : option Agent :=
  match m with
  | Listen act =>
      if listens (ag_srv s) act && bool_decide (fresh_ids (ag_srv s) act)
      then srv' ← srv_step workDir (ag_srv s) act; Some (MkAgent srv' (ag_runs s) (ag_host s))
      else None
  | Start t =>
      match srv_threads (ag_srv s) !! t with
      | Some (AtCount p ctx) =>
          Some (MkAgent (start_job t p ctx (ag_srv s)) (<[t := Run workDir p]> (ag_runs s)) (ag_host s))
      | _ => None
      end
  | Answered t id a =>
      match srv_threads (ag_srv s) !! t, ag_runs s !! t with
      | Some (Executing p ctx), Some (Vis e k) =>
          if bool_decide (JobPayload_JobID p = id) &&
             bool_decide (ha_cancelled a = bool_decide (ctx ∈ srv_cancelled (ag_srv s)))
          then Some (MkAgent (ag_srv s) (<[t := k (host_perform _ a e (ag_host s)).1]> (ag_runs s))
                       (host_perform _ a e (ag_host s)).2)
          else None
      | _, _ => None
      end
  | Return t =>
      match srv_threads (ag_srv s) !! t, ag_runs s !! t with
      | Some (Executing p ctx), Some (Ret r) => Some (MkAgent (finish_run t p ctx r (ag_srv s)) (ag_runs s) (ag_host s))
      | _, _ => None
      end
  end.

Definition moves `{UuidLib} `{OsEnv} `{VarsJson} `{FmtLib} `{MapOrder} (workDir : string) (ms : list Move) (s : Agent)
    : option Agent := foldl (λ s m, s ← s; move workDir s m) (Some s) ms.

(** The action of the listener a move stands for. *)
Definition move_act (s : Agent) (m : Move) : option Act :=
  match m with Listen act => Some act | Answered _ _ _ => None | Start t | Return t => Some (Go t [] (ag_host s)) end.

(** The host answers the job as it may. *)
Definition allowed (A : uuid → HostAnswer → Prop) (m : Move) : Prop :=
  match m with Answered _ id a => A id a | _ => True end.

Section moves.
Context `{UuidLib} `{OsEnv} `{VarsJson} `{FmtLib} `{MapOrder}.
Context (workDir : string) (A : uuid → HostAnswer → Prop).

Lemma move_step s m s' :
  allowed A m → move workDir s m = Some s' →
  agent_step workDir A s (move_act s m) s' ∧
  match move_act s m with Some act => fresh_ids (ag_srv s) act | None => True end.
Proof.
  destruct s as [srv runs h]. intros Ha Hm.
  destruct m as [act|t|t id a|t]; cbn [move move_act ag_srv ag_runs ag_host allowed] in *.
  - destruct (listens srv act) eqn:Hl; [|done]. case_bool_decide as Hf; [|done]. cbn [andb] in Hm.
    destruct (srv_step workDir srv act) as [srv'|] eqn:Hs; [|done]. injection Hm as <-.
    split; [by apply listener_step|done].
  - destruct (srv_threads srv !! t) as [[]|] eqn:Ht; try done. injection Hm as <-.
    split; [by apply job_started|]. cbn. by rewrite Ht.
  - destruct (srv_threads srv !! t) as [[]|] eqn:Ht; try done. destruct (runs !! t) as [[|X e k]|] eqn:Hk; try done.
    destruct (_ && _) eqn:Hb; [|done]. apply andb_true_iff in Hb as [<-%bool_decide_eq_true Hc%bool_decide_eq_true].
    injection Hm as <-. split; [by eapply job_step|done].
  - destruct (srv_threads srv !! t) as [[]|] eqn:Ht; try done. destruct (runs !! t) as [[r|]|] eqn:Hk; try done.
    injection Hm as <-. split; [by apply job_returned|]. cbn. by rewrite Ht.
Qed.

Lemma moves_cons m ms s s' :
  moves workDir (m :: ms) s = Some s' → ∃ s1, move workDir s m = Some s1 ∧ moves workDir ms s1 = Some s'.
Proof.
  assert (∀ ms, foldl (λ s m, s ← s; move workDir s m) None ms = None) as Hnone by (intros l; by induction l).
  unfold moves. cbn [foldl mbind option_bind]. destruct (move workDir s m) as [s1|]; [by exists s1|by rewrite Hnone].
Qed.

Lemma moves_reach ms s s' : Forall (allowed A) ms → moves workDir ms s = Some s' → agent_reach workDir A s s'.
Proof.
  intros Ha. revert s. induction Ha as [|m ms Hm _ IH]; intros s Hs; [by injection Hs as <-|].
  apply moves_cons in Hs as (s1 & Hs1 & Hs). eapply rtc_l; [eexists; by apply move_step|]. by apply IH.
Qed.
End moves.

(** ** Jobs do not touch each other's files *)

Section isolation.
Context `{UuidLib} `{!UuidLaws} `{!UuidText} `{OsEnv} `{VarsJson} `{FmtLib} `{MapOrder}.
Context (workDir : string).

(** What the commands of a job write in the directory of a job, they write in that
    job's. *)
Definition keeps_out (id : uuid) (a : HostAnswer) : Prop :=
  ∀ id' path, is_under (id_dir workDir id') path = true → ha_writes a !! path ≠ None → id' = id.

(** Moreover os.RemoveAll works. *)
Definition tidy (id : uuid) (a : HostAnswer) : Prop := removeall_ok a ∧ keeps_out id a.

(** No file in the directory of the job. *)
Definition no_files (h : Host) (id : uuid) : Prop :=
  ∀ path, is_under (id_dir workDir id) path = true → h_files h !! path = None.

(** The job [id] is not executing. *)
Definition idle (srv : Server) (id : uuid) : Prop :=
  ∀ t p ctx, srv_threads srv !! t = Some (Executing p ctx) → JobPayload_JobID p ≠ id.

Definition executing_job (th : Thread) : option uuid :=
  match th with Executing p _ => Some (JobPayload_JobID p) | _ => None end.

(** What a host may answer to the job with an id. *)
Context (B : uuid → HostAnswer → Prop) (keep_out : ∀ id a, B id a → keeps_out id a).

(** The goroutine [t] is where it would be had it run alone on the host [h0],
    and the files in its directory are those it would have. *)
Definition as_if_alone (h0 : Host) (s : Agent) (t : nat) (p : JobPayload) : Prop :=
  ∃ us q h1, Forall (B (JobPayload_JobID p)) us ∧ ag_runs s !! t = Some q ∧
    alone (Run workDir p) us h0 = (q, h1) ∧
    ∀ path, is_under (job_dir workDir p) path = true → h_files (ag_host s) !! path = h_files h1 !! path.

(** What holds of a host on which the jobs [gone] were interrupted or may have
    left files. *)
Record isolated (h0 : Host) (gone : uuid → Prop) (s : Agent) : Prop := {
  iso_alone : ∀ t p ctx, srv_threads (ag_srv s) !! t = Some (Executing p ctx) → as_if_alone h0 s t p;
  iso_idle : ∀ id, idle (ag_srv s) id → ¬ gone id → no_files (ag_host s) id;
}.

Lemma isolated_weaken h0 (gone gone' : uuid → Prop) s :
  (∀ id, idle (ag_srv s) id → gone id → gone' id) → isolated h0 gone s → isolated h0 gone' s.
Proof. intros Hg [Ha Hi]. split; [done|]. intros id Hid Hn. apply Hi; [done|]. by intros ?%Hg. Qed.

(** Two goroutines have different jobs. *)
Lemma entries_distinct srv t1 t2 p1 p2 th1 c1 c2 :
  entries_ok srv → srv_threads srv !! t1 = Some th1 → entry_of th1 = Some (JobPayload_JobID p1, c1) →
  srv_threads srv !! t2 = Some (Executing p2 c2) → JobPayload_JobID p2 = JobPayload_JobID p1 → t1 = t2.
Proof.
  intros [_ Hc Ho _] Ht1 E1 Ht2 Hid.
  assert (runs srv t1 (JobPayload_JobID p1) c1) as R1 by (unfold runs; by rewrite Ht1).
  assert (runs srv t2 (JobPayload_JobID p1) c2) as R2 by (unfold runs; rewrite Ht2; cbn; by rewrite Hid).
  pose proof (Hc _ _ _ R1) as L1. pose proof (Hc _ _ _ R2) as L2. rewrite L1 in L2. injection L2 as ->.
  by apply (Ho _ _ _ _ _ R1 R2).
Qed.

(** An interaction of a job leaves the directories of the others as they are. *)
Lemma job_step_elsewhere {X} id id' (e : HostEv X) a h path :
  within (id_dir workDir id) X e → B id a → id' ≠ id → is_under (id_dir workDir id') path = true →
  h_files (host_perform X a e h).2 !! path = h_files h !! path.
Proof.
  intros He Ht%keep_out Hne Hp. rewrite host_perform_file. apply (file_effect_elsewhere _ _ (id_dir workDir id)); [done|..].
  - apply not_true_iff_false. intros Hp'. apply Hne. by apply (id_dir_disjoint workDir _ _ path).
  - destruct (ha_writes a !! path) as [f|] eqn:Ef; [|done]. exfalso. apply Hne, (Ht _ path); [done|by rewrite Ef].
Qed.

Lemma isolated_listener h0 gone srv runs h act srv' :
  listens srv act = true → srv_step workDir srv act = Some srv' →
  isolated h0 gone (MkAgent srv runs h) → isolated h0 gone (MkAgent srv' runs h).
Proof.
  intros Hl Hs [Ha Hi]. split; cbn [ag_srv ag_host].
  - intros t p ctx Ht. apply (Ha t p ctx). by eapply listens_executing.
  - intros id Hid Hg. apply Hi; [|done]. intros t p ctx Ht. apply (Hid t p ctx). by eapply listens_executing_back.
Qed.

Lemma isolated_started h0 gone srv runs h t p ctx :
  (∀ id, no_files h0 id) → ¬ gone (JobPayload_JobID p) → entries_ok srv →
  srv_threads srv !! t = Some (AtCount p ctx) →
  isolated h0 gone (MkAgent srv runs h) →
  isolated h0 gone (MkAgent (start_job t p ctx srv) (<[t := Run workDir p]> runs) h).
Proof.
  intros Hc Hg He Ht [Ha Hi]. split; cbn [ag_srv ag_host start_job srv_threads].
  - intros t' p' ctx' [[<- [= <- <-]]|[Hne Ht']]%lookup_insert_Some.
    + exists [], (Run workDir p), h0. cbn [ag_runs]. rewrite lookup_insert_eq. split_and!; [done..|].
      intros path Hp. rewrite (Hc (JobPayload_JobID p)) by done. apply (Hi (JobPayload_JobID p)); [|done|done].
      intros t2 p2 ctx2 Ht2 E. assert (t = t2) as <-; [by eapply (entries_distinct srv)|]. cbn in Ht2. congruence.
    + destruct (Ha _ _ _ Ht') as (us & q & h1 & Hus & Hq & Hr). exists us, q, h1. split; [done|].
      split; [|done]. cbn [ag_runs]. by rewrite lookup_insert_ne.
  - intros id Hid Hg'. apply Hi; [|done]. intros t' p' ctx' Ht' E. cbn in Ht'.
    apply (Hid t' p' ctx'); [|done]. cbn. rewrite lookup_insert_ne; [done|]. intros <-. congruence.
Qed.

Lemma isolated_step h0 gone srv runs h t p ctx X (e : HostEv X) k a :
  entries_ok srv → srv_threads srv !! t = Some (Executing p ctx) → runs !! t = Some (Vis e k) →
  B (JobPayload_JobID p) a → isolated h0 gone (MkAgent srv runs h) →
  isolated h0 gone (MkAgent srv (<[t := k (host_perform X a e h).1]> runs) (host_perform X a e h).2).
Proof.
  intros He Ht Hk Hty [Ha Hi]. destruct (Ha _ _ _ Ht) as (us & q & h1 & Hus & Hq & Hal & Hf).
  cbn [ag_runs] in Hq. rewrite Hk in Hq. injection Hq as <-.
  assert (within (id_dir workDir (JobPayload_JobID p)) X e) as Hw.
  { pose proof (alone_events _ _ us h0 (Run_within workDir p)) as Hev. rewrite Hal in Hev. apply Hev. }
  split; cbn [ag_srv ag_host].
  - intros t' p' ctx' Ht'. destruct (decide (t' = t)) as [->|Hne].
    + rewrite Ht in Ht'. injection Ht' as <- <-. eexists (us ++ [a]), _, _. cbn [ag_runs ag_host].
      rewrite lookup_insert_eq, (alone_snoc _ _ _ _ _ _ a Hal). split; [by apply Forall_app; auto|].
      split; [by rewrite (host_perform_answer a e h h1)|]. split; [done|].
      intros path Hp. rewrite !host_perform_file. f_equal. by apply Hf.
    + destruct (Ha _ _ _ Ht') as (us' & q' & h1' & Hus' & Hq' & Hal' & Hf'). exists us', q', h1'. split; [done|].
      cbn [ag_runs ag_host]. rewrite lookup_insert_ne by done. split_and!; [done..|].
      intros path Hp. rewrite <-Hf' by done. apply (job_step_elsewhere (JobPayload_JobID p) (JobPayload_JobID p')); try done.
      intros E. apply Hne. symmetry. by eapply (entries_distinct srv).
  - intros id Hid Hg path Hp. cbn. rewrite (job_step_elsewhere (JobPayload_JobID p) id); try done; [by apply (Hi id)|].
    intros ->. by eapply Hid.
Qed.

Lemma isolated_returned h0 gone srv runs h t p ctx r :
  (∀ id, no_files h0 id) → srv_threads srv !! t = Some (Executing p ctx) → runs !! t = Some (Ret r) →
  (¬ gone (JobPayload_JobID p) → ∀ a, B (JobPayload_JobID p) a → removeall_ok a) →
  isolated h0 gone (MkAgent srv runs h) → isolated h0 gone (MkAgent (finish_run t p ctx r srv) runs h).
Proof.
  intros Hc Ht Hk Hrm [Ha Hi]. split; cbn [ag_srv ag_host finish_run goto srv_threads].
  - intros t' p' ctx' [[_ ?]|[_ Ht']]%lookup_insert_Some; [done|]. by apply (Ha t' p' ctx').
  - intros id Hid Hg path Hp. cbn. destruct (decide (JobPayload_JobID p = id)) as [<-|Hne].
    + destruct (Ha _ _ _ Ht) as (us & q & h1 & Hus & Hq & Hal & Hf). cbn [ag_runs] in Hq.
      rewrite Hk in Hq. injection Hq as <-. cbn in Hf. rewrite Hf by done.
      apply alone_done in Hal as (rest & Hr).
      assert (Forall removeall_ok us) as Hra by (eapply Forall_impl; [exact Hus|]; by apply Hrm).
      pose proof (Run_leaves_nothing workDir p us h0 Hra) as Hl. rewrite Hr in Hl.
      destruct Hl as [[_ ->]|Hl]; [by apply (Hc (JobPayload_JobID p))|by apply Hl].
    + apply (Hi id); [|done|done]. intros t' p' ctx' Ht' E. cbn in Ht'. apply (Hid t' p' ctx'); [|done].
      cbn. rewrite lookup_insert_ne; [done|]. intros <-. congruence.
Qed.

(** A step of an agent, by which the jobs [gone] may become the jobs [gone']. *)
Lemma isolated_agent h0 (gone gone' : uuid → Prop) s act s' :
  (∀ id, no_files h0 id) → entries_ok (ag_srv s) →
  (∀ id, idle (ag_srv s') id → gone id → gone' id) →
  (∀ t p ctx, srv_threads (ag_srv s) !! t = Some (AtCount p ctx) → ¬ gone (JobPayload_JobID p)) →
  (∀ t p ctx, srv_threads (ag_srv s) !! t = Some (Executing p ctx) → ¬ gone (JobPayload_JobID p) →
     ∀ a, B (JobPayload_JobID p) a → removeall_ok a) →
  agent_step workDir B s act s' → isolated h0 gone s → isolated h0 gone' s'.
Proof.
  intros Hc He Hg Hx Hrm Hs Hi. eapply isolated_weaken; [exact Hg|]. destruct Hs; cbn [ag_srv] in *.
  - by eapply isolated_listener.
  - apply isolated_started; [done| |done..]. by apply (Hx t p ctx).
  - eapply isolated_step; eauto.
  - apply isolated_returned; [done..| |done]. by eapply Hrm.
Qed.

(** The agent stops while jobs run. *)
Lemma isolated_stopped h0 (gone gone' : uuid → Prop) s capacity :
  (∀ id, idle (ag_srv s) id → gone id → gone' id) →
  (∀ t p ctx, srv_threads (ag_srv s) !! t = Some (Executing p ctx) → gone' (JobPayload_JobID p)) →
  isolated h0 gone s → isolated h0 gone' (MkAgent (New capacity) ∅ (ag_host s)).
Proof.
  intros Hg Hx [_ Hi]. split; cbn [ag_srv ag_host]; [by intros t p ctx; cbn; rewrite lookup_empty|].
  intros id _ Hn. destruct (decide (map_Forall (λ _ th, executing_job th ≠ Some id) (srv_threads (ag_srv s)))) as [Hf|Hf].
  - assert (idle (ag_srv s) id) as Hid by (intros t p ctx Ht E; apply (Hf _ _ Ht); cbn; by rewrite E).
    apply Hi; [done|]. by intros ?%(Hg _ Hid).
  - apply map_not_Forall in Hf as (t & th & Ht & Hne); [|apply _]. apply dec_stable in Hne.
    destruct th as [| | |p ctx| | | |]; try done. injection Hne as <-. by destruct Hn; eapply Hx.
Qed.

(** A command of an interrupted job writes files. *)
Lemma isolated_orphan h0 (gone : uuid → Prop) srv runs h id a :
  idle srv id → gone id → B id a → isolated h0 gone (MkAgent srv runs h) →
  isolated h0 gone (MkAgent srv runs (host_perform _ a AwaitPlaybook h).2).
Proof.
  intros Hidle Hg Hty [Ha Hi].
  assert (∀ id' path, id' ≠ id → is_under (id_dir workDir id') path = true →
    h_files (host_perform _ a AwaitPlaybook h).2 !! path = h_files h !! path) as He
    by (intros id' path; by apply (job_step_elsewhere id)).
  split; cbn [ag_srv ag_host].
  - intros t p ctx Ht. destruct (Ha _ _ _ Ht) as (us & q & h1 & Hus & Hq & Hal & Hf). exists us, q, h1.
    split_and!; [done..|]. intros path Hp. rewrite <-Hf by done. apply (He (JobPayload_JobID p)); [by eapply Hidle|done].
  - intros id' Hid' Hg' path Hp. cbn [ag_host]. rewrite (He id'); [by apply (Hi id')|by intros ->|done].
Qed.

End isolation.

(** Jobs that run on one host do not touch each other's files: whatever the
    interleaving of their interactions, each executing job has still to do, and
    has in its directory, what it would had it run alone on the host as it was
    when the agent started; and there is no file in the directory of a job that
    is not executing, so that nothing is left of one job for the next.  The host
    may fail in every way but os.RemoveAll, the commands of a job stay out of
    the directories of the others, and no job is dispatched twice at once. *)
Lemma jobs_isolated `{UuidLib} `{!UuidLaws} `{!UuidText} `{OsEnv} `{VarsJson} `{FmtLib} `{MapOrder}
    workDir capacity h0 s :
  (∀ id, no_files workDir h0 id) → agent_reach workDir (tidy workDir) (start capacity h0) s →
  (∀ t p ctx, srv_threads (ag_srv s) !! t = Some (Executing p ctx) →
     as_if_alone workDir (tidy workDir) h0 s t p) ∧
  (∀ id, idle (ag_srv s) id → no_files workDir (ag_host s) id).
Proof.
  intros Hc Hr. assert (isolated workDir (tidy workDir) h0 (λ _, False) s) as [Ha Hi];
    [|split; [exact Ha|intros id Hid; apply (Hi id Hid); by intros []]].
  apply (rtc_ind_r (R := fresh_step workDir (tidy workDir)) (isolated workDir (tidy workDir) h0 (λ _, False))
    (start capacity h0)); [..|exact Hr].
  { split; [intros t p ctx; cbn; by rewrite lookup_empty|by intros id _ _]. }
  clear s Hr. intros s1 s2 Hr (l & Hs & _) IH.
  pose proof (agent_entries workDir (tidy workDir) capacity h0 s1 Hr) as He.
  eapply isolated_agent; [..|exact Hs|exact IH]; try done.
  - by intros id a [_ ?].
  - by intros t p ctx _ [].
  - by intros t p ctx _ _ a [? _].
Qed.
