(* ===== verification/Grain.v ===== *)
(** * The platform at the grain of host interactions

    [Platform] takes a job from its start to its result in one step.  Here the
    servers interleave with agents whose jobs take one interaction with their
    host at a time; an agent that stops or crashes leaves its files, and the
    commands it started run on.  The states of [Platform] are what one sees of
    these, and jobs do not touch each other's files. *)
From S2P Require Import Prelude.
From S2P Require Import Prog.
From S2P Require Import Types.
From S2P Require Import Db.
From S2P Require Import ControllerStore.
From S2P Require Import Lifecycle.
From S2P Require Import Token.
From S2P Require Import Secrets.
From S2P Require Import Transport.
From S2P Require Import Scheduler.
From S2P Require Import ApiStore.
From S2P Require Import ApiResources.
From S2P Require Import Http.
From S2P Require Import Auth.
From S2P Require Import JobHandlers.
From S2P Require Import ResourceHandlers.
From S2P Require Import Process.
From S2P Require Import System.
From S2P Require Import AgentInventory.
From S2P Require Import AgentRunner.
From S2P Require Import AgentRunnerFacts.
From S2P Require Import AgentServer.
From S2P Require Import AgentServerFacts.
From S2P Require Import Platform.
From S2P Require Import Sharing.
From stdpp Require Import functions.

(** [Platform], with what the jobs of each agent have still to do, and the hosts,
    which outlive the agents. *)
Record Grain := MkGrain {
  gr_sys : World * list (prog Ev unit);
  gr_agents : gmap string (Server * gmap nat (prog HostEv Result));
  gr_hosts : string → Host;
  gr_delivered : gset nat;
  gr_started : list (string * uuid);
  gr_reported : list (string * uuid);
}.

(** What [Platform] sees. *)
Definition forget (g : Grain) : Platform :=
  MkPlatform (gr_sys g) (fst <$> (gr_agents g)) (gr_delivered g) (gr_started g) (gr_reported g).

(** The agent at an address, with its host; without an agent, one that is idle. *)
Definition agent_at (g : Grain) (addr : string) : Agent :=
  let p := default (New 0, ∅) (gr_agents g !! addr) in MkAgent p.1 p.2 (gr_hosts g addr).

(** The job was started at the address and neither reported nor is there any more:
    its agent stopped or crashed. *)
Definition interrupted (g : Grain) (addr : string) (id : uuid) : Prop :=
  (addr, id) ∈ gr_started g ∧ ((addr, id) ∉ gr_reported g) ∧
  ∀ t, held unreported (ag_srv (agent_at g addr)) t ≠ Some id.

Section grain.
Context `{UuidLib} `{!UuidLaws} `{!UuidText} `{PgxLib} `{Collation} `{CryptoLib} `{FieldsJson} `{HashLib} `{JwtLib}
  `{BcryptLib} `{NetLib} `{OsEnv} `{CronLib} `{PgxPool} `{VarsJson} `{FmtLib} `{MapOrder}.
Context `{JsonDecode Jobs.CreateJobBody} `{JsonDecode (list JobLogLine)}
  `{JsonDecode Jobs.ResultBody}.
Context `{JsonDecode LoginBody} `{JsonDecode NameBody} `{JsonDecode RegisterBody}
  `{JsonDecode Types.AgentHeartbeat}.
Context `{JsonDecode Resources.CreateTemplateBody} `{JsonDecode Resources.UpdateTemplateBody}
  `{JsonDecode Resources.ProjectBody} `{JsonDecode Resources.CreateScheduleBody}
  `{JsonDecode Resources.UpdateScheduleBody} `{JsonDecode Resources.CredentialBody}
  `{JsonDecode Resources.WorkflowBody} `{JsonDecode Resources.UpdateWorkflowBody}
  `{JsonDecode Resources.NoteBody}.
(** The working directory of the agent at an address, and what its host may
    answer to the job with an id. *)
Context (dir : string → string) (A : string → uuid → HostAnswer → Prop).

Inductive grain_step : relation Grain :=
| gr_server sys sys' ags hosts dl st rp :
    sys_step perform Spawned time_passes sys sys' →
    grain_step (MkGrain sys ags hosts dl st rp) (MkGrain sys' ags hosts dl st rp)
| gr_start sys ags hosts dl st rp addr capacity :
    grain_step (MkGrain sys ags hosts dl st rp) (MkGrain sys (<[addr := (New capacity, ∅)]> ags) hosts dl st rp)
| gr_stop sys ags hosts dl st rp addr :
    grain_step (MkGrain sys ags hosts dl st rp) (MkGrain sys (delete addr ags) hosts dl st rp)
| gr_deliver sys ags hosts dl st rp i addr p t srv runs srv' :
    w_sent sys.1 !! i = Some (addr +:+ "/dispatch", Some p) → i ∉ dl →
    ags !! addr = Some (srv, runs) → srv_step (dir addr) srv (Receive t (Ok p)) = Some srv' →
    grain_step (MkGrain sys ags hosts dl st rp)
      (MkGrain sys (<[addr := (srv', runs)]> ags) hosts ({[ i ]} ∪ dl) st rp)
| gr_agent sys ags hosts dl st rp addr srv runs act s' :
    from_option is_dispatch false act = false → ags !! addr = Some (srv, runs) →
    agent_step (dir addr) (A addr) (MkAgent srv runs (hosts addr)) act s' →
    grain_step (MkGrain sys ags hosts dl st rp)
      (MkGrain sys (<[addr := (ag_srv s', ag_runs s')]> ags) (<[addr := ag_host s']> hosts) dl
        (record addr (act ≫= starts_job srv) st) (record addr (act ≫= reports_job srv) rp))
| gr_orphan g addr id a :   (* a command of an interrupted job writes files *)
    interrupted g addr id → A addr id a →
    grain_step g (MkGrain (gr_sys g) (gr_agents g)
      (<[addr := (host_perform _ a AwaitPlaybook (gr_hosts g addr)).2]> (gr_hosts g))
      (gr_delivered g) (gr_started g) (gr_reported g)).

(** The states reached from servers over the world [w], the hosts [h0] and no agents. *)
Definition grain_reach (w : World) (h0 : string → Host) : Grain → Prop :=
  rtc grain_step (MkGrain (w, []) ∅ h0 ∅ [] []).

(** ** What one sees is a run of the platform *)

Lemma agent_at_at g addr srv runs :
  gr_agents g !! addr = Some (srv, runs) → agent_at g addr = MkAgent srv runs (gr_hosts g addr).
Proof. unfold agent_at. by intros ->. Qed.

Lemma forget_at g addr srv : pl_agents (forget g) !! addr = Some srv → ag_srv (agent_at g addr) = srv.
Proof.
  unfold agent_at. cbn. rewrite lookup_fmap. destruct (gr_agents g !! addr) as [[srv' runs]|]; cbn; [|done]. by intros [= ->].
Qed.

Lemma same_act_reads s act act' :
  same_act act act' →
  is_dispatch act' = is_dispatch act ∧ starts_job s act' = starts_job s act ∧ reports_job s act' = reports_job s act.
Proof. destruct act; cbn; [by intros ->..|]. by intros (? & ? & ->). Qed.

(** Each executing job of each agent is some way through its run. *)
Definition all_on_the_way (h0 : string → Host) (g : Grain) : Prop :=
  ∀ addr, on_the_way (dir addr) (A addr) (h0 addr) (agent_at g addr).

Lemma on_the_way_new d B h capacity h' : on_the_way d B h (MkAgent (New capacity) ∅ h').
Proof. intros t p ctx. cbn. by rewrite lookup_empty. Qed.

(** A step at one address leaves the agents at the others. *)
Lemma agent_at_insert sys ags hosts dl st rp addr a p :
  agent_at (MkGrain sys (<[addr := p]> ags) hosts dl st rp) a =
  if decide (a = addr) then MkAgent p.1 p.2 (hosts addr) else agent_at (MkGrain sys ags hosts dl st rp) a.
Proof.
  unfold agent_at. cbn. case_decide as E; [subst a; by rewrite lookup_insert_eq|by rewrite lookup_insert_ne].
Qed.

Lemma agent_at_delete sys ags hosts dl st rp addr a :
  agent_at (MkGrain sys (delete addr ags) hosts dl st rp) a =
  if decide (a = addr) then MkAgent (New 0) ∅ (hosts addr) else agent_at (MkGrain sys ags hosts dl st rp) a.
Proof.
  unfold agent_at. cbn. case_decide as E; [subst a; by rewrite lookup_delete_eq|by rewrite lookup_delete_ne].
Qed.

Lemma agent_at_host sys ags hosts dl st rp a :
  agent_at (MkGrain sys ags hosts dl st rp) a =
  MkAgent (default (New 0, ∅) (ags !! a)).1 (default (New 0, ∅) (ags !! a)).2 (hosts a).
Proof. done. Qed.

Lemma on_the_way_grain h0 g g' : grain_step g g' → all_on_the_way h0 g → all_on_the_way h0 g'.
Proof.
  intros Hs Hw a. specialize (Hw a). destruct Hs as [| | |sys ags hosts dl st rp i addr p t srv runs srv' _ _ Hsrv Hst|
    sys ags hosts dl st rp addr srv runs act s' _ Hsrv Hst|]; [done|rewrite agent_at_insert|
    rewrite agent_at_delete|rewrite agent_at_insert|rewrite agent_at_insert|done];
    (case_decide as E; [subst a|by auto]); cbn [fst snd].
  - apply on_the_way_new.
  - apply on_the_way_new.
  - rewrite (agent_at_at _ _ srv runs) in Hw by done.
    refine (on_the_way_step _ _ _ _ _ _ (listener_step _ _ _ _ _ _ _ _ Hst) Hw); done.
  - rewrite (agent_at_at _ _ srv runs) in Hw by done. apply (on_the_way_step _ _ _ _ _ _ Hst Hw).
Qed.

(** A step is one of the platform, or none. *)
Lemma grain_simulates h0 g g' :
  grain_step g g' → all_on_the_way h0 g → rtc (platform_step dir) (forget g) (forget g').
Proof.
  intros Hs Hw. destruct Hs as [sys sys' ags hosts dl st rp Hs|sys ags hosts dl st rp addr capacity|
    sys ags hosts dl st rp addr|sys ags hosts dl st rp i addr p t srv runs srv' Hi Hdl Hsrv Hst|
    sys ags hosts dl st rp addr srv runs act s' Hd Hsrv Hst|]; unfold forget; cbn;
    rewrite ?fmap_insert, ?fmap_delete; cbn [fst].
  - by apply rtc_once, pl_server.
  - apply rtc_once, pl_start.
  - apply rtc_once, pl_stop.
  - apply rtc_once. eapply pl_deliver; [done..| |done]. by rewrite lookup_fmap, Hsrv.
  - specialize (Hw addr). rewrite (agent_at_at _ _ srv runs) in Hw by done.
    pose proof (agent_simulates _ _ _ _ _ _ Hst Hw) as Hsim. cbn [ag_srv] in Hsim.
    destruct act as [act|]; cbn [from_option mbind option_bind] in *.
    + destruct Hsim as (act' & Hsame & Hst'). destruct (same_act_reads srv act act' Hsame) as (Ed & <- & <-).
      apply rtc_once. apply pl_agent with (s := srv); [congruence| |done]. by rewrite lookup_fmap, Hsrv.
    + rewrite Hsim, insert_id by (by rewrite lookup_fmap, Hsrv). unfold record. rewrite !app_nil_r. apply rtc_refl.
  - apply rtc_refl.
Qed.

Lemma grain_reach_on_the_way w h0 g : grain_reach w h0 g → all_on_the_way h0 g.
Proof.
  intros Hr. assert (all_on_the_way h0 (MkGrain (w, []) ∅ h0 ∅ [] [])) as Hi by (intros a; apply on_the_way_new).
  unfold grain_reach in Hr. induction Hr as [|g1 g2 g3 Hs _ IH]; [done|]. apply IH. by eapply on_the_way_grain.
Qed.

Lemma grain_induction w h0 (P : Grain → Prop) g :
  P (MkGrain (w, []) ∅ h0 ∅ [] []) → (∀ g1 g2, grain_reach w h0 g1 → grain_step g1 g2 → P g1 → P g2) →
  grain_reach w h0 g → P g.
Proof. intros Hi Hs. by apply (rtc_ind_r (R := grain_step)). Qed.

(** Running each job in one step on a host of its own loses nothing of the
    platform: when the jobs of every agent take turns at every interaction with
    their host, learn of a cancellation from the contexts that cancel requests
    cancelled, and are interrupted by a stop or a crash between any two
    interactions, what one sees of the servers, the agents, the jobs started and
    the jobs reported is a state of the platform of whole runs, so that every
    result about that platform holds of this one. *)
Lemma grain_refines w h0 g : grain_reach w h0 g → platform_reach dir w (forget g).
Proof.
  apply (grain_induction w h0 (λ g, platform_reach dir w (forget g))).
  - unfold forget. cbn. rewrite fmap_empty. apply rtc_refl.
  - unfold platform_reach. intros g1 g2 Hr Hs IH. etrans; [exact IH|]. by eapply grain_simulates, grain_reach_on_the_way.
Qed.

(** ** Executing an agent among the others *)

Definition move_dispatches (m : Move) : bool := match m with Listen act => is_dispatch act | _ => false end.

Lemma grain_move g addr m s' :
  is_Some (gr_agents g !! addr) → allowed (A addr) m → move_dispatches m = false →
  move (dir addr) (agent_at g addr) m = Some s' →
  ∃ g', grain_step g g' ∧ agent_at g' addr = s' ∧ is_Some (gr_agents g' !! addr).
Proof.
  destruct g as [sys ags hosts dl st rp]. intros [[srv runs] Ha] Hall Hd Hm. cbn [gr_agents] in Ha.
  rewrite (agent_at_at _ _ srv runs) in Hm by done. destruct (move_step _ _ _ _ _ Hall Hm) as [Hs _].
  eexists. split; [eapply gr_agent; [|exact Ha|exact Hs]; by destruct m|].
  rewrite agent_at_insert, decide_True, fn_lookup_insert by done. split; [by destruct s'|].
  cbn. rewrite lookup_insert_eq. by eexists.
Qed.

Lemma grain_moves ms g addr s' :
  is_Some (gr_agents g !! addr) → Forall (λ m, allowed (A addr) m ∧ move_dispatches m = false) ms →
  moves (dir addr) ms (agent_at g addr) = Some s' →
  ∃ g', rtc grain_step g g' ∧ agent_at g' addr = s' ∧ is_Some (gr_agents g' !! addr).
Proof.
  intros Ha Hms. revert g Ha. induction Hms as [|m ms [Hall Hd] _ IH]; intros g Ha Hm.
  - injection Hm as <-. by exists g.
  - apply moves_cons in Hm as (s1 & Hm1 & Hm).
    destruct (grain_move g addr m s1 Ha Hall Hd Hm1) as (g1 & Hs & <- & Ha1).
    destruct (IH g1 Ha1 Hm) as (g' & Hr & Hg' & Ha'). exists g'. split; [|done]. by eapply rtc_l.
Qed.

(** What holds of the platform holds of what one sees. *)
Lemma grain_platform_ok w h0 g : w_sent w = [] → grain_reach w h0 g → platform_ok dir (forget g).
Proof.
  intros Hw. apply (grain_induction w h0 (λ g, platform_ok dir (forget g))).
  - unfold forget. cbn. rewrite fmap_empty. by apply platform_ok_start.
  - intros g1 g2 Hr Hs Hok. eapply platform_ok_steps; [|exact Hok]. by eapply grain_simulates, grain_reach_on_the_way.
Qed.

(** ** Jobs do not touch each other's files *)

(** os.RemoveAll may fail for the job. *)
Definition lossy (addr : string) (id : uuid) : Prop := ∃ a, A addr id a ∧ ¬ removeall_ok a.

(** [interrupted], of the listener at an address; or started, and lossy. *)
Definition gone (st rp : list (string * uuid)) (addr : string) (srv : Server) (id : uuid) : Prop :=
  (addr, id) ∈ st ∧ (lossy addr id ∨ ((addr, id) ∉ rp) ∧ ∀ t, held unreported srv t ≠ Some id).

Lemma executing_held srv t p ctx :
  srv_threads srv !! t = Some (Executing p ctx) → held unreported srv t = Some (JobPayload_JobID p).
Proof. unfold held. by intros ->. Qed.

(** What an agent executes was started there and is not reported. *)
Lemma executing_started pl addr srv t p ctx :
  platform_ok dir pl → pl_agents pl !! addr = Some srv → srv_threads srv !! t = Some (Executing p ctx) →
  (addr, JobPayload_JobID p) ∈ pl_started pl ∧ (addr, JobPayload_JobID p) ∉ pl_reported pl.
Proof.
  intros [_ _ Hrp Hag] Ha Ht. split; [by apply (proj2 (Hag _ _ Ha) t (Executing p ctx))|].
  intros Hin. apply (once_excl _ _ _ _ Hrp addr t (JobPayload_JobID p)).
  - rewrite (holding_of _ _ _ srv) by done. by eapply executing_held.
  - apply list_elem_of_fmap. by exists (addr, JobPayload_JobID p).
Qed.

Lemma gone_stopped pl addr capacity :
  platform_ok dir pl → let srv := default (New 0) (pl_agents pl !! addr) in
  (∀ id, gone (pl_started pl) (pl_reported pl) addr srv id →
     gone (pl_started pl) (pl_reported pl) addr (New capacity) id) ∧
  (∀ t p ctx, srv_threads srv !! t = Some (Executing p ctx) →
     gone (pl_started pl) (pl_reported pl) addr (New capacity) (JobPayload_JobID p)).
Proof.
  intros Hok srv. assert (∀ t id, held unreported (New capacity) t ≠ Some id) as Hn by done.
  split; [intros id (? & [?|[? _]]); (split; [done|]); [by left|by right]|]. intros t p ctx Ht. unfold srv in Ht.
  destruct (pl_agents pl !! addr) as [s|] eqn:Ha; cbn [default from_option] in Ht.
  - destruct (executing_started _ _ _ _ _ _ Hok Ha Ht). split; [done|by right].
  - by cbn in Ht; rewrite lookup_empty in Ht.
Qed.

(** No interrupted job is dispatched to its agent again. *)
Lemma gone_dispatch st rp addr srv t p srv' id :
  srv_step (dir addr) srv (Receive t (Ok p)) = Some srv' → (addr, JobPayload_JobID p) ∉ st →
  gone st rp addr srv id → gone st rp addr srv' id.
Proof.
  intros Hs Hn (Hst & [Hl|[Hrp Hh]]); (split; [done|]); [by left|right; split; [done|]]. intros t' Hx.
  destruct (dispatch_held unreported _ _ _ _ _ t' id (λ _, eq_refl) Hs Hx) as [?|[-> ->]]; [by eapply Hh|done].
Qed.

Lemma gone_act st rp addr srv act srv' id :
  srv_step (dir addr) srv act = Some srv' → is_dispatch act = false →
  gone st rp addr srv id →
  gone (record addr (starts_job srv act) st) (record addr (reports_job srv act) rp) addr srv' id.
Proof.
  intros Hs Hd (Hst & Hor). split; [rewrite elem_of_record; by left|].
  destruct Hor as [Hl|[Hrp Hh]]; [by left|right; split].
  - intros [?|[_ Hr]]%elem_of_record; [done|]. by apply (Hh (act_thread act)), reports_held.
  - intros t Ht. destruct (decide (t = act_thread act)) as [->|Hne].
    + destruct (step_held _ _ _ _ Hs Hd) as [_ Hk]. by apply (Hh (act_thread act)), Hk.
    + apply (Hh t). revert Ht. unfold held. by rewrite (step_frame _ _ _ _ _ Hs Hne).
Qed.

(** The host at an address, with the interrupted and the lossy jobs. *)
Definition apart (h0 : string → Host) (g : Grain) (a : string) : Prop :=
  isolated (dir a) (A a) (h0 a) (gone (gr_started g) (gr_reported g) a (ag_srv (agent_at g a))) (agent_at g a).

Lemma apart_stopped h0 g addr capacity :
  platform_ok dir (forget g) → apart h0 g addr →
  isolated (dir addr) (A addr) (h0 addr) (gone (gr_started g) (gr_reported g) addr (New capacity))
    (MkAgent (New capacity) ∅ (gr_hosts g addr)).
Proof.
  intros Hok Hi. destruct (gone_stopped _ addr capacity Hok) as [Hg Hx].
  assert (default (New 0) (pl_agents (forget g) !! addr) = ag_srv (agent_at g addr)) as E.
  { unfold forget, agent_at. cbn. rewrite lookup_fmap. by destruct (gr_agents g !! addr). }
  rewrite E in Hg, Hx. by apply (isolated_stopped _ _ _ _ _ _ capacity (λ id _, Hg id) Hx Hi).
Qed.

Lemma apart_deliver h0 sys ags hosts dl st rp addr t p srv runs srv' :
  (addr, JobPayload_JobID p) ∉ st → ags !! addr = Some (srv, runs) →
  srv_step (dir addr) srv (Receive t (Ok p)) = Some srv' →
  apart h0 (MkGrain sys ags hosts dl st rp) addr →
  isolated (dir addr) (A addr) (h0 addr) (gone st rp addr srv') (MkAgent srv' runs (hosts addr)).
Proof.
  intros Hn Ha Hs Hi. unfold apart in Hi. rewrite (agent_at_at _ _ srv runs) in Hi by done. cbn in Hi.
  eapply isolated_listener; [|exact Hs|]; [done|]. eapply isolated_weaken; [|exact Hi].
  intros id _. by eapply gone_dispatch.
Qed.

(** A job that is about to start left nothing at its address: it never was there. *)
Lemma counting_not_gone pl addr srv t p ctx :
  platform_ok dir pl → pl_agents pl !! addr = Some srv → srv_threads srv !! t = Some (AtCount p ctx) →
  ¬ gone (pl_started pl) (pl_reported pl) addr srv (JobPayload_JobID p).
Proof.
  intros Hok Ha Ht [Hst _]. apply (once_excl _ _ _ _ (ok_started _ _ Hok) addr t (JobPayload_JobID p)).
  - rewrite (holding_of _ _ _ srv) by done. unfold held. by rewrite Ht.
  - apply list_elem_of_fmap. by exists (addr, JobPayload_JobID p).
Qed.

Lemma removeall_ok_stable a : ¬ ¬ removeall_ok a → removeall_ok a.
Proof. unfold removeall_ok. destruct (ha_removeall a) as [[]|e]; [done|]. intros Hn. by destruct Hn. Qed.

Lemma apart_agent h0 g addr srv runs act s' :
  (∀ id a, A addr id a → keeps_out (dir addr) id a) → (∀ id, no_files (dir addr) (h0 addr) id) →
  from_option is_dispatch false act = false → gr_agents g !! addr = Some (srv, runs) → entries_ok srv →
  agent_step (dir addr) (A addr) (MkAgent srv runs (gr_hosts g addr)) act s' →
  on_the_way (dir addr) (A addr) (h0 addr) (MkAgent srv runs (gr_hosts g addr)) → platform_ok dir (forget g) →
  apart h0 g addr →
  isolated (dir addr) (A addr) (h0 addr)
    (gone (record addr (act ≫= starts_job srv) (gr_started g)) (record addr (act ≫= reports_job srv) (gr_reported g))
       addr (ag_srv s')) s'.
Proof.
  intros HA Hc Hd Ha He Hst Hw Hok Hi. unfold apart in Hi. rewrite (agent_at_at _ _ srv runs) in Hi by done. cbn [ag_srv] in Hi.
  pose proof (agent_simulates _ _ _ _ _ _ Hst Hw) as Hsim. cbn [ag_srv] in Hsim.
  assert (pl_agents (forget g) !! addr = Some srv) as Ha' by (cbn; by rewrite lookup_fmap, Ha).
  refine (isolated_agent (dir addr) (A addr) HA _ _ _ (MkAgent srv runs (gr_hosts g addr)) act s' Hc He _ _ _ Hst Hi);
    cbn [ag_srv].
  - intros id _ Hg. destruct act as [act|]; cbn [from_option mbind option_bind] in *.
    + destruct Hsim as (act' & Hsame & Hs). destruct (same_act_reads srv act act' Hsame) as (Ed & <- & <-).
      eapply gone_act; [done|congruence|done].
    + rewrite Hsim. unfold record. by rewrite !app_nil_r.
  - intros t p ctx Ht. by apply (counting_not_gone (forget g) addr srv t p ctx).
  - intros t p ctx Ht Hn a HAa. apply removeall_ok_stable. intros Hrm. apply Hn.
    destruct (executing_started _ _ _ _ _ _ Hok Ha' Ht) as [Hin _]. split; [exact Hin|]. left. by exists a.
Qed.

Lemma apart_orphan h0 g addr id a :
  (∀ id a, A addr id a → keeps_out (dir addr) id a) → A addr id a → interrupted g addr id → apart h0 g addr →
  isolated (dir addr) (A addr) (h0 addr) (gone (gr_started g) (gr_reported g) addr (ag_srv (agent_at g addr)))
    (MkAgent (ag_srv (agent_at g addr)) (ag_runs (agent_at g addr))
       (host_perform _ a AwaitPlaybook (gr_hosts g addr)).2).
Proof.
  intros HA HAa (Hst & Hrp & Hh) Hi.
  apply (isolated_orphan _ _ HA _ _ _ _ _ id); [|by split; [|right]|done|exact Hi].
  intros t p ctx Ht <-. by eapply Hh, executing_held.
Qed.

Lemma apart_elsewhere h0 sys ags hosts dl st rp addr (h : Host) o1 o2 a :
  a ≠ addr → apart h0 (MkGrain sys ags hosts dl st rp) a →
  isolated (dir a) (A a) (h0 a) (gone (record addr o1 st) (record addr o2 rp) a
    (ag_srv (agent_at (MkGrain sys ags (<[addr := h]> hosts) dl (record addr o1 st) (record addr o2 rp)) a)))
    (agent_at (MkGrain sys ags (<[addr := h]> hosts) dl (record addr o1 st) (record addr o2 rp)) a).
Proof.
  intros Hne Hi. unfold apart, agent_at in Hi |- *. cbn in Hi |- *. rewrite fn_lookup_insert_ne by done.
  eapply isolated_weaken; [|exact Hi]. intros id _ (? & Hor). split; [rewrite elem_of_record; by left|].
  destruct Hor as [?|[? ?]]; [by left|right; split; [|done]]. intros [?|[? _]]%elem_of_record; done.
Qed.

Lemma apart_step h0 g g' :
  (∀ addr id a, A addr id a → keeps_out (dir addr) id a) → (∀ addr id, no_files (dir addr) (h0 addr) id) →
  grain_step g g' → all_on_the_way h0 g → platform_ok dir (forget g) →
  (∀ a, apart h0 g a) → ∀ a, apart h0 g' a.
Proof.
  intros HA Hc Hs Hw Hok Hi a. specialize (Hi a). destruct Hs as [sys sys' ags hosts dl st rp Hs|sys ags hosts dl st rp addr capacity|
    sys ags hosts dl st rp addr|sys ags hosts dl st rp i addr p t srv runs srv' Hix Hdl Hsrv Hst|
    sys ags hosts dl st rp addr srv runs act s' Hd Hsrv Hst|g addr id ans Hg HAns].
  - done.
  - unfold apart. rewrite agent_at_insert. case_decide as E; [subst a|done]. by apply (apart_stopped _ _ _ _ Hok).
  - unfold apart. rewrite agent_at_delete. case_decide as E; [subst a|done]. by apply (apart_stopped _ _ _ _ Hok).
  - unfold apart. rewrite agent_at_insert. case_decide as E; [subst a|done].
    eapply apart_deliver; [|exact Hsrv|exact Hst|exact Hi].
    intros Hin. by eapply (undelivered _ _ _ _ _ _ _ (ok_tokens _ _ Hok) Hix Hdl), (once_used _ _ _ _ (ok_started _ _ Hok)).
  - unfold apart. rewrite agent_at_insert. case_decide as E; [subst a|by apply apart_elsewhere].
    assert (entries_ok srv) as He.
    { destruct (ok_agents _ _ Hok addr srv) as [(capacity & Hr) _]; [cbn; by rewrite lookup_fmap, Hsrv|].
      by eapply entries_reach. }
    specialize (Hw addr). rewrite (agent_at_at _ _ srv runs) in Hw by done.
    rewrite fn_lookup_insert. destruct s' as [srv' runs' h'].
    apply (apart_agent h0 (MkGrain sys ags hosts dl st rp) addr srv runs); auto.
  - unfold apart. cbn [gr_started gr_reported]. destruct (decide (a = addr)) as [->|Hne].
    + rewrite agent_at_host, fn_lookup_insert. apply (apart_orphan _ _ _ id); auto.
    + by rewrite agent_at_host, fn_lookup_insert_ne.
Qed.

(** C11: jobs do not touch each other's files, if their commands keep out of the
    directories of other jobs and these are empty before the first job: whatever
    the interleaving of the servers, the agents and the interactions of the jobs
    with their hosts, and whatever fails on the hosts, each executing job has still to do, and has in its
    directory, what it would had it run alone on its host as it was at first.  A
    file is in the directory of a job that is not executing only if the agent that
    ran it stopped or crashed before it reported it, or if os.RemoveAll may fail
    for this job: where it works, nothing, and no secret, is left of a job that
    ended, whatever is left of others.  The commands of an interrupted job may run
    on. *)
Theorem platform_isolates w h0 g :
  w_sent w = [] → (∀ addr id a, A addr id a → keeps_out (dir addr) id a) →
  (∀ addr id, no_files (dir addr) (h0 addr) id) → grain_reach w h0 g →
  (∀ addr t p ctx, srv_threads (ag_srv (agent_at g addr)) !! t = Some (Executing p ctx) →
     as_if_alone (dir addr) (A addr) (h0 addr) (agent_at g addr) t p) ∧
  (∀ addr id, idle (ag_srv (agent_at g addr)) id → ¬ interrupted g addr id →
     (∀ a, A addr id a → removeall_ok a) → no_files (dir addr) (gr_hosts g addr) id).
Proof.
  intros Hw HA Hc Hr. assert (∀ a, apart h0 g a) as Hi.
  { apply (grain_induction w h0 (λ g, ∀ a, apart h0 g a)); [..|exact Hr].
    - intros a. split; [intros t p ctx; cbn; by rewrite lookup_empty|intros id _ _; apply Hc].
    - intros g1 g2 Hr1 Hs. eapply apart_step; [done..| |]; [by eapply grain_reach_on_the_way|by eapply grain_platform_ok]. }
  split; intros addr; destruct (Hi addr) as [Halone Hidle]; [exact Halone|].
  intros id Hid Hn Hrm. apply Hidle; [done|]. intros (Hst & [(a & HAa & Ha)|[? ?]]); [by apply Ha, Hrm|].
  by apply Hn; split_and!.
Qed.
End grain.
