(* ===== verification/Cancellation.v ===== *)
(** * Cancellation of a job that runs

    A cancel request cancels the context of the job; the run looks at its context
    after the playbook.  First on one host, at the grain of [Sharing], then on the
    platform at that of [Grain]: a job cancelled once its playbook is due, and before
    it has asked about its context, is reported cancelled, whatever else happens. *)
From S2P Require Import Prelude.
From S2P Require Import Prog.
From S2P Require Import Types.
From S2P Require Import Text.
From S2P Require Import Db.
From S2P Require Import ControllerStore.
From S2P Require Import Lifecycle.
From S2P Require Import Token.
From S2P Require Import Secrets.
From S2P Require Import Transport.
From S2P Require Import Scheduler.
From S2P Require Import ApiStore.
From S2P Require Import ApiResources.
From S2P Require Import Http.
From S2P Require Import Auth.
From S2P Require Import JobHandlers.
From S2P Require Import ResourceHandlers.
From S2P Require Import Process.
From S2P Require Import System.
From S2P Require Import AgentInventory.
From S2P Require Import AgentRunner.
From S2P Require Import AgentRunnerFacts.
From S2P Require Import AgentServer.
From S2P Require Import AgentServerFacts.
From S2P Require Import Platform.
From S2P Require Import Sharing.
From S2P Require Import Grain.
From stdpp Require Import functions.

(** ** Cancellation reaches the run *)

(** The answer that an interaction has when the job's context is cancelled. *)
Definition when_cancelled {X} (e : HostEv X) : X → Prop :=
  match e in HostEv X return X → Prop with CtxErr => λ b, b = true | _ => λ _, True end.

(** With its context cancelled from here on, the program returns only [Q]. *)
Fixpoint heeds {X} (Q : X → Prop) (p : prog HostEv X) : Prop :=
  match p with
  | Ret r => Q r
  | Vis e k => ∀ x, when_cancelled e x → heeds Q (k x)
  end.

Lemma heeds_bind {X Y} (Q : X → Prop) (R : Y → Prop) (p : prog HostEv X) f :
  heeds Q p → (∀ x, Q x → heeds R (f x)) → heeds R (p ≫= f).
Proof. intros Hp Hf. induction p as [x|Z e k IH]; simpl in *; [auto|]. intros x Hx. by apply IH, Hp. Qed.

Lemma heeds_any {X} (p : prog HostEv X) : heeds (λ _, True) p.
Proof. induction p; simpl; auto. Qed.

Lemma heeds_bind_any {X Y} (R : Y → Prop) (p : prog HostEv X) f : (∀ x, heeds R (f x)) → heeds R (p ≫= f).
Proof. intros Hf. eapply heeds_bind; [apply heeds_any|auto]. Qed.

Definition is_cancelled (r : Result) : Prop := Result_Status r = JobStatusCancelled.

(** Cancelled, or what a run returns that gives up before it starts a playbook. *)
Definition called_off (r : Result) : Prop := is_cancelled r ∨ r = failed.

Lemma heeds_mono {X} (Q Q' : X → Prop) (p : prog HostEv X) : (∀ x, Q x → Q' x) → heeds Q p → heeds Q' p.
Proof. intros HQ. induction p as [x|Z e k IH]; simpl; auto. Qed.

(** ** The playbook and the question about the context *)

Definition not_asking (X : Type) (e : HostEv X) : Prop := match e with CtxErr => False | _ => True end.
Definition not_start (X : Type) (e : HostEv X) : Prop := match e with StartPlaybook _ _ => False | _ => True end.
Definition neutral (X : Type) (e : HostEv X) : Prop :=
  match e with CtxErr | StartPlaybook _ _ => False | _ => True end.

(** Once it comes to start its playbook, the program asks about its context, once,
    and a cancelled context makes it return a cancelled result. *)
Fixpoint committed (p : prog HostEv Result) : Prop :=
  match p with
  | Ret _ => False
  | Vis e k =>
      match e with
      | CtxErr => ∀ x, all_events not_asking (k x) ∧ (when_cancelled e x → heeds is_cancelled (k x))
      | _ => ∀ x, committed (k x)
      end
  end.

(** Before that it does not ask, and fails if it gives up. *)
Fixpoint uncommitted (p : prog HostEv Result) : Prop :=
  match p with
  | Ret r => r = failed
  | Vis e k =>
      match e with
      | CtxErr => False
      | StartPlaybook _ _ => ∀ x, committed (k x)
      | _ => ∀ x, uncommitted (k x)
      end
  end.

Lemma committed_heeds p : committed p → heeds is_cancelled p.
Proof.
  induction p as [r|X e k IH]; [done|]. intros Hp x Hx.
  destruct e; cbn in Hp; try (by apply IH, Hp). by apply Hp.
Qed.

Lemma uncommitted_heeds p : uncommitted p → heeds called_off p.
Proof.
  induction p as [r|X e k IH]; [by right|]. intros Hp x Hx.
  destruct e; cbn in Hp; try done; try (by apply IH, Hp).
  eapply heeds_mono; [|apply committed_heeds, Hp]. by left.
Qed.

(** The next thing the run does is to start its playbook, or it never starts one
    any more. *)
Definition playbook_due (p : prog HostEv Result) : Prop :=
  match p with
  | Vis (StartPlaybook _ _) _ => True
  | _ => all_events not_start p
  end.

Lemma uncommitted_due p : uncommitted p → playbook_due p → heeds is_cancelled p ∨ all_events not_asking p.
Proof.
  intros Hp Hd. assert (∀ p, uncommitted p → all_events not_start p → all_events not_asking p) as Hnot.
  { clear. induction p as [r|X e k IH]; [done|]. intros Hp [He Hk]. destruct e; cbn in *; try done;
      (split; [done|]); intros x; by apply IH. }
  destruct p as [r|X e k]; [by right|]. destruct e; try (right; by apply Hnot).
  left. intros x _. by apply committed_heeds.
Qed.

Lemma neutral_uncommitted p : all_events neutral p → heeds (λ r, r = failed) p → uncommitted p.
Proof.
  induction p as [r|X e k IH]; [done|]. intros [He Hk] Hp. destruct e; cbn in *; try done; intros x; by apply IH; auto.
Qed.

Lemma neutral_asking {X} (p : prog HostEv X) : all_events neutral p → all_events not_asking p.
Proof. induction p as [x|Z e k IH]; [done|]. intros [He Hk]. split; [by destruct e|auto]. Qed.

(** What is done with the result on the way out: it is kept. *)
Definition passes_on (f : Result → prog HostEv Result) : Prop :=
  ∀ r, all_events neutral (f r) ∧ heeds (λ r', r' = r) (f r).

Lemma committed_after p f : committed p → passes_on f → committed (p ≫= f).
Proof.
  intros Hp Hf. induction p as [r|X e k IH]; [done|].
  destruct e; cbn in *; try (intros x; by apply IH). intros x. destruct (Hp x) as [Ha Hc]. split.
  - apply all_events_bind; [done|]. intros r. by apply neutral_asking, Hf.
  - intros Hx. apply (heeds_bind is_cancelled); [by apply Hc|]. intros r Hr.
    eapply heeds_mono; [|apply Hf]. by intros r' ->.
Qed.

Lemma uncommitted_after p f : uncommitted p → passes_on f → uncommitted (p ≫= f).
Proof.
  intros Hp Hf. induction p as [r|X e k IH].
  - cbn in Hp. subst r. apply neutral_uncommitted; apply Hf.
  - destruct e; cbn in *; try done; intros x; try (by apply IH). by apply committed_after.
Qed.

Lemma neutral_before {X} (p : prog HostEv X) (f : X → prog HostEv Result) :
  all_events neutral p → (∀ x, uncommitted (f x)) → uncommitted (p ≫= f).
Proof.
  intros Hp Hf. induction p as [x|Z e k IH]; [apply Hf|]. destruct Hp as [He Hk].
  destruct e; cbn in *; try done; intros x; by apply IH.
Qed.

Lemma committed_before {X} (p : prog HostEv X) (f : X → prog HostEv Result) :
  all_events neutral p → (∀ x, committed (f x)) → committed (p ≫= f).
Proof.
  intros Hp Hf. induction p as [x|Z e k IH]; [apply Hf|]. destruct Hp as [He Hk].
  destruct e; cbn in *; try done; intros x; by apply IH.
Qed.

Lemma uncommitted_try {X} (p : prog HostEv (result X)) (k : X → prog HostEv Result) :
  all_events neutral p → (∀ x, uncommitted (k x)) →
  uncommitted (prog_bind (λ r, match r with Ok x => k x | Err _ => mret failed end) p).
Proof. intros Hp Hk. apply (neutral_before p); [done|]. intros [x|e]; [apply Hk|done]. Qed.

Section cancelled.
Context `{UuidLib} `{!UuidLaws} `{!UuidText} `{OsEnv} `{VarsJson} `{FmtLib} `{MapOrder}.
Context (workDir : string) (A : uuid → HostAnswer → Prop).

Lemma Materialize_neutral jobDir r creds : all_events neutral (Materialize jobDir r creds).
Proof.
  revert r. induction creds as [|c creds IH]; intros r; cbn [Materialize]; [done|].
  apply all_events_prog_bind; [|by intros [r'|e]]. unfold materialize_one, writeSecret. by solve_events.
Qed.

Lemma runPlaybook_commits pb inv ev creds (f : Z → prog HostEv Result) :
  (∀ code, committed (f code)) → uncommitted (runPlaybook pb inv ev creds ≫= f).
Proof.
  intros Hf. cbn. intros [[]|e]; [|apply Hf]. intros o.
  refine (committed_before (_ ← for_each (logged o) (λ l, trigger (OnLog l)); mret (exit_code (pb_wait o))) f _ Hf).
  by solve_events.
Qed.

Lemma Run_uncommitted p : uncommitted (Run workDir p).
Proof.
  unfold Run. apply uncommitted_try; [done|]. intros [].
  apply (uncommitted_after (run_in _ p)); [|by intros r; split; [by solve_events|intros x _]].
  unfold run_in. apply uncommitted_try; [apply Materialize_neutral|]. intros creds.
  apply (uncommitted_after (run_with _ p creds)).
  2: { intros r. unfold Cleanup. split; [by solve_events|]. apply heeds_bind_any. by intros _. }
  unfold run_with. apply uncommitted_try; [unfold gitClone; by solve_events|]. intros [].
  cbv beta iota zeta delta [WriteInventory]. apply uncommitted_try; [done|]. intros [].
  apply uncommitted_try; [unfold writeExtraVars; by solve_events|]. intros [].
  apply runPlaybook_commits. intros exitCode c. split; [done|]. by intros ->.
Qed.

(** What the goroutines with a cancelled context do, when their runs return only
    [Q]. *)
Definition calls_off (Q : Result → Prop) (ctx : nat) (s : Agent) : Prop :=
  ctx ∈ srv_cancelled (ag_srv s) ∧ ctx < srv_contexts (ag_srv s) ∧
  ∀ t th id, srv_threads (ag_srv s) !! t = Some th → entry_of th = Some (id, ctx) →
    match th with
    | Executing _ _ => ∃ q, ag_runs s !! t = Some q ∧ heeds Q q
    | AtReport _ _ r => Q r
    | AtUnregister _ _ => True
    | _ => False
    end.

Lemma step_contexts s act s' :
  srv_step workDir s act = Some s' → srv_contexts s <= srv_contexts s' ∧ srv_cancelled s ⊆ srv_cancelled s'.
Proof.
  intros Hs. inv_step Hs; cbn [goto respond_and_end register start_job finish_run report unregister uncount
    call_cancel srv_contexts srv_cancelled]; split; try lia; set_solver.
Qed.

Lemma calls_off_listener Q c srv runs hh act srv' :
  listens srv act = true → srv_step workDir srv act = Some srv' →
  calls_off Q c (MkAgent srv runs hh) → calls_off Q c (MkAgent srv' runs hh).
Proof.
  intros Hl Hs (Hc & Hx & Hall). destruct (step_contexts _ _ _ Hs) as [Hle Hsub].
  split; [by apply Hsub|]. split; [cbn [ag_srv] in *; lia|]. cbn [ag_srv] in *. intros u th id0 Hth Hen.
  destruct (decide (u = act_thread act)) as [->|Hne];
    [|rewrite (step_frame _ _ _ _ _ Hs Hne) in Hth; by apply (Hall u th id0)].
  clear Hle Hsub. revert Hth Hen. inv_step Hs; cbn [listens] in Hl; rewrite ?Ht in Hl; try done;
    cbn [goto respond_and_end register report unregister uncount call_cancel act_thread srv_threads];
    rewrite ?lookup_insert_eq, ?lookup_delete_eq; intros [= <-] [= <- E]; try done; lia.
Qed.

Lemma calls_off_started Q c srv runs hh t p ctx :
  srv_threads srv !! t = Some (AtCount p ctx) → calls_off Q c (MkAgent srv runs hh) →
  calls_off Q c (MkAgent (start_job t p ctx srv) (<[t := Run workDir p]> runs) hh).
Proof.
  intros Ht (Hc & Hx & Hall). split_and!; [done..|]. cbn [ag_srv ag_runs start_job srv_threads] in *.
  intros u th id [[<- <-]|[Hne Hth]]%lookup_insert_Some Hen.
  - by destruct (Hall _ _ _ Ht Hen).
  - rewrite lookup_insert_ne by done. by apply (Hall u th id).
Qed.

Lemma calls_off_job Q c srv runs hh t p ctx X (e : HostEv X) k a :
  srv_threads srv !! t = Some (Executing p ctx) → runs !! t = Some (Vis e k) →
  ha_cancelled a = bool_decide (ctx ∈ srv_cancelled srv) → calls_off Q c (MkAgent srv runs hh) →
  calls_off Q c (MkAgent srv (<[t := k (host_perform X a e hh).1]> runs) (host_perform X a e hh).2).
Proof.
  intros Ht Hk Ha (Hc & Hx & Hall). split_and!; [done..|]. cbn [ag_srv ag_runs] in *.
  intros u th id Hth Hen. specialize (Hall u th id Hth Hen). destruct (decide (u = t)) as [->|Hne].
  - rewrite Ht in Hth. injection Hth as <-. cbn in Hen. injection Hen as _ ->.
    destruct Hall as (q & Hq & Hh). rewrite Hk in Hq. injection Hq as <-. rewrite lookup_insert_eq.
    eexists. split; [done|]. apply Hh. destruct e; try done. cbn. rewrite Ha. by apply bool_decide_eq_true.
  - by rewrite lookup_insert_ne.
Qed.

Lemma calls_off_returned Q c srv runs hh t p ctx r :
  srv_threads srv !! t = Some (Executing p ctx) → runs !! t = Some (Ret r) →
  calls_off Q c (MkAgent srv runs hh) → calls_off Q c (MkAgent (finish_run t p ctx r srv) runs hh).
Proof.
  intros Ht Hk (Hc & Hx & Hall). split_and!; [done..|]. cbn [ag_srv ag_runs finish_run goto srv_threads] in *.
  intros u th id [[<- <-]|[Hne Hth]]%lookup_insert_Some Hen; [|by apply (Hall u th id)].
  destruct (Hall _ _ _ Ht Hen) as (q & Hq & Hh). rewrite Hk in Hq. by injection Hq as <-.
Qed.

Lemma calls_off_step Q c s l s' : agent_step workDir A s l s' → calls_off Q c s → calls_off Q c s'.
Proof.
  intros Hs Hc. destruct Hs.
  - by eapply calls_off_listener.
  - by eapply calls_off_started.
  - by eapply calls_off_job.
  - by eapply calls_off_returned.
Qed.

Lemma calls_off_reach Q c s s' : agent_reach workDir A s s' → calls_off Q c s → calls_off Q c s'.
Proof.
  induction 1 as [|s1 s2 s3 (l & Hs & _) _ IH]; [done|]. intros Hc. by eapply IH, calls_off_step.
Qed.

(** Before the start of the playbook, between it and the question, or after the
    question. *)
Definition phase (q : prog HostEv Result) : Prop := uncommitted q ∨ committed q ∨ all_events not_asking q.

Lemma phase_alone p us h : phase p → phase (alone p us h).1.
Proof.
  revert p h. induction us as [|a us IH]; intros p h Hp; [done|]. destruct p as [r|X e k]; [done|].
  cbn [alone]. apply IH. generalize (host_perform X a e h).1. intros x.
  destruct Hp as [Hp|[Hp|[_ Hk]]]; [| |right; right; apply Hk].
  - destruct e; cbn in Hp; try done; try (by left; apply Hp). right. left. apply Hp.
  - destruct e; cbn in Hp; try (by right; left; apply Hp). right. right. apply Hp.
Qed.

(** What a run that may still ask returns with its context cancelled. *)
Lemma phase_heeds q : phase q → ¬ all_events not_asking q →
  heeds called_off q ∧ (playbook_due q → heeds is_cancelled q).
Proof.
  intros [Hq|[Hq|Hq]] Hn; [| |by apply Hn in Hq].
  - split; [by apply uncommitted_heeds|]. intros Hd. by destruct (uncommitted_due _ Hq Hd).
  - split; [|by intros _; apply committed_heeds]. eapply heeds_mono; [|by apply committed_heeds]. by left.
Qed.

(** A job whose context is cancelled while it may still ask about it. *)
Lemma calls_off_from h0 s t p ctx q :
  entries_ok (ag_srv s) → on_the_way workDir A h0 s →
  srv_threads (ag_srv s) !! t = Some (Executing p ctx) → ctx ∈ srv_cancelled (ag_srv s) →
  ag_runs s !! t = Some q → ¬ all_events not_asking q →
  calls_off called_off ctx s ∧ (playbook_due q → calls_off is_cancelled ctx s).
Proof.
  intros He Hw Ht Hc Hq Hn.
  assert (phase q) as Hp.
  { destruct (Hw t p ctx Ht) as (us & q' & h1 & _ & Hq' & Hal).
    rewrite Hq in Hq'. injection Hq' as <-. pose proof (phase_alone (Run workDir p) us h0) as Hp. rewrite Hal in Hp.
    apply Hp. left. apply Run_uncommitted. }
  assert (∀ Q, heeds Q q → calls_off Q ctx s) as Hall; [|by destruct (phase_heeds _ Hp Hn); auto].
  intros Q Hh. split_and!; [done|by apply (entries_old _ He t (JobPayload_JobID p)); unfold runs; rewrite Ht|].
  intros u th id Hth Hen. assert (u = t) as ->.
  { apply (entries_one _ He u t id (JobPayload_JobID p) ctx); unfold runs; [by rewrite Hth|by rewrite Ht]. }
  rewrite Ht in Hth. injection Hth as <-. by exists q.
Qed.

(** On one host: whatever the job does next, and however the playbook exits, the
    result it reports is Cancelled, or the failure of a step before the playbook. *)
Lemma cancel_honoured capacity h s s' t p ctx q :
  agent_reach workDir A (start capacity h) s →
  srv_threads (ag_srv s) !! t = Some (Executing p ctx) → ctx ∈ srv_cancelled (ag_srv s) →
  ag_runs s !! t = Some q → ¬ all_events not_asking q →
  agent_reach workDir A s s' →
  ∀ t' p' r, srv_threads (ag_srv s') !! t' = Some (AtReport p' ctx r) →
    called_off r ∧ (playbook_due q → is_cancelled r).
Proof.
  intros Hr Ht Hc Hq Hn Hr' t' p' r Ht'.
  assert (∀ Q, calls_off Q ctx s → Q r) as Hall.
  { intros Q Hs. apply (calls_off_reach Q _ _ _ Hr') in Hs as (_ & _ & Hall).
    by apply (Hall t' (AtReport p' ctx r) (JobPayload_JobID p')). }
  destruct (calls_off_from h s t p ctx q) as [Hs Hs']; try done; [by eapply agent_entries|by eapply on_the_way_reach|].
  split; [by apply Hall|]. intros Hd. by apply Hall, Hs'.
Qed.
End cancelled.

(** ** On the platform *)

Section platform.
Context `{UuidLib} `{!UuidLaws} `{!UuidText} `{PgxLib} `{Collation} `{CryptoLib} `{FieldsJson} `{HashLib} `{JwtLib}
  `{BcryptLib} `{NetLib} `{OsEnv} `{CronLib} `{PgxPool} `{VarsJson} `{FmtLib} `{MapOrder}.
Context `{JsonDecode Jobs.CreateJobBody} `{JsonDecode (list JobLogLine)}
  `{JsonDecode Jobs.ResultBody}.
Context `{JsonDecode LoginBody} `{JsonDecode NameBody} `{JsonDecode RegisterBody}
  `{JsonDecode Types.AgentHeartbeat}.
Context `{JsonDecode Resources.CreateTemplateBody} `{JsonDecode Resources.UpdateTemplateBody}
  `{JsonDecode Resources.ProjectBody} `{JsonDecode Resources.CreateScheduleBody}
  `{JsonDecode Resources.UpdateScheduleBody} `{JsonDecode Resources.CredentialBody}
  `{JsonDecode Resources.WorkflowBody} `{JsonDecode Resources.UpdateWorkflowBody}
  `{JsonDecode Resources.NoteBody}.
(** The working directory of the agent at an address, and what its host may
    answer to the job with an id. *)
Context (dir : string → string) (A : string → uuid → HostAnswer → Prop).


(** The job [id] at the address [a] has the context [c], which is cancelled;
    nobody else has the job, and nobody will. *)
Definition doomed (Q : Result → Prop) (a : string) (c : nat) (id : uuid) (g : Grain) : Prop :=
  sent_to (gr_sys g).1 (gr_delivered g) a id ∧
  ∀ addr t th, srv_threads (ag_srv (agent_at g addr)) !! t = Some th → unreported th = Some id →
    addr = a ∧ entry_of th = Some (id, c) ∧ calls_off Q c (agent_at g a).

(** A goroutine keeps its job and its context. *)
Lemma step_entry d srv act srv' th th' en :
  srv_step d srv act = Some srv' → srv_threads srv !! act_thread act = Some th →
  srv_threads srv' !! act_thread act = Some th' → is_Some (unreported th') → entry_of th = Some en → entry_of th' = Some en.
Proof.
  intros Hs Hth Hth' Hu He. revert Hth'. inv_step Hs; cbn in Hth |- *; rewrite ?lookup_insert_eq, ?lookup_delete_eq;
    intros [= <-]; simplify_eq/=; done.
Qed.

Lemma thread_before d srv act srv' t th id :
  srv_step d srv act = Some srv' → is_dispatch act = false →
  srv_threads srv' !! t = Some th → unreported th = Some id →
  ∃ th0, srv_threads srv !! t = Some th0 ∧ unreported th0 = Some id ∧
    ∀ en, entry_of th0 = Some en → entry_of th = Some en.
Proof.
  intros Hs Hd Hth Hu. destruct (decide (t = act_thread act)) as [->|Hne].
  - destruct (step_held _ _ _ _ Hs Hd) as [_ Hk]. destruct (Hk id) as [Hh _]; [unfold held; by rewrite Hth|].
    unfold held in Hh. destruct (srv_threads srv !! act_thread act) as [th0|] eqn:Hth0; [|done].
    exists th0. split_and!; [done..|]. intros en. by apply (step_entry _ _ _ _ _ _ _ Hs Hth0 Hth).
  - rewrite (step_frame _ _ _ _ _ Hs Hne) in Hth. by exists th.
Qed.

(** The same of a step with the host. *)
Lemma agent_thread_before d B h0 s act s' t th id :
  agent_step d B s act s' → on_the_way d B h0 s → from_option is_dispatch false act = false →
  srv_threads (ag_srv s') !! t = Some th → unreported th = Some id →
  ∃ th0, srv_threads (ag_srv s) !! t = Some th0 ∧ unreported th0 = Some id ∧
    ∀ en, entry_of th0 = Some en → entry_of th = Some en.
Proof.
  intros Hs Hw Hd Hth Hu. pose proof (agent_simulates _ _ _ _ _ _ Hs Hw) as Hsim. destruct act as [act|].
  - destruct Hsim as (act' & Hsame & Hs'). destruct (same_act_reads (ag_srv s) act act' Hsame) as (Ed & _).
    eapply thread_before; [exact Hs'|cbn in Hd; congruence|done..].
  - rewrite Hsim in Hth. by exists th.
Qed.

(** A goroutine that a dispatch request of another job leaves. *)
Lemma dispatch_thread_before d srv t p srv' t' th id :
  srv_step d srv (Receive t (Ok p)) = Some srv' → JobPayload_JobID p ≠ id →
  srv_threads srv' !! t' = Some th → unreported th = Some id → srv_threads srv !! t' = Some th.
Proof.
  intros Hs Hne Hth Hu.
  assert (held unreported srv' t' = Some id) as Hh' by (unfold held; by rewrite Hth).
  destruct (dispatch_held unreported _ _ _ _ _ t' id (λ _, eq_refl) Hs Hh') as [Hh|[_ E]]; [|by rewrite E in Hne].
  assert (t' ≠ t) as Ht.
  { intros ->. unfold held in Hh. cbn in Hs. case_decide as E; [|done]. by rewrite E in Hh. }
  by rewrite (step_frame _ _ _ _ t' Hs) in Hth.
Qed.

Lemma doomed_step Q h0 a c id g g' :
  grain_step dir A g g' → all_on_the_way dir A h0 g → platform_ok dir (forget g) → doomed Q a c id g → doomed Q a c id g'.
Proof.
  intros Hs Hw Hok [Hsent Hall].
  destruct Hs as [sys sys' ags hosts dl st rp Hs|sys ags hosts dl st rp addr capacity|
    sys ags hosts dl st rp addr|sys ags hosts dl st rp i addr p t srv runs srv' Hi Hdl Hsrv Hst|
    sys ags hosts dl st rp addr srv runs act s' Hd Hsrv Hst|g addr id' ans Hg HAns]; cbn [gr_sys gr_delivered] in *.
  - split; [|exact Hall]. eapply sent_to_mono; [|done|exact Hsent]. intros i m. by apply sys_step_sent.
  - split; [done|]. intros b t th. rewrite !agent_at_insert. cbn [fst snd]. case_decide as E; [subst b|].
    + cbn. by rewrite lookup_empty.
    + intros Hth Hu. destruct (Hall b t th Hth Hu) as (-> & ? & ?). by rewrite decide_False.
  - split; [done|]. intros b t th. rewrite !agent_at_delete. case_decide as E; [subst b|].
    + cbn. by rewrite lookup_empty.
    + intros Hth Hu. destruct (Hall b t th Hth Hu) as (-> & ? & ?). by rewrite decide_False.
  - assert (JobPayload_JobID p ≠ id) as Hne.
    { intros <-. by eapply (undelivered _ _ _ _ _ _ _ (ok_tokens _ _ Hok) Hi Hdl). }
    split; [eapply sent_to_mono; [done| |exact Hsent]; set_solver|].
    intros b u th. rewrite !agent_at_insert. cbn [fst snd]. intros Hth Hu.
    assert (b = a ∧ entry_of th = Some (id, c) ∧ calls_off Q c (agent_at (MkGrain sys ags hosts dl st rp) a)) as (-> & He & Hc).
    { case_decide as E; [subst b|by apply (Hall b u)]. apply (Hall addr u th); [|done].
      rewrite (agent_at_at _ _ srv runs) by done. by eapply dispatch_thread_before. }
    split_and!; [done..|]. case_decide as E; [subst a|done]. rewrite (agent_at_at _ _ srv runs) in Hc by done.
    refine (calls_off_listener _ _ _ _ _ _ (Receive t (Ok p)) _ _ Hst Hc). done.
  - split; [done|]. intros b u th. rewrite !agent_at_insert. cbn [fst snd]. intros Hth Hu.
    pose proof (Hw addr) as Hway. rewrite (agent_at_at _ _ srv runs) in Hway by done.
    assert (b = a ∧ entry_of th = Some (id, c) ∧ calls_off Q c (agent_at (MkGrain sys ags hosts dl st rp) a)) as (-> & He & Hc).
    { case_decide as E; [subst b|by apply (Hall b u)].
      destruct (agent_thread_before _ _ _ _ _ _ u th id Hst Hway Hd Hth Hu) as (th0 & Hth0 & Hu0 & Hen).
      destruct (Hall addr u th0) as (-> & He & Hc); [by rewrite (agent_at_at _ _ srv runs)|done|]. auto. }
    split_and!; [done..|]. case_decide as E; [subst a|exact Hc]. rewrite (agent_at_at _ _ srv runs) in Hc by done.
    exact (calls_off_step _ _ _ _ _ _ _ Hst Hc).
  - split; [exact Hsent|exact Hall].
Qed.

Lemma doomed_from w h0 g a t p c q :
  w_sent w = [] → grain_reach dir A w h0 g →
  srv_threads (ag_srv (agent_at g a)) !! t = Some (Executing p c) → c ∈ srv_cancelled (ag_srv (agent_at g a)) →
  ag_runs (agent_at g a) !! t = Some q → ¬ all_events not_asking q →
  doomed called_off a c (JobPayload_JobID p) g ∧
  (playbook_due q → doomed is_cancelled a c (JobPayload_JobID p) g).
Proof.
  intros Hw Hr Ht Hc Hq Hn. pose proof (grain_platform_ok dir A w h0 g Hw Hr) as Hok.
  pose proof (grain_reach_on_the_way dir A w h0 g Hr a) as Hway.
  assert (∀ b u th id, srv_threads (ag_srv (agent_at g b)) !! u = Some th → unreported th = Some id →
    holding unreported (pl_agents (forget g)) b u id) as Hh.
  { intros b u th id Hth Hu. destruct (gr_agents g !! b) as [[srv runs]|] eqn:Hb.
    - rewrite (agent_at_at _ _ srv runs) in Hth by done. unfold holding, forget. cbn in Hth |- *.
      rewrite lookup_fmap, Hb. cbn. by rewrite Hth.
    - unfold agent_at in Hth. rewrite Hb in Hth. cbn in Hth. by rewrite lookup_empty in Hth. }
  pose proof (Hh a t _ _ Ht eq_refl) as Ha.
  assert (entries_ok (ag_srv (agent_at g a))) as He.
  { destruct (gr_agents g !! a) as [[srv runs]|] eqn:Hb.
    - destruct (ok_agents _ _ Hok a srv) as [(capacity & Hs) _]; [cbn; by rewrite lookup_fmap, Hb|].
      rewrite (agent_at_at _ _ srv runs) by done. by eapply entries_reach.
    - unfold agent_at in Ht. rewrite Hb in Ht. cbn in Ht. by rewrite lookup_empty in Ht. }
  assert (∀ Q, calls_off Q c (agent_at g a) → doomed Q a c (JobPayload_JobID p) g) as Hall.
  { intros Q HQ. split; [by apply (once_held _ _ _ _ (ok_reported _ _ Hok) a t)|]. intros b u th Hth Hu.
    destruct (once_one _ _ _ _ (ok_reported _ _ Hok) _ _ _ _ _ (Hh b u th _ Hth Hu) Ha) as [-> ->].
    rewrite Ht in Hth. by injection Hth as <-. }
  destruct (calls_off_from (dir a) (A a) (h0 a) _ _ _ _ _ He Hway Ht Hc Hq Hn) as [Hs Hs']. auto.
Qed.

Lemma doomed_reach Q w h0 a c id g g' :
  w_sent w = [] → grain_reach dir A w h0 g → rtc (grain_step dir A) g g' →
  doomed Q a c id g → doomed Q a c id g'.
Proof.
  intros Hw Hr Hr'. revert Hr. induction Hr' as [g|g1 g2 g3 Hs _ IH]; [done|]. intros Hr Hd.
  apply IH; [by eapply rtc_r|].
  eapply doomed_step; [exact Hs|by eapply grain_reach_on_the_way|by eapply grain_platform_ok|done].
Qed.

Lemma doomed_reports Q a c id g a' t' p' c' r :
  doomed Q a c id g → srv_threads (ag_srv (agent_at g a')) !! t' = Some (AtReport p' c' r) →
  JobPayload_JobID p' = id → Q r.
Proof.
  intros [_ Hall] Ht' <-. destruct (Hall a' t' _ Ht') as (-> & Hen & _ & _ & Hoff); [done|].
  by apply (Hoff t' _ _ Ht' Hen).
Qed.

(** C12: a cancellation that reaches a job before it asked about its context is
    honoured, whatever happens next, on the servers, at the other agents and among
    the interactions of the jobs, whoever stops or crashes.  If the context of an
    executing job is cancelled when the job is about to start its playbook, or
    later, while it waits for the playbook, logs its lines or is about to ask,
    every result that any agent ever reports of this job is Cancelled, whether
    the playbook could be started, was killed or exited with whatever code.  If
    the context is cancelled earlier, the result is Cancelled too, or the failure
    of a run that gave up before it came to start a playbook. *)
Theorem cancellation_honoured w h0 g g' a t p c q :
  w_sent w = [] → grain_reach dir A w h0 g →
  srv_threads (ag_srv (agent_at g a)) !! t = Some (Executing p c) → c ∈ srv_cancelled (ag_srv (agent_at g a)) →
  ag_runs (agent_at g a) !! t = Some q → ¬ all_events not_asking q →
  rtc (grain_step dir A) g g' →
  ∀ a' t' p' c' r, srv_threads (ag_srv (agent_at g' a')) !! t' = Some (AtReport p' c' r) →
    JobPayload_JobID p' = JobPayload_JobID p →
    (playbook_due q → Result_Status r = JobStatusCancelled) ∧
    (Result_Status r = JobStatusCancelled ∨ r = {| Result_Status := JobStatusFailed; Result_ExitCode := -1 |}).
Proof.
  intros Hw Hr Ht Hc Hq Hn Hr' a' t' p' c' r Ht' Hid.
  destruct (doomed_from w h0 g a t p c q Hw Hr Ht Hc Hq Hn) as [Hd Hd']. split.
  - intros Hdue. exact (doomed_reports _ _ _ _ _ _ _ _ _ _ (doomed_reach _ _ _ _ _ _ _ _ Hw Hr Hr' (Hd' Hdue)) Ht' Hid).
  - exact (doomed_reports _ _ _ _ _ _ _ _ _ _ (doomed_reach _ _ _ _ _ _ _ _ Hw Hr Hr' Hd) Ht' Hid).
Qed.
End platform.
