(* ===== verification/ApiFacts.v ===== *)
(** * What the API handlers do

    Functional behaviour of the handlers, run alone on a database that answers. *)
From S2P Require Import Prelude.
From S2P Require Import Prog.
From S2P Require Import Types.
From S2P Require Import Strconv.
From S2P Require Import Text.
From S2P Require Import Db.
From S2P Require Import Hoare.
From S2P Require Import ControllerStore.
From S2P Require Import Secrets.
From S2P Require Import Reconciler.
From S2P Require Import ReconcilerFacts.
From S2P Require Import ApiStore.
From S2P Require Import ApiResources.
From S2P Require Import Http.
From S2P Require Import Auth.
From S2P Require Import Integrity.
From S2P Require Import JobHandlers.
From S2P Require Import ResourceHandlers.

(** ** Jobs *)

Section jobs.
Context `{UuidLib} `{JsonDecode Jobs.CreateJobBody} `{JsonDecode (list JobLogLine)}
  `{JsonDecode Jobs.ResultBody}.
Import Jobs.

(** CancelJob on every branch: 404 for an unknown job and 409 for one in a
    terminal status, both without effect; otherwise 204, and exactly that job is
    cancelled, with its end time and the reason "cancelled by user". *)
Lemma CancelJob_spec r id ans w :
  Forall faultless ans → uuid_Parse (URLParam r "id") = Ok id →
  let '(resp, (_, w')) := exec (CancelJob r) ans w in
  match db_jobs (w_db w) !! id with
  | None => resp = respondError StatusNotFound "not found" ∧ w_db w' = w_db w
  | Some j =>
      if IsTerminal (Job_Status j)
      then resp = respondError StatusConflict "job is already in a terminal state" ∧ w_db w' = w_db w
      else resp = write_status StatusNoContent ∧ ∃ now, (w_now w <= now)%Z ∧
        w_db w' = set_jobs (<[id := update_status_row now JobStatusCancelled None
                                      (Some "cancelled by user") j]> (db_jobs (w_db w))) (w_db w)
  end.
Proof.
  intros Ha Hid. unfold CancelJob. rewrite Hid. run_sql Ha. unfold by_id.
  destruct (db_jobs (w_db w) !! id) as [j|] eqn:Hj; [|done]. simpl.
  destruct (IsTerminal (Job_Status j)); [done|].
  run_sql Ha0. unfold UpdateJobStatus_sql. rewrite Hj. simpl.
  split; [done|]. exists (tx_now tx0). split; [lia|done].
Qed.

Lemma AgentPostResult_facts r agent id ans w :
  Forall faultless ans → req_agent r = Some agent → uuid_Parse (URLParam r "job_id") = Ok id →
  let '(resp, (_, w')) := exec (AgentPostResult r) ans w in
  match db_jobs (w_db w) !! id with
  | None => resp = respondError StatusNotFound "not found" ∧ w_db w' = w_db w
  | Some j =>
      if not_assigned j agent then resp = respondError StatusForbidden "forbidden" ∧ w_db w' = w_db w
      else match json_Decode (T := ResultBody) (req_body r) with
      | Err _ => resp = bad_request "invalid request" ∧ w_db w' = w_db w
      | Ok body =>
          if IsTerminal (ResultBody_Status body) then
            resp = write_status StatusNoContent ∧
            ∃ now j', db_jobs (w_db w') = <[id := j']> (db_jobs (w_db w)) ∧
              (w_now w <= now)%Z ∧ Job_Status j' = ResultBody_Status body ∧
              Job_EndedAt j' = Some now ∧
              Job_Facts j' = (if decide (ResultBody_Facts body = ∅) then Job_Facts j
                              else ResultBody_Facts body)
          else resp = bad_request "status must be terminal" ∧ w_db w' = w_db w
      end
  end.
Proof.
  intros Ha Hag Hid. unfold AgentPostResult, AgentFromCtx. rewrite Hag, Hid. run_sql Ha. unfold by_id.
  destruct (db_jobs (w_db w) !! id) as [j|] eqn:Hj; [|done]. simpl.
  destruct (not_assigned j agent); [done|].
  destruct (json_Decode (req_body r)) as [body|e]; [|done].
  destruct (IsTerminal (ResultBody_Status body)) eqn:Ht; [|done]. simpl negb. cbv iota.
  run_sql Ha0. unfold UpdateJobStatus_sql. rewrite Hj. simpl.
  pose proof (update_status_row_ended (tx_now tx0) _ None None j Ht) as He.
  case_bool_decide as Hf.
  - split; [done|]. exists (tx_now tx0). eexists. split; [done|].
    rewrite decide_True by done. split_and!; [lia|done|done|done].
  - run_sql Ha1. split; [done|]. simpl. erewrite alter_Some by apply lookup_insert_eq.
    rewrite insert_insert_eq. exists (tx_now tx0). eexists. split; [done|].
    rewrite decide_False by done. split_and!; [lia|done|done|done].
Qed.

(** AgentPostResult on every branch: only the agent the job is assigned to
    may post, and only a terminal status; then the job gets that status, whatever
    its own status was (a cancelled or timed-out job can still become
    successful), its end time and the facts if any.  Every refusal leaves the
    database as it was. *)
Lemma AgentPostResult_spec r agent id ans w :
  Forall faultless ans → req_agent r = Some agent → uuid_Parse (URLParam r "job_id") = Ok id →
  let '(resp, (_, w')) := exec (AgentPostResult r) ans w in
  match db_jobs (w_db w) !! id with
  | None => resp = respondError StatusNotFound "not found" ∧ w_db w' = w_db w
  | Some j =>
      if not_assigned j agent then resp = respondError StatusForbidden "forbidden" ∧ w_db w' = w_db w
      else match json_Decode (T := ResultBody) (req_body r) with
      | Err _ => resp = bad_request "invalid request" ∧ w_db w' = w_db w
      | Ok body =>
          if IsTerminal (ResultBody_Status body) then
            resp = write_status StatusNoContent ∧
            ∃ now j', db_jobs (w_db w') = <[id := j']> (db_jobs (w_db w)) ∧
              (w_now w <= now)%Z ∧ Job_Status j' = ResultBody_Status body ∧
              Job_EndedAt j' = Some now ∧
              Job_Facts j' = (if decide (ResultBody_Facts body = ∅) then Job_Facts j
                              else ResultBody_Facts body)
          else resp = bad_request "status must be terminal" ∧ w_db w' = w_db w
      end
  end.
Proof. apply AgentPostResult_facts. Qed.
End jobs.

(** ** Logs *)

Section logs.
Context `{UuidLib}.

(** The first line for a sequence number is kept. *)
Definition store_line (id : uuid) (logs : gmap (uuid * Z) (string * string)) (l : JobLogLine) :=
  match logs !! (id, JobLogLine_Seq l) with
  | Some _ => logs
  | None => <[(id, JobLogLine_Seq l) := (JobLogLine_Line l, JobLogLine_Stream l)]> logs
  end.

Definition store_lines (id : uuid) lines logs := foldl (store_line id) logs lines.

Lemma store_line_lookup id logs l k :
  store_line id logs l !! k =
  match logs !! k with
  | Some v => Some v
  | None => if decide (k = (id, JobLogLine_Seq l))
            then Some (JobLogLine_Line l, JobLogLine_Stream l) else None
  end.
Proof.
  unfold store_line. destruct (decide (k = (id, JobLogLine_Seq l))) as [->|Hne].
  - destruct (logs !! _) eqn:Hl; [by rewrite Hl|]. by rewrite lookup_insert_eq.
  - destruct (logs !! (id, _)); [by destruct (logs !! k)|].
    rewrite lookup_insert_ne by done. by destruct (logs !! k).
Qed.

Lemma store_lines_lookup id lines logs k :
  store_lines id lines logs !! k =
  match logs !! k with
  | Some v => Some v
  | None => (λ l, (JobLogLine_Line l, JobLogLine_Stream l)) <$>
            head (filter (λ l, (id, JobLogLine_Seq l) = k) lines)
  end.
Proof.
  unfold store_lines. revert logs. induction lines as [|l lines IH]; intros logs; simpl.
  - by destruct (logs !! k).
  - rewrite IH, store_line_lookup, filter_cons. destruct (logs !! k); [done|].
    destruct (decide ((id, JobLogLine_Seq l) = k)), (decide (k = (id, JobLogLine_Seq l)));
      try congruence; done.
Qed.

Lemma store_lines_again id lines logs :
  store_lines id lines (store_lines id lines logs) = store_lines id lines logs.
Proof.
  apply map_eq. intros k. rewrite store_lines_lookup.
  destruct (store_lines id lines logs !! k) eqn:Hk; [done|].
  rewrite store_lines_lookup in Hk. by destruct (logs !! k).
Qed.

Lemma AppendJobLogs_exec id lines ans w :
  Forall faultless ans → is_Some (db_jobs (w_db w) !! id) →
  Forall (λ l, int4_ok (JobLogLine_Seq l) = true) lines →
  ∃ now ans', Forall faultless ans' ∧ exec (AppendJobLogs id lines) ans w =
    (Ok (), (ans', MkWorld (set_job_logs (store_lines id lines (db_job_logs (w_db w))) (w_db w))
                     now (w_sent w))).
Proof.
  revert ans w. induction lines as [|l lines IH]; intros ans w Ha Hj Hl.
  - exists (w_now w), ans. split; [done|]. by destruct w as [[] ? ?].
  - apply Forall_cons in Hl as [Hl Hls]. run_sql Ha.
    unfold append_log_sql. rewrite Hl. simpl. unfold store_line.
    destruct (db_job_logs (w_db w) !! (id, JobLogLine_Seq l)) eqn:Hk; simpl.
    + destruct (IH ans0 (MkWorld (w_db w) (tx_now tx) (w_sent w)) Ha0 Hj Hls) as (now & ans' & ? & E).
      exists now, ans'. split; [done|]. exact E.
    + rewrite bool_decide_eq_true_2 by done. simpl.
      match goal with |- context [MkWorld ?db' (tx_now tx) (w_sent w)] =>
        destruct (IH ans0 (MkWorld db' (tx_now tx) (w_sent w)) Ha0 Hj Hls) as (now & ans' & ? & E) end.
      exists now, ans'. split; [done|]. exact E.
Qed.

(** Posting log lines is idempotent and never overwrites: for a stored job
    the batch is accepted, a line already stored stays, a new sequence number
    gets the first line of the batch that carries it, nothing else changes, and
    posting the same batch again succeeds and changes nothing. *)
Lemma AppendJobLogs_idempotent id lines ans1 ans2 w now :
  Forall faultless ans1 → Forall faultless ans2 → is_Some (db_jobs (w_db w) !! id) →
  Forall (λ l, int4_ok (JobLogLine_Seq l) = true) lines →
  let r1 := exec (AppendJobLogs id lines) ans1 w in
  let logs' := db_job_logs (w_db r1.2.2) in
  let r2 := exec (AppendJobLogs id lines) ans2 (MkWorld (w_db r1.2.2) now (w_sent w)) in
  r1.1 = Ok () ∧ w_db r1.2.2 = set_job_logs logs' (w_db w) ∧
  (∀ k, logs' !! k = match db_job_logs (w_db w) !! k with
     | Some v => Some v
     | None => (λ l, (JobLogLine_Line l, JobLogLine_Stream l)) <$>
               head (filter (λ l, (id, JobLogLine_Seq l) = k) lines) end) ∧
  r2.1 = Ok () ∧ w_db r2.2.2 = w_db r1.2.2.
Proof.
  intros Ha1 Ha2 Hj Hl. simpl.
  destruct (AppendJobLogs_exec id lines ans1 w Ha1 Hj Hl) as (n1 & a1 & _ & ->). simpl.
  match goal with |- context [exec _ ans2 ?w2] =>
    destruct (AppendJobLogs_exec id lines ans2 w2 Ha2 Hj Hl) as (n2 & a2 & _ & ->) end.
  simpl. split_and!; [done|done|intros k; apply store_lines_lookup|done|].
  by rewrite store_lines_again.
Qed.
End logs.

(** ** Authentication *)

Section auth.
Context `{HashLib} `{JwtLib} `{UuidLib} `{JsonDecode RegisterBody}.

Lemma first_of_unique {V} (P : V → Prop) `{!∀ x, Decision (P x)} (t : gmap uuid V) k v :
  t !! k = Some v → P v → (∀ k' v', t !! k' = Some v' → P v' → k' = k) →
  ∃ l, filter P (map_vals t) = v :: l.
Proof.
  intros Hk HP Hu.
  assert (v ∈ filter P (map_vals t)) as Hin.
  { apply list_elem_of_filter. split; [done|]. apply elem_of_map_vals. by exists k. }
  destruct (filter P (map_vals t)) as [|w l] eqn:Hf; [by apply not_elem_of_nil in Hin|].
  assert (w ∈ filter P (map_vals t)) as Hw by (rewrite Hf; by left).
  apply list_elem_of_filter in Hw as [HPw [k' Hk']%elem_of_map_vals].
  rewrite (Hu k' w Hk' HPw) in Hk'. exists l. congruence.
Qed.

Lemma length_hex b : String.length (hex_EncodeToString b) = 2 * length b.
Proof. induction b as [|x b IH]; simpl; [done|]. rewrite IH. lia. Qed.

Lemma hex_nonempty b : b ≠ [] → hex_EncodeToString b ≠ EmptyString.
Proof. by destruct b. Qed.

(** What RegisterAgent stored when it answers 201. *)
Lemma RegisterAgent_created cfg r ans w id token :
  (exec (RegisterAgent cfg r) ans w).1 = respond StatusCreated (BRegistered id token) →
  Header r "X-Registration-Token" = cfg_RegToken cfg ∧ token ≠ EmptyString ∧
  ∃ row body, db_agents (w_db (exec (RegisterAgent cfg r) ans w).2.2) !! id = Some row ∧
    AgentRow_TokenHash row = hashToken token ∧ Agent_ID (AgentRow_Agent row) = id ∧
    json_Decode (T := RegisterBody) (req_body r) = Ok body ∧
    Agent_Name (AgentRow_Agent row) = RegisterBody_Name body ∧
    Agent_Address (AgentRow_Agent row) = RegisterBody_Address body ∧
    RegisterBody_Name body ≠ EmptyString ∧ RegisterBody_Address body ≠ EmptyString ∧
    Agent_Capacity (AgentRow_Agent row) = (if bool_decide (RegisterBody_Capacity body <= 0)%Z then 1%Z
                                           else RegisterBody_Capacity body) ∧
    (1 <= Agent_Capacity (AgentRow_Agent row))%Z ∧
    Agent_Status (AgentRow_Agent row) = AgentStatusOffline.
Proof.
  unfold RegisterAgent.
  destruct (json_Decode (req_body r)) as [body|e]; [|done].
  destruct (bool_decide (RegisterBody_Name body = EmptyString)
     || bool_decide (RegisterBody_Address body = EmptyString)) eqn:Hne; [done|].
  apply orb_false_iff in Hne as [Hn Had]. apply bool_decide_eq_false in Hn, Had.
  destruct (Valid (cfg_RegToken cfg) (Header r "X-Registration-Token")) eqn:Hv; [|done].
  unfold exec. simpl.
  set (raw := raw_bytes _).
  assert (hex_EncodeToString raw ≠ EmptyString) as Hraw.
  { apply hex_nonempty. unfold raw, raw_bytes. intros Hnil. apply (f_equal length) in Hnil.
    destruct (an_rand (hd quiet_answer ans)) as [b|e]; simpl in Hnil; [|done].
    by rewrite length_resize in Hnil. }
  destruct (an_fault (hd quiet_answer (tail ans))); [done|].
  match goal with |- context [CreateAgent_sql ?n ?a ?h ?l ?c ?tx ?db] =>
    destruct (CreateAgent_sql n a h l c tx db) as [[ag db']|e] eqn:Hc; [|done] end.
  simpl. intros [= <- <-]. split; [by apply bool_decide_eq_true in Hv|]. split; [done|].
  unfold CreateAgent_sql in Hc. inv_stmt. simpl. rewrite lookup_insert_eq.
  eexists _, body. split; [done|]. simpl. split_and!; try done. case_bool_decide; lia.
Qed.

(** A stored agent is authenticated by the token its hash was made from. *)
Lemma RequireAgent_exec r ans w token id row :
  Forall faultless ans → db_ok (w_db w) → db_agents (w_db w) !! id = Some row →
  AgentRow_TokenHash row = hashToken token → token ≠ EmptyString →
  Header r "Authorization" = "Bearer " +:+ token →
  ∃ now ans', Forall faultless ans' ∧ (w_now w <= now)%Z ∧
    exec (RequireAgent r) ans w =
      (Some (with_agent r (stored_agent row)), (ans', MkWorld (w_db w) now (w_sent w))).
Proof.
  intros Ha Hok Hrow Hh Htok Hauth. unfold RequireAgent, bearer. rewrite Hauth, TrimPrefix_app.
  rewrite bool_decide_eq_false_2 by done. run_sql Ha. unfold GetAgentByTokenHash_sql, query.
  destruct (first_of_unique (λ r, AgentRow_TokenHash r = hashToken token)
    (db_agents (w_db w)) id row) as [l ->]; [done|done| |by exists (tx_now tx), ans0].
  intros k' v' Hk' Hv'. eapply (u_agent_hash _ Hok); [done..|congruence].
Qed.

Lemma RequireAgent_row r ans w token id row :
  Forall faultless ans → db_ok (w_db w) → db_agents (w_db w) !! id = Some row →
  AgentRow_TokenHash row = hashToken token → token ≠ EmptyString →
  Header r "Authorization" = "Bearer " +:+ token →
  (exec (RequireAgent r) ans w).1 = Some (with_agent r (stored_agent row)).
Proof.
  intros Ha Hok Hrow Hh Htok Hauth.
  by destruct (RequireAgent_exec r ans w token id row Ha Hok Hrow Hh Htok Hauth) as (? & ? & _ & _ & ->).
Qed.

(** C35: What RequireUser accepts: a request passes with exactly the user of a
    valid JWT, or else the user of a stored API token whose hash matches (of any
    expires_at, which is never looked at); otherwise it is refused.  Nothing is
    written. *)
Theorem RequireUser_spec secret r ans w :
  Forall faultless ans →
  let '(res, (_, w')) := exec (RequireUser secret r) ans w in
  w_db w' = w_db w ∧
  match res with
  | Some (r', touched) =>
      bearer r ≠ EmptyString ∧
      ((∃ now claims, (w_now w <= now)%Z ∧ jwt_Parse secret (bearer r) now = Ok claims ∧
          r' = with_user r (Claims_UserID claims) ∧ touched = None) ∨
       (∃ k t, db_api_tokens (w_db w) !! k = Some t ∧ APIToken_TokenHash t = hashToken (bearer r) ∧
          r' = with_user r (APIToken_UserID t) ∧ touched = Some (APIToken_ID t)))
  | None =>
      bearer r = EmptyString ∨
      ((∃ now e, (w_now w <= now)%Z ∧ jwt_Parse secret (bearer r) now = Err e) ∧
       ∀ k t, db_api_tokens (w_db w) !! k = Some t → APIToken_TokenHash t ≠ hashToken (bearer r))
  end.
Proof.
  intros Ha. unfold RequireUser. case_bool_decide as Hb; [by split; [|left]|].
  unfold exec. simpl. set (now := (w_now w + _)%Z).
  assert (w_now w <= now)%Z by lia.
  destruct (jwt_Parse secret (bearer r) now) as [claims|e] eqn:Hj; simpl.
  { split; [done|]. split; [done|]. left. by exists now, claims. }
  assert (an_fault (hd quiet_answer (tail ans)) = None) as -> by (by destruct Ha as [|??? []]).
  unfold query, first_row.
  destruct (filter (λ t, APIToken_TokenHash t = hashToken (bearer r))
              (map_vals (db_api_tokens (w_db w)))) as [|t l] eqn:Hf; simpl.
  - split; [done|]. right. split; [by exists now, e|]. intros k t Hk Ht.
    assert (t ∈ filter (λ t, APIToken_TokenHash t = hashToken (bearer r))
                  (map_vals (db_api_tokens (w_db w)))) as Hin.
    { apply list_elem_of_filter. split; [done|]. apply elem_of_map_vals. by exists k. }
    rewrite Hf in Hin. by apply not_elem_of_nil in Hin.
  - split; [done|]. split; [done|]. right.
    assert (t ∈ filter (λ t, APIToken_TokenHash t = hashToken (bearer r))
                  (map_vals (db_api_tokens (w_db w)))) as Hin by (rewrite Hf; by left).
    apply list_elem_of_filter in Hin as [Ht [k Hk]%elem_of_map_vals]. by exists k, t.
Qed.
End auth.

(** ** Credentials *)

Section credentials.
Context `{CryptoLib} `{FieldsJson} `{!CryptoLaws} `{UuidLib} `{JsonDecode Resources.CredentialBody}.
Import Resources.

(** What CreateCredential stored when it answers 201. *)
Lemma CreateCredential_created cfg r ans w c :
  (exec (CreateCredential cfg r) ans w).1 = respond StatusCreated (BCredential c) →
  ∃ body cred nonce, json_Decode (req_body r) = Ok body ∧ length nonce = NonceSize ∧
    c = public_credential cred ∧
    db_credentials (w_db (exec (CreateCredential cfg r) ans w).2.2) !! Credential_ID c = Some cred ∧
    Credential_Kind cred = CredentialBody_Kind body ∧
    NewGCM (cfg_EncryptionKey cfg) = Ok () ∧
    Encrypt (Ok nonce) (cfg_EncryptionKey cfg) (json_Marshal_fields (CredentialBody_Fields body))
      = Ok (Credential_EncryptedData cred).
Proof.
  unfold CreateCredential. destruct (json_Decode (req_body r)) as [body|e]; [|done].
  destruct (empty _ || empty _); [done|]. unfold encrypt.
  destruct (NewGCM (cfg_EncryptionKey cfg)) as [[]|e] eqn:Hk; [|done].
  unfold exec. simpl. destruct (an_rand (hd quiet_answer ans)) as [b|e]; simpl.
  2: { unfold Encrypt. by rewrite Hk. }
  set (n := resize NonceSize Byte.x00 b).
  assert (Encrypt (Ok n) (cfg_EncryptionKey cfg) (json_Marshal_fields (CredentialBody_Fields body)) =
    Ok (n ++ gcm_Seal (cfg_EncryptionKey cfg) n (json_Marshal_fields (CredentialBody_Fields body))))
    as Henc by (unfold Encrypt; by rewrite Hk).
  rewrite Henc. simpl.
  destruct (an_fault (hd quiet_answer (tail ans))); [done|].
  match goal with |- context [CreateCredential_sql ?n ?d ?k ?b ?tx ?db] =>
    destruct (CreateCredential_sql n d k b tx db) as [[c0 db']|e] eqn:Hc; [|done] end.
  simpl. intros [= <-]. unfold CreateCredential_sql in Hc. inv_stmt. simpl.
  exists body. eexists. exists n. rewrite lookup_insert_eq.
  split_and!; try done. by unfold n; rewrite length_resize.
Qed.

(** A credential created over HTTP is resolved by the controller: when
    CreateCredential answers 201, then as long as the row is stored the
    controller, given the same encryption key, resolves its identifier to the
    kind and the plaintext fields of the request, while the response itself
    carries no encrypted data. *)
Lemma created_credential_resolves cfg r ans w c w2 ans' :
  (exec (CreateCredential cfg r) ans w).1 = respond StatusCreated (BCredential c) →
  Forall faultless ans' →
  db_credentials (w_db w2) !! Credential_ID c =
    db_credentials (w_db (exec (CreateCredential cfg r) ans w).2.2) !! Credential_ID c →
  Credential_EncryptedData c = [] ∧
  ∃ body, json_Decode (req_body r) = Ok body ∧
    (exec (controller_Resolve (cfg_EncryptionKey cfg) (Credential_ID c)) ans' w2).1 =
      Ok {| CredentialSecret_Kind := CredentialBody_Kind body;
            CredentialSecret_Fields := default ∅ (CredentialBody_Fields body) |}.
Proof.
  intros Hresp Ha Hsame.
  apply CreateCredential_created in Hresp
    as (body & cred & nonce & Hbody & Hn & -> & Hrow & Hkind & Hgcm & Henc).
  rewrite Hrow in Hsame. split; [done|]. exists body. split; [done|].
  destruct (controller_Resolve_spec (cfg_EncryptionKey cfg) (Credential_ID (public_credential cred))
    (w_db w2) (w_sent w2) ans' w2 Ha) as (_ & Hr & _); [done|].
  unfold credential_of in Hr.
  assert (length (cfg_EncryptionKey cfg) ≠ 0) as Hlen.
  { clear Hr. unfold NewGCM in Hgcm. case_bool_decide as Hl; [|done]. intros E. rewrite E in Hl. rewrite !elem_of_cons, elem_of_nil in Hl. lia. }
  rewrite bool_decide_eq_false_2, Hsame in Hr by done. simpl in Hr.
  pose proof (decrypt_Encrypt (Ok nonce) (cfg_EncryptionKey cfg)
    (json_Marshal_fields (CredentialBody_Fields body))) as Hd.
  rewrite Henc in Hd. specialize (Hd ltac:(by intros ? [= <-])).
  unfold open_credential in Hr. rewrite Hd in Hr. simpl in Hr.
  rewrite json_Unmarshal_Marshal in Hr. simpl in Hr. rewrite Hkind in Hr.
  destruct (exec (controller_Resolve _ _) ans' w2).1 as [s|e]; simpl in Hr; congruence.
Qed.
End credentials.

(** ** Approvals and workflows *)

Section workflows.
Context `{UuidLib} `{PgxLib} `{Collation} `{JsonDecode Resources.NoteBody}.
Import Resources.

(** An approval is resolved at most once: ResolveApproval answers 204 exactly
    for a pending request (by a stored user, with action approve or deny) and
    then records the decision, the reviewer and the time; for an absent or
    already resolved request it answers 404 and changes nothing. *)
Lemma ResolveApproval_once r user id status ans w :
  Forall faultless ans → req_user r = Some user → uuid_Parse (URLParam r "id") = Ok id →
  approval_action (URLParam r "action") = Some status → is_Some (db_users (w_db w) !! user) →
  let '(resp, (_, w')) := exec (ResolveApproval r) ans w in
  match db_approval_requests (w_db w) !! id with
  | Some a =>
      if decide (ApprovalRequest_Status a = ApprovalStatusPending) then
        resp = write_status StatusNoContent ∧ ∃ a',
          w_db w' = set_approval_requests (<[id := a']> (db_approval_requests (w_db w))) (w_db w) ∧
          ApprovalRequest_Status a' = status ∧ status ≠ ApprovalStatusPending ∧
          ApprovalRequest_ReviewedBy a' = Some user ∧ is_Some (ApprovalRequest_ResolvedAt a')
      else resp = respondError StatusNotFound "not found" ∧ w_db w' = w_db w
  | None => resp = respondError StatusNotFound "not found" ∧ w_db w' = w_db w
  end.
Proof.
  intros Ha Hu Hid Hact Huser. unfold ResolveApproval, UserIDFromCtx. rewrite Hu, Hid, Hact.
  run_sql Ha. unfold ResolveApproval_sql.
  destruct (db_approval_requests (w_db w) !! id) as [a|]; [|done].
  case_decide; [|done]. unfold fk_ok. rewrite bool_decide_eq_true_2 by done. simpl.
  split; [done|]. eexists. split; [done|]. simpl. split_and!; try done.
  unfold approval_action in Hact. repeat case_bool_decide; by simplify_eq.
Qed.

(** Saving the nodes of a workflow discards edges: when UpsertWorkflowNodes
    commits, no edge is left that started or ended at a node the workflow had
    before, even if the node is saved again under its identifier, and no new
    edge appears; an update that carries nodes but no edges loses the graph. *)
Lemma UpsertWorkflowNodes_drops_edges id nodes tx db db' :
  UpsertWorkflowNodes_sql id nodes tx db = Ok ((), db') →
  (∀ k e, db_workflow_edges db' !! k = Some e → db_workflow_edges db !! k = Some e ∧
     ∀ n, (n = WorkflowEdge_SourceNodeID e ∨ n = WorkflowEdge_TargetNodeID e) →
     ∀ node, db_workflow_nodes db !! n = Some node → WorkflowNode_WorkflowID node ≠ id) ∧
  (∀ k n, db_workflow_nodes db' !! k = Some n → WorkflowNode_WorkflowID n = id →
     k ∈ WorkflowNode_ID <$> nodes).
Proof.
  unfold UpsertWorkflowNodes_sql. intros Hs. apply result_bind_Ok in Hs as (db1 & Hd & Hs).
  apply result_bind_Ok in Hs as (db2 & Hi & [= ->]).
  assert (db_workflow_edges db' = db_workflow_edges db1 ∧
    ∀ k n, db_workflow_nodes db' !! k = Some n →
      db_workflow_nodes db1 !! k = Some n ∨ k ∈ WorkflowNode_ID <$> nodes) as [He Hn].
  { clear Hd. revert db1 Hi. induction nodes as [|n nodes IH]; intros db1 Hi; simpl in Hi.
    { simplify_eq. auto. }
    apply result_bind_Ok in Hi as (db2 & Hn & Hi). apply IH in Hi as [He Hin].
    unfold insert_node in Hn. inv_stmt. split; [by rewrite He|]. intros k m Hk.
    destruct (Hin k m Hk) as [Hl|Hl]; [|right; set_solver]. simpl in Hl.
    apply lookup_insert_Some in Hl as [[<- <-]|[_ Hl]]; [right; set_solver|by left]. }
  unfold delete_nodes in Hd. inv_stmt. simpl in *. split.
  - intros k e Hk. rewrite He in Hk. apply map_lookup_filter_Some in Hk as [Hk [Hs Ht]].
    simpl in Hs, Ht. split; [done|].
    intros n [->| ->] node Hnode; [rewrite Hnode in Hs|rewrite Hnode in Ht];
      by apply bool_decide_eq_false in Hs || apply bool_decide_eq_false in Ht.
  - intros k n Hk Hw. destruct (Hn k n Hk) as [Hl|]; [|done].
    by apply map_lookup_filter_Some in Hl as [_ Hl].
Qed.
End workflows.
