(* ===== verification/Messages.v ===== *)
(** * What the servers send to agents

    The agents are told of work and of nothing else: every request that any
    controller or API server ever sends is a dispatch request.  No code calls the
    Cancel of the transport, so a user's cancellation changes the stored status
    of a job, and its agent never learns of it. *)
From S2P Require Import Prelude.
From S2P Require Import Prog.
From S2P Require Import Types.
From S2P Require Import Db.
From S2P Require Import Hoare.
From S2P Require Import ControllerStore.
From S2P Require Import Lifecycle.
From S2P Require Import Selector.
From S2P Require Import Transport.
From S2P Require Import Secrets.
From S2P Require Import Reconciler.
From S2P Require Import ReconcilerFacts.
From S2P Require Import Token.
From S2P Require Import Inventory.
From S2P Require Import Scheduler.
From S2P Require Import ApiStore.
From S2P Require Import ApiResources.
From S2P Require Import Http.
From S2P Require Import Auth.
From S2P Require Import Server.
From S2P Require Import Config.
From S2P Require Import Process.
From S2P Require Import Vocab.
From S2P Require Import Refinement.
From S2P Require Import JobHandlers.
From S2P Require Import ResourceHandlers.
From S2P Require Import System.
From S2P Require Import ApiFacts.

(** The request is a dispatch. *)
Definition dispatch_message (m : string * option JobPayload) : Prop :=
  ∃ addr p, m = (addr +:+ "/dispatch", Some p).

Definition dispatches_only (X : Type) (e : Ev X) : Prop :=
  match e with HttpPost url body => dispatch_message (url, body) | _ => True end.

(** The program's statements are left to see. *)
Ltac solve_dispatches := solve_events; try first [exact I|apply all_events_trigger; exact I].

Section messages.
Context `{UuidLib} `{PgxLib} `{Collation} `{CryptoLib} `{FieldsJson} `{HashLib} `{JwtLib} `{BcryptLib}
  `{NetLib} `{OsEnv} `{CronLib} `{PgxPool}.
Context `{JsonDecode Jobs.CreateJobBody} `{JsonDecode (list JobLogLine)}
  `{JsonDecode Jobs.ResultBody}.
Context `{JsonDecode LoginBody} `{JsonDecode NameBody} `{JsonDecode RegisterBody}
  `{JsonDecode Types.AgentHeartbeat}.
Context `{JsonDecode Resources.CreateTemplateBody} `{JsonDecode Resources.UpdateTemplateBody}
  `{JsonDecode Resources.ProjectBody} `{JsonDecode Resources.CreateScheduleBody}
  `{JsonDecode Resources.UpdateScheduleBody} `{JsonDecode Resources.CredentialBody}
  `{JsonDecode Resources.WorkflowBody} `{JsonDecode Resources.UpdateWorkflowBody}
  `{JsonDecode Resources.NoteBody}.


Lemma issues_dispatches {A} V (p : prog Ev A) : all_events (issues V) p → all_events dispatches_only p.
Proof. apply all_events_impl. intros X e. by destruct e. Qed.

Lemma REST_Dispatch_dispatches a p : all_events dispatches_only (REST_Dispatch a p).
Proof.
  unfold REST_Dispatch, post, GetAgentAddress. solve_dispatches. by do 2 eexists.
Qed.

Lemma Resolve_dispatches key id : all_events dispatches_only (controller_Resolve key id).
Proof. unfold controller_Resolve, GetCredentialWithSecret. solve_dispatches. Qed.

Section reconciler.
Context (key : bytes) (cfg : Reconciler.Config).
#[local] Existing Instance controller_SecretsProvider.

Lemma TransitionJob_dispatches id from to a reason :
  all_events dispatches_only (TransitionJob id from to a reason).
Proof. unfold TransitionJob. solve_dispatches. Qed.

Lemma dispatch_or_fail_dispatches agents job :
  all_events dispatches_only (@dispatch_or_fail _ (controller_SecretsProvider key) _ _ cfg agents job).
Proof.
  unfold dispatch_or_fail, dispatchOne, store_TransitionJob, pg_JobStore. solve_dispatches;
    try apply TransitionJob_dispatches; [|apply REST_Dispatch_dispatches].
  unfold buildPayload, store_GetJobTemplate, store_GetProject, store_GetInventoryHosts, pg_JobStore,
    GetJobTemplate, GetProject, GetInventoryHosts. solve_dispatches. apply Resolve_dispatches.
Qed.

Lemma tick_dispatches : all_events dispatches_only (@tick _ (controller_SecretsProvider key) _ _ cfg).
Proof.
  unfold tick, dispatchPending, failStuck, failStuckJobs, store_GetPendingJobs, store_GetAvailableAgents,
    store_GetStuckDispatchedJobs, store_GetStuckRunningJobs, store_TransitionJob, pg_JobStore,
    GetPendingJobs, GetAvailableAgents, GetStuckDispatchedJobs, GetStuckRunningJobs.
  solve_dispatches; first [apply TransitionJob_dispatches|apply dispatch_or_fail_dispatches].
Qed.
End reconciler.

Lemma Spawned_dispatches p : Spawned p → all_events dispatches_only p.
Proof.
  intros [(key & cfg & interval & events & ->)|[Hi|Hi]]%Spawned_cases; [|by eapply issues_dispatches..].
  apply all_events_ignore, all_events_with_ticker. intros _. apply tick_dispatches.
Qed.

(** Every request sent since [w] is a dispatch. *)
Lemma sent_since w s :
  reachable w s → ∃ l, w_sent s.1 = w_sent w ++ l ∧ Forall dispatch_message l.
Proof.
  intros Hr. pose (R := λ w w', ∃ l, w_sent w' = w_sent w ++ l ∧ Forall dispatch_message l).
  assert (PreOrder R) as HR.
  { split; [intros w1; exists []; by rewrite app_nil_r|].
    intros w1 w2 w3 (l1 & E1 & Hl1) (l2 & E2 & Hl2). exists (l1 ++ l2).
    rewrite E2, E1, app_assoc. split; [done|by apply Forall_app]. }
  refine (sys_respects perform Spawned time_passes R dispatches_only (w, []) s _ Spawned_dispatches _ Hr (List.Forall_nil _)).
  - assert (∀ w1 w2, w_sent w2 = w_sent w1 → R w1 w2) as Hsame by (intros w1 w2 E; exists []; by rewrite app_nil_r).
    intros X a e w1 He. destruct e; try (by apply Hsame).
    + apply Hsame. cbn. by repeat case_match.
    + exists [(url, body)]. by rewrite Forall_singleton.
  - intros w1 w2 (_ & Hs & _). exists []. by rewrite app_nil_r.
Qed.

(** A user cancels a job that is with an agent, and the agent posts its result. *)
Lemma result_after_cancel w id j agent rc ansc r body ans :
  db_jobs (w_db w) !! id = Some j → IsTerminal (Job_Status j) = false → Job_AgentID j = Some (Agent_ID agent) →
  uuid_Parse (URLParam rc "id") = Ok id → Forall faultless ansc →
  req_agent r = Some agent → uuid_Parse (URLParam r "job_id") = Ok id →
  json_Decode (T := Jobs.ResultBody) (req_body r) = Ok body → IsTerminal (Jobs.ResultBody_Status body) = true →
  Forall faultless ans →
  let '(resp, (_, w1)) := exec (Jobs.CancelJob rc) ansc w in
  let '(_, (_, w2)) := exec (Jobs.AgentPostResult r) ans w1 in
  resp = write_status StatusNoContent ∧
  Job_Status <$> db_jobs (w_db w1) !! id = Some JobStatusCancelled ∧
  Job_Status <$> db_jobs (w_db w2) !! id = Some (Jobs.ResultBody_Status body).
Proof.
  intros Hj Hn Hag Hid Hac Hra Hid' Hbody Ht Ha.
  pose proof (CancelJob_spec rc id ansc w Hac Hid) as Hc.
  destruct (exec (Jobs.CancelJob rc) ansc w) as [resp [ansc' w1]]. rewrite Hj, Hn in Hc.
  destruct Hc as (-> & now & _ & Hw1). pose proof (AgentPostResult_facts r agent id ans w1 Ha Hra Hid') as Hf.
  destruct (exec (Jobs.AgentPostResult r) ans w1) as [resp2 [ans' w2]].
  rewrite Hw1 in Hf. rewrite Hw1. cbn [db_jobs set_jobs] in Hf |- *. rewrite lookup_insert_eq in Hf |- *.
  unfold Jobs.not_assigned in Hf. cbn [update_status_row Job_AgentID] in Hf. rewrite Hag in Hf. cbv iota beta in Hf.
  rewrite bool_decide_eq_false_2 in Hf by naive_solver. rewrite Hbody, Ht in Hf.
  destruct Hf as (_ & now2 & j2 & Hw2 & _ & Hst & _). rewrite Hw2, lookup_insert_eq. cbn. by rewrite Hst.
Qed.

(** C13: no cancellation ever reaches an agent: in every interleaving of any number
    of controllers and API servers, every request they have sent to an agent is a
    dispatch of a job.  So the run of a job that a user cancels goes on: the user
    is answered 204, the stored status is Cancelled, and then the result the agent
    posts replaces it, a success included. *)
Theorem no_cancel_sent w s :
  w_sent w = [] → reachable w s →
  Forall dispatch_message (w_sent s.1) ∧
  ∀ id j agent rc ansc r body ans,
    db_jobs (w_db s.1) !! id = Some j → IsTerminal (Job_Status j) = false → Job_AgentID j = Some (Agent_ID agent) →
    uuid_Parse (URLParam rc "id") = Ok id → Forall faultless ansc →
    req_agent r = Some agent → uuid_Parse (URLParam r "job_id") = Ok id →
    json_Decode (T := Jobs.ResultBody) (req_body r) = Ok body → IsTerminal (Jobs.ResultBody_Status body) = true →
    Forall faultless ans →
    let '(resp, (_, w1)) := exec (Jobs.CancelJob rc) ansc s.1 in
    let '(_, (_, w2)) := exec (Jobs.AgentPostResult r) ans w1 in
    resp = write_status StatusNoContent ∧
    Job_Status <$> db_jobs (w_db w1) !! id = Some JobStatusCancelled ∧
    Job_Status <$> db_jobs (w_db w2) !! id = Some (Jobs.ResultBody_Status body).
Proof.
  intros Hw Hr. split; [|intros id j agent rc ansc r body ans; apply result_after_cancel].
  destruct (sent_since w s Hr) as (l & -> & Hl). by rewrite Hw.
Qed.
End messages.
