(* ===== verification/Access.v ===== *)
(** * Who may change what through the API

    The credential behind every change: a request on any route changes the
    database only with the credential of its group, and never with GET; an agent's
    request changes nothing but its own row and its own jobs. *)
From S2P Require Import Prelude.
From S2P Require Import Prog.
From S2P Require Import Types.
From S2P Require Import Text.
From S2P Require Import Db.
From S2P Require Import Hoare.
From S2P Require Import ControllerStore.
From S2P Require Import Secrets.
From S2P Require Import ApiStore.
From S2P Require Import ApiResources.
From S2P Require Import Http.
From S2P Require Import JobHandlers.
From S2P Require Import Auth.
From S2P Require Import ResourceHandlers.
From S2P Require Import Server.
From S2P Require Import Vocab.
From S2P Require Import Integrity.
From S2P Require Import Liveness.

(** ** Requests that only read *)

Inductive reading : ∀ X, Stmt X → Prop :=
| rd_query X (f : Tx → Db → result X) : reading X (query f).

#[export] Hint Constructors reading : vocab.
#[export] Hint Extern 1 (reading _ (GetJobLogs_sql _)) => apply rd_query : vocab.
#[export] Hint Extern 1 (reading _ (ApiStore.ListJobs_sql _)) => apply rd_query : vocab.
#[export] Hint Extern 1 (reading _ (GetAgentByTokenHash_sql _)) => apply rd_query : vocab.

Definition reads_only {A} (p : prog Ev A) : Prop := all_events (issues reading) p.

(** Neither the database nor what was sent changes. *)
Definition untouched (w w' : World) : Prop := w_db w' = w_db w ∧ w_sent w' = w_sent w.

Lemma reads_only_db {A} (p : prog Ev A) ans w : reads_only p → w_db (exec p ans w).2.2 = w_db w.
Proof.
  intros Hp. symmetry. apply (exec_respects eq). eapply all_events_impl, Hp. intros X e.
  destruct e; simpl; try done. intros [Y f]. by apply query_respects.
Qed.

(** ** What belongs to an agent *)

(** Between two databases only what belongs to the agent [a] has changed: the row
    of the agent, the jobs assigned to it, and lines added to their logs. *)
Record confined (a : uuid) (db db' : Db) : Prop := {
  cf_rest : db' = set_agents (db_agents db') (set_jobs (db_jobs db') (set_job_logs (db_job_logs db') db));
  cf_agents : ∀ i, i ≠ a → db_agents db' !! i = db_agents db !! i;
  cf_self : ∀ r, db_agents db !! a = Some r → ∃ r', db_agents db' !! a = Some r' ∧
    AgentRow_TokenHash r' = AgentRow_TokenHash r ∧ Agent_Name (AgentRow_Agent r') = Agent_Name (AgentRow_Agent r) ∧
    Agent_Address (AgentRow_Agent r') = Agent_Address (AgentRow_Agent r) ∧
    Agent_Capacity (AgentRow_Agent r') = Agent_Capacity (AgentRow_Agent r);
  cf_jobs : ∀ i, db_jobs db' !! i = db_jobs db !! i ∨
    (∃ j j', db_jobs db !! i = Some j ∧ db_jobs db' !! i = Some j' ∧ Job_AgentID j = Some a ∧ Job_AgentID j' = Some a);
  cf_logs : ∀ i v, db_job_logs db !! i = Some v → db_job_logs db' !! i = Some v;
  cf_new_logs : ∀ i, db_job_logs db' !! i = db_job_logs db !! i ∨
    ∃ j, db_jobs db !! i.1 = Some j ∧ Job_AgentID j = Some a;
}.

#[export] Instance confined_preorder a : PreOrder (confined a).
Proof.
  split.
  - intros db. split; [by destruct db|naive_solver..].
  - intros d1 d2 d3 [R1 A1 S1 J1 L1 N1] [R2 A2 S2 J2 L2 N2]. split.
    + rewrite R2. cbn. by rewrite R1.
    + intros i Hi. by rewrite A2, A1.
    + intros r (r2 & (r3 & H3 & E1 & E2 & E3 & E4)%S2 & F1 & F2 & F3 & F4)%S1. exists r3. split; [done|]. split_and!; congruence.
    + intros i. destruct (J1 i) as [E|(j1 & j2 & H1 & H2 & O1 & O2)], (J2 i) as [E'|(k1 & k2 & H3 & H4 & O3 & O4)];
        [left; by rewrite E'|right; exists k1, k2; by rewrite <-E|right; exists j1, j2; by rewrite E'|right; by exists j1, k2].
    + eauto.
    + intros i. destruct (N2 i) as [E|(j & Hj & Ho)].
      * rewrite E. apply N1.
      * right. destruct (J1 i.1) as [E1|(j1 & j2 & H1 & _ & O1 & _)]; [rewrite <-E1|]; eauto.
Qed.

(** The job belongs to the agent. *)
Definition owned (a id : uuid) (db : Db) : Prop := ∃ j, db_jobs db !! id = Some j ∧ Job_AgentID j = Some a.

Lemma confined_owned a id db db' : confined a db db' → owned a id db → owned a id db'.
Proof.
  intros Hc (j & Hj & Ho). destruct (cf_jobs _ _ _ Hc id) as [E|(_ & j' & _ & Hj' & _ & Ho')]; [|by exists j'].
  exists j. by rewrite E.
Qed.

(** Changes made while the job belongs to the agent. *)
Definition confined_if_owned (a id : uuid) : relation Db := λ db db', owned a id db → confined a db db'.

#[export] Instance confined_if_owned_preorder a id : PreOrder (confined_if_owned a id).
Proof.
  split; [by intros db _|]. intros d1 d2 d3 H12 H23 Ho. specialize (H12 Ho). etransitivity; [exact H12|].
  by apply H23, (confined_owned _ _ d1).
Qed.

Section access.
Context `{UuidLib} `{PgxLib} `{Collation} `{CryptoLib} `{FieldsJson} `{HashLib} `{JwtLib} `{BcryptLib}.
Context `{JsonDecode Jobs.CreateJobBody} `{JsonDecode (list JobLogLine)}
  `{JsonDecode Jobs.ResultBody}.
Context `{JsonDecode LoginBody} `{JsonDecode NameBody} `{JsonDecode RegisterBody}
  `{JsonDecode Types.AgentHeartbeat}.
Context `{JsonDecode Resources.CreateTemplateBody} `{JsonDecode Resources.UpdateTemplateBody}
  `{JsonDecode Resources.ProjectBody} `{JsonDecode Resources.CreateScheduleBody}
  `{JsonDecode Resources.UpdateScheduleBody} `{JsonDecode Resources.CredentialBody}
  `{JsonDecode Resources.WorkflowBody} `{JsonDecode Resources.UpdateWorkflowBody}
  `{JsonDecode Resources.NoteBody}.
Context (cfg : ApiConfig).

Lemma get_routes_read : Forall (λ rt, route_method rt = "GET" → ∀ r, reads_only (route_handler rt r)) (routes cfg).
Proof.
  unfold reads_only.
  repeat (apply Forall_cons; split; [first [by intros [=]|intros _ r; simpl route_handler;
    autounfold with handlers; solve_issues]|]).
  constructor.
Qed.

(** ** Credentials *)

(** A JWT of the server that is valid at a moment between two states, or an API
    token that is stored in the first. *)
Definition user_authenticated (r : Request) (w w' : World) : Prop :=
  bearer r ≠ EmptyString ∧
  ((∃ now claims, (w_now w <= now <= w_now w')%Z ∧ jwt_Parse (cfg_JWTSecret cfg) (bearer r) now = Ok claims) ∨
   ∃ k t, db_api_tokens (w_db w) !! k = Some t ∧ APIToken_TokenHash t = hashToken (bearer r)).

Lemma user_authenticated_mono r w w1 w2 :
  (w_now w1 <= w_now w2)%Z → user_authenticated r w w1 → user_authenticated r w w2.
Proof.
  intros Hle [Hb [(now & claims & Hnow & Hp)|Ht]]; (split; [done|]); [left|by right].
  exists now, claims. split; [lia|done].
Qed.

(** The token issued to the agent. *)
Definition agent_authenticated (r : Request) (db : Db) (a : uuid) : Prop :=
  bearer r ≠ EmptyString ∧
  ∃ row, db_agents db !! a = Some row ∧ AgentRow_TokenHash row = hashToken (bearer r).

(** What a request must show to be let through on a route, and to write. *)
Definition credential (rt : Route) (r : Request) (w w' : World) : Prop :=
  match route_guard rt with
  | Public => route_pattern rt = "/agents/register" ∧ Header r "X-Registration-Token" = cfg_RegToken cfg
  | UserGroup => user_authenticated r w w'
  | AgentGroup => ∃ a, agent_authenticated r (w_db w) a
  end.

(** A query leaves the world as it is; what it yields is known, unless it failed. *)
Lemma exec_query {X} (f : Tx → Db → result X) ans w :
  let '(r, (_, w')) := exec (or_not_found (sql (query f))) ans w in
  untouched w w' ∧ match r with Ok x => ∃ tx, f tx (w_db w) = Ok x | Err _ => True end.
Proof.
  unfold exec. cbn. set (a := hd quiet_answer ans).
  set (tx := answer_tx a (w_now w + Z.of_N (an_elapsed a))).
  destruct (an_fault a) as [e|]; [done|]. unfold query.
  destruct (f tx (w_db w)) as [x|e] eqn:Hf; cbn; [|done]. split; [done|]. by exists tx.
Qed.

Lemma first_row_stored {V} (P : V → Prop) `{!∀ v, Decision (P v)} (t : gmap uuid V) v l :
  filter P (map_vals t) = v :: l → ∃ k, t !! k = Some v ∧ P v.
Proof.
  intros Hf. assert (v ∈ filter P (map_vals t)) as Hin by (rewrite Hf; left).
  apply list_elem_of_filter in Hin as [HP [k Hk]%elem_of_map_vals]. by exists k.
Qed.

(** The token that RequireUser has touched is one whose value the request carries. *)
Definition token_presented (r : Request) (db : Db) (id : uuid) : Prop :=
  bearer r ≠ EmptyString ∧
  ∃ k t, db_api_tokens db !! k = Some t ∧ APIToken_ID t = id ∧ APIToken_TokenHash t = hashToken (bearer r).

Lemma RequireUser_credential r ans w :
  let '(res, (_, w')) := exec (RequireUser (cfg_JWTSecret cfg) r) ans w in
  untouched w w' ∧ ∀ x, res = Some x → user_authenticated r w w' ∧ (∃ u, x.1 = with_user r u) ∧
    ∀ id, x.2 = Some id → token_presented r (w_db w) id.
Proof.
  unfold RequireUser, user_authenticated, token_presented. case_bool_decide as Hb; [done|].
  rewrite exec_bind. set (now := (w_now w + Z.of_N (an_elapsed (hd quiet_answer ans)))%Z).
  assert (exec (ParseToken (cfg_JWTSecret cfg) (bearer r)) ans w =
    (jwt_Parse (cfg_JWTSecret cfg) (bearer r) now, (tail ans, MkWorld (w_db w) now (w_sent w)))) as -> by done.
  destruct (jwt_Parse _ _ _) as [claims|e] eqn:Hj.
  { split; [done|]. intros x [= <-]. split; [|by split; [eexists|]]. split; [done|left].
    exists now, claims. cbn. split; [unfold now; lia|done]. }
  rewrite exec_prog_bind. set (w1 := MkWorld (w_db w) now (w_sent w)).
  pose proof (exec_query (λ _ db, first_row (filter (λ t, APIToken_TokenHash t = hashToken (bearer r))
    (map_vals (db_api_tokens db)))) (tail ans) w1) as Hq. fold (GetAPITokenByHash (hashToken (bearer r))) in Hq.
  destruct (exec _ _ w1) as [[t|e'] [ans' w']]; destruct Hq as [Hu Ht]; cbn; (split; [exact Hu|]); [|done].
  destruct Ht as [_ Ht].
  destruct (filter _ _) as [|v l] eqn:Hf; [done|]. injection Ht as ->.
  destruct (first_row_stored _ _ _ _ Hf) as (k & Hk & Hh). intros x [= <-].
  split; [split; [done|right; by exists k, t]|]. split; [by eexists|]. cbn. intros id [= <-].
  split; [done|]. by exists k, t.
Qed.

(** What the goroutine that touches a token changes. *)
Definition only_touched (id : uuid) (db db' : Db) : Prop :=
  db' = db ∨ ∃ t now, db_api_tokens db !! id = Some t ∧
    db' = set_api_tokens (<[id := touched now t]> (db_api_tokens db)) db.

Lemma touch_touches id ans w : only_touched id (w_db w) (w_db (exec (touch id) ans w).2.2).
Proof.
  unfold exec. cbn. destruct (an_fault _) as [e|]; [by left|]. cbn.
  destruct (db_api_tokens (w_db w) !! id) as [t|] eqn:Ht.
  - right. do 2 eexists. split; [done|]. by rewrite (alter_Some _ _ _ _ Ht).
  - left. rewrite alter_id by (intros x Hx; congruence). by destruct (w_db w).
Qed.

Lemma RequireAgent_credential r ans w :
  let '(res, (_, w')) := exec (RequireAgent r) ans w in
  untouched w w' ∧
  ∀ r', res = Some r' → ∃ k row, agent_authenticated r (w_db w) k ∧ db_agents (w_db w) !! k = Some row ∧
    r' = with_agent r (stored_agent row).
Proof.
  unfold RequireAgent, agent_authenticated. case_bool_decide as Hb; [done|].
  rewrite exec_prog_bind.
  pose proof (exec_query (λ _ db, match filter (λ r0, AgentRow_TokenHash r0 = hashToken (bearer r))
    (map_vals (db_agents db)) with r :: _ => Ok (stored_agent r) | [] => Err ErrNoRows end) ans w) as Hq.
  fold (GetAgentByTokenHash_sql (hashToken (bearer r))) (GetAgentByTokenHash (hashToken (bearer r))) in Hq.
  destruct (exec _ _ w) as [[a|e'] [ans' w']]; destruct Hq as [Hu Ht]; cbn; (split; [exact Hu|]); [|done].
  intros r' [= <-]. destruct Ht as [_ Ht]. destruct (filter _ _) as [|v l] eqn:Hf; [done|]. injection Ht as <-.
  apply first_row_stored in Hf as (k & Hk & Hh). exists k, v. split_and!; [done|by exists v|done..].
Qed.

(** ** No change without a credential *)

(** The routes of the first group that write nothing, and the registration. *)
Lemma public_routes_spec rt :
  rt ∈ routes cfg → route_guard rt = Public →
  (∀ r, reads_only (route_handler rt r)) ∨ rt = Post Public "/agents/register" (RegisterAgent cfg).
Proof.
  intros [Hrt|Hrt]%elem_of_app Hg.
  - apply list_elem_of_In in Hrt as [<-|[<-|[<-|[]]]]; [left|by right|left]; intros r; simpl route_handler;
      unfold reads_only; autounfold with handlers; solve_issues.
  - exfalso. assert (Forall (λ rt, route_guard rt ≠ Public) (user_routes cfg ++ agent_routes cfg)) as Hall
      by (repeat constructor; done).
    rewrite Forall_forall in Hall. by apply (Hall rt).
Qed.

Lemma RegisterAgent_refuses r ans w :
  Header r "X-Registration-Token" ≠ cfg_RegToken cfg → untouched w (exec (RegisterAgent cfg r) ans w).2.2.
Proof.
  intros Ht. unfold RegisterAgent. destruct (json_Decode _); [|done]. case_match; [done|].
  assert (Valid (cfg_RegToken cfg) (Header r "X-Registration-Token") = false) as ->; [|done].
  unfold Valid. apply bool_decide_eq_false. done.
Qed.

(** C9: nothing is changed, and nothing is shown on a protected route, without a
    credential.  Whatever the database answers, serving a request on any route
    leaves the database as it is, unless it is not a GET and carries the
    credential of its group: a JWT of the server valid while the request is
    served, or a stored API token; the token of a stored agent; or, to register,
    the registration token.  On a route of the user or the agent group it is
    answered 401 unless it carries the credential.  A goroutine that serving it
    starts - for a GET too - is on a route of the user group, for a stored API
    token that the request carries, and whenever it runs it changes at most the
    time of last use of that token. *)
Theorem changes_need_credential rt r ans w :
  rt ∈ routes cfg →
  let '((resp, started), (_, w')) := exec (serve cfg rt r) ans w in
  (w_db w' = w_db w ∨ (route_method rt ≠ "GET" ∧ credential rt r w w')) ∧
  (route_guard rt = Public ∨ resp = unauthorized ∨ credential rt r w w') ∧
  (∀ g, g ∈ started → ∃ id, route_guard rt = UserGroup ∧ token_presented r (w_db w) id ∧
     ∀ ans2 w2, only_touched id (w_db w2) (w_db (exec g ans2 w2).2.2)).
Proof.
  intros Hrt. pose proof get_routes_read as Hget. rewrite Forall_forall in Hget. specialize (Hget rt Hrt).
  assert (∀ r ans w, w_db (exec (route_handler rt r) ans w).2.2 = w_db w ∨ route_method rt ≠ "GET") as Hread.
  { intros r' ans' w'. destruct (decide (route_method rt = "GET")) as [E|]; [left|by right].
    by apply reads_only_db, Hget. }
  unfold serve, credential. destruct (route_guard rt) eqn:Hg.
  - rewrite exec_bind. destruct (exec (route_handler rt r) ans w) as [resp [ans' w']] eqn:He. cbn.
    split; [|split; [by left|by intros g ?%not_elem_of_nil]].
    destruct (public_routes_spec rt Hrt Hg) as [Hr| ->].
    + left. pose proof (reads_only_db _ ans w (Hr r)) as Hdb. by rewrite He in Hdb.
    + destruct (decide (Header r "X-Registration-Token" = cfg_RegToken cfg)) as [E|E]; [by right|left].
      pose proof (RegisterAgent_refuses r ans w E) as [Hdb _]. cbn [route_handler Post] in He. by rewrite He in Hdb.
  - unfold as_user. rewrite exec_bind. pose proof (RequireUser_credential r ans w) as Hu.
    destruct (exec (RequireUser _ r) ans w) as [[[r' touched]|] [ans1 w1]]; destruct Hu as [[Hdb _] Hu].
    2: { split; [by left|]. split; [by right; left|]. by intros g ?%not_elem_of_nil. }
    destruct (Hu _ eq_refl) as (Hauth & _ & Htok). cbn [snd] in Htok. rewrite exec_bind.
    specialize (Hread r' ans1 w1). pose proof (exec_time (route_handler rt r') ans1 w1) as Hle.
    destruct (exec (route_handler rt r') ans1 w1) as [resp [ans2 w2]]. cbn in Hread, Hle |- *. rewrite Hdb in Hread.
    apply (user_authenticated_mono r w w1 w2 Hle) in Hauth.
    split; [destruct Hread; [by left|by right]|]. split; [by right; right|].
    intros g (id & -> & Hid)%list_elem_of_fmap. exists id. split; [done|]. split; [|intros; apply touch_touches].
    apply Htok. destruct touched as [id'|]; [|by apply not_elem_of_nil in Hid].
    apply list_elem_of_singleton in Hid. by subst.
  - rewrite exec_bind. unfold as_agent. rewrite exec_bind. pose proof (RequireAgent_credential r ans w) as Hu.
    destruct (exec (RequireAgent r) ans w) as [[r'|] [ans1 w1]]; destruct Hu as [[Hdb _] Hu].
    + destruct (Hu r' eq_refl) as (k & row & Hauth & _).
      specialize (Hread r' ans1 w1). destruct (exec (route_handler rt r') ans1 w1) as [resp [ans2 w2]].
      cbn in Hread |- *. rewrite Hdb in Hread.
      assert (∃ a, agent_authenticated r (w_db w) a) by by exists k.
      split; [destruct Hread; [by left|by right]|]. split; [by right; right|by intros g ?%not_elem_of_nil].
    + cbn. split; [by left|]. split; [by right; left|by intros g ?%not_elem_of_nil].
Qed.

(** ** Agents *)

Lemma job_update_confined a id j j' db :
  db_jobs db !! id = Some j → Job_AgentID j = Some a → Job_AgentID j' = Some a →
  confined a db (set_jobs (<[id := j']> (db_jobs db)) db).
Proof.
  intros Hj Ho Ho'. split; cbn; eauto 10.
  - intros i. destruct (decide (i = id)) as [->|Hne]; [right|left; by rewrite lookup_insert_ne].
    exists j, j'. by rewrite lookup_insert_eq.
Qed.

Lemma UpdateJobStatus_confined a id st r : stmt_respects (confined_if_owned a id) (UpdateJobStatus_sql id st None r).
Proof.
  intros tx db x db' Hs (j & Hj & Ho). unfold UpdateJobStatus_sql in Hs. rewrite Hj in Hs. injection Hs as _ <-.
  by apply (job_update_confined a id j).
Qed.

Lemma SetJobFacts_confined a id v : stmt_respects (confined_if_owned a id) (SetJobFacts_sql id v).
Proof.
  intros tx db x db' [= _ <-] (j & Hj & Ho). rewrite (alter_Some _ _ _ _ Hj). by apply (job_update_confined a id j).
Qed.

Lemma append_log_confined a id l : stmt_respects (confined_if_owned a id) (append_log_sql id l).
Proof.
  intros tx db x db' Hs Ho. unfold append_log_sql in Hs. inv_result Hs.
  destruct (db_job_logs db !! _) eqn:Hl; [by injection Hs as _ <-|]. inv_result Hs. injection Hs as _ <-.
  split; cbn; eauto 10.
  - intros i v Hi. rewrite lookup_insert_ne; [done|]. intros <-. congruence.
  - intros i. destruct (decide (i = (id, JobLogLine_Seq l))) as [->|Hne]; [by right|left; by rewrite lookup_insert_ne].
Qed.

Lemma heartbeat_confined a : stmt_respects (confined a) (UpdateAgentHeartbeat_sql a).
Proof.
  intros tx db x db' Hs. unfold UpdateAgentHeartbeat_sql in Hs.
  destruct (db_agents db !! a) as [r|] eqn:Hr; injection Hs as _ <-; [|done]. split; cbn; eauto 10.
  - intros i Hi. by rewrite lookup_insert_ne.
  - intros r' Hr'. rewrite Hr in Hr'. injection Hr' as <-. eexists. by rewrite lookup_insert_eq.
Qed.

(** What a handler does once it has read the job and found it to be the agent's. *)
Lemma assigned_job_confined {Y} jobID ag (h : error → prog Ev Y) (deny : prog Ev Y) (p : Job → prog Ev Y) ans w :
  (∀ e, reads_only (h e)) → reads_only deny →
  (∀ j, all_events (ev_respects (confined_if_owned (Agent_ID ag) jobID)) (p j)) →
  confined (Agent_ID ag) (w_db w) (w_db (exec (try job <- ApiStore.GetJob jobID catch e => h e ;;
    if Jobs.not_assigned job ag then deny else p job) ans w).2.2).
Proof.
  intros Hh Hd Hp. rewrite exec_prog_bind. pose proof (exec_query (λ _ db, by_id (db_jobs db) jobID) ans w) as Hq.
  fold (ApiStore.GetJob jobID) in Hq. destruct (exec (ApiStore.GetJob jobID) ans w) as [[j|e] [ans1 w1]].
  2: { destruct Hq as [[Hdb _] _]. rewrite reads_only_db by done. by rewrite Hdb. }
  destruct Hq as [[Hdb _] (_ & Hj)]. destruct (Jobs.not_assigned j ag) eqn:Hn.
  { rewrite reads_only_db by done. by rewrite Hdb. }
  pose proof (exec_respects _ (p j) ans1 w1 (Hp j)) as Hc. rewrite Hdb in Hc. apply Hc.
  unfold by_id in Hj. destruct (db_jobs (w_db w) !! jobID) as [j'|] eqn:Hj'; [|done]. injection Hj as <-.
  exists j'. split; [done|]. unfold Jobs.not_assigned in Hn. destruct (Job_AgentID j') as [a|]; [|done].
  apply bool_decide_eq_false in Hn. f_equal. by apply dec_stable.
Qed.

Lemma agent_handlers_confined rt r ag ans w :
  rt ∈ agent_routes cfg → req_agent r = Some ag →
  confined (Agent_ID ag) (w_db w) (w_db (exec (route_handler rt r) ans w).2.2).
Proof.
  assert (∀ {Y} (x : Y) ans w, confined (Agent_ID ag) (w_db w) (w_db (exec (mret x) ans w).2.2)) as Hret by done.
  intros Hrt Hag. apply list_elem_of_In in Hrt as [<-|[<-|[<-|[]]]]; simpl route_handler.
  - apply (exec_respects (confined (Agent_ID ag))). unfold Auth.AgentHeartbeat, AgentFromCtx, UpdateAgentHeartbeat, affected_or_not_found.
    rewrite Hag. solve_stmts. apply heartbeat_confined.
  - unfold Jobs.AgentPostLogs, AgentFromCtx. rewrite Hag.
    destruct (uuid_Parse _) as [jobID|]; [|apply Hret]. apply assigned_job_confined; [done..|]. intros j.
    unfold AppendJobLogs. solve_stmts. apply append_log_confined.
  - unfold Jobs.AgentPostResult, AgentFromCtx. rewrite Hag.
    destruct (uuid_Parse _) as [jobID|]; [|apply Hret]. apply assigned_job_confined; [done..|]. intros j.
    unfold UpdateJobStatus, SetJobFacts. solve_stmts; [apply UpdateJobStatus_confined|apply SetJobFacts_confined].
Qed.

(** C10: an agent can change only what is its own: whatever the database answers, a
    request on a route of the agent group changes nothing, or it carries the token
    of a stored agent, and then only that agent's row (but not its token, name,
    address or capacity), the jobs assigned to it (which stay assigned to it) and
    their logs have changed; stored log lines are kept. *)
Theorem agent_confined rt r ans w :
  rt ∈ agent_routes cfg → db_ok (w_db w) →
  let '(_, (_, w')) := exec (serve cfg rt r) ans w in
  w_db w' = w_db w ∨ ∃ a, agent_authenticated r (w_db w) a ∧ confined a (w_db w) (w_db w').
Proof.
  intros Hrt Hok. assert (route_guard rt = AgentGroup) as Hg
    by (by apply list_elem_of_In in Hrt as [<-|[<-|[<-|[]]]]).
  unfold serve. rewrite Hg, exec_bind. unfold as_agent. rewrite exec_bind.
  pose proof (RequireAgent_credential r ans w) as Hu.
  destruct (exec (RequireAgent r) ans w) as [[r'|] [ans1 w1]]; destruct Hu as [[Hdb _] Hu]; [|by left].
  destruct (Hu r' eq_refl) as (k & row & Hauth & Hrow & ->).
  pose proof (agent_handlers_confined rt (with_agent r (stored_agent row)) (stored_agent row) ans1 w1 Hrt eq_refl) as Hc.
  rewrite Hdb in Hc. assert (Agent_ID (stored_agent row) = k) as Hid by exact (k_agents _ Hok _ _ Hrow).
  rewrite Hid in Hc. destruct (exec (route_handler rt _) ans1 w1) as [resp [ans2 w2]]. right. by exists k.
Qed.
End access.
