(* ===== verification/Lifetime.v ===== *)
(** * The way of a job from its request to its end

    What is sent to an agent is what was requested, and what is requested ends:
    the parts of the servers put together. *)
From S2P Require Import Prelude.
From S2P Require Import Prog.
From S2P Require Import Types.
From S2P Require Import Db.
From S2P Require Import Hoare.
From S2P Require Import ControllerStore.
From S2P Require Import Lifecycle.
From S2P Require Import Selector.
From S2P Require Import Transport.
From S2P Require Import Secrets.
From S2P Require Import Reconciler.
From S2P Require Import ReconcilerFacts.
From S2P Require Import Token.
From S2P Require Import Scheduler.
From S2P Require Import ApiStore.
From S2P Require Import ApiResources.
From S2P Require Import Http.
From S2P Require Import Auth.
From S2P Require Import JobHandlers.
From S2P Require Import ResourceHandlers.
From S2P Require Import Server.
From S2P Require Import Process.
From S2P Require Import Vocab.
From S2P Require Import Refinement.
From S2P Require Import System.
From S2P Require Import Integrity.
From S2P Require Import Liveness.
From S2P Require Import Queue.
From S2P Require Import Access.

Section lifetime.
Context `{UuidLib} `{PgxLib} `{Collation} `{CryptoLib} `{FieldsJson} `{HashLib} `{JwtLib} `{BcryptLib}
  `{NetLib} `{OsEnv} `{CronLib} `{PgxPool}.
Context `{JsonDecode Jobs.CreateJobBody} `{JsonDecode (list JobLogLine)}
  `{JsonDecode Jobs.ResultBody}.
Context `{JsonDecode LoginBody} `{JsonDecode NameBody} `{JsonDecode RegisterBody}
  `{JsonDecode Types.AgentHeartbeat}.
Context `{JsonDecode Resources.CreateTemplateBody} `{JsonDecode Resources.UpdateTemplateBody}
  `{JsonDecode Resources.ProjectBody} `{JsonDecode Resources.CreateScheduleBody}
  `{JsonDecode Resources.UpdateScheduleBody} `{JsonDecode Resources.CredentialBody}
  `{JsonDecode Resources.WorkflowBody} `{JsonDecode Resources.UpdateWorkflowBody}
  `{JsonDecode Resources.NoteBody}.

(** ** What is sent is what was requested *)

(** C5: What an agent is asked to run is what was requested: in every interleaving
    of controllers and API servers, the payload of a dispatch request is the one
    specified by the stored job (its identifier, template and variables, over the
    defaults of the template), its template, the template's project, inventory
    and credential, each as it was stored at some moment since the start, and the
    key and address of a controller. *)
Theorem dispatched_as_requested w s url p :
  db_ok (w_db w) → w_sent w = [] → reachable w s → (url, Some p) ∈ w_sent s.1 →
  ∃ key cfg j tmpl project dbt dbp dbh dbc creds,
    db_jobs (w_db s.1) !! JobPayload_JobID p = Some j ∧
    (passed w s dbt ∧ db_job_templates dbt !! Job_TemplateID j = Some tmpl) ∧
    (passed w s dbp ∧ db_projects dbp !! JobTemplate_ProjectID tmpl = Some project) ∧ passed w s dbh ∧
    (passed w s dbc ∧ credentials_of key dbc (JobTemplate_CredentialID tmpl) = Some creds) ∧
    p = payload_from cfg j tmpl project (project_hosts dbh (JobTemplate_ProjectID tmpl)) creds.
Proof.
  intros Hok Hsent Hr Hin. destruct (sent_to_agent w s url p Hsent Hr Hin) as [Hc _].
  destruct Hc as (key & cfg & job & tmpl & project & dbt & dbp & dbh & dbc & creds &
    (dbj & (s0 & Hr0 & Hr1 & Hdb) & (k & Hk) & _) & Ht & Hp & Hh & Hcr & ->).
  assert (db_ok dbj) as Hokj.
  { rewrite <-Hdb. by apply (reachable_respects (keeps db_ok) w s0); [apply controller_stmt_ok|apply api_stmt_ok| |]. }
  rewrite <-(k_jobs _ Hokj _ _ Hk) in Hk. subst dbj.
  assert (db_evolves (w_db s0.1) (w_db s.1)) as He
    by (by apply (between_respects db_evolves w s0 s); [apply controller_stmt_evolves|apply api_stmt_evolves| |]).
  specialize (He (Job_ID job)). rewrite Hk in He. destruct He as (j & Hj & Hev).
  exists key, cfg, j, tmpl, project, dbt, dbp, dbh, dbc, creds.
  split; [exact Hj|]. rewrite (evolves_TemplateID _ _ Hev).
  split; [exact Ht|]. split; [exact Hp|]. split; [exact Hh|]. split; [exact Hcr|].
  unfold payload_from. by rewrite (evolves_ID _ _ Hev), (evolves_TemplateID _ _ Hev), (evolves_ExtraVars _ _ Hev).
Qed.

(** ** What is requested ends *)

Context (cfg : ApiConfig).

(** The route on which users request jobs. *)
Definition job_route : Route := Post UserGroup "/jobs" Jobs.CreateJob.

Lemma job_route_served : job_route ∈ routes cfg.
Proof. unfold routes. apply elem_of_app. right. apply elem_of_app. left. unfold user_routes. set_solver. Qed.

(** The job a request asks for, new and pending. *)
Definition requested (r : Request) (j : Job) : Prop :=
  ∃ body, json_Decode (T := Jobs.CreateJobBody) (req_body r) = Ok body ∧
    uuid_Parse (Jobs.CreateJobBody_TemplateID body) = Ok (Job_TemplateID j) ∧
    Job_ExtraVars j = default ∅ (Jobs.CreateJobBody_ExtraVars body) ∧ Job_Status j = JobStatusPending.

Lemma CreateJob_created r ans w :
  let '(resp, (_, w')) := exec (Jobs.CreateJob r) ans w in
  resp_status resp = StatusCreated →
  ∃ j, resp = respond StatusCreated (BJob j) ∧ requested r j ∧ db_jobs (w_db w) !! Job_ID j = None ∧
    db_jobs (w_db w') !! Job_ID j = Some j.
Proof.
  unfold Jobs.CreateJob. destruct (json_Decode (req_body r)) as [body|e] eqn:Hb; [|done].
  destruct (uuid_Parse _) as [tid|e] eqn:Ht; [|done]. rewrite exec_prog_bind.
  pose proof (exec_query (λ _ db, by_id (db_job_templates db) tid) ans w) as Hq.
  fold (ApiResources.GetJobTemplate tid) in Hq. destruct (exec (ApiResources.GetJobTemplate tid) ans w) as [[t|e] [ans1 w1]].
  2: { unfold exec, respondStoreErr. cbn. by repeat case_decide. }
  destruct Hq as [[Hdb _] _]. rewrite <-Hdb. unfold ApiStore.CreateJob, exec. cbn.
  destruct (an_fault _); [done|]. unfold insert_job_sql.
  destruct (check_violation (fk_ok (Some tid) _) _); [|done]. cbn.
  destruct (decide (db_jobs (w_db w1) !! an_uuid (hd quiet_answer ans1) 0 = None)) as [Hn|Hn];
    [rewrite bool_decide_eq_true_2 by done|by rewrite bool_decide_eq_false_2 by done].
  cbn. intros _. eexists. split; [done|]. split; [by exists body|]. cbn. split; [done|]. apply lookup_insert_eq.
Qed.
(** The servers start from a consistent database. *)
Lemma settled_start w : db_ok (w_db w) → settled (w, []).
Proof. by split. Qed.

Lemma serve_ok rt r ans w : rt ∈ routes cfg → db_ok (w_db w) → db_ok (w_db (exec (serve cfg rt r) ans w).2.2).
Proof.
  intros Hrt Hok. apply (exec_respects (keeps db_ok) (serve cfg rt r) ans w); [|done].
  eapply issues_respects; [apply api_stmt_ok|]. by apply serve_issues.
Qed.

(** A job created pending that has left the queue is ended by an undisturbed tick
    later than its timeout. *)
Lemma left_queue_ends w4 id j j4 key cfg2 ans :
  db_ok (w_db w4) → Job_Status j = JobStatusPending → job_evolves j j4 →
  db_jobs (w_db w4) !! id = Some j4 → Job_Status j4 ≠ JobStatusPending → Forall undisturbed ans →
  (Job_UpdatedAt j4 < w_now w4 - Config_DispatchTimeout cfg2)%Z →
  ∃ j5, db_jobs (w_db (exec (@tick _ (controller_SecretsProvider key) _ _ cfg2) ans w4).2.2) !! id = Some j5 ∧
    IsTerminal (Job_Status j5) = true ∧ job_evolves j j5.
Proof.
  intros Hok Hp Hev Hj4 Hp4 Ha Htime.
  destruct (tick_ends key cfg2 ans w4 id j4 Ha Hok Hj4) as (j5 & Hj5 & Ht).
  { destruct (past_pending _ _ (evolves_status _ _ Hev) Hp Hp4); [by right|by left]. }
  exists j5. split; [done|]. split; [done|]. etransitivity; [exact Hev|].
  pose proof (later_evolves _ _ (exec_later _ ans w4 (tick_later_events key cfg2)) id) as He.
  rewrite Hj4 in He. destruct He as (j5' & Hj5' & He). pose proof (eq_trans (eq_sym Hj5) Hj5') as E. by injection E as <-.
Qed.

(** C4: Every job that is requested ends.  When a request to run a template is
    answered 201, it carried the credential of a user and the job of the answer is stored, new, pending, with
    the template and the variables of the request; if a moment later at most
    fifty times [n] pending jobs are as old, then after [n] undisturbed ticks of
    any controllers it has left the queue; and the next undisturbed tick that
    runs when the dispatch timeout since its last change has passed leaves it in a
    terminal status.  Before, between and after these ticks the controllers,
    API servers, users and agents do whatever they do, and the job is still the
    one requested. *)
Theorem requested_job_ends r ans w :
  db_ok (w_db w) →
  let '((resp, _), (_, w1)) := exec (serve cfg job_route r) ans w in
  resp_status resp = StatusCreated →
  ∃ j, resp = respond StatusCreated (BJob j) ∧ user_authenticated cfg r w w1 ∧ requested r j ∧
    db_jobs (w_db w) !! Job_ID j = None ∧ db_jobs (w_db w1) !! Job_ID j = Some j ∧
    ∀ n s2 s3 w4 ts4 key cfg2 ans4,
      reachable w1 s2 → (Job_CreatedAt j < w_now s2.1)%Z →
      size (waiting (Job_CreatedAt j) (w_db s2.1)) ≤ 50 * n → rounds n s2 s3 →
      (∃ j3, db_jobs (w_db s3.1) !! Job_ID j = Some j3 ∧ Job_Status j3 ≠ JobStatusPending) ∧
      (sys_reach perform Spawned time_passes s3 (w4, ts4) → Forall undisturbed ans4 →
       (∀ j4, db_jobs (w_db w4) !! Job_ID j = Some j4 →
          (Job_UpdatedAt j4 < w_now w4 - Config_DispatchTimeout cfg2)%Z) →
       ∃ j5, db_jobs (w_db (exec (@tick _ (controller_SecretsProvider key) _ _ cfg2) ans4 w4).2.2) !! Job_ID j
           = Some j5 ∧
         IsTerminal (Job_Status j5) = true ∧ job_evolves j j5).
Proof.
  intros Hok. pose proof (serve_ok job_route r ans w job_route_served Hok) as Hok1.
  unfold serve in *. cbn [route_guard job_route Post route_handler] in *. unfold as_user in *. rewrite exec_bind in *.
  pose proof (RequireUser_credential cfg r ans w) as Hu.
  destruct (exec (RequireUser _ r) ans w) as [[[r' touched]|] [ans0 w0]]; destruct Hu as [[Hdb _] Hu]; [|done].
  destruct (Hu _ eq_refl) as (Hauth & [u Hr] & _). cbn [fst] in Hr. subst r'. rewrite exec_bind in *.
  pose proof (CreateJob_created (with_user r u) ans0 w0) as Hc.
  pose proof (exec_time (Jobs.CreateJob (with_user r u)) ans0 w0) as Hle.
  destruct (exec (Jobs.CreateJob _) ans0 w0) as [resp [ans1 w1]]. cbn in Hok1, Hle |- *. rewrite Hdb in Hc.
  apply (user_authenticated_mono _ r w w0 w1 Hle) in Hauth. clear Hle.
  intros Hst. destruct (Hc Hst) as (j & -> & Hreq & Hnew & Hj). exists j. split_and!; [done|exact Hauth|exact Hreq|done|done|].
  assert (Job_Status j = JobStatusPending) as Hp by by destruct Hreq as (? & _ & _ & _ & ?).
  intros n s2 s3 w4 ts4 key cfg2 ans4 Hr2 Hnow Hsize Hrs. clear Hu Hc Hst.
  destruct (settled_reach _ _ Hr2 (settled_start w1 Hok1)) as [Hs2 Hl2].
  destruct (rounds_settled _ _ _ Hrs Hs2) as [Hs3 Hl3].
  pose proof (later_evolves _ _ Hl2 (Job_ID j)) as He2. cbn [fst] in He2. rewrite Hj in He2.
  destruct He2 as (j2 & Hj2 & He2). pose proof (evolves_CreatedAt _ _ He2) as Hc2. rewrite <-Hc2 in Hnow, Hsize.
  destruct (rounds_drain n s2 s3 (Job_ID j) j2 Hrs Hs2 Hj2 Hnow Hsize) as (j3 & Hj3 & Hp3).
  split; [by exists j3|]. intros Hr4 Ha Htime. destruct (settled_reach _ _ Hr4 Hs3) as [Hs4 Hl4].
  destruct (evolves_not_pending _ _ _ _ (later_evolves _ _ Hl4) Hj3 Hp3) as (j4 & Hj4 & He4 & Hp4).
  pose proof (later_evolves _ _ Hl3 (Job_ID j)) as He3. rewrite Hj2 in He3. destruct He3 as (j3' & Hj3' & He3).
  rewrite Hj3 in Hj3'. injection Hj3' as <-. cbn [fst] in Hj4.
  apply (left_queue_ends w4 (Job_ID j) j j4); [apply Hs4|done| |done..|by apply Htime].
  etransitivity; [exact He2|]. by etransitivity.
Qed.
End lifetime.
