(* ===== verification/ProcessFacts.v ===== *)
(** * How the programs start, run and stop

    The Run loops against a reference that iterates their body, the start-up of
    each program on every branch, and what its configuration guarantees. *)
From S2P Require Import Prelude.
From S2P Require Import Prog.
From S2P Require Import Types.
From S2P Require Import Text.
From S2P Require Import Strconv.
From S2P Require Import StrconvFacts.
From S2P Require Import Config.
From S2P Require Import ConfigFacts.
From S2P Require Import Db.
From S2P Require Import Hoare.
From S2P Require Import ControllerStore.
From S2P Require Import Selector.
From S2P Require Import Transport.
From S2P Require Import Secrets.
From S2P Require Import Reconciler.
From S2P Require Import Inventory.
From S2P Require Import Scheduler.
From S2P Require Import ApiStore.
From S2P Require Import ApiResources.
From S2P Require Import Http.
From S2P Require Import Auth.
From S2P Require Import JobHandlers.
From S2P Require Import ResourceHandlers.
From S2P Require Import Server.
From S2P Require Import AgentClient.
From S2P Require Import AgentServer.
From S2P Require Import Process.
From S2P Require Import Integrity.
From S2P Require Import ApiFacts.

(** ** Loops *)

(** The ticks before the context ends, and how the goroutine ends. *)
Fixpoint rounds (events : list Received) : nat :=
  match events with Tick :: events => S (rounds events) | _ => 0 end.

#[export] Instance received_eq_dec : EqDecision Received.
Proof. solve_decision. Defined.

Definition ending (events : list Received) : Outcome :=
  if bool_decide (Done ∈ events) then Returned else Waiting.

Fixpoint iterate {S} (n : nat) (body : S → prog Ev S) (s : S) : prog Ev S :=
  match n with 0 => mret s | Datatypes.S n => s' ← body s; iterate n body s' end.

Lemma ending_Tick events : ending (Tick :: events) = ending events.
Proof. unfold ending. by rewrite (bool_decide_ext (Done ∈ Tick :: events) (Done ∈ events)) by set_solver. Qed.

Lemma exec_ticker_loop {S} (body : S → prog Ev S) events s ans w :
  exec (ticker_loop body events s) ans w = (ending events, (exec (iterate (rounds events) body s) ans w).2).
Proof.
  revert s ans w. induction events as [|[] events IH]; intros s ans w; [done| |].
  - rewrite ending_Tick. cbn [ticker_loop rounds iterate]. rewrite !exec_bind.
    destruct (exec (body s) ans w) as [s' [ans' w']]. apply IH.
  - unfold ending. by rewrite bool_decide_eq_true_2 by set_solver.
Qed.

(** The goroutine [g] runs [init], panics if [interval] is not positive, and
    otherwise runs [body] once for each tick until its context ends. *)
Definition loops {S} (g : list Received → prog Ev Outcome) (init : prog Ev S) (interval : Duration)
    (body : S → prog Ev S) : Prop :=
  ∀ events ans w,
    exec (g events) ans w =
    if bool_decide (interval <= 0)%Z then (Panicked, (exec init ans w).2)
    else (ending events, (exec (s ← init; iterate (rounds events) body s) ans w).2).

Lemma with_ticker_loops {S} (init : prog Ev S) interval body :
  loops (λ events, s ← init; with_ticker interval body events s) init interval body.
Proof.
  intros events ans w. rewrite !exec_bind. unfold with_ticker.
  destruct (exec init ans w) as [s [ans' w']]. cbn [snd].
  case_bool_decide; [done|]. apply exec_ticker_loop.
Qed.

Section controller.
Context `{UuidLib} `{PgxLib} `{CryptoLib} `{FieldsJson} `{NetLib} `{OsEnv} `{CronLib} `{PgxPool}.

(** C24: the three goroutines of a controller, whatever the database and the host
    answer: each runs its first round at once (the reconciler none), panics if its
    interval is not positive, and otherwise runs one round per tick, in sequence,
    until its context is cancelled, and then returns. *)
Theorem goroutines_run cfg :
  ∃ reconcile schedule gitsync, goroutines cfg = [reconcile; schedule; gitsync] ∧
  loops reconcile (mret ()) (Controller.ReconcileInterval cfg)
    (λ _, @tick _ (controller_SecretsProvider (Controller.EncryptionKey cfg)) _ _ (rec_config cfg)) ∧
  loops schedule (sync new_Scheduler) (Controller.SyncInterval cfg) sync ∧
  loops gitsync
    (_ ← trigger (HostMkdirAll (Controller.WorkspaceDir cfg)); syncAll (Controller.WorkspaceDir cfg))
    (Controller.SyncInterval cfg) (λ _, syncAll (Controller.WorkspaceDir cfg)).
Proof.
  do 3 eexists. split; [done|]. split; [|split].
  - exact (with_ticker_loops (mret ()) _ _).
  - apply with_ticker_loops.
  - intros events ans w. unfold GitSync_Run.
    pose proof (with_ticker_loops (_ ← trigger (HostMkdirAll (Controller.WorkspaceDir cfg));
      syncAll (Controller.WorkspaceDir cfg)) (Controller.SyncInterval cfg)
      (λ _, syncAll (Controller.WorkspaceDir cfg)) events ans w) as Hl.
    rewrite <-Hl. rewrite !exec_bind.
    destruct (exec (trigger _) ans w) as [r [ans' w']]. rewrite !exec_bind.
    by destruct (exec (syncAll _) ans' w') as [[] ?].
Qed.

(** *** Start-up *)

Lemma exec_Ping {Y} (f : result unit → prog Ev Y) ans w :
  exec (prog_bind f Ping) ans w =
  exec (f (match an_fault (hd quiet_answer ans) with Some e => Err e | None => Ok () end)) (tl ans)
    (MkWorld (w_db w) (w_now w + Z.of_N (an_elapsed (hd quiet_answer ans))) (w_sent w)).
Proof. unfold exec. simpl. by destruct (an_fault _). Qed.

(** Start-up writes nothing and sends no job. *)
Definition unchanged (w w' : World) : Prop := w_db w' = w_db w ∧ w_sent w' = w_sent w.

Lemma controller_main_spec env ans w :
  let '(r, (_, w')) := exec (controller_main env) ans w in
  unchanged w w' ∧
  match Controller.Load env with
  | Err _ => r = Exit 1
  | Ok cfg =>
      match pgxpool_New (Controller.DBURL cfg), an_fault (hd quiet_answer ans) with
      | Ok _, None => r = Up (goroutines cfg)
      | _, _ => r = Exit 1
      end
  end.
Proof.
  unfold controller_main. destruct (Controller.Load env) as [cfg|e]; [|done].
  destruct (pgxpool_New _) as [[]|e]; [|done]. rewrite exec_Ping. by destruct (an_fault _).
Qed.

(** C32: an interval that is set to zero or less is accepted by Load, the controller
    starts, and its dispatch loop panics before its first tick, which ends the
    process. *)
Theorem nonpositive_interval_panics env d ans w :
  rejected env controller_rules = [] →
  Getenv env "AOP_RECONCILE_INTERVAL" ≠ EmptyString →
  ParseDuration (Getenv env "AOP_RECONCILE_INTERVAL") = Ok d → (d <= 0)%Z →
  pgxpool_New (Getenv env "AOP_DB_URL") = Ok () → an_fault (hd quiet_answer ans) = None →
  ∃ reconcile gs, (exec (controller_main env) ans w).1 = Up (reconcile :: gs) ∧
    ∀ events ans' w', exec (reconcile events) ans' w' = (Panicked, (ans', w')).
Proof.
  intros Hrej Hset Hd Hle Hp Ha. pose proof (Controller_Load_reports env) as Hrep.
  pose proof (controller_main_spec env ans w) as Hm. destruct (exec _ ans w) as [r [ans1 w1]].
  destruct (Controller.Load env) as [cfg|e] eqn:Hl; [|by destruct Hrep].
  assert (Controller.ReconcileInterval cfg = d ∧ Controller.DBURL cfg = Getenv env "AOP_DB_URL") as [Hi Hu].
  { clear -Hl Hset Hd. unfold Controller.Load, joined in Hl. case_match; [|done]. injection Hl as <-. cbn.
    split; [|done]. unfold Controller.parse_duration, parsed_or. rewrite bool_decide_eq_false_2 by done.
    by rewrite Hd. }
  destruct Hm as [_ Hm]. rewrite Hu, Hp, Ha in Hm. subst r.
  do 2 eexists. split; [done|]. intros events ans' w'. unfold Reconciler_Run, with_ticker.
  by rewrite Hi, bool_decide_eq_true_2.
Qed.
End controller.

(** ** The other programs *)

Section programs.
Context `{UuidLib} `{PgxLib} `{Collation} `{CryptoLib} `{FieldsJson} `{HashLib} `{JwtLib} `{BcryptLib}
  `{NetLib} `{OsEnv} `{CronLib} `{PgxPool}.
Context `{JsonDecode Jobs.CreateJobBody} `{JsonDecode (list JobLogLine)}
  `{JsonDecode Jobs.ResultBody}.
Context `{JsonDecode LoginBody} `{JsonDecode NameBody} `{JsonDecode RegisterBody}
  `{JsonDecode Types.AgentHeartbeat}.
Context `{JsonDecode Resources.CreateTemplateBody} `{JsonDecode Resources.UpdateTemplateBody}
  `{JsonDecode Resources.ProjectBody} `{JsonDecode Resources.CreateScheduleBody}
  `{JsonDecode Resources.UpdateScheduleBody} `{JsonDecode Resources.CredentialBody}
  `{JsonDecode Resources.WorkflowBody} `{JsonDecode Resources.UpdateWorkflowBody}
  `{JsonDecode Resources.NoteBody}.

Lemma api_main_spec env ans w :
  let '(r, (_, w')) := exec (api_main env) ans w in
  unchanged w w' ∧
  match Api.Load env with
  | Err _ => r = Exit 1
  | Ok cfg =>
      match pgxpool_ParseConfig (Api.DBUrl cfg), pgxpool_NewWithConfig (Api.DBUrl cfg) 20 2,
            an_fault (hd quiet_answer ans) with
      | Ok _, Ok _, None => r = Up (api_server cfg)
      | _, _, _ => r = Exit 1
      end
  end.
Proof.
  unfold api_main, Connect. destruct (Api.Load env) as [cfg|e]; [|done].
  destruct (pgxpool_ParseConfig _) as [[]|e]; [|done]. cbn [mbind result_bind].
  destruct (pgxpool_NewWithConfig _ _ _) as [[]|e]; [|done]. rewrite exec_Ping. by destruct (an_fault _).
Qed.

(** The request with which an agent registers. *)
Definition registration (cfg : Agent.Config) : ClientRequest := {|
  cr_method := "POST"; cr_url := Agent.APIURL cfg +:+ "/agents/register";
  cr_headers := <[ "X-Registration-Token" := Agent.RegistrationToken cfg ]>
    {[ "Content-Type" := "application/json" ]};
  cr_body := RegisterJson (Agent.AgentName cfg) (Agent.AgentAddress cfg) (Agent.Labels cfg)
    (Agent.Capacity cfg) |}.

Lemma Controller_Load_DBURL env cfg :
  Controller.Load env = Ok cfg → Controller.DBURL cfg = Getenv env "AOP_DB_URL".
Proof. intros Hl. unfold Controller.Load in Hl. by apply joined_Ok in Hl as ->. Qed.

Lemma Api_Load_DBUrl env cfg : Api.Load env = Ok cfg → Api.DBUrl cfg = Getenv env "AOP_DB_URL".
Proof. intros Hl. unfold Api.Load in Hl. by apply joined_Ok in Hl as ->. Qed.

(** Exactly under the condition [P] the program is up, as [a] tells; otherwise it
    exits with 1. *)
Definition starts {A} (r : Startup A) (P : Prop) (a : A → Prop) : Prop :=
  (P ∧ ∃ x, r = Up x ∧ a x) ∨ (¬ P ∧ r = Exit 1).

Lemma starts_up {A} (r : Startup A) (P : Prop) (a : A → Prop) x : P → r = Up x → a x → starts r P a.
Proof. left. eauto. Qed.

Lemma starts_exit {A} (r : Startup A) (P : Prop) (a : A → Prop) : ¬ P → r = Exit 1 → starts r P a.
Proof. by right. Qed.

Lemma controller_starts env ans w :
  let '(r, (_, w')) := exec (controller_main env) ans w in
  unchanged w w' ∧
  starts r (rejected env controller_rules = [] ∧ pgxpool_New (Getenv env "AOP_DB_URL") = Ok () ∧
            an_fault (hd quiet_answer ans) = None)
    (λ gs, ∃ cfg, Controller.Load env = Ok cfg ∧ gs = goroutines cfg).
Proof.
  pose proof (Controller_Load_reports env) as Hrep. pose proof (controller_main_spec env ans w) as Hm.
  destruct (exec _ ans w) as [r [ans1 w1]]. destruct Hm as [Hw Hm]. split; [done|].
  destruct (Controller.Load env) as [cfg|e] eqn:Hl; cbn [reports] in Hrep;
    [|apply starts_exit; [by intros [Hr _]; destruct Hrep|done]].
  rewrite (Controller_Load_DBURL _ _ Hl) in Hm.
  destruct (pgxpool_New _) as [[]|e]; [|by apply starts_exit; [intros (_ & ? & _)|]].
  destruct (an_fault _); [by apply starts_exit; [intros (_ & _ & ?)|]|].
  by eapply starts_up; [|exact Hm|exists cfg].
Qed.

Lemma api_starts env ans w :
  let '(r, (_, w')) := exec (api_main env) ans w in
  unchanged w w' ∧
  starts r (rejected env api_rules = [] ∧ pgxpool_ParseConfig (Getenv env "AOP_DB_URL") = Ok () ∧
            pgxpool_NewWithConfig (Getenv env "AOP_DB_URL") 20 2 = Ok () ∧
            an_fault (hd quiet_answer ans) = None)
    (λ srv, ∃ cfg, Api.Load env = Ok cfg ∧ srv = api_server cfg).
Proof.
  pose proof (Api_Load_reports env) as Hrep. pose proof (api_main_spec env ans w) as Hm.
  destruct (exec _ ans w) as [r [ans1 w1]]. destruct Hm as [Hw Hm]. split; [done|].
  destruct (Api.Load env) as [cfg|e] eqn:Hl; cbn [reports] in Hrep;
    [|apply starts_exit; [by intros [Hr _]; destruct Hrep|done]].
  rewrite (Api_Load_DBUrl _ _ Hl) in Hm.
  destruct (pgxpool_ParseConfig _) as [[]|e]; [|by apply starts_exit; [intros (_ & ? & _)|]].
  destruct (pgxpool_NewWithConfig _ _ _) as [[]|e]; [|by apply starts_exit; [intros (_ & _ & ? & _)|]].
  destruct (an_fault _); [by apply starts_exit; [intros (_ & _ & _ & ?)|]|].
  by eapply starts_up; [|exact Hm|exists cfg].
Qed.

(** When the answer to the registration lets an agent go on. *)
Definition admitted (answer : result ClientResponse) : Prop :=
  ∃ resp id token, answer = Ok resp ∧ cs_status resp = StatusCreated ∧ cs_registered resp = Ok (id, token).

Lemma Agent_Load_fields hostname env cfg : Agent.Load hostname env = Ok cfg →
  Agent.APIURL cfg = Getenv env "AOP_API_URL" ∧
  Agent.WorkDir cfg = text_or (Getenv env "AOP_WORK_DIR") "/tmp/aop".
Proof. intros Hl. unfold Agent.Load in Hl. by apply joined_Ok in Hl as ->. Qed.

Lemma agent_starts hostname mkdir env answer :
  let '(r, sent) := client_run (agent_main hostname mkdir env) [answer] in
  starts r (rejected env agent_rules = [] ∧
            mkdir (text_or (Getenv env "AOP_WORK_DIR") "/tmp/aop") = Ok () ∧
            url_valid (Getenv env "AOP_API_URL" +:+ "/agents/register") = true ∧ admitted answer)
    (λ up, ∃ cfg resp id token, Agent.Load hostname env = Ok cfg ∧ sent = [registration cfg] ∧
       answer = Ok resp ∧ cs_registered resp = Ok (id, token) ∧
       up = {| AgentUp_Client := {| Client_base := Agent.APIURL cfg; Client_token := token; Client_agentID := id |};
               AgentUp_Server := AgentServer.New (Agent.Capacity cfg); AgentUp_Addr := ":" +:+ Agent.Port cfg;
               AgentUp_WorkDir := Agent.WorkDir cfg; AgentUp_Interval := Agent.HeartbeatInterval cfg |}) ∧
  (sent = [] ∨ ∃ cfg, Agent.Load hostname env = Ok cfg ∧ mkdir (Agent.WorkDir cfg) = Ok () ∧
     sent = [registration cfg]).
Proof.
  pose proof (Agent_Load_reports hostname env) as Hrep. unfold agent_main, client_run.
  destruct (Agent.Load hostname env) as [cfg|e] eqn:Hl; cbn [reports] in Hrep;
    [|split; [by apply starts_exit; [intros [Hr _]; destruct Hrep|]|by left]].
  destruct (Agent_Load_fields _ _ _ Hl) as [<- <-].
  destruct (mkdir _) as [[]|e] eqn:Hm; [|split; [by apply starts_exit; [intros (_ & ? & _)|]|by left]].
  rewrite run_bind. unfold Register, send. cbn [Client_base AgentClient.New].
  destruct (url_valid _); [|split; [by apply starts_exit; [intros (_ & _ & ? & _)|]|by left]].
  destruct answer as [resp|e]; cbn;
    [|split; [by apply starts_exit; [intros (_ & _ & _ & ? & ? & ? & ? & _)|]|right; by exists cfg]].
  case_bool_decide as Hst; cbn;
    [split; [apply starts_exit; [intros (_ & _ & _ & ? & ? & ? & [= <-] & ? & _)|]; done|right; by exists cfg]|].
  destruct (cs_registered resp) as [[id token]|e] eqn:Hreg; cbn; (split; [|right; by exists cfg]).
  - eapply starts_up; [|reflexivity|by exists cfg, resp, id, token].
    do 3 (split; [done|]). by exists resp, id, token.
  - apply starts_exit; [|done]. intros (_ & _ & _ & ? & ? & ? & [= <-] & _ & ?). congruence.
Qed.

(** C25: the start-up of every program on every branch.  A controller starts its
    goroutines, and an API server serves its routes, exactly when no variable is
    rejected, the pool accepts AOP_DB_URL, and the database answers the ping;
    otherwise they exit with 1; in neither case is anything written.  An agent
    starts exactly when no variable is rejected, its working directory can be
    made, the URL it registers at is one, and the registration is answered 201
    with an identifier and a token, which its client uses from then on; otherwise
    it exits with 1.  It sends nothing but that registration, and only when its
    configuration is accepted and its directory is there. *)
Theorem programs_start env ans w hostname mkdir answer :
  (let '(r, (_, w')) := exec (controller_main env) ans w in
   unchanged w w' ∧
   starts r (rejected env controller_rules = [] ∧ pgxpool_New (Getenv env "AOP_DB_URL") = Ok () ∧
             an_fault (hd quiet_answer ans) = None)
     (λ gs, ∃ cfg, Controller.Load env = Ok cfg ∧ gs = goroutines cfg)) ∧
  (let '(r, (_, w')) := exec (api_main env) ans w in
   unchanged w w' ∧
   starts r (rejected env api_rules = [] ∧ pgxpool_ParseConfig (Getenv env "AOP_DB_URL") = Ok () ∧
             pgxpool_NewWithConfig (Getenv env "AOP_DB_URL") 20 2 = Ok () ∧
             an_fault (hd quiet_answer ans) = None)
     (λ srv, ∃ cfg, Api.Load env = Ok cfg ∧ srv = api_server cfg)) ∧
  (let '(r, sent) := client_run (agent_main hostname mkdir env) [answer] in
   starts r (rejected env agent_rules = [] ∧
             mkdir (text_or (Getenv env "AOP_WORK_DIR") "/tmp/aop") = Ok () ∧
             url_valid (Getenv env "AOP_API_URL" +:+ "/agents/register") = true ∧ admitted answer)
     (λ up, ∃ cfg resp id token, Agent.Load hostname env = Ok cfg ∧ sent = [registration cfg] ∧
        answer = Ok resp ∧ cs_registered resp = Ok (id, token) ∧
        up = {| AgentUp_Client := {| Client_base := Agent.APIURL cfg; Client_token := token; Client_agentID := id |};
                AgentUp_Server := AgentServer.New (Agent.Capacity cfg); AgentUp_Addr := ":" +:+ Agent.Port cfg;
                AgentUp_WorkDir := Agent.WorkDir cfg; AgentUp_Interval := Agent.HeartbeatInterval cfg |}) ∧
   (sent = [] ∨ ∃ cfg, Agent.Load hostname env = Ok cfg ∧ mkdir (Agent.WorkDir cfg) = Ok () ∧
      sent = [registration cfg])).
Proof. split; [apply controller_starts|]. split; [apply api_starts|apply agent_starts]. Qed.

(** ** One deployment *)

Lemma same_key aenv cenv acfg ccfg :
  Api.Load aenv = Ok acfg → Controller.Load cenv = Ok ccfg →
  Getenv aenv "AOP_ENCRYPTION_KEY" = Getenv cenv "AOP_ENCRYPTION_KEY" →
  Controller.EncryptionKey ccfg = Api.EncryptionKey acfg.
Proof.
  intros Ha Hc E. unfold Api.Load in Ha. unfold Controller.Load in Hc.
  apply joined_accepts in Ha as [-> Ha]. apply joined_accepts in Hc as [-> Hc].
  cbn [Api.EncryptionKey Controller.EncryptionKey].
  apply app_nil in Ha as [_ Ha]. apply app_nil in Ha as [Hreq Ha]. apply app_nil in Ha as [Ha _].
  apply app_nil in Hc as [_ Hc]. apply app_nil in Hc as [_ Hc]. apply app_nil in Hc as [Hc _].
  apply required_nil in Hreq. rewrite <-E in Hc |- *. revert Ha Hc. unfold parse_errors, parsed_or.
  rewrite bool_decide_eq_false_2 by done.
  unfold Api.parse_key, Controller.parse_key. destruct (hex_DecodeString _); [|done].
  by case_bool_decide.
Qed.

(** C26: a credential outlives the processes that handle it: what an API server
    started with the same AOP_ENCRYPTION_KEY as a controller stores for a request
    is, as long as the row is stored, resolved by that controller to the kind and
    the plaintext fields of the request, while the response carries no encrypted
    data. *)
Theorem deployed_credential_resolves `{!CryptoLaws} aenv cenv acfg ccfg r ans w c w2 ans' :
  Api.Load aenv = Ok acfg → Controller.Load cenv = Ok ccfg →
  Getenv aenv "AOP_ENCRYPTION_KEY" = Getenv cenv "AOP_ENCRYPTION_KEY" →
  (exec (Resources.CreateCredential (handlers_config acfg) r) ans w).1 = respond StatusCreated (BCredential c) →
  Forall faultless ans' →
  db_credentials (w_db w2) !! Credential_ID c =
    db_credentials (w_db (exec (Resources.CreateCredential (handlers_config acfg) r) ans w).2.2)
      !! Credential_ID c →
  Credential_EncryptedData c = [] ∧
  ∃ body, json_Decode (req_body r) = Ok body ∧
    (exec (controller_Resolve (Controller.EncryptionKey ccfg) (Credential_ID c)) ans' w2).1 =
      Ok {| CredentialSecret_Kind := Resources.CredentialBody_Kind body;
            CredentialSecret_Fields := default ∅ (Resources.CredentialBody_Fields body) |}.
Proof.
  intros Ha Hc E Hresp Hans Hrow. rewrite (same_key _ _ _ _ Ha Hc E).
  by apply (created_credential_resolves (handlers_config acfg) r ans w c w2 ans').
Qed.

(** ** Sessions *)

Lemma NewNumericDate_gt t : (t - 10 ^ 9 < NewNumericDate t)%Z.
Proof. unfold NewNumericDate. pose proof (Z.mod_pos_bound t (10 ^ 9)). lia. Qed.

Lemma IssueToken_accepted `{!JwtLaws} secret id email expiry ans w :
  match exec (IssueToken secret id email expiry) ans w with
  | (Ok tok, (_, w1)) => w_db w1 = w_db w ∧
      ∀ r2 ans2 w2, Header r2 "Authorization" = "Bearer " +:+ tok →
        (w_now (exec (RequireUser secret r2) ans2 w2).2.2 + 10 ^ 9 <= w_now w + expiry)%Z →
        (exec (RequireUser secret r2) ans2 w2).1 = Some (with_user r2 id, None)
  | (Err e, (_, w1)) => w_db w1 = w_db w ∧ ∃ c, jwt_Sign secret c = Err e
  end.
Proof.
  unfold exec at 1. cbn. destruct (jwt_Sign _ _) as [tok|e] eqn:Hs; [|eauto].
  split; [done|]. intros r2 ans2 w2 Hh Hexp.
  pose proof (jwt_Sign_nonempty _ _ _ Hs) as Hne. revert Hexp.
  unfold RequireUser, bearer. rewrite Hh, TrimPrefix_app, bool_decide_eq_false_2 by done.
  unfold ParseToken, exec. cbn. set (now := (w_now w2 + _)%Z). intros Hexp.
  destruct (jwt_Parse_Sign _ _ _ now Hs) as (c' & Hp & Hid).
  { cbn. match goal with |- (_ < NewNumericDate ?t)%Z => pose proof (NewNumericDate_gt t) end.
    revert Hexp. destruct (jwt_Parse _ _ _) as [c|e]; cbn; [lia|].
    destruct (an_fault _); cbn; [lia|]. unfold query. destruct (first_row _); cbn; lia. }
  rewrite Hp. cbn. by rewrite Hid.
Qed.

(** C27: a user whose stored hash genhash printed for a password can log in with
    it, and the session lasts: Login answers with a token, unless signing fails,
    and every request that carries the token is let through as that user until
    the configured expiry, less the second that the expiry is rounded by. *)
Theorem login_session `{!JwtLaws} `{!BcryptGen} `{!BcryptLaws} cfg salt args u body r ans w :
  genhash_main salt args = Up (User_PasswordHash u) →
  db_ok (w_db w) → db_users (w_db w) !! User_ID u = Some u →
  json_Decode (req_body r) = Ok body →
  LoginBody_Email body = User_Email u → LoginBody_Password body = hd "password" args →
  Forall faultless ans →
  let '(resp, (_, w1)) := exec (Login cfg r) ans w in
  w_db w1 = w_db w ∧
  ((∃ tok, resp = respond StatusOK (BToken tok) ∧
     ∀ r2 ans2 w2, Header r2 "Authorization" = "Bearer " +:+ tok →
       (w_now (exec (RequireUser (cfg_JWTSecret cfg) r2) ans2 w2).2.2 + 10 ^ 9
        <= w_now w + cfg_JWTExpiry cfg)%Z →
       (exec (RequireUser (cfg_JWTSecret cfg) r2) ans2 w2).1 = Some (with_user r2 (User_ID u), None)) ∨
   (resp = internal_error ∧ ∃ c e, jwt_Sign (cfg_JWTSecret cfg) c = Err e)).
Proof.
  intros Hgen Hok Hu Hbody Hemail Hpw Ha. unfold Login. rewrite Hbody. unfold GetUserByEmail, or_not_found.
  rewrite Hemail. run_sql Ha. 
  destruct (first_of_unique (λ v, User_Email v = User_Email u) (db_users (w_db w)) (User_ID u) u)
    as [l ->]; [done|done| |].
  { intros k v Hk Hv. by eapply (u_email _ Hok). }
  cbn [first_row]. unfold genhash_main in Hgen. destruct (GenerateFromPassword _ _ _) eqn:Hg; [|done].
  injection Hgen as ->. apply bcrypt_matches_Generate in Hg.
  cbn [prog_bind map_err mret prog_ret]. rewrite Hpw, Hg. cbn [negb].
  pose proof (IssueToken_accepted (cfg_JWTSecret cfg) (User_ID u) (User_Email u) (cfg_JWTExpiry cfg) ans0
    (MkWorld (w_db w) (tx_now tx) (w_sent w))) as Hi.
  rewrite (exec_prog_bind (IssueToken _ _ _ _)).
  destruct (exec (IssueToken _ _ _ _) _ _) as [[tok|e] [ans1 w1]]; destruct Hi as [Hdb Hi]; cbn; split; try done.
  - left. exists tok. split; [done|]. intros r2 ans2 w2 Hh Ht. apply Hi; [done|]. cbn. lia.
  - right. naive_solver.
Qed.
End programs.
