(* ===== verification/AgentClientFacts.v ===== *)
(** * The agent's client against the API server

    What a client sends is received by the handlers of the routes it names: a
    registered agent is recognised, and the result it reports is stored. *)
From S2P Require Import Prelude.
From S2P Require Import Prog.
From S2P Require Import Types.
From S2P Require Import Text.
From S2P Require Import Db.
From S2P Require Import Hoare.
From S2P Require Import ControllerStore.
From S2P Require Import Secrets.
From S2P Require Import Transport.
From S2P Require Import Scheduler.
From S2P Require Import AgentClient.
From S2P Require Import ApiStore.
From S2P Require Import ApiResources.
From S2P Require Import Http.
From S2P Require Import JobHandlers.
From S2P Require Import Auth.
From S2P Require Import ResourceHandlers.
From S2P Require Import Server.
From S2P Require Import Process.
From S2P Require Import Vocab.
From S2P Require Import System.
From S2P Require Import Integrity.
From S2P Require Import Registry.
From S2P Require Import ApiFacts.
Import Jobs.

(** ** From a client's request to a handler's *)

Definition brace_open : Ascii.ascii := Ascii.ascii_of_N 123.
Definition brace_close : Ascii.ascii := Ascii.ascii_of_N 125.

(** A route pattern with its parameters filled in; [name] is the part of a
    parameter's name read so far. *)
Fixpoint fill (params : gmap string string) (name : option string) (pattern : string) : string :=
  match pattern with
  | EmptyString => EmptyString
  | String c pattern =>
      match name with
      | None => if Ascii.eqb c brace_open then fill params (Some EmptyString) pattern
                else String c (fill params None pattern)
      | Some n => if Ascii.eqb c brace_close then lookup_str params n +:+ fill params None pattern
                  else fill params (Some (n +:+ String c EmptyString)) pattern
      end
  end.

Section client.
Context `{UuidLib} `{NetLib} `{HashLib} `{JwtLib}.
Context `{JsonDecode RegisterBody} `{JsonDecode Types.AgentHeartbeat} `{JsonDecode (list JobLogLine)}
  `{JsonDecode ResultBody}.

(** Decoding the body on the server gives what the client marshalled. *)
Definition body_carried (b : ClientBody) (s : string) : Prop :=
  match b with
  | RegisterJson name address labels capacity =>
      json_Decode s = Ok (Build_RegisterBody name address (Some labels) capacity)
  | HeartbeatJson h => json_Decode s = Ok h
  | LogsJson lines => json_Decode s = Ok lines
  | ResultJson status exit_code facts => json_Decode s = Ok (Build_ResultBody status exit_code facts)
  end.

(** The handler of the route [pattern] of the server at [base] receives [cr] as [r]. *)
Record delivered (base pattern : string) (cr : ClientRequest) (r : Request) : Prop := {
  dl_url : cr_url cr = base +:+ fill (req_params r) None pattern;
  dl_headers : req_headers r = cr_headers cr;
  dl_body : body_carried (cr_body cr) (req_body r);
}.

(** The client receives the response [resp] as [cs]. *)
Definition answered (resp : Response) (cs : ClientResponse) : Prop :=
  cs_status cs = resp_status resp ∧
  ∀ id token, cs_registered cs = Ok (id, token) → resp_body resp = BRegistered id token.

(** The calls of a client after registration. *)
Inductive client_call (c : Client) : prog ClientEv (result unit) → Prop :=
| call_heartbeat n : client_call c (Heartbeat c n)
| call_logs id lines : client_call c (PostLogs c id lines)
| call_result id status code facts : client_call c (PostResult c id status code facts).

Lemma exchange_sent c op path body ans :
  ∀ cr, cr ∈ (client_run (exchange c op path body) ans).2 → cr_headers cr = setBearer c.
Proof.
  intros cr. unfold client_run, exchange, send. destruct (url_valid _); cbn; [|set_solver].
  destruct (hd _ ans) as [cs|e]; cbn; [destruct (bool_decide _)|];
    cbn; intros ->%list_elem_of_singleton; done.
Qed.

Lemma client_call_sent c p ans :
  client_call c p → ∀ cr, cr ∈ (client_run p ans).2 → cr_headers cr = setBearer c.
Proof.
  intros [n|id lines|id status code facts] cr; [apply exchange_sent| |apply exchange_sent].
  unfold PostLogs. case_bool_decide; [cbn; set_solver|apply exchange_sent].
Qed.

Lemma Register_ok c regToken name address labels capacity ans c' sent :
  client_run (Register c regToken name address labels capacity) ans = ((Ok (), c'), sent) →
  ∃ cs, sent = [Build_ClientRequest "POST" (Client_base c +:+ "/agents/register")
      (<[ "X-Registration-Token" := regToken ]> {[ "Content-Type" := "application/json" ]})
      (RegisterJson name address labels capacity)] ∧
    head ans = Some (Ok cs) ∧ cs_status cs = StatusCreated ∧
    cs_registered cs = Ok (Client_agentID c', Client_token c').
Proof.
  unfold client_run, Register, send. destruct (url_valid _); cbn; [|done].
  destruct ans as [|[cs|e] ans]; cbn; try done.
  case_bool_decide as Hs; cbn; [done|].
  destruct (cs_registered cs) as [[id token]|e] eqn:Hr; cbn; [|done].
  intros [= <- <-]. by exists cs.
Qed.

(** When Register returns without error against an API server, the registration
    token was right and an agent of that name and address was stored; while its row
    is kept, the requests of the client are authenticated as that agent. *)
Lemma registered_row cfg c regToken name address labels capacity cs c' cr r ans w :
  client_run (Register c regToken name address labels capacity) [Ok cs] = ((Ok (), c'), [cr]) →
  delivered (Client_base c) "/agents/register" cr r →
  answered (exec (RegisterAgent cfg r) ans w).1 cs →
  regToken = cfg_RegToken cfg ∧
  ∃ row, db_agents (w_db (exec (RegisterAgent cfg r) ans w).2.2) !! AgentID c' = Some row ∧
    Agent_Name (AgentRow_Agent row) = name ∧ Agent_Address (AgentRow_Agent row) = address ∧
    ∀ row' w2 ans' p ans2 cr' r',
      agent_kept row row' → db_agents (w_db w2) !! AgentID c' = Some row' → db_ok (w_db w2) →
      Forall faultless ans' → client_call c' p → cr' ∈ (client_run p ans2).2 →
      req_headers r' = cr_headers cr' →
      (exec (RequireAgent r') ans' w2).1 = Some (with_agent r' (stored_agent row')).
Proof.
  intros (cs' & [= ->] & [= <-] & Hs & Hreg)%Register_ok [_ Hh Hb] [Hst Hbody].
  cbn in Hh, Hb. apply Hbody in Hreg. rewrite Hs in Hst.
  destruct (exec (RegisterAgent cfg r) ans w).1 as [st body] eqn:Hex. cbn in Hst, Hreg. subst st body.
  apply RegisterAgent_created in Hex
    as (Htok & Hne & row & body & Hrow & Hhash & Hid & Hdec & Hname & Haddr & _).
  rewrite Hb in Hdec. injection Hdec as <-. unfold AgentID in *.
  split; [by rewrite <-Htok; unfold Header, lookup_str; rewrite Hh, lookup_insert_eq|].
  exists row. split_and!; [done..|].
  intros row' w2 ans' p ans2 cr' r' Hk Hrow' Hok Ha Hcall Hcr Hr'.
  eapply RequireAgent_row; [done..|by rewrite (kept_token _ _ Hk)|done|].
  apply (client_call_sent _ _ _ Hcall) in Hcr. unfold Header, lookup_str.
  by rewrite Hr', Hcr; unfold setBearer; rewrite lookup_insert_eq.
Qed.

Lemma fill_result params :
  fill params None "/agent/jobs/{job_id}/result" = "/agent/jobs/" +:+ lookup_str params "job_id" +:+ "/result".
Proof. reflexivity. Qed.

(** The request of a call that is sent and its answer. *)
Lemma exchange_run c op path body cs cr :
  (client_run (exchange c op path body) [Ok cs]).2 = [cr] →
  cr = Build_ClientRequest "POST" (Client_base c +:+ path) (setBearer c) body ∧
  (cs_status cs = StatusNoContent → (client_run (exchange c op path body) [Ok cs]).1 = Ok ()).
Proof.
  unfold client_run, exchange, send. destruct (url_valid _); cbn; [|done].
  case_bool_decide as Hs; cbn; intros [= <-]; done.
Qed.

(** A reported result is stored: when a registered agent calls PostResult with
    a terminal status for a job assigned to it, and the API server at its URL
    handles the request with a database that answers, PostResult returns without
    error and the job has ended with that status; its facts are kept. *)
Lemma reported_result_stored c row j id status code cr cs r ans w :
  Forall faultless ans → db_ok (w_db w) → uuid_Parse (uuid_String id) = Ok id →
  db_agents (w_db w) !! AgentID c = Some row → AgentRow_TokenHash row = hashToken (Client_token c) →
  Client_token c ≠ EmptyString →
  db_jobs (w_db w) !! id = Some j → Job_AgentID j = Some (AgentID c) → IsTerminal status = true →
  (client_run (PostResult c id status code None) [Ok cs]).2 = [cr] →
  delivered (Client_base c) "/agent/jobs/{job_id}/result" cr r →
  let '(resp, (_, w')) := exec (as_agent AgentPostResult r) ans w in
  answered resp cs →
  (client_run (PostResult c id status code None) [Ok cs]).1 = Ok () ∧
  ∃ now j', db_jobs (w_db w') = <[id := j']> (db_jobs (w_db w)) ∧ (w_now w <= now)%Z ∧
    Job_Status j' = status ∧ Job_EndedAt j' = Some now ∧ Job_Facts j' = Job_Facts j.
Proof.
  intros Ha Hok Huuid Hrow Hhash Hne Hj Hag Hst [-> Hcall]%exchange_run [Hurl Hh Hb].
  rewrite fill_result in Hurl. cbn [cr_url cr_headers cr_body] in Hurl, Hh, Hb.
  apply (inj (String.append _)), (inj (String.append _)), append_cancel_r in Hurl.
  destruct (RequireAgent_exec r ans w _ _ row Ha Hok Hrow Hhash Hne) as (now & ans' & Ha' & Hle & Hex).
  { unfold Header, lookup_str. by rewrite Hh; unfold setBearer; rewrite lookup_insert_eq. }
  assert (exec (as_agent AgentPostResult r) ans w =
    exec (AgentPostResult (with_agent r (stored_agent row))) ans' (MkWorld (w_db w) now (w_sent w))) as ->.
  { unfold as_agent. unfold exec in *. by rewrite run_bind, Hex. }
  assert (Agent_ID (stored_agent row) = AgentID c) as Hid by exact (k_agents _ Hok _ _ Hrow).
  pose proof (AgentPostResult_facts (with_agent r (stored_agent row)) (stored_agent row) id ans'
    (MkWorld (w_db w) now (w_sent w)) Ha' eq_refl) as Hpost.
  destruct (exec _ ans' _) as [resp [ans2 w2]]. cbn [w_db w_now w_sent] in Hpost.
  rewrite Hj in Hpost. unfold not_assigned in Hpost. rewrite Hag, Hid, bool_decide_eq_false_2 in Hpost by naive_solver.
  cbn [with_agent req_body] in Hpost. rewrite Hb in Hpost. cbn [ResultBody_Status ResultBody_Facts] in Hpost.
  rewrite Hst in Hpost. destruct Hpost as (-> & t & j' & Hjobs & Ht & Hs & He & Hf);
    [unfold URLParam; cbn; by rewrite <-Hurl|].
  intros [Hcs _]. split; [by apply Hcall|]. exists t, j'. rewrite decide_True in Hf by done.
  split_and!; [done|lia|done..].
Qed.
End client.

(** ** In the running system *)

Section session.
Context `{UuidLib} `{PgxLib} `{Collation} `{CryptoLib} `{FieldsJson} `{HashLib} `{JwtLib} `{BcryptLib}
  `{NetLib} `{OsEnv} `{CronLib} `{PgxPool}.
Context `{JsonDecode Jobs.CreateJobBody} `{JsonDecode (list JobLogLine)}
  `{JsonDecode Jobs.ResultBody}.
Context `{JsonDecode LoginBody} `{JsonDecode NameBody} `{JsonDecode RegisterBody}
  `{JsonDecode Types.AgentHeartbeat}.
Context `{JsonDecode Resources.CreateTemplateBody} `{JsonDecode Resources.UpdateTemplateBody}
  `{JsonDecode Resources.ProjectBody} `{JsonDecode Resources.CreateScheduleBody}
  `{JsonDecode Resources.UpdateScheduleBody} `{JsonDecode Resources.CredentialBody}
  `{JsonDecode Resources.WorkflowBody} `{JsonDecode Resources.UpdateWorkflowBody}
  `{JsonDecode Resources.NoteBody}.

(** C17: an agent's session: when Register returns without error against an API
    server, the registration token was right and the server stored an agent of that
    name and address under the client's AgentID.  Let the system have that row in
    some reachable state [s]: then at any later moment [s'], whatever any number of
    controllers, API servers and agents did meanwhile - heartbeats of this agent
    included - every heartbeat, batch of logs or result the client sends is let
    through by RequireAgent, if the database answers, as the agent with that
    AgentID, name and address. *)
Theorem agent_session cfg c regToken name address labels capacity cs c' cr r ans w w0 s s' ans' :
  client_run (Register c regToken name address labels capacity) [Ok cs] = ((Ok (), c'), [cr]) →
  delivered (Client_base c) "/agents/register" cr r →
  answered (exec (RegisterAgent cfg r) ans w).1 cs →
  db_ok (w_db w0) → reachable w0 s →
  db_agents (w_db s.1) !! AgentID c' = db_agents (w_db (exec (RegisterAgent cfg r) ans w).2.2) !! AgentID c' →
  sys_reach perform Spawned time_passes s s' → Forall faultless ans' →
  regToken = cfg_RegToken cfg ∧
  ∃ a, Agent_ID a = AgentID c' ∧ Agent_Name a = name ∧ Agent_Address a = address ∧
    ∀ p ans2 cr' r', client_call c' p → cr' ∈ (client_run p ans2).2 → req_headers r' = cr_headers cr' →
      (exec (RequireAgent r') ans' s'.1).1 = Some (with_agent r' a).
Proof.
  intros Hc Hd Ha Hok Hr Hsame Hs Hf.
  destruct (registered_row _ _ _ _ _ _ _ _ _ _ _ _ _ Hc Hd Ha) as (Htok & row & Hrow & Hname & Haddr & Hall).
  split; [done|]. rewrite Hrow in Hsame.
  assert (registry_kept (w_db s.1) (w_db s'.1)) as Hk
    by (by apply (between_respects registry_kept w0 s s'); [apply controller_stmt_kept|apply api_stmt_kept| |]).
  destruct (Hk _ _ Hsame) as (row' & Hrow' & Hkept).
  assert (db_ok (w_db s'.1)) as Hok'.
  { assert (reachable w0 s') as Hr' by (unfold reachable, sys_reach in *; by etrans).
    by apply (reachable_respects (keeps db_ok) w0 s'); [apply controller_stmt_ok|apply api_stmt_ok| |]. }
  exists (stored_agent row'). split; [exact (k_agents _ Hok' _ _ Hrow')|].
  split; [by unfold stored_agent; rewrite (kept_name _ _ Hkept)|].
  split; [by unfold stored_agent; rewrite (kept_address _ _ Hkept)|]. eauto.
Qed.
End session.
