(* ===== verification/LogFacts.v ===== *)
(** * The output of a job, from the playbook to the database

    Two goroutines number the lines of the two pipes with one counter and pass
    them through onLog; the lines are batched and posted; the API server stores
    one row per number. *)
From S2P Require Import Prelude.
From S2P Require Import Prog.
From S2P Require Import Types.
From S2P Require Import Text.
From S2P Require Import Db.
From S2P Require Import Hoare.
From S2P Require Import ControllerStore.
From S2P Require Import Secrets.
From S2P Require Import Transport.
From S2P Require Import AgentRunner.
From S2P Require Import LogBatcher.
From S2P Require Import LogCapture.
From S2P Require Import AgentClient.
From S2P Require Import ApiStore.
From S2P Require Import ApiResources.
From S2P Require Import Http.
From S2P Require Import JobHandlers.
From S2P Require Import Auth.
From S2P Require Import ResourceHandlers.
From S2P Require Import Server.
From S2P Require Import Vocab.
From S2P Require Import System.
From S2P Require Import Integrity.
From S2P Require Import Registry.
From S2P Require Import ApiFacts.
From S2P Require Import AgentClientFacts.

(** ** Numbering *)

Definition of_stream (name : string) (ls : list JobLogLine) : list JobLogLine :=
  filter (λ l, JobLogLine_Stream l = name) ls.

Definition held_lines (sc : Scanner) : list string :=
  match sc_held sc with Some (_, l) => [l] | None => [] end.
Definition held_seqs (sc : Scanner) : list Z :=
  match sc_held sc with Some (n, _) => [n] | None => [] end.

(** One stream so far: the lines delivered, held and left are the lines of the
    pipe in order, and their numbers grow. *)
Record stream_ok (name : string) (text : list string) (seq : Z) (sc : Scanner) (dl : list JobLogLine)
    : Prop := {
  so_lines : (JobLogLine_Line <$> of_stream name dl) ++ held_lines sc ++ sc_lines sc = text;
  so_sorted : StronglySorted Z.lt ((JobLogLine_Seq <$> of_stream name dl) ++ held_seqs sc);
  so_bound : Forall (λ n, (n <= seq)%Z) ((JobLogLine_Seq <$> of_stream name dl) ++ held_seqs sc);
}.

Lemma StronglySorted_snoc (l : list Z) n :
  StronglySorted Z.lt l → Forall (λ m, (m < n)%Z) l → StronglySorted Z.lt (l ++ [n]).
Proof.
  induction 1 as [|m l Hs IH Hm]; intros Hn; cbn; [repeat constructor|].
  apply Forall_cons in Hn as [Hmn Hn]. constructor; [by apply IH|].
  apply Forall_app. split; [done|by constructor].
Qed.

Lemma of_stream_app name l1 l2 : of_stream name (l1 ++ l2) = of_stream name l1 ++ of_stream name l2.
Proof. apply filter_app. Qed.

Lemma advance_own name text seq sc dl seq' sc' out :
  advance_scanner name seq sc = (seq', sc', out) →
  stream_ok name text seq sc dl → stream_ok name text seq' sc' (dl ++ out).
Proof.
  unfold advance_scanner. intros Ha [Hl Hs Hb]. unfold held_lines, held_seqs in *.
  destruct (sc_held sc) as [[n l]|] eqn:Hh.
  - injection Ha as <- <- <-.
    assert (of_stream name [log_line n l name] = [log_line n l name]) as Hf
      by (unfold of_stream; by rewrite filter_cons_True).
    split; cbn [sc_held sc_lines]; rewrite of_stream_app, Hf, fmap_app, ?app_nil_r; cbn.
    + by rewrite <-app_assoc.
    + done.
    + done.
  - rewrite app_nil_r in Hs, Hb. destruct (sc_lines sc) as [|l ls] eqn:Hls.
    + injection Ha as <- <- <-. rewrite app_nil_r. split; unfold held_lines, held_seqs; rewrite Hh; cbn.
      * by rewrite Hls.
      * by rewrite app_nil_r.
      * by rewrite app_nil_r.
    + injection Ha as <- <- <-. rewrite app_nil_r. split; cbn [held_lines held_seqs sc_held sc_lines].
      * done.
      * apply StronglySorted_snoc; [done|]. eapply Forall_impl; [exact Hb|]. cbn. lia.
      * apply Forall_app. split; [|by repeat constructor; lia].
        eapply Forall_impl; [exact Hb|]. cbn. lia.
Qed.

Lemma advance_other name name' text seq sc sc1 dl seq' sc1' out :
  name ≠ name' → advance_scanner name' seq sc1 = (seq', sc1', out) →
  stream_ok name text seq sc dl → stream_ok name text seq' sc (dl ++ out).
Proof.
  intros Hne Ha [Hl Hs Hb].
  assert (of_stream name out = [] ∧ (seq <= seq')%Z) as [Ho Hle].
  { unfold advance_scanner in Ha. destruct (sc_held sc1) as [[n l]|]; [|destruct (sc_lines sc1)];
      injection Ha as <- <- <-; (split; [|lia]); try done.
    unfold of_stream. rewrite filter_cons_False; [done|]. cbn. congruence. }
  split; rewrite of_stream_app, Ho, app_nil_r; [done|done|].
  eapply Forall_impl; [exact Hb|]. cbn. lia.
Qed.

(** All the numbers given out so far, delivered or held. *)
Definition numbers_ok (s : LogState) : Prop :=
  (0 <= ls_seq s)%Z ∧
  (JobLogLine_Seq <$> ls_delivered s) ++ held_seqs (ls_stdout s) ++ held_seqs (ls_stderr s)
    ≡ₚ seqZ 1 (ls_seq s).

Lemma advance_numbers s b : numbers_ok s → numbers_ok (advance s b).
Proof.
  unfold numbers_ok, advance, advance_scanner. intros [H0 Hp].
  assert (∀ A : list Z, A ≡ₚ seqZ 1 (ls_seq s) → A ++ [(ls_seq s + 1)%Z] ≡ₚ seqZ 1 (ls_seq s + 1)) as Hnext.
  { intros A HA. rewrite seqZ_app by lia. rewrite <-HA. cbn.
    by replace (1 + ls_seq s)%Z with (ls_seq s + 1)%Z by lia. }
  destruct b; unfold held_seqs in *.
  - destruct (sc_held (ls_stdout s)) as [[n l]|] eqn:Hh; [|destruct (sc_lines (ls_stdout s)) as [|l ls]];
      cbn [ls_seq ls_delivered ls_stdout ls_stderr sc_held]; rewrite ?Hh, ?fmap_app; cbn [fmap list_fmap app].
    + split; [done|]. rewrite <-Hp, <-app_assoc. done.
    + split; [done|]. by rewrite app_nil_r.
    + split; [lia|]. rewrite <-(Hnext _ Hp). cbn. solve_Permutation.
  - destruct (sc_held (ls_stderr s)) as [[n l]|] eqn:Hh; [|destruct (sc_lines (ls_stderr s)) as [|l ls]];
      cbn [ls_seq ls_delivered ls_stdout ls_stderr sc_held]; rewrite ?Hh, ?fmap_app; cbn [fmap list_fmap app].
    + split; [done|]. rewrite <-Hp. cbn. solve_Permutation.
    + split; [done|]. by rewrite app_nil_r.
    + split; [lia|]. rewrite <-(Hnext _ Hp). cbn. solve_Permutation.
Qed.

Record logs_inv (o : PlaybookEnd) (s : LogState) : Prop := {
  li_numbers : numbers_ok s;
  li_stdout : stream_ok "stdout" (Scan (pb_stdout o)).1 (ls_seq s) (ls_stdout s) (ls_delivered s);
  li_stderr : stream_ok "stderr" (Scan (pb_stderr o)).1 (ls_seq s) (ls_stderr s) (ls_delivered s);
}.

Lemma start_logs_inv o : logs_inv o (start_logs o).
Proof.
  split.
  - by split.
  - split; cbn; [done|constructor|constructor].
  - split; cbn; [done|constructor|constructor].
Qed.

Lemma advance_inv o s b : logs_inv o s → logs_inv o (advance s b).
Proof.
  intros [Hn Ho He]. split; [by apply advance_numbers| |].
  - unfold advance. destruct b.
    + destruct (advance_scanner "stdout" _ _) as [[seq' sc'] out] eqn:Ha. by eapply advance_own.
    + destruct (advance_scanner "stderr" _ _) as [[seq' sc'] out] eqn:Ha.
      by apply (advance_other "stdout" "stderr" _ _ _ _ _ _ _ _ ltac:(done) Ha).
  - unfold advance. destruct b.
    + destruct (advance_scanner "stdout" _ _) as [[seq' sc'] out] eqn:Ha.
      by apply (advance_other "stderr" "stdout" _ _ _ _ _ _ _ _ ltac:(done) Ha).
    + destruct (advance_scanner "stderr" _ _) as [[seq' sc'] out] eqn:Ha. by eapply advance_own.
Qed.

Lemma advance_all_inv o s bs : logs_inv o s → logs_inv o (foldl advance s bs).
Proof. revert s. induction bs as [|b bs IH]; intros s Hs; [done|]. by apply IH, advance_inv. Qed.

(** ** Termination of the goroutines *)

Lemma advance_steps s b :
  steps_left (ls_stdout (advance s b)) = steps_left (ls_stdout s) - (if b then 1 else 0) ∧
  steps_left (ls_stderr (advance s b)) = steps_left (ls_stderr s) - (if b then 0 else 1).
Proof.
  unfold advance, advance_scanner, steps_left.
  destruct b;
    [destruct (sc_held (ls_stdout s)) as [[n l]|] eqn:Hh; [|destruct (sc_lines (ls_stdout s)) as [|l ls] eqn:Hl]
    |destruct (sc_held (ls_stderr s)) as [[n l]|] eqn:Hh; [|destruct (sc_lines (ls_stderr s)) as [|l ls] eqn:Hl]];
    cbn; rewrite ?Hh, ?Hl; cbn; lia.
Qed.

Lemma advance_many s b n :
  steps_left (ls_stdout (foldl advance s (replicate n b))) = steps_left (ls_stdout s) - (if b then n else 0) ∧
  steps_left (ls_stderr (foldl advance s (replicate n b))) = steps_left (ls_stderr s) - (if b then 0 else n).
Proof.
  revert s. induction n as [|n IH]; intros s; cbn [replicate foldl]; [destruct b; lia|].
  destruct (IH (advance s b)) as [-> ->]. destruct (advance_steps s b) as [-> ->]. destruct b; lia.
Qed.

Lemma wait_logs_drains s :
  steps_left (ls_stdout (wait_logs s)) = 0 ∧ steps_left (ls_stderr (wait_logs s)) = 0.
Proof.
  unfold wait_logs. rewrite foldl_app.
  destruct (advance_many s true (steps_left (ls_stdout s))) as [H1 H2].
  destruct (advance_many (foldl advance s (replicate (steps_left (ls_stdout s)) true)) false
    (steps_left (ls_stderr s))) as [-> ->]. rewrite H1, H2. lia.
Qed.

Lemma steps_left_0 sc : steps_left sc = 0 → held_lines sc = [] ∧ held_seqs sc = [] ∧ sc_lines sc = [].
Proof.
  unfold steps_left, held_lines, held_seqs. destruct (sc_held sc) as [[]|], (sc_lines sc); cbn; try lia. done.
Qed.

(** What is logged for a playbook that ended, for every interleaving. *)
Lemma logged_facts o :
  let l := logged o in
  JobLogLine_Seq <$> l ≡ₚ seqZ 1 (Z.of_nat (length l)) ∧
  (∀ name text, (name, text) ∈ [("stdout", pb_stdout o); ("stderr", pb_stderr o)] →
     JobLogLine_Line <$> of_stream name l = (Scan text).1 ∧
     StronglySorted Z.lt (JobLogLine_Seq <$> of_stream name l)).
Proof.
  cbv zeta. unfold logged. set (s := wait_logs _).
  assert (logs_inv o s) as [[H0 Hn] [Ho1 Ho2 _] [He1 He2 _]].
  { unfold s, wait_logs. apply advance_all_inv, advance_all_inv, start_logs_inv. }
  destruct (wait_logs_drains (foldl advance (start_logs o) (pb_schedule o))) as [Hd1 Hd2].
  apply steps_left_0 in Hd1 as (Hl1 & Hs1 & Hr1), Hd2 as (Hl2 & Hs2 & Hr2). fold s in Hl1, Hs1, Hr1, Hl2, Hs2, Hr2.
  rewrite Hs1, Hs2, !app_nil_r in Hn. rewrite Hl1, Hr1, !app_nil_r in Ho1. rewrite Hl2, Hr2, !app_nil_r in He1.
  rewrite Hs1, app_nil_r in Ho2. rewrite Hs2, app_nil_r in He2. split.
  - assert (ls_seq s = Z.of_nat (length (ls_delivered s))) as <-; [|done].
    pose proof (Permutation_length Hn) as Hlen. rewrite length_fmap, length_seqZ in Hlen. lia.
  - intros name text Hin. rewrite !elem_of_cons, elem_of_nil in Hin.
    destruct Hin as [[= -> ->]|[[= -> ->]|[]]]; done.
Qed.

(** *** The lines that are captured, for every interleaving *)

Definition phase_lines (g : Goroutine) : list string :=
  match go_phase g with Reading => [] | Calling _ l | Assigned l => [l] end.

Definition in_range (next n : Z) : Prop := (1 <= n <= next)%Z.

Definition phase_ok (next seq : Z) (g : Goroutine) : Prop :=
  match go_phase g with
  | Reading => True | Calling n _ => in_range next n | Assigned _ => in_range next seq
  end.

Record capture_ok (o : PlaybookEnd) (c : Capture) : Prop := {
  ca_stdout : (JobLogLine_Line <$> of_stream "stdout" (cap_added c)) ++ phase_lines (cap_stdout c)
              ++ go_lines (cap_stdout c) = (Scan (pb_stdout o)).1;
  ca_stderr : (JobLogLine_Line <$> of_stream "stderr" (cap_added c)) ++ phase_lines (cap_stderr c)
              ++ go_lines (cap_stderr c) = (Scan (pb_stderr o)).1;
  ca_next : cap_next c = Z.of_nat (length (cap_added c) + length (phase_lines (cap_stdout c))
                                   + length (phase_lines (cap_stderr c)));
  ca_phases : phase_ok (cap_next c) (cap_seq c) (cap_stdout c) ∧ phase_ok (cap_next c) (cap_seq c) (cap_stderr c);
  ca_added : Forall (λ l, in_range (cap_next c) (JobLogLine_Seq l)) (cap_added c);
}.

Lemma start_capture_ok o : capture_ok o (start_capture o).
Proof. split; cbn; [done..|by split|constructor]. Qed.

Lemma in_range_succ next n : in_range next n → in_range (next + 1) n.
Proof. unfold in_range. lia. Qed.

Lemma phase_ok_succ next seq g : phase_ok next seq g → phase_ok (next + 1) seq g.
Proof. unfold phase_ok. destruct (go_phase g); auto using in_range_succ. Qed.

Lemma phase_ok_assign next seq n g : phase_ok next seq g → in_range next n → phase_ok next n g.
Proof. unfold phase_ok. by destruct (go_phase g). Qed.

Lemma capture_step_ok o c b : capture_ok o c → capture_ok o (capture_step c b).
Proof.
  destruct c as [nx sq [lo po] [le pe] ad]. intros [Ho He Hn [Hpo Hpe] Ha].
  unfold capture_step, capture_scanner.
  destruct b; cbn [cap_stdout cap_stderr cap_next cap_seq cap_added go_phase go_lines] in *;
    [destruct po as [|n l|l]; [destruct lo as [|l lo]| |]|destruct pe as [|n l|l]; [destruct le as [|l le]| |]];
    split; unfold phase_lines, of_stream in *;
    cbn [cap_stdout cap_stderr cap_next cap_seq cap_added go_phase go_lines phase_ok] in *;
    rewrite ?app_nil_r, ?filter_app, ?filter_cons_True, ?filter_cons_False, ?filter_nil, ?fmap_app,
      ?length_app, <-?app_assoc by done;
    rewrite ?app_nil_r; cbn [length] in *;
    try done; try lia; try (split; unfold in_range in *; eauto using phase_ok_succ, phase_ok_assign; cbn; lia);
    try (eapply Forall_impl; [exact Ha|]; intros; cbv beta; by apply in_range_succ);
    try (apply Forall_app; split; [done|constructor; [done|constructor]]);
    first [by rewrite !app_nil_r in Ho|by rewrite !app_nil_r in He].
Qed.

Lemma captured_ok o sched c :
  capture_ok o c → capture_ok o (foldl capture_step c sched).
Proof. revert c. induction sched as [|b sched IH]; intros c Hc; [done|]. by apply IH, capture_step_ok. Qed.

Lemma captured_end o sched :
  let c := foldl capture_step (start_capture o) sched in capture_ok o (foldl capture_step c (rest_of c)).
Proof. cbv zeta. apply captured_ok, captured_ok, start_capture_ok. Qed.

(** The lines of a playbook, as executeJob adds them to the batcher, for
    every interleaving of the two scanner goroutines: the lines of each pipe are
    added completely and in order, with numbers from 1 to the number of lines.
    If the calls of onLog do not overlap, the numbers are also distinct, and grow
    along each pipe. *)
Lemma captured_lines o sched :
  let l := captured o sched in
  (∀ name text, (name, text) ∈ [("stdout", pb_stdout o); ("stderr", pb_stderr o)] →
     JobLogLine_Line <$> of_stream name l = (Scan text).1) ∧
  Forall (λ x, (1 <= JobLogLine_Seq x <= Z.of_nat (length l))%Z) l ∧
  (serial_calls o sched = true →
     JobLogLine_Seq <$> l ≡ₚ seqZ 1 (Z.of_nat (length l)) ∧
     ∀ name, name ∈ ["stdout"; "stderr"] → StronglySorted Z.lt (JobLogLine_Seq <$> of_stream name l)).
Proof.
  cbv zeta. split; [|split].
  - destruct (captured_end o sched) as [Ho He _ _ _].
    destruct (capture_drains (foldl capture_step (start_capture o) sched)) as [Eo Ee].
    rewrite Eo in Ho. rewrite Ee in He.
    cbn [phase_lines go_phase go_lines] in Ho, He. rewrite !app_nil_r in Ho, He.
    intros name text Hin. rewrite !elem_of_cons, elem_of_nil in Hin.
    by destruct Hin as [[= -> ->]|[[= -> ->]|[]]].
  - destruct (captured_end o sched) as [_ _ Hn _ Ha].
    destruct (capture_drains (foldl capture_step (start_capture o) sched)) as [Eo Ee].
    rewrite Eo, Ee in Hn. cbn [phase_lines go_phase length] in Hn.
    eapply Forall_impl; [exact Ha|]. intros x Hx. unfold in_range in Hx.
    rewrite Hn in Hx. unfold captured. lia.
  - intros (sched' & ->)%captured_serial. destruct (logged_facts (with_schedule o sched')) as [Hs Hl].
    split; [done|]. intros name [->|[->|[]%elem_of_nil]%elem_of_cons]%elem_of_cons.
    + by apply (Hl "stdout" (pb_stdout o)); left.
    + by apply (Hl "stderr" (pb_stderr o)); right; left.
Qed.

(** ** Storage *)

Section stored.
Context `{UuidLib}.

Lemma head_filter_unique (ls : list JobLogLine) (id : uuid) l :
  NoDup (JobLogLine_Seq <$> ls) → l ∈ ls →
  head (filter (λ l', (id, JobLogLine_Seq l') = (id, JobLogLine_Seq l)) ls) = Some l.
Proof.
  induction ls as [|l1 ls IH]; intros Hnd Hl; [by apply not_elem_of_nil in Hl|].
  apply NoDup_cons in Hnd as [Hni Hnd]. rewrite filter_cons.
  destruct (decide ((id, JobLogLine_Seq l1) = (id, JobLogLine_Seq l))) as [[= E]|Hne].
  - apply elem_of_cons in Hl as [->|Hl]; [done|]. exfalso. apply Hni. rewrite E. by apply list_elem_of_fmap_2.
  - apply elem_of_cons in Hl as [->|Hl]; [done|]. by apply IH.
Qed.

Lemma log_lines_elem id db l :
  l ∈ log_lines id db ↔ db_job_logs db !! (id, JobLogLine_Seq l) = Some (JobLogLine_Line l, JobLogLine_Stream l).
Proof.
  unfold log_lines. rewrite list_elem_of_fmap. split.
  - intros ([[id' n] [line stream]] & -> & [Hid Hin]%list_elem_of_filter). cbn in *. subst.
    by apply elem_of_map_to_list in Hin.
  - intros Hl. exists ((id, JobLogLine_Seq l), (JobLogLine_Line l, JobLogLine_Stream l)).
    split; [by destruct l|]. apply list_elem_of_filter. split; [done|by apply elem_of_map_to_list].
Qed.

Lemma log_lines_NoDup id db : NoDup (log_lines id db).
Proof.
  unfold log_lines. apply NoDup_fmap_2_strong; [|apply NoDup_filter, NoDup_map_to_list].
  intros [[id1 n1] [l1 s1]] [[id2 n2] [l2 s2]] [H1 _]%list_elem_of_filter [H2 _]%list_elem_of_filter.
  cbn in *. subst. by intros [= -> -> ->].
Qed.

(** What is stored for the job are these lines: of lines with one number the
    first. *)
Definition holds_lines (id : uuid) (ls : list JobLogLine) (db : Db) : Prop :=
  ∀ n, db_job_logs db !! (id, n) =
    (λ l, (JobLogLine_Line l, JobLogLine_Stream l)) <$> head (filter (λ l, (id, JobLogLine_Seq l) = (id, n)) ls).

Lemma store_lines_holds id ls b db :
  holds_lines id ls db → holds_lines id (ls ++ b) (set_job_logs (store_lines id b (db_job_logs db)) db).
Proof.
  intros Hh n. cbn [db_job_logs set_job_logs]. rewrite store_lines_lookup, Hh, filter_app.
  by destruct (filter _ ls).
Qed.

Lemma stored_lines id ls db :
  NoDup (JobLogLine_Seq <$> ls) → holds_lines id ls db → log_lines id db ≡ₚ ls.
Proof.
  intros Hnd Hh. apply NoDup_Permutation; [apply log_lines_NoDup|by apply NoDup_fmap_1 in Hnd|].
  intros l. rewrite log_lines_elem, Hh. split.
  - intros (l' & Hl & E)%fmap_Some.
    assert (l' ∈ filter (λ l0, (id, JobLogLine_Seq l0) = (id, JobLogLine_Seq l)) ls) as Hin
      by (destruct (filter _ ls); [done|]; injection Hl as ->; left).
    apply list_elem_of_filter in Hin as [[= Hseq] Hin]. destruct l, l'; cbn in *. by simplify_eq.
  - intros Hin. by rewrite head_filter_unique.
Qed.

Lemma seqZ_sorted m n : Sorted Z.le (seqZ m n).
Proof.
  destruct (decide (0 <= n)%Z) as [Hn|]; [|rewrite seqZ_nil by lia; constructor].
  revert m. pattern n. apply natlike_ind; [| |done].
  - intros m. constructor.
  - intros k Hk IH m. rewrite seqZ_cons by lia. rewrite Z.pred_succ. constructor; [apply IH|].
    destruct (decide (k = 0)%Z) as [->|]; [constructor|].
    rewrite seqZ_cons by lia. constructor. lia.
Qed.

End stored.

(** *** From the batcher to the database *)

Section delivery.
Context `{UuidLib} `{PgxLib} `{Collation} `{CryptoLib} `{FieldsJson} `{HashLib} `{JwtLib} `{BcryptLib}
  `{NetLib}.
Context `{JsonDecode Jobs.CreateJobBody} `{JsonDecode (list JobLogLine)}
  `{JsonDecode Jobs.ResultBody}.
Context `{JsonDecode LoginBody} `{JsonDecode NameBody} `{JsonDecode RegisterBody}
  `{JsonDecode Types.AgentHeartbeat}.
Context `{JsonDecode Resources.CreateTemplateBody} `{JsonDecode Resources.UpdateTemplateBody}
  `{JsonDecode Resources.ProjectBody} `{JsonDecode Resources.CreateScheduleBody}
  `{JsonDecode Resources.UpdateScheduleBody} `{JsonDecode Resources.CredentialBody}
  `{JsonDecode Resources.WorkflowBody} `{JsonDecode Resources.UpdateWorkflowBody}
  `{JsonDecode Resources.NoteBody}.
(** The client of an agent, and a job. *)
Context (c : Client) (id : uuid).

(** What others do between two posts: the lines of the job, the agent it is
    assigned to and the agent's row are kept. *)
Record meanwhile (db db' : Db) : Prop := {
  mw_ok : db_ok db → db_ok db';
  mw_logs : ∀ n, db_job_logs db' !! (id, n) = db_job_logs db !! (id, n);
  mw_agents : registry_kept db db';
  mw_job : ∀ j, db_jobs db !! id = Some j → ∃ j', db_jobs db' !! id = Some j' ∧ Job_AgentID j' = Job_AgentID j;
}.

(** The batches given to flush are posted one after the other: the client sends
    the request of PostLogs, the API server receives it, with a body that decodes
    to the lines of the batch, and runs the handler behind its middleware on a
    database that answers. *)
Inductive posted : list (list JobLogLine) → World → World → Prop :=
| posted_none w : posted [] w w
| posted_batch b bs cr cs r ans w w' :
    (client_run (PostLogs c id b) [Ok cs]).2 = [cr] →
    delivered (Client_base c) "/agent/jobs/{job_id}/logs" cr r → Forall faultless ans →
    posted bs (exec (as_agent Jobs.AgentPostLogs r) ans w).2.2 w' → posted (b :: bs) w w'
| posted_meanwhile bs w w1 w' : meanwhile (w_db w) (w_db w1) → posted bs w1 w' → posted bs w w'.

(** The job is the agent's, and [ls] is stored for it. *)
Record posting (ls : list JobLogLine) (w : World) : Prop := {
  po_ok : db_ok (w_db w);
  po_agent : ∃ row, db_agents (w_db w) !! AgentID c = Some row ∧ AgentRow_TokenHash row = hashToken (Client_token c);
  po_job : ∃ j, db_jobs (w_db w) !! id = Some j ∧ Job_AgentID j = Some (AgentID c);
  po_lines : holds_lines id ls (w_db w);
}.

Lemma posting_meanwhile ls w w' : meanwhile (w_db w) (w_db w') → posting ls w → posting ls w'.
Proof.
  intros [Mo Ml Ma Mj] [Ho (row & Hrow & Hh) (j & Hj & Hag) Hl]. split; [auto| | |intros n; by rewrite Ml].
  - destruct (Ma _ _ Hrow) as (row' & Hrow' & Hk). exists row'. split; [done|]. by rewrite (kept_token _ _ Hk).
  - destruct (Mj _ Hj) as (j' & Hj' & E). exists j'. by rewrite E.
Qed.

Lemma fill_logs params :
  fill params None "/agent/jobs/{job_id}/logs" = "/agent/jobs/" +:+ lookup_str params "job_id" +:+ "/logs".
Proof. reflexivity. Qed.

Lemma AgentPostLogs_exec r agent ls ans w j :
  Forall faultless ans → req_agent r = Some agent → uuid_Parse (URLParam r "job_id") = Ok id →
  db_jobs (w_db w) !! id = Some j → Jobs.not_assigned j agent = false → json_Decode (req_body r) = Ok ls →
  Forall (λ l, int4_ok (JobLogLine_Seq l) = true) ls →
  ∃ now ans', exec (Jobs.AgentPostLogs r) ans w = (write_status StatusNoContent,
    (ans', MkWorld (set_job_logs (store_lines id ls (db_job_logs (w_db w))) (w_db w)) now (w_sent w))).
Proof.
  intros Ha Hag Hid Hj Hn Hb Hl. unfold Jobs.AgentPostLogs, AgentFromCtx. rewrite Hag, Hid.
  run_sql Ha. unfold by_id. rewrite Hj. simpl. rewrite Hn, Hb.
  match goal with |- context [exec ?p ?a0 ?w0] =>
    assert (∃ now ans', Forall faultless ans' ∧ exec (AppendJobLogs id ls) a0 w0 =
      (Ok (), (ans', MkWorld (set_job_logs (store_lines id ls (db_job_logs (w_db w0))) (w_db w0)) now (w_sent w0))))
      as (now & ans' & _ & E) by (apply AppendJobLogs_exec; [done|by eexists|done]) end.
  exists now, ans'. rewrite exec_prog_bind, E. done.
Qed.

Lemma posting_batch ls b cr cs r ans w :
  uuid_Parse (uuid_String id) = Ok id → Client_token c ≠ EmptyString →
  Forall (λ l, int4_ok (JobLogLine_Seq l) = true) b →
  (client_run (PostLogs c id b) [Ok cs]).2 = [cr] →
  delivered (Client_base c) "/agent/jobs/{job_id}/logs" cr r → Forall faultless ans →
  posting ls w → posting (ls ++ b) (exec (as_agent Jobs.AgentPostLogs r) ans w).2.2.
Proof.
  intros Huuid Hne Hseq Hcr [Hurl Hh Hb] Ha [Hok (row & Hrow & Hhash) (j & Hj & Hag) Hl].
  unfold PostLogs in Hcr. case_bool_decide; [done|]. apply exchange_run in Hcr as [-> _].
  rewrite fill_logs in Hurl. cbn [cr_url cr_headers cr_body] in Hurl, Hh, Hb.
  apply (inj (String.append _)), (inj (String.append _)), append_cancel_r in Hurl.
  assert (db_ok (w_db (exec (as_agent Jobs.AgentPostLogs r) ans w).2.2)) as Hok'.
  { apply (exec_respects (keeps db_ok) (as_agent Jobs.AgentPostLogs r) ans w); [|done].
    eapply issues_respects; [apply api_stmt_ok|]. apply as_agent_issues. intros r'.
    apply (route_issues (Build_ApiConfig [] EmptyString 0 0 EmptyString) (Post AgentGroup "/agent/jobs/{job_id}/logs" Jobs.AgentPostLogs)).
    apply elem_of_app. right. apply elem_of_app. right. right. left. }
  destruct (RequireAgent_exec r ans w _ _ row Ha Hok Hrow Hhash Hne) as (now & ans' & Ha' & Hle & Hex).
  { unfold Header, lookup_str. by rewrite Hh; unfold setBearer; rewrite lookup_insert_eq. }
  assert (Agent_ID (stored_agent row) = AgentID c) as Hid by exact (k_agents _ Hok _ _ Hrow).
  destruct (AgentPostLogs_exec (with_agent r (stored_agent row)) (stored_agent row) b ans'
    (MkWorld (w_db w) now (w_sent w)) j Ha' eq_refl) as (now2 & ans2 & E); try done.
  { unfold URLParam. cbn. by rewrite <-Hurl. }
  { unfold Jobs.not_assigned. rewrite Hag, Hid. by rewrite bool_decide_eq_false_2 by naive_solver. }
  revert Hok'. unfold as_agent. rewrite exec_bind, Hex, E. cbn [snd w_db w_sent]. intros Hok'.
  split; [done|by exists row|by exists j|]. by apply store_lines_holds.
Qed.

Lemma posting_all bs w w' ls :
  uuid_Parse (uuid_String id) = Ok id → Client_token c ≠ EmptyString →
  Forall (λ l, int4_ok (JobLogLine_Seq l) = true) (mjoin bs) →
  posted bs w w' → posting ls w → posting (ls ++ mjoin bs) w'.
Proof.
  intros Huuid Hne Hseq Hp. revert ls Hseq.
  induction Hp as [w|b bs cr cs r ans w w' Hcr Hd Ha _ IH|bs w w1 w' Hm _ IH]; intros ls Hseq Hls.
  - cbn. by rewrite app_nil_r.
  - cbn [mjoin list_join] in Hseq |- *. apply Forall_app in Hseq as [Hb Hbs]. rewrite app_assoc.
    apply IH; [done|]. by eapply posting_batch.
  - apply IH; [done|]. by eapply posting_meanwhile.
Qed.

(** What GetJobLogs returns for distinct lines. *)
Lemma stored_read ls n db tx :
  holds_lines id ls db → JobLogLine_Seq <$> ls ≡ₚ seqZ 1 n →
  ∃ stored, GetJobLogs_sql id tx db = Ok (stored, db) ∧ stored ≡ₚ ls ∧ JobLogLine_Seq <$> stored = seqZ 1 n.
Proof.
  intros Hh Hseq. eexists. split; [reflexivity|].
  assert (merge_sort seq_le (log_lines id db) ≡ₚ ls) as Hp.
  { rewrite merge_sort_Permutation. apply stored_lines; [|done]. rewrite Hseq. apply NoDup_seqZ. }
  split; [done|]. apply (Sorted_unique Z.le).
  - eapply Sorted_fmap; [|apply Sorted_merge_sort; intros l1 l2; unfold seq_le; lia]. by unfold seq_le.
  - apply seqZ_sorted.
  - by rewrite Hp.
Qed.

(** C34: the output of a job is stored completely, if the calls of onLog do not
    overlap.  Let the batcher of a registered agent be given the lines captured
    from a playbook for the job assigned to it, be flushed, and return; and let
    the batches it flushed, whichever they are, be posted by the client to the API
    server one after the other, which receives the lines of each as they are (they
    are valid UTF-8) and has a database that accepts them (they hold no NUL),
    while others leave the job's lines, its assignment and the agent in place.
    Then GetJobLogs returns the captured lines and no others, ordered by number
    from 1 to the number of lines. *)
Theorem output_stored o sched acts tail b w w' tx :
  serial_calls o sched = true → (Z.of_nat (length (captured o sched)) < 2 ^ 31)%Z →
  batcher_run (acts ++ ActFlush :: tail) NewLogBatcher = Some b → b_phase b = Stopped →
  added acts = captured o sched → added tail = [] →
  uuid_Parse (uuid_String id) = Ok id → Client_token c ≠ EmptyString →
  posting [] w → posted (b_flushed b) w w' →
  ∃ stored, GetJobLogs_sql id tx (w_db w') = Ok (stored, w_db w') ∧ stored ≡ₚ captured o sched ∧
    JobLogLine_Seq <$> stored = seqZ 1 (Z.of_nat (length (captured o sched))).
Proof.
  intros (sched' & E)%captured_serial Hn Hr Hst Hadd Htail Huuid Hne Hw Hp. rewrite E in *. clear E.
  destruct (logged_facts (with_schedule o sched')) as [Hseq _]. set (l := logged _) in *.
  assert (mjoin (b_flushed b) = l) as Hb by (rewrite <-Hadd; by eapply flushed_all).
  assert (Forall (λ x, int4_ok (JobLogLine_Seq x) = true) (mjoin (b_flushed b))) as Hint.
  { rewrite Hb. apply Forall_forall. intros x Hx.
    assert (JobLogLine_Seq x ∈ seqZ 1 (Z.of_nat (length l))) as Hin by (rewrite <-Hseq; by apply list_elem_of_fmap_2).
    apply elem_of_seqZ in Hin. unfold int4_ok. apply bool_decide_eq_true. lia. }
  destruct (posting_all _ _ _ _ Huuid Hne Hint Hp Hw) as [_ _ _ Hl]. rewrite Hb in Hl.
  by apply stored_read.
Qed.

(** Lines are lost when the calls of onLog overlap: for every playbook that
    prints one line on each pipe there is an interleaving after which, although
    both lines are added and posted, GetJobLogs returns one line. *)
Lemma racing_lines_lost o a b w tx :
  (Scan (pb_stdout o)).1 = [a] → (Scan (pb_stderr o)).1 = [b] →
  uuid_Parse (uuid_String id) = Ok id → Client_token c ≠ EmptyString → posting [] w →
  ∃ sched, captured o sched = [log_line 2 a "stdout"; log_line 2 b "stderr"] ∧
    ∀ w', posted [captured o sched] w w' →
      GetJobLogs_sql id tx (w_db w') = Ok ([log_line 2 a "stdout"], w_db w').
Proof.
  intros Ho He Huuid Hne Hw. exists [true; true; false; false; true; false].
  assert (captured o [true; true; false; false; true; false] = [log_line 2 a "stdout"; log_line 2 b "stderr"])
    as E by (unfold captured, start_capture, new_goroutine; rewrite Ho, He; reflexivity).
  split; [done|]. rewrite E. intros w' Hp.
  assert (Forall (λ l, int4_ok (JobLogLine_Seq l) = true)
    (mjoin [[log_line 2 a "stdout"; log_line 2 b "stderr"]])) as Hint by (by repeat constructor).
  destruct (posting_all _ _ _ _ Huuid Hne Hint Hp Hw) as [_ _ _ Hl].
  unfold GetJobLogs_sql, query. do 2 f_equal.
  assert (log_lines id (w_db w') ≡ₚ [log_line 2 a "stdout"]) as Hp'.
  { apply NoDup_Permutation; [apply log_lines_NoDup|apply NoDup_singleton|]. intros l.
    rewrite log_lines_elem, Hl, list_elem_of_singleton. cbn [mjoin list_join app].
    rewrite !filter_cons, filter_nil. cbn [log_line JobLogLine_Seq].
    destruct (decide ((id, 2%Z) = (id, JobLogLine_Seq l))) as [[= E2]|Hne'].
    - cbn. destruct l as [n t st]. cbn in *. subst. unfold log_line. naive_solver.
    - cbn. split; [done|]. by intros ->. }
  assert (merge_sort seq_le (log_lines id (w_db w')) ≡ₚ [log_line 2 a "stdout"]) as Hm
    by (by rewrite merge_sort_Permutation).
  by apply Permutation_singleton_r in Hm.
Qed.
End delivery.
