(* ===== verification/Journey.v ===== *)
(** * The way of a job through the platform

    From the dispatch request a controller sends, over the agent that runs it, to
    the result the API server stores. *)
From S2P Require Import Prelude.
From S2P Require Import Prog.
From S2P Require Import Types.
From S2P Require Import Db.
From S2P Require Import Hoare.
From S2P Require Import Selector.
From S2P Require Import Transport.
From S2P Require Import Secrets.
From S2P Require Import Lifecycle.
From S2P Require Import Token.
From S2P Require Import Inventory.
From S2P Require Import Scheduler.
From S2P Require Import ApiStore.
From S2P Require Import ApiResources.
From S2P Require Import Http.
From S2P Require Import Auth.
From S2P Require Import JobHandlers.
From S2P Require Import ResourceHandlers.
From S2P Require Import Process.
From S2P Require Import System.
From S2P Require Import Integrity.
From S2P Require Import AgentInventory.
From S2P Require Import AgentRunner.
From S2P Require Import AgentRunnerFacts.
From S2P Require Import AgentServer.
From S2P Require Import AgentServerFacts.
From S2P Require Import AgentClient.
From S2P Require Import AgentClientFacts.
From S2P Require Import Platform.
Import Jobs.

(** ** What an agent runs and posts *)

Section agent.
Context `{UuidLib} `{OsEnv} `{VarsJson} `{FmtLib} `{MapOrder}.
Context (dir : string) (sent : JobPayload → Prop).

(** Run can return the result for the payload. *)
Definition result_of_run (p : JobPayload) (r : Result) : Prop :=
  ∃ ans h, r = (host_run (Run dir p) ans h).1.

(** The goroutine works on a payload that was sent, and reports what Run returned. *)
Definition thread_ok (th : Thread) : Prop :=
  (∀ p, payload_of th = Some p → sent p) ∧
  match th with AtReport p _ r => result_of_run p r | _ => True end.

(** A posted result is that of a payload that was sent. *)
Definition result_ok (ir : uuid * Result) : Prop :=
  ∃ p, sent p ∧ JobPayload_JobID p = ir.1 ∧ result_of_run p ir.2.

Record agent_faithful (s : Server) : Prop := {
  faithful_threads : map_Forall (λ _, thread_ok) (srv_threads s);
  faithful_results : Forall result_ok (srv_results s);
}.

Lemma faithful_new capacity : agent_faithful (AgentServer.New capacity).
Proof. split; [apply map_Forall_empty|constructor]. Qed.

Lemma faithful_step s act s' :
  srv_step dir s act = Some s' → (∀ t p, act = Receive t (Ok p) → sent p) →
  agent_faithful s → agent_faithful s'.
Proof.
  intros Hs Hrec [Ht0 Hr0]. inv_step Hs;
    try (match goal with Ht : srv_threads _ !! _ = Some _ |- _ => destruct (Ht0 _ _ Ht) as [Hsent Hrun] end);
    split; cbn [goto respond_and_end register start_job finish_run report unregister uncount call_cancel
      srv_threads srv_results]; try done;
    try (by apply map_Forall_delete);
    try (apply map_Forall_insert_2; [|done]; split; [intros q [= <-]; by eauto|done]).
  - apply map_Forall_insert_2; [|done]. split; [intros q [= <-]; by apply Hsent|by exists ans, h].
  - apply Forall_app. split; [done|]. repeat constructor. exists p. by split_and!; [apply Hsent|..].
Qed.
End agent.

Lemma agent_faithful_mono `{UuidLib} `{OsEnv} `{VarsJson} `{FmtLib} `{MapOrder} dir (sent sent' : JobPayload → Prop) s :
  (∀ p, sent p → sent' p) → agent_faithful dir sent s → agent_faithful dir sent' s.
Proof.
  intros Hs [Ht Hr]. split.
  - intros t th Hth. destruct (Ht t th Hth) as [? ?]. split; [eauto|done].
  - eapply Forall_impl; [exact Hr|]. intros [id r] (p & ? & ?). exists p. eauto.
Qed.

(** ** On the platform *)

Section journey.
Context `{UuidLib} `{PgxLib} `{Collation} `{CryptoLib} `{FieldsJson} `{HashLib} `{JwtLib} `{BcryptLib}
  `{NetLib} `{OsEnv} `{CronLib} `{PgxPool} `{VarsJson} `{FmtLib} `{MapOrder}.
Context `{JsonDecode Jobs.CreateJobBody} `{JsonDecode (list JobLogLine)}
  `{JsonDecode Jobs.ResultBody}.
Context `{JsonDecode LoginBody} `{JsonDecode NameBody} `{JsonDecode RegisterBody}
  `{JsonDecode Types.AgentHeartbeat}.
Context `{JsonDecode Resources.CreateTemplateBody} `{JsonDecode Resources.UpdateTemplateBody}
  `{JsonDecode Resources.ProjectBody} `{JsonDecode Resources.CreateScheduleBody}
  `{JsonDecode Resources.UpdateScheduleBody} `{JsonDecode Resources.CredentialBody}
  `{JsonDecode Resources.WorkflowBody} `{JsonDecode Resources.UpdateWorkflowBody}
  `{JsonDecode Resources.NoteBody}.
Context (dir : string → string).

(** The payload was sent to the agent's address. *)
Definition sent_at (w : World) (addr : string) (p : JobPayload) : Prop := (addr +:+ "/dispatch", Some p) ∈ w_sent w.

Definition agents_faithful (pl : Platform) : Prop :=
  map_Forall (λ addr, agent_faithful (dir addr) (sent_at (pl_sys pl).1 addr)) (pl_agents pl).

Lemma agents_faithful_step pl pl' : platform_step dir pl pl' → agents_faithful pl → agents_faithful pl'.
Proof.
  unfold agents_faithful.
  intros [sys sys' ags dl st rp Hsys|sys ags dl st rp addr capacity|sys ags dl st rp addr
    |sys ags dl st rp i addr p t s s' Hi Hdl Ha Hs|sys ags dl st rp addr act s s' Hd Ha Hs] Hf;
    cbn [pl_sys pl_agents] in *.
  - intros a s Hs. eapply agent_faithful_mono, Hf, Hs. intros p [i Hi]%list_elem_of_lookup.
    by eapply list_elem_of_lookup_2, sys_step_sent.
  - apply map_Forall_insert_2; [apply faithful_new|done].
  - by apply map_Forall_delete.
  - apply map_Forall_insert_2; [|done]. eapply faithful_step; [exact Hs| |by apply Hf].
    intros u q [= <- <-]. by eapply list_elem_of_lookup_2.
  - apply map_Forall_insert_2; [|done]. eapply faithful_step; [exact Hs| |by apply Hf].
    intros u q ->. done.
Qed.

Lemma platform_faithful w pl : platform_reach dir w pl → agents_faithful pl.
Proof.
  intros Hr. assert (agents_faithful (MkPlatform (w, []) ∅ ∅ [] [])) as Hinit by apply map_Forall_empty.
  revert Hinit. unfold platform_reach in Hr. induction Hr as [|pl1 pl2 pl3 Hstep _ IH]; [done|].
  intros Hinit. apply IH. by eapply agents_faithful_step.
Qed.

(** C6: A job gets the result of its run: in every reachable state of the platform,
    a result that an agent posts for a job is what Run returned for the payload
    that a controller sent to that agent's address for the job; the job is stored
    and assigned to an agent that had this address; and when the client of that
    agent posts the result, and the API server at its URL handles the request with
    a database that answers, PostResult returns without error and the job has
    ended with the status of the run. *)
Theorem result_of_run_stored w pl addr s id r c row cr cs req ans :
  w_sent w = [] → db_ok (w_db w) → platform_reach dir w pl →
  pl_agents pl !! addr = Some s → (id, r) ∈ srv_results s →
  (∃ p, sent_at (pl_sys pl).1 addr p ∧ JobPayload_JobID p = id ∧ result_of_run (dir addr) p r) ∧
  ∃ j a, db_jobs (w_db (pl_sys pl).1) !! id = Some j ∧ Job_AgentID j = Some a ∧
    has_lived w (pl_sys pl) a addr ∧
    (AgentID c = a → Forall faultless ans → uuid_Parse (uuid_String id) = Ok id →
     db_agents (w_db (pl_sys pl).1) !! a = Some row → AgentRow_TokenHash row = hashToken (Client_token c) →
     Client_token c ≠ EmptyString →
     (client_run (PostResult c id (Result_Status r) (Result_ExitCode r) None) [Ok cs]).2 = [cr] →
     delivered (Client_base c) "/agent/jobs/{job_id}/result" cr req →
     let '(resp, (_, w')) := exec (as_agent AgentPostResult req) ans (pl_sys pl).1 in
     answered resp cs →
     (client_run (PostResult c id (Result_Status r) (Result_ExitCode r) None) [Ok cs]).1 = Ok () ∧
     ∃ now j', db_jobs (w_db w') = <[id := j']> (db_jobs (w_db (pl_sys pl).1)) ∧
       Job_Status j' = Result_Status r ∧ IsTerminal (Job_Status j') = true ∧ Job_EndedAt j' = Some now).
Proof.
  intros Hw Hok Hr Ha Hin.
  destruct (proj1 (Forall_forall _ _) (faithful_results _ _ _ (platform_faithful _ _ Hr _ _ Ha)) _ Hin)
    as (p & Hsent & Hid & Hrun). cbn [fst snd] in Hid, Hrun.
  split; [by exists p|]. pose proof (platform_servers dir w pl Hr) as Hreach.
  destruct (sent_to_agent w _ _ p Hw Hreach Hsent) as (_ & j & a & addr' & Hj & _ & Hag & Hu & Hl).
  apply append_cancel_r in Hu as <-. rewrite Hid in Hj. exists j, a. split_and!; [done..|].
  intros <- Hf Huuid Hrow Hhash Hne Hcall Hdel.
  assert (db_ok (w_db (pl_sys pl).1)) as Hok'
    by (by apply (reachable_respects (keeps db_ok) w (pl_sys pl)); [apply controller_stmt_ok|apply api_stmt_ok| |]).
  assert (IsTerminal (Result_Status r) = true) as Hterm by (destruct Hrun as (? & ? & ->); apply Run_result_terminal).
  pose proof (reported_result_stored c row j id (Result_Status r) (Result_ExitCode r) cr cs req ans (pl_sys pl).1
    Hf Hok' Huuid Hrow Hhash Hne Hj Hag Hterm Hcall Hdel) as Hres.
  destruct (exec _ ans _) as [resp [ans' w']]. intros Hans. destruct (Hres Hans) as [Hp (now & j' & Hjobs & _ & Hs & He & _)].
  split; [done|]. exists now, j'. by rewrite Hs.
Qed.
End journey.
