(* ===== verification/Samples.v ===== *)
(** * Concrete libraries and a small deployment

    Instances of the classes that stand for libraries, simple enough to compute
    with, and a database with one row of each kind.  The theorems of the
    development are instantiated on them in Witnesses.v. *)
From stdpp Require Import pretty.
From S2P Require Import Prelude.
From S2P Require Import Prog.
From S2P Require Import Types.
From S2P Require Import Text.
From S2P Require Import Db.
From S2P Require Import Hoare.
From S2P Require Import ControllerStore.
From S2P Require Import Selector.
From S2P Require Import Transport.
From S2P Require Import Secrets.
From S2P Require Import Reconciler.
From S2P Require Import Inventory.
From S2P Require Import AgentInventory.
From S2P Require Import AgentRunner.
From S2P Require Import Scheduler.
From S2P Require Import ApiStore.
From S2P Require Import ApiResources.
From S2P Require Import Http.
From S2P Require Import Auth.
From S2P Require Import Server.
From S2P Require Import Config.
From S2P Require Import Process.
From S2P Require Import System.
From S2P Require Import JobHandlers.
From S2P Require Import ResourceHandlers.

(** ** Libraries *)

(** Identifiers in decimal. *)
Fixpoint parse_decimal (acc : N) (s : string) : result N :=
  match s with
  | EmptyString => Ok acc
  | String c s =>
      let d := byte_of c in
      if ((48 <=? d) && (d <=? 57))%N then parse_decimal (acc * 10 + (d - 48))%N s
      else Err (ErrText "invalid UUID")
  end.

#[export] Instance sample_uuid : UuidLib := {|
  uuid_String := pretty;
  uuid_Parse := λ s, match s with EmptyString => Err (ErrText "invalid UUID length: 0")
                                | _ => parse_decimal 0 s end |}.

#[export] Instance sample_pgx : PgxLib := {| pgx_nil_is_null := true |}.

#[export] Instance sample_collation : Collation :=
  {| text_le := λ s1 s2, String.leb s1 s2 = true;
     text_le_dec := λ s1 s2, decide_rel (=) (String.leb s1 s2) true |}.

(** A cipher that does not hide the plaintext. *)
#[export] Instance sample_crypto : CryptoLib :=
  {| gcm_Seal := λ _ _ p, p; gcm_Open := λ _ _ c, Some c |}.

(** A serialization of maps through the bits of their code. *)
Fixpoint bits_of_pos (p : positive) : bytes :=
  match p with
  | xH => []
  | xO p => Byte.x00 :: bits_of_pos p
  | xI p => Byte.x01 :: bits_of_pos p
  end.

Definition pos_of_bits (b : bytes) : positive :=
  foldr (λ x p, match x with Byte.x00 => xO p | _ => xI p end) xH b.

Lemma pos_of_bits_of_pos p : pos_of_bits (bits_of_pos p) = p.
Proof. induction p as [p IH|p IH|]; simpl; [by rewrite IH|by rewrite IH|done]. Qed.

#[export] Instance sample_fields : FieldsJson := {|
  json_Marshal_fields := λ m, bits_of_pos (encode (default ∅ m));
  json_Unmarshal_fields := λ b,
    match decode (pos_of_bits b) with Some m => Ok m | None => Err (ErrText "unexpected end of JSON input") end |}.

#[export] Instance sample_crypto_laws : CryptoLaws.
Proof.
  split; [done|]. intros m. unfold json_Unmarshal_fields, json_Marshal_fields, sample_fields.
  by rewrite pos_of_bits_of_pos, decode_encode.
Qed.

#[export] Instance sample_hash : HashLib := {| sha256 := String.list_byte_of_string |}.

#[export] Instance sample_bcrypt : BcryptLib := {| bcrypt_matches := λ h p, bool_decide (h = p) |}.

(** One token is valid. *)
Definition sample_claims : Claims :=
  {| Claims_UserID := 1; Claims_Email := "ops@example.org"; Claims_ExpiresAt := 10^15; Claims_IssuedAt := 0 |}.

#[export] Instance sample_jwt : JwtLib := {|
  jwt_Sign := λ _ _, Ok "session";
  jwt_Parse := λ _ tok now, if bool_decide (tok = "session") && bool_decide (now < 10^15)%Z
                            then Ok sample_claims else Err (ErrText "token is malformed") |}.

#[export] Instance sample_net : NetLib := {| url_valid := λ _, true |}.
#[export] Instance sample_pool : PgxPool := {|
  pgxpool_New := λ _, Ok (); pgxpool_ParseConfig := λ _, Ok (); pgxpool_NewWithConfig := λ _ _ _, Ok () |}.
#[export] Instance sample_env : OsEnv := {| os_Environ := ["HOME=/root"] |}.

#[export] Instance sample_vars_json : VarsJson := {| json_Marshal_vars := λ _, Ok "{}" |}.

(** Parsers that count fields: five for register, six for the runner. *)
Definition count_fields (n : nat) (s : string) : result unit :=
  match Fields s with
  | f :: fs => if bool_decide (length (f :: fs) = n) && negb (HasPrefix f "@") && negb (HasPrefix f "TZ=" || HasPrefix f "CRON_TZ=")
               then Ok () else Err (ErrText "expected exactly some fields")
  | [] => Err (ErrText "empty spec string")
  end.

Definition after_space (s : string) : string :=
  match IndexByte s (Ascii.ascii_of_N 32) with Some i => drop_str (S i) s | None => s end.

Definition counting_cron : CronLib := {|
  cron_parse_std := count_fields 5;
  cron_parse_seconds := λ s, count_fields 6 (after_space s);
  LoadLocation := λ tz, if bool_decide (tz = "UTC") then Ok "UTC" else Err (ErrText "unknown time zone") |}.

(** A runner that accepts five fields. *)
#[export] Instance sample_cron : CronLib := {|
  cron_parse_std := count_fields 5;
  cron_parse_seconds := λ s, count_fields 5 (after_space s);
  LoadLocation := λ tz, if bool_decide (tz = "UTC") then Ok "UTC" else Err (ErrText "unknown time zone") |}.

#[export] Instance sample_fmt : FmtLib :=
  {| fmt_s := λ v, match v with JStr s => s | _ => "%!s()" end |}.
#[export] Instance sample_fmt_laws : FmtLaws.
Proof. by split. Qed.

#[export] Instance sample_order : MapOrder :=
  {| range_vars := map_to_list; range_groups := map_to_list |}.
#[export] Instance sample_order_laws : MapOrderLaws.
Proof. by split. Qed.

(** ** Bodies: what decoding each request of the samples yields *)

#[export] Instance dec_create_job : JsonDecode Jobs.CreateJobBody :=
  {| json_Decode := λ _, Ok (Jobs.Build_CreateJobBody "6" None) |}.
#[export] Instance dec_logs : JsonDecode (list JobLogLine) :=
  {| json_Decode := λ s, if bool_decide (s = "[2]") then Ok [Build_JobLogLine 2 "ok: [web1]" "stdout"]
       else Ok [Build_JobLogLine 1 "PLAY [all]" "stdout"] |}.
#[export] Instance dec_result : JsonDecode Jobs.ResultBody :=
  {| json_Decode := λ s, if bool_decide (s = EmptyString) then Err (ErrText "EOF")
       else if bool_decide (s = "{facts:{}}") then Ok (Jobs.Build_ResultBody JobStatusSuccess 0 ∅)
       else Ok (Jobs.Build_ResultBody JobStatusSuccess 0 {[ "version" := JStr "2" ]}) |}.
#[export] Instance dec_login : JsonDecode LoginBody :=
  {| json_Decode := λ _, Ok (Build_LoginBody "ops@example.org" "hash") |}.
#[export] Instance dec_name : JsonDecode NameBody := {| json_Decode := λ _, Ok (Build_NameBody "ci") |}.
#[export] Instance dec_register : JsonDecode RegisterBody :=
  {| json_Decode := λ _, Ok (Build_RegisterBody "edge-1" "http://edge-1:9000" (Some ∅) 2) |}.
#[export] Instance dec_heartbeat : JsonDecode Types.AgentHeartbeat :=
  {| json_Decode := λ _, Ok (Build_AgentHeartbeat 2 0 "dev") |}.
#[export] Instance dec_create_template : JsonDecode Resources.CreateTemplateBody :=
  {| json_Decode := λ _, Ok (Resources.Build_CreateTemplateBody "deploy" "" "4" "site.yml" None None) |}.
#[export] Instance dec_update_template : JsonDecode Resources.UpdateTemplateBody :=
  {| json_Decode := λ _, Ok (Resources.Build_UpdateTemplateBody "deploy" "" "site.yml" None None) |}.
#[export] Instance dec_project : JsonDecode Resources.ProjectBody :=
  {| json_Decode := λ _, Ok (Resources.Build_ProjectBody "infra" "https://git/infra" "main" "hosts" None) |}.
#[export] Instance dec_create_schedule : JsonDecode Resources.CreateScheduleBody :=
  {| json_Decode := λ _, Ok (Resources.Build_CreateScheduleBody "nightly" "6" "0 3 * * *" "UTC" true None) |}.
#[export] Instance dec_update_schedule : JsonDecode Resources.UpdateScheduleBody :=
  {| json_Decode := λ _, Ok (Resources.Build_UpdateScheduleBody "nightly" "0 3 * * *" "UTC" true None) |}.
#[export] Instance dec_credential : JsonDecode Resources.CredentialBody :=
  {| json_Decode := λ _, Ok (Resources.Build_CredentialBody "vault" "" CredentialKindVaultPassword
       (Some {[ "password" := "s3cret" ]})) |}.
#[export] Instance dec_workflow : JsonDecode Resources.WorkflowBody :=
  {| json_Decode := λ _, Ok (Resources.Build_WorkflowBody "release" "") |}.
#[export] Instance dec_update_workflow : JsonDecode Resources.UpdateWorkflowBody :=
  {| json_Decode := λ _, Ok (Resources.Build_UpdateWorkflowBody "release" "" None None) |}.
#[export] Instance dec_note : JsonDecode Resources.NoteBody :=
  {| json_Decode := λ _, Ok (Resources.Build_NoteBody (Some "ok")) |}.

(** ** Rows *)

Definition sample_key : bytes := replicate 32 Byte.x2a.
Definition sample_secret : gmap string string := {[ "password" := "s3cret" ]}.
Definition sample_now : Time := 1000000000000.

Definition sample_credential : Credential :=
  Build_Credential 3 "vault" CredentialKindVaultPassword ""
    (replicate 12 Byte.x07 ++ json_Marshal_fields (Some sample_secret)) 0 0.
Definition sample_agent (id : uuid) (capacity : Z) (hb : Time) : AgentRow := {|
  AgentRow_Agent := Build_Agent id ("edge-" +:+ pretty id) ("http://edge-" +:+ pretty id)
    AgentStatusOnline ∅ capacity 0 (Some hb) 0 0;
  AgentRow_TokenHash := "hash-" +:+ pretty id |}.
Definition sample_project : Project :=
  Build_Project 4 "infra" "https://git/infra" "main" "hosts" None InventorySyncStatusOK None None 0 0.
Definition sample_host (id : uuid) (name : string) (groups : list string) (v : vars) : InventoryHost :=
  Build_InventoryHost id 4 name groups v 0 0.
Definition sample_template : JobTemplate :=
  Build_JobTemplate 6 "deploy" "" 4 "site.yml" (Some 3%N) {[ "env" := JStr "prod" ]} 0 0.
Definition sample_schedule : Schedule :=
  Build_Schedule 7 "nightly" 6 "0 3 * * *" "UTC" true {[ "full" := JBool true ]} None None 0 0.
Definition sample_job (id : uuid) (created : Time) (status : JobStatus) (agent : option uuid) : Job :=
  Build_Job id 6 agent None status created created None
    (if IsTerminal status then Some created else None) {[ "tag" := JStr "v1" ]} ∅ None.
Definition sample_approval : ApprovalRequest :=
  Build_ApprovalRequest 13 11 10 ApprovalStatusPending None None 0 None.

Definition sample_db (jobs : list Job) : Db := {|
  db_users := {[ 1%N := Build_User 1 "ops@example.org" "hash" 0 0 ]};
  db_api_tokens := {[ 20%N := Build_APIToken 20 1 "ci" (hashToken "token") 0 None (Some 0%Z) ]};
  db_agents := <[2%N := sample_agent 2 1 sample_now]> {[ 5%N := sample_agent 5 1 (sample_now - 5) ]};
  db_credentials := {[ 3%N := sample_credential ]};
  db_projects := {[ 4%N := sample_project ]};
  db_inventory_hosts := {[ 14%N := sample_host 14 "web1" ["web"] {[ "port" := JStr "80" ]} ]};
  db_job_templates := {[ 6%N := sample_template ]};
  db_schedules := {[ 7%N := sample_schedule ]};
  db_workflows := {[ 9%N := Build_Workflow 9 "release" "" 0 0 ]};
  db_workflow_nodes := <[10%N := Build_WorkflowNode 10 9 WorkflowNodeKindApproval None "gate" ∅ 0 0]>
    {[ 12%N := Build_WorkflowNode 12 9 WorkflowNodeKindJobTemplate (Some 6%N) "deploy" ∅ 0 0 ]};
  db_workflow_edges := {[ 15%N := Build_WorkflowEdge 15 9 10 12 EdgeConditionOnSuccess ]};
  db_workflow_runs := {[ 11%N := Build_WorkflowRun 11 9 WorkflowRunStatusPending ∅ 0 0 None None ]};
  db_jobs := list_to_map ((λ j, (Job_ID j, j)) <$> jobs);
  db_job_status_events := ∅;
  db_job_logs := ∅;
  db_approval_requests := {[ 13%N := sample_approval ]};
|}.

Definition sample_world (jobs : list Job) : World := MkWorld (sample_db jobs) sample_now [].

Definition sample_cfg : Reconciler.Config :=
  {| Config_APIURL := "http://api"; Config_HeartbeatTTL := 30000000000;
     Config_DispatchTimeout := 60000000000; Config_RunningTimeout := 300000000000 |}.

Definition sample_controller : Controller.Config := {|
  Controller.DBURL := "postgres://db"; Controller.APIURL := "http://api";
  Controller.EncryptionKey := sample_key; Controller.LogLevel := "info"; Controller.LogFormat := "json";
  Controller.ReconcileInterval := 5000000000; Controller.HeartbeatTTL := 30000000000;
  Controller.DispatchTimeout := 60000000000; Controller.RunningTimeout := 300000000000;
  Controller.WorkspaceDir := "/tmp/aop-workspace"; Controller.SyncInterval := 300000000000 |}.

Definition sample_api_cfg : ApiConfig :=
  {| cfg_EncryptionKey := sample_key; cfg_JWTSecret := "secret"; cfg_JWTExpiry := 3600000000000;
     cfg_HeartbeatTTL := 30000000000; cfg_RegToken := "join" |}.

(** An answer without a fault that supplies random bytes. *)
Definition sample_answer : Answer := {|
  an_elapsed := 1000; an_fault := None; an_uuid := λ n, (N.of_nat n + 100)%N; an_locked := ∅;
  an_http := Ok 202%Z; an_exists := true; an_exec := Ok (); an_file := Ok EmptyString;
  an_rand := Ok (replicate 32 Byte.x09) |}.

Definition sample_request (params headers : list (string * string)) (body : string)
    (user : option uuid) (agent : option Agent) : Request := {|
  req_params := list_to_map params; req_query := ∅; req_headers := list_to_map headers;
  req_body := body; req_user := user; req_agent := agent |}.
