(* ===== verification/Witnesses.v ===== *)
(** * The theorems at concrete inputs

    Each theorem with hypotheses, applied to the samples: the hypotheses hold
    there, by evaluation. *)
From stdpp Require Import pretty.
From S2P Require Import Prelude.
From S2P Require Import Prog.
From S2P Require Import Types.
From S2P Require Import Strconv.
From S2P Require Import Text.
From S2P Require Import Db.
From S2P Require Import Hoare.
From S2P Require Import ControllerStore.
From S2P Require Import Lifecycle.
From S2P Require Import Selector.
From S2P Require Import Transport.
From S2P Require Import Secrets.
From S2P Require Import Reconciler.
From S2P Require Import ReconcilerFacts.
From S2P Require Import Token.
From S2P Require Import Inventory.
From S2P Require Import AgentInventory.
From S2P Require Import InventoryFacts.
From S2P Require Import Scheduler.
From S2P Require Import SchedulerFacts.
From S2P Require Import ApiStore.
From S2P Require Import ApiResources.
From S2P Require Import Http.
From S2P Require Import Auth.
From S2P Require Import Server.
From S2P Require Import Process.
From S2P Require Import System.
From S2P Require Import Integrity.
From S2P Require Import ApiFacts.
From S2P Require Import Samples.
From S2P Require Import JobHandlers.
From S2P Require Import ResourceHandlers.

(** The database a statement leaves. *)
Definition stmt_db {X} (r : result (X * Db)) : Db :=
  match r with Ok (_, db) => db | Err _ => empty_db end.

Definition is_Ok_dec {A} (r : result A) : bool := match r with Ok _ => true | Err _ => false end.

Lemma is_Ok_bool {A} (r : result A) : is_Ok_dec r = true → is_Ok r.
Proof. destruct r as [a|]; [by exists a|done]. Qed.

(** ** The whole system: one reconciler tick over a pending job *)

(** The reconciler's goroutine, cancelled after its first tick. *)
Definition sample_goroutine : list Received → prog Ev Outcome :=
  @Reconciler_Run _ (controller_SecretsProvider sample_key) _ _ sample_cfg 5000000000.
Definition sample_tick : prog Ev unit := ignore (sample_goroutine [Tick; Done]).
Definition sample_pending : Job := sample_job 8 sample_now JobStatusPending None.
Definition before_tick : World := sample_world [sample_pending].
Definition after_tick : World * list (prog Ev unit) :=
  ((exec sample_tick [] before_tick).2.2, [Ret (exec sample_tick [] before_tick).1]).

Lemma tick_reachable : reachable before_tick after_tick.
Proof. apply reachable_run, (spawn_goroutine sample_controller sample_goroutine). left. Qed.

Lemma no_double_dispatch_witness :
  w_sent before_tick = [] ∧ reachable before_tick after_tick ∧
  length (filter (is_payload_for 8) (w_sent after_tick.1)) = 1 ∧
  length (filter (is_payload_for 8) (w_sent after_tick.1)) ≤ 1 ∧
  ∀ url p, (url, Some p) ∈ w_sent after_tick.1 → JobPayload_JobID p = 8%N →
    ∃ j a addr, db_jobs (w_db after_tick.1) !! 8%N = Some j ∧ Job_Status j ≠ JobStatusPending ∧
      Job_AgentID j = Some a ∧ url = addr +:+ "/dispatch" ∧ has_lived before_tick after_tick a addr.
Proof.
  pose proof tick_reachable as Hr.
  split; [reflexivity|]. split; [exact Hr|]. split; [vm_compute; reflexivity|].
  exact (no_double_dispatch before_tick after_tick 8%N eq_refl Hr).
Defined.

Lemma system_lifecycle_witness :
  reachable before_tick after_tick ∧ db_jobs (w_db before_tick) !! 8%N = Some sample_pending ∧
  ∃ j', db_jobs (w_db after_tick.1) !! 8%N = Some j' ∧ job_evolves sample_pending j'.
Proof.
  pose proof tick_reachable as Hr.
  assert (db_jobs (w_db before_tick) !! 8%N = Some sample_pending) as Hj by (vm_compute; reflexivity).
  split; [exact Hr|]. split; [exact Hj|].
  exact (system_lifecycle before_tick after_tick 8%N sample_pending Hr Hj).
Defined.

(** A registration of an agent over a fresh database. *)
Definition empty_world : World := MkWorld empty_db sample_now [].
Definition register_request : Request :=
  sample_request [] [("X-Registration-Token", "join")] "{}" None None.
Definition register_route : Route := Post Public "/agents/register" (RegisterAgent sample_api_cfg).
Definition after_register : World * list (prog Ev unit) :=
  let p := ignore (serve sample_api_cfg register_route register_request) in
  ((exec p [sample_answer] empty_world).2.2, [Ret (exec p [sample_answer] empty_world).1]).

Lemma register_reachable : reachable empty_world after_register.
Proof. apply reachable_run, (spawn_request sample_api_cfg register_route). right. left. Qed.

Lemma system_integrity_witness :
  db_ok (w_db empty_world) ∧ reachable empty_world after_register ∧
  size (db_agents (w_db after_register.1)) = 1 ∧ db_ok (w_db after_register.1).
Proof.
  split; [exact empty_db_ok|]. split; [exact register_reachable|]. split; [vm_compute; reflexivity|].
  exact (system_integrity empty_world after_register empty_db_ok register_reachable).
Defined.

(** ** The reconciler *)

Definition sample_dispatch : prog Ev unit :=
  @dispatchPending _ (controller_SecretsProvider sample_key) _ _ sample_cfg.

Definition drained : Job :=
  default sample_pending (db_jobs (w_db (exec sample_dispatch [sample_answer] before_tick).2.2) !! 8%N).

Lemma dispatchPending_drains_witness :
  Forall faultless [sample_answer] ∧
  GetPendingJobs_sql (answer_tx sample_answer (sample_now + 1000)) (w_db before_tick) =
    Ok ([sample_pending], w_db before_tick) ∧
  db_jobs (w_db (exec sample_dispatch [sample_answer] before_tick).2.2) !! 8%N = Some drained ∧
  Job_Status drained ≠ JobStatusPending.
Proof.
  assert (Forall faultless [sample_answer]) as Ha by (repeat constructor).
  assert (GetPendingJobs_sql (answer_tx sample_answer (sample_now + 1000)) (w_db before_tick) =
    Ok ([sample_pending], w_db before_tick)) as Hq by (vm_compute; reflexivity).
  assert (db_jobs (w_db (exec sample_dispatch [sample_answer] before_tick).2.2) !! 8%N = Some drained)
    as Hd by (vm_compute; reflexivity).
  split; [exact Ha|]. split; [exact Hq|]. split; [exact Hd|].
  refine (dispatchPending_drains sample_cfg sample_answer [] before_tick _ _ Ha Hq sample_pending _ _ Hd).
  left.
Defined.

(** Two jobs, two idle agents of capacity one: both jobs go to the first. *)
Definition two_pending : World :=
  sample_world [sample_pending; sample_job 16 (sample_now + 1) JobStatusPending None].

Lemma dispatchPending_one_agent_witness :
  Job_AgentID <$> (db_jobs (w_db (exec sample_dispatch [] two_pending).2.2) !! 8%N) = Some (Some 2%N) ∧
  Job_AgentID <$> (db_jobs (w_db (exec sample_dispatch [] two_pending).2.2) !! 16%N) = Some (Some 2%N) ∧
  ∃ a, ∀ id j j',
    db_jobs (w_db two_pending) !! id = Some j → Job_Status j = JobStatusPending →
    db_jobs (w_db (exec sample_dispatch [] two_pending).2.2) !! id = Some j' →
    Job_Status j' = JobStatusDispatched → Job_AgentID j' = Some a.
Proof.
  split; [vm_compute; reflexivity|]. split; [vm_compute; reflexivity|].
  exact (@dispatchPending_one_agent _ (controller_SecretsProvider sample_key) _ _ _ _ sample_cfg [] two_pending).
Defined.

Lemma buildPayload_spec_witness :
  let res := exec (@buildPayload _ (controller_SecretsProvider sample_key) sample_cfg sample_pending 2%N)
               [sample_answer] before_tick in
  Forall faultless [sample_answer] ∧
  is_Ok res.1 ∧
  w_db res.2.2 = w_db before_tick ∧ w_sent res.2.2 = w_sent before_tick ∧
  match res.1 with
  | Ok p => payload_of sample_key sample_cfg (w_db before_tick) sample_pending = Some p
  | Err _ => payload_of sample_key sample_cfg (w_db before_tick) sample_pending = None
  end.
Proof.
  assert (Forall faultless [sample_answer]) as Ha by (repeat constructor).
  split; [exact Ha|]. split; [apply is_Ok_bool; vm_compute; reflexivity|].
  exact (buildPayload_spec sample_key sample_cfg sample_pending 2%N [sample_answer] before_tick Ha).
Defined.

(** A job dispatched a minute and more ago, and a fresh one. *)
Definition stuck_world : World :=
  sample_world [sample_job 8 0 JobStatusDispatched (Some 2%N);
                sample_job 16 sample_now JobStatusDispatched (Some 2%N)].

Lemma failStuckJobs_spec_witness :
  let tx := answer_tx sample_answer (sample_now + 1000) in
  let db' := w_db (exec (failStuckJobs JobStatusDispatched 60000000000 "dispatch timeout")
                     [sample_answer] stuck_world).2.2 in
  keyed Job_ID (db_jobs (w_db stuck_world)) ∧
  Job_Status <$> db_jobs db' !! 8%N = Some JobStatusFailed ∧
  Job_Status <$> db_jobs db' !! 16%N = Some JobStatusDispatched ∧
  ∀ id, match db_jobs (w_db stuck_world) !! id with
        | None => db_jobs db' !! id = None
        | Some j =>
            if decide (is_stuck tx JobStatusDispatched 60000000000 j)
            then ∃ now, db_jobs db' !! id = Some (transition_row now JobStatusFailed None "dispatch timeout" j)
            else db_jobs db' !! id = Some j
        end.
Proof.
  assert (keyed Job_ID (db_jobs (w_db stuck_world))) as Hk.
  { apply keyed_insert; [|reflexivity]. apply keyed_insert; [|reflexivity].
    intros k v Hv. by apply lookup_empty_Some in Hv. }
  split; [exact Hk|]. split; [vm_compute; reflexivity|]. split; [vm_compute; reflexivity|].
  apply (failStuckJobs_spec sample_answer [] stuck_world); [repeat constructor|exact Hk|by left].
Defined.

(** ** The controller's queries and the selector *)

Definition quiet_tx : Tx := answer_tx quiet_answer sample_now.

Lemma GetPendingJobs_fifo_witness :
  keyed Job_ID (db_jobs (w_db before_tick)) ∧
  GetPendingJobs_sql quiet_tx (w_db before_tick) = Ok ([sample_pending], w_db before_tick) ∧
  length [sample_pending] ≤ 50 ∧ NoDup [sample_pending].
Proof.
  assert (keyed Job_ID (db_jobs (w_db before_tick))) as Hk.
  { apply keyed_insert; [|reflexivity]. intros k v Hv. by apply lookup_empty_Some in Hv. }
  assert (GetPendingJobs_sql quiet_tx (w_db before_tick) = Ok ([sample_pending], w_db before_tick)) as Hq
    by (vm_compute; reflexivity).
  split; [exact Hk|]. split; [exact Hq|].
  destruct (GetPendingJobs_fifo quiet_tx (w_db before_tick) _ _ Hk Hq) as (_ & Hlen & Hnd & _).
  split; [exact Hlen|exact Hnd].
Defined.

(** The agents of the sample, as scanned: the idle one with the fresher heartbeat first. *)
Definition scanned (id : uuid) (hb : Time) : Agent :=
  Build_Agent id ("edge-" +:+ pretty id) ("http://edge-" +:+ pretty id) AgentStatusOnline ∅ 1 0
    (Some hb) zero_Time zero_Time.

Lemma GetAvailableAgents_spec_witness :
  GetAvailableAgents_sql 30000000000 quiet_tx (w_db before_tick) =
    Ok ([scanned 2 sample_now; scanned 5 (sample_now - 5)], w_db before_tick) ∧
  Sorted less_busy [scanned 2 sample_now; scanned 5 (sample_now - 5)].
Proof.
  assert (GetAvailableAgents_sql 30000000000 quiet_tx (w_db before_tick) =
    Ok ([scanned 2 sample_now; scanned 5 (sample_now - 5)], w_db before_tick)) as Hq
    by (vm_compute; reflexivity).
  split; [exact Hq|]. apply (GetAvailableAgents_spec _ _ _ _ _ Hq).
Defined.

Lemma Select_equivalence_witness :
  GetAvailableAgents_sql 30000000000 quiet_tx (w_db before_tick) =
    Ok ([scanned 2 sample_now; scanned 5 (sample_now - 5)], w_db before_tick) ∧
  LeastBusy_Select [scanned 2 sample_now; scanned 5 (sample_now - 5)] = Ok (scanned 2 sample_now).
Proof.
  assert (GetAvailableAgents_sql 30000000000 quiet_tx (w_db before_tick) =
    Ok ([scanned 2 sample_now; scanned 5 (sample_now - 5)], w_db before_tick)) as Hq
    by (vm_compute; reflexivity).
  split; [exact Hq|]. exact (proj2 (proj2 (Select_equivalence _)) _ _ _ _ _ _ eq_refl Hq).
Defined.

(** Replacing the one host of the project by two. *)
Definition new_hosts : list InventoryHost :=
  [sample_host 0 "web1" ["web"] ∅; sample_host 0 "db1" ["db"; "backup"] ∅].

Definition replaced : Db := stmt_db (UpsertInventoryHosts_sql 4 new_hosts quiet_tx (w_db before_tick)).

Lemma UpsertInventoryHosts_replaces_witness :
  UpsertInventoryHosts_sql 4 new_hosts quiet_tx (w_db before_tick) = Ok ((), replaced) ∧
  host_content <$> filter (λ h, InventoryHost_ProjectID h = 4%N) (map_vals (db_inventory_hosts replaced))
    ≡ₚ host_content <$> new_hosts.
Proof.
  assert (UpsertInventoryHosts_sql 4 new_hosts quiet_tx (w_db before_tick) = Ok ((), replaced)) as Hu
    by (vm_compute; reflexivity).
  split; [exact Hu|]. exact (proj1 (UpsertInventoryHosts_replaces _ _ _ _ _ Hu)).
Defined.

(** ** Secrets *)

Definition sample_nonce : result bytes := Ok (replicate 12 Byte.x07).

Lemma sample_nonce_length n : sample_nonce = Ok n → length n = NonceSize.
Proof. by intros [= <-]. Qed.

Definition sample_blob : bytes := replicate 12 Byte.x07 ++ json_Marshal_fields (Some sample_secret).

Lemma Encrypt_decrypt_roundtrip_witness :
  (∀ n, sample_nonce = Ok n → length n = NonceSize) ∧
  Encrypt sample_nonce sample_key (json_Marshal_fields (Some sample_secret)) = Ok sample_blob ∧
  decrypt sample_key sample_blob = Ok (json_Marshal_fields (Some sample_secret)).
Proof.
  split; [exact sample_nonce_length|]. split; [vm_compute; reflexivity|].
  exact (Encrypt_decrypt_roundtrip sample_nonce sample_key (json_Marshal_fields (Some sample_secret))
    sample_nonce_length).
Defined.

(** ** Job handlers *)

Definition cancel_request : Request := sample_request [("id", "8")] [] "" (Some 1%N) None.

Lemma CancelJob_spec_witness :
  Forall faultless [sample_answer] ∧ uuid_Parse (URLParam cancel_request "id") = Ok 8%N ∧
  (exec (Jobs.CancelJob cancel_request) [sample_answer] before_tick).1 = write_status StatusNoContent ∧
  let '(resp, (_, w')) := exec (Jobs.CancelJob cancel_request) [sample_answer] before_tick in
  match db_jobs (w_db before_tick) !! 8%N with
  | None => resp = respondError StatusNotFound "not found" ∧ w_db w' = w_db before_tick
  | Some j =>
      if IsTerminal (Job_Status j)
      then resp = respondError StatusConflict "job is already in a terminal state" ∧ w_db w' = w_db before_tick
      else resp = write_status StatusNoContent ∧ ∃ now, (w_now before_tick <= now)%Z ∧
        w_db w' = set_jobs (<[8%N := update_status_row now JobStatusCancelled None
                                      (Some "cancelled by user") j]> (db_jobs (w_db before_tick))) (w_db before_tick)
  end.
Proof.
  assert (Forall faultless [sample_answer]) as Ha by (repeat constructor).
  assert (uuid_Parse (URLParam cancel_request "id") = Ok 8%N) as Hid by (vm_compute; reflexivity).
  split; [exact Ha|]. split; [exact Hid|]. split; [vm_compute; reflexivity|].
  exact (CancelJob_spec cancel_request 8%N [sample_answer] before_tick Ha Hid).
Defined.

(** The assigned agent reports success on a job that was already failed. *)
Definition agent_2 : Agent := AgentRow_Agent (sample_agent 2 1 sample_now).
Definition result_request : Request := sample_request [("job_id", "8")] [] "{}" None (Some agent_2).
Definition failed_world : World := sample_world [sample_job 8 0 JobStatusFailed (Some 2%N)].

Lemma AgentPostResult_spec_witness :
  req_agent result_request = Some agent_2 ∧ uuid_Parse (URLParam result_request "job_id") = Ok 8%N ∧
  (exec (Jobs.AgentPostResult result_request) [sample_answer] failed_world).1 =
    write_status StatusNoContent ∧
  ∃ now j', db_jobs (w_db (exec (Jobs.AgentPostResult result_request) [sample_answer] failed_world).2.2) =
      <[8%N := j']> (db_jobs (w_db failed_world)) ∧
    (w_now failed_world <= now)%Z ∧ Job_Status j' = JobStatusSuccess ∧ Job_EndedAt j' = Some now ∧
    Job_Facts j' = {[ "version" := JStr "2" ]}.
Proof.
  assert (Forall faultless [sample_answer]) as Ha by (repeat constructor).
  assert (uuid_Parse (URLParam result_request "job_id") = Ok 8%N) as Hid by (vm_compute; reflexivity).
  split; [reflexivity|]. split; [exact Hid|].
  pose proof (AgentPostResult_spec result_request agent_2 8%N [sample_answer] failed_world Ha eq_refl Hid) as Hs.
  destruct (exec (Jobs.AgentPostResult result_request) [sample_answer] failed_world)
    as [resp [ans w']].
  replace (db_jobs (w_db failed_world) !! 8%N) with (Some (sample_job 8 0 JobStatusFailed (Some 2%N))) in Hs
    by (vm_compute; reflexivity).
  destruct Hs as (Hresp & now & j' & Hdb & Hnow & Hst & Hend & Hf).
  split; [exact Hresp|]. exists now, j'. split; [exact Hdb|]. split; [exact Hnow|].
  split; [exact Hst|]. split; [exact Hend|]. rewrite Hf. reflexivity.
Defined.

Definition sample_lines : list JobLogLine :=
  [Build_JobLogLine 1 "PLAY [all]" "stdout"; Build_JobLogLine 2 "ok: [web1]" "stdout"].

Lemma AppendJobLogs_idempotent_witness :
  let r1 := exec (AppendJobLogs 8 sample_lines) [sample_answer] before_tick in
  let r2 := exec (AppendJobLogs 8 sample_lines) [sample_answer] (MkWorld (w_db r1.2.2) (sample_now + 9) []) in
  size (db_job_logs (w_db r1.2.2)) = 2 ∧ r1.1 = Ok () ∧ r2.1 = Ok () ∧ w_db r2.2.2 = w_db r1.2.2.
Proof.
  assert (Forall faultless [sample_answer]) as Ha by (repeat constructor).
  split; [vm_compute; reflexivity|].
  assert (is_Some (db_jobs (w_db before_tick) !! 8%N)) as Hj by (exists sample_pending; vm_compute; reflexivity).
  destruct (AppendJobLogs_idempotent 8%N sample_lines [sample_answer] [sample_answer] before_tick
    (sample_now + 9)%Z Ha Ha Hj) as (H1 & _ & _ & H2 & H3); [repeat constructor|].
  split; [exact H1|]. split; [exact H2|exact H3].
Defined.

(** ** Authentication *)

Definition registered : Response * (list Answer * World) :=
  exec (RegisterAgent sample_api_cfg register_request) [sample_answer; sample_answer] empty_world.
Definition issued_token : string := hex_EncodeToString (replicate 32 Byte.x09).
Definition agent_request : Request :=
  sample_request [] [("Authorization", "Bearer " +:+ issued_token)] "" None None.

Lemma registered_db_ok : db_ok (w_db registered.2.2).
Proof.
  apply (exec_respects (keeps db_ok) (RegisterAgent sample_api_cfg register_request));
    [|exact empty_db_ok].
  eapply issues_respects; [apply api_stmt_ok|].
  apply (Vocab.route_issues sample_api_cfg register_route). right. left.
Qed.

(** An API token whose expiry has passed is accepted. *)
Definition token_request : Request := sample_request [] [("Authorization", "Bearer token")] "" None None.

Lemma RequireUser_spec_witness :
  Forall faultless [sample_answer] ∧
  (exec (RequireUser "secret" token_request) [sample_answer] before_tick).1 =
    Some (with_user token_request 1%N, Some 20%N) ∧
  let '(res, (_, w')) := exec (RequireUser "secret" token_request) [sample_answer] before_tick in
  w_db w' = w_db before_tick ∧
  match res with
  | Some (r', touched) =>
      bearer token_request ≠ EmptyString ∧
      ((∃ now claims, (w_now before_tick <= now)%Z ∧
          jwt_Parse "secret" (bearer token_request) now = Ok claims ∧
          r' = with_user token_request (Claims_UserID claims) ∧ touched = None) ∨
       (∃ k t, db_api_tokens (w_db before_tick) !! k = Some t ∧
          APIToken_TokenHash t = hashToken (bearer token_request) ∧
          r' = with_user token_request (APIToken_UserID t) ∧ touched = Some (APIToken_ID t)))
  | None =>
      bearer token_request = EmptyString ∨
      ((∃ now e, (w_now before_tick <= now)%Z ∧ jwt_Parse "secret" (bearer token_request) now = Err e) ∧
       ∀ k t, db_api_tokens (w_db before_tick) !! k = Some t →
              APIToken_TokenHash t ≠ hashToken (bearer token_request))
  end.
Proof.
  assert (Forall faultless [sample_answer]) as Ha by (repeat constructor).
  split; [exact Ha|]. split; [vm_compute; reflexivity|].
  exact (RequireUser_spec "secret" token_request [sample_answer] before_tick Ha).
Defined.

(** ** Credentials, approvals and workflows *)

Definition created : Response * (list Answer * World) :=
  exec (Resources.CreateCredential sample_api_cfg (sample_request [] [] "{}" (Some 1%N) None))
    [sample_answer; sample_answer] empty_world.
Definition created_row : Credential :=
  match resp_body created.1 with BCredential c => c | _ => sample_credential end.

Lemma created_credential_resolves_witness :
  created.1 = respond StatusCreated (BCredential created_row) ∧
  Credential_EncryptedData created_row = [] ∧
  ∃ body, json_Decode "{}" = Ok body ∧
    (exec (controller_Resolve sample_key (Credential_ID created_row)) [quiet_answer] created.2.2).1 =
      Ok {| CredentialSecret_Kind := Resources.CredentialBody_Kind body;
            CredentialSecret_Fields := default ∅ (Resources.CredentialBody_Fields body) |}.
Proof.
  assert (created.1 = respond StatusCreated (BCredential created_row)) as Hc by (vm_compute; reflexivity).
  split; [exact Hc|].
  refine (created_credential_resolves sample_api_cfg (sample_request [] [] "{}" (Some 1%N) None)
    [sample_answer; sample_answer] empty_world created_row created.2.2 [quiet_answer] Hc _ eq_refl).
  repeat constructor.
Defined.

Definition approve_request : Request :=
  sample_request [("id", "13"); ("action", "approve")] [] "{}" (Some 1%N) None.

Lemma ResolveApproval_once_witness :
  uuid_Parse (URLParam approve_request "id") = Ok 13%N ∧
  Resources.approval_action (URLParam approve_request "action") = Some ApprovalStatusApproved ∧
  let '(resp, (_, w')) := exec (Resources.ResolveApproval approve_request) [sample_answer] before_tick in
  resp = write_status StatusNoContent ∧ ∃ a',
    w_db w' = set_approval_requests (<[13%N := a']> (db_approval_requests (w_db before_tick))) (w_db before_tick) ∧
    ApprovalRequest_Status a' = ApprovalStatusApproved ∧ ApprovalStatusApproved ≠ ApprovalStatusPending ∧
    ApprovalRequest_ReviewedBy a' = Some 1%N ∧ is_Some (ApprovalRequest_ResolvedAt a').
Proof.
  assert (Forall faultless [sample_answer]) as Ha by (repeat constructor).
  assert (uuid_Parse (URLParam approve_request "id") = Ok 13%N) as Hid by (vm_compute; reflexivity).
  assert (Resources.approval_action (URLParam approve_request "action") = Some ApprovalStatusApproved) as Hac
    by (vm_compute; reflexivity).
  assert (is_Some (db_users (w_db before_tick) !! 1%N)) as Hu by (eexists; reflexivity).
  split; [exact Hid|]. split; [exact Hac|].
  exact (ResolveApproval_once approve_request 1%N 13%N ApprovalStatusApproved [sample_answer] before_tick
    Ha eq_refl Hid Hac Hu).
Defined.

(** The nodes of a workflow saved again, without its edges. *)
Definition no_approvals : Db := set_approval_requests ∅ (w_db before_tick).
Definition same_nodes : list WorkflowNode := map_vals (db_workflow_nodes no_approvals).
Definition resaved : Db := stmt_db (UpsertWorkflowNodes_sql 9 same_nodes quiet_tx no_approvals).

Lemma UpsertWorkflowNodes_drops_edges_witness :
  UpsertWorkflowNodes_sql 9 same_nodes quiet_tx no_approvals = Ok ((), resaved) ∧
  size (db_workflow_edges no_approvals) = 1 ∧ db_workflow_edges resaved = ∅ ∧
  ∀ k n, db_workflow_nodes resaved !! k = Some n → WorkflowNode_WorkflowID n = 9%N →
    k ∈ WorkflowNode_ID <$> same_nodes.
Proof.
  assert (UpsertWorkflowNodes_sql 9 same_nodes quiet_tx no_approvals = Ok ((), resaved)) as Hu
    by (vm_compute; reflexivity).
  split; [exact Hu|]. split; [vm_compute; reflexivity|]. split; [vm_compute; reflexivity|].
  exact (proj2 (UpsertWorkflowNodes_drops_edges 9%N same_nodes quiet_tx no_approvals resaved Hu)).
Defined.

(** ** The inventory file *)

Definition varied_hosts : list InventoryHost :=
  [sample_host 0 "web1" ["web"] {[ "port" := JStr "80" ]};
   sample_host 0 "db1" ["db"; "backup"] (<[ "role" := JStr "primary" ]> {[ "port" := JStr "5432" ]})].

Lemma WriteInventory_parse_roundtrip_witness :
  Forall host_ok varied_hosts ∧ NoDup (InventoryHost_Hostname <$> varied_hosts) ∧
  ∃ parsed,
    parseINIInventory 4 "/tmp/hosts" (Ok (WriteInventory "/tmp/hosts" varied_hosts).2) = Ok parsed ∧
    InventoryHost_Hostname <$> parsed ≡ₚ InventoryHost_Hostname <$> varied_hosts ∧
    ∀ h', h' ∈ parsed → ∃ h, h ∈ varied_hosts ∧ h' = parsed_host 4 h (InventoryHost_Groups h') ∧
      NoDup (InventoryHost_Groups h') ∧
      ∀ g, g ∈ InventoryHost_Groups h' ↔ g ∈ InventoryHost_Groups h.
Proof.
  assert (Forall host_ok varied_hosts) as Hok.
  { assert (∀ k s, solid k → k ≠ EmptyString → IndexByte k equals_sign = None → solid s →
      var_ok (k, JStr s)) as Hv
      by (intros k s Hk Hne Hi Hs; split; [exact Hk|]; split; [exact Hne|]; split; [exact Hi|]; by exists s).
    apply Forall_cons. split; [|apply Forall_singleton].
    - split; [done|]. split; [|by repeat constructor]. apply map_Forall_singleton. by apply Hv.
    - split; [done|]. split; [|by repeat constructor].
      apply map_Forall_insert_2; [by apply Hv|]. apply map_Forall_singleton. by apply Hv. }
  assert (NoDup (InventoryHost_Hostname <$> varied_hosts)) as Hnd
    by (apply (bool_decide_unpack _); vm_compute; exact I).
  split; [exact Hok|]. split; [exact Hnd|].
  apply (WriteInventory_parse_roundtrip 4%N "/tmp/hosts" varied_hosts Hok Hnd).
  apply (bool_decide_unpack _). vm_compute. exact I.
Defined.

(** A value with a space is not quoted, and only its first word is read back. *)
Definition spaced_host : InventoryHost := sample_host 0 "web1" [] {[ "motd" := JStr "hello world" ]}.

Example spaced_value_cut :
  host_line spaced_host = "web1 ansible_host=web1 motd=hello world" ∧
  ∃ h, parseINIInventory 4 "/tmp/hosts" (Ok (WriteInventory "/tmp/hosts" [spaced_host]).2) = Ok [h] ∧
    InventoryHost_Vars h !! "motd" = Some (JStr "hello").
Proof. split; [vm_compute; reflexivity|]. eexists. split; vm_compute; reflexivity. Qed.

(** ** The scheduler *)

Definition one_schedule : list Schedule := [sample_schedule].
Definition registered_once : Scheduler := sync_with one_schedule new_Scheduler.

Lemma sample_registrable : registrable sample_schedule.
Proof. exists "UTC". repeat split; vm_compute; reflexivity. Qed.

Lemma sync_with_registers_witness :
  sched_ok new_Scheduler ∧ sched_ok registered_once ∧
  is_Some (sched_entryIDs registered_once !! 7%N) ∧
  ∀ id, is_Some (sched_entryIDs registered_once !! id) ↔
    id ∈ Schedule_ID <$> one_schedule ∧
    (is_Some (sched_entryIDs new_Scheduler !! id) ∨
     ∃ sc, sc ∈ one_schedule ∧ Schedule_ID sc = id ∧ registrable sc).
Proof.
  destruct (sync_with_registers one_schedule new_Scheduler new_Scheduler_ok) as [Hok Hdom].
  split; [exact new_Scheduler_ok|]. split; [exact Hok|].
  split; [exists 1%Z; vm_compute; reflexivity|exact Hdom].
Defined.

(** The schedule is edited in the database after it was registered. *)
Definition edited_schedule : Schedule :=
  Build_Schedule 7 "nightly" 6 "0 4 * * *" "UTC" true ∅ None None 0 0.

Lemma sync_with_keeps_entries_witness :
  sched_entryIDs registered_once !! 7%N = Some 1%Z ∧
  sched_entryIDs (sync_with [edited_schedule] registered_once) !! 7%N = Some 1%Z ∧
  Entry_Schedule <$> cron_entries (sched_cron (sync_with [edited_schedule] registered_once)) !! 1%Z =
    Some sample_schedule.
Proof.
  assert (sched_ok registered_once) as Hok.
  { apply (register_all_spec one_schedule), remove_inactive_ok, new_Scheduler_ok. }
  assert (sched_entryIDs registered_once !! 7%N = Some 1%Z) as He by (vm_compute; reflexivity).
  destruct (sync_with_keeps_entries [edited_schedule] registered_once 7%N 1%Z Hok He) as [H1 H2];
    [left|].
  split; [exact He|]. split; [exact H1|]. rewrite H2. vm_compute. reflexivity.
Defined.

Lemma fire_creates_pending_witness :
  let w' := (exec (fire sample_schedule registered_once (λ _, sample_now)) [sample_answer] before_tick).2.2 in
  db_job_templates (w_db before_tick) !! 6%N = Some sample_template ∧
  db_jobs (w_db before_tick) !! 100%N = None ∧
  db_jobs (w_db w') = <[100%N := new_job (sample_now + 1000) 100 6 None {[ "full" := JBool true ]}]>
    (db_jobs (w_db before_tick)).
Proof.
  assert (Forall faultless [sample_answer]) as Ha by (repeat constructor).
  assert (db_job_templates (w_db before_tick) !! 6%N = Some sample_template) as Ht by (vm_compute; reflexivity).
  assert (db_jobs (w_db before_tick) !! 100%N = None) as Hf by (vm_compute; reflexivity).
  split; [exact Ht|]. split; [exact Hf|].
  exact (proj1 (fire_creates_pending sample_schedule registered_once (λ _, sample_now) sample_answer []
    before_tick sample_template Ha Ht Hf)).
Defined.

Lemma count_fields_Ok n s : count_fields n s = Ok () →
  match Fields s with
  | f :: fs => HasPrefix f "@" = false ∧ length (f :: fs) = n ∧ tz_field f = false
  | [] => False
  end.
Proof.
  unfold count_fields, tz_field. destruct (Fields s) as [|f fs]; [done|].
  case_bool_decide as Hn; simpl; [|done].
  destruct (HasPrefix f "@"), (HasPrefix f "TZ=" || HasPrefix f "CRON_TZ="); done.
Qed.

Lemma counting_cron_laws : @CronFieldLaws counting_cron.
Proof.
  split.
  - intros s Hs%count_fields_Ok. destruct (Fields s); naive_solver.
  - intros tz loc s Hl Hs. unfold LoadLocation, counting_cron in Hl.
    case_bool_decide; simplify_eq. apply count_fields_Ok in Hs.
    change (after_space ("CRON_TZ=" +:+ "UTC" +:+ " " +:+ s)) with s in Hs.
    destruct (Fields s); naive_solver.
Qed.

Lemma no_schedule_registers_witness :
  @CronFieldLaws counting_cron ∧
  @cron_parse_std counting_cron "0 3 * * *" = Ok () ∧
  @cron_parse_seconds counting_cron "CRON_TZ=UTC 0 0 3 * * *" = Ok () ∧
  @sync_with counting_cron one_schedule new_Scheduler = new_Scheduler.
Proof.
  split; [exact counting_cron_laws|]. split; [vm_compute; reflexivity|]. split; [vm_compute; reflexivity|].
  exact (@no_schedule_registers counting_cron counting_cron_laws one_schedule).
Defined.

(** ** The declared life cycle *)

