(* ===== verification/AgentWitnesses.v ===== *)
(** * The theorems about the agent at concrete inputs *)
From S2P Require Import Prelude.
From S2P Require Import Prog.
From S2P Require Import Types.
From S2P Require Import Text.
From S2P Require Import Db.
From S2P Require Import Hoare.
From S2P Require Import Transport.
From S2P Require Import AgentInventory.
From S2P Require Import AgentRunner.
From S2P Require Import AgentRunnerFacts.
From S2P Require Import LogBatcher.
From S2P Require Import LogCapture.
From S2P Require Import AgentClient.
From S2P Require Import AgentServer.
From S2P Require Import AgentServerFacts.
From S2P Require Import ApiStore.
From S2P Require Import Http.
From S2P Require Import Auth.
From S2P Require Import Server.
From S2P Require Import System.
From S2P Require Import Integrity.
From S2P Require Import ApiFacts.
From S2P Require Import LogFacts.
From S2P Require Import AgentClientFacts.
From S2P Require Import JobHandlers.
From S2P Require Import Samples.
From S2P Require Import Witnesses.

(** ** Running a job *)

Definition ssh_credential (key : string) : CredentialSecret :=
  {| CredentialSecret_Kind := CredentialKindSSHKey; CredentialSecret_Fields := {[ "private_key" := key ]} |}.

Definition sample_payload (id : uuid) (key : string) : JobPayload := {|
  JobPayload_JobID := id; JobPayload_TemplateID := 6; JobPayload_Playbook := "site.yml";
  JobPayload_Inventory := [sample_host 14 "web1" ["web"] {[ "port" := JStr "80" ]}];
  JobPayload_ExtraVars := ∅; JobPayload_Credentials := [ssh_credential key];
  JobPayload_CallbackURL := "http://api"; JobPayload_RepoURL := "https://git/infra";
  JobPayload_RepoBranch := "main" |}.

Definition clean_host : Host := MkHost ∅ [] [].

(** The clone writes a file; RemoveAll fails and keeps everything. *)
Definition cloned : gmap string (Z * string) := {[ "/tmp/aop/8/repo/site.yml" := (420%Z, "- hosts: all") ]}.
Definition full_disk : HostAnswer := {|
  ha_mkdir := Ok (); ha_removeall := Err (ErrText "directory not empty"); ha_remove := Ok (); ha_write := Ok ();
  ha_partial := None;
  ha_kept := {[ "/tmp/aop/8/repo/site.yml"; "/tmp/aop/8/inventory.ini"; "/tmp/aop/8/id_rsa" ]};
  ha_command := Ok (); ha_writes := cloned;
  ha_end := {| pb_stdout := "ok"; pb_stderr := EmptyString; pb_schedule := []; pb_wait := WaitExit 2 |};
  ha_cancelled := false |}.
Definition good_disk : HostAnswer := {|
  ha_mkdir := Ok (); ha_removeall := Ok (); ha_remove := Ok (); ha_write := Ok ();
  ha_partial := None; ha_kept := ∅; ha_command := Ok (); ha_writes := cloned;
  ha_end := ha_end full_disk; ha_cancelled := false |}.

Lemma Run_leaves_nothing_witness :
  Forall removeall_ok (replicate 12 good_disk) ∧
  (host_run (Run "/tmp/aop" (sample_payload 8 "KEY")) (replicate 12 good_disk) clean_host).1 =
    {| Result_Status := JobStatusFailed; Result_ExitCode := 2 |} ∧
  ∀ path, is_under "/tmp/aop/8" path = true →
    h_files (host_run (Run "/tmp/aop" (sample_payload 8 "KEY")) (replicate 12 good_disk) clean_host).2.2 !! path = None.
Proof.
  assert (Forall removeall_ok (replicate 12 good_disk)) as Ha by (repeat constructor).
  pose proof (Run_leaves_nothing "/tmp/aop" (sample_payload 8 "KEY") (replicate 12 good_disk) clean_host Ha) as Hr.
  assert ((host_run (Run "/tmp/aop" (sample_payload 8 "KEY")) (replicate 12 good_disk) clean_host).1 =
    {| Result_Status := JobStatusFailed; Result_ExitCode := 2 |}) as Hres by (vm_compute; reflexivity).
  assert (job_dir "/tmp/aop" (sample_payload 8 "KEY") = "/tmp/aop/8") as Hdir by (vm_compute; reflexivity).
  split; [exact Ha|]. split; [exact Hres|].
  rewrite Hdir in Hr. destruct (host_run (Run "/tmp/aop" (sample_payload 8 "KEY")) (replicate 12 good_disk) clean_host)
    as [r [ans' h']]. cbn [fst snd] in Hres |- *. subst r.
  destruct Hr as [[Hf _]|Hr]; [discriminate Hf|exact Hr].
Defined.

Lemma Run_removes_secrets_witness :
  Forall remove_ok (full_disk :: replicate 12 full_disk) ∧
  "/tmp/aop/8/id_rsa" ∈ secret_paths "/tmp/aop/8" [ssh_credential "KEY"] ∧
  h_files (host_run (Run "/tmp/aop" (sample_payload 8 "KEY")) (full_disk :: replicate 12 full_disk) clean_host).2.2
    !! "/tmp/aop/8/repo/site.yml" = Some (420%Z, "- hosts: all") ∧
  h_files (host_run (Run "/tmp/aop" (sample_payload 8 "KEY")) (full_disk :: replicate 12 full_disk) clean_host).2.2
    !! "/tmp/aop/8/id_rsa" = None.
Proof.
  assert (Forall remove_ok (full_disk :: replicate 12 full_disk)) as Ha by (repeat constructor).
  assert (job_dir "/tmp/aop" (sample_payload 8 "KEY") = "/tmp/aop/8") as Hdir by (vm_compute; reflexivity).
  assert ("/tmp/aop/8/id_rsa" ∈ secret_paths "/tmp/aop/8" [ssh_credential "KEY"]) as Hp by (vm_compute; left).
  split; [exact Ha|]. split; [exact Hp|]. split; [vm_compute; reflexivity|].
  apply (Run_removes_secrets "/tmp/aop" (sample_payload 8 "KEY") (replicate 12 full_disk) clean_host full_disk Ha
    eq_refl); [|rewrite Hdir; exact Hp].
  rewrite Hdir. eexists. vm_compute. reflexivity.
Defined.

Lemma Run_hides_secrets_witness :
  Forall2 same_shape (JobPayload_Credentials (sample_payload 8 "KEY")) [ssh_credential "OTHER"] ∧
  length (h_commands (host_run (Run "/tmp/aop" (sample_payload 8 "KEY")) [] clean_host).2.2) = 2 ∧
  h_commands (host_run (Run "/tmp/aop" (sample_payload 8 "KEY")) [] clean_host).2.2 =
  h_commands (host_run (Run "/tmp/aop" (with_credentials (sample_payload 8 "KEY") [ssh_credential "OTHER"])) []
    clean_host).2.2.
Proof.
  assert (Forall2 same_shape (JobPayload_Credentials (sample_payload 8 "KEY")) [ssh_credential "OTHER"]) as Hs.
  { repeat constructor; unfold field, ssh_credential; cbn [CredentialSecret_Fields] in *.
    - intros E. destruct (decide (k = "private_key")) as [->|Hk]; [vm_compute in E; discriminate E|].
      by rewrite lookup_singleton_ne in *.
    - intros E. destruct (decide (k = "private_key")) as [->|Hk]; [vm_compute in E; discriminate E|].
      by rewrite lookup_singleton_ne in *. }
  split; [exact Hs|]. split; [vm_compute; reflexivity|].
  exact (proj1 (proj2 (Run_hides_secrets "/tmp/aop" (sample_payload 8 "KEY") [ssh_credential "OTHER"] [] clean_host Hs))).
Defined.

(** ** Log lines *)

Definition line (n : Z) (text : string) : JobLogLine := log_line n text "stdout".

(** A batch posted on a tick, a line in the buffer, and one added during the
    next post; then the rest after Flush. *)
Lemma batcher_delivers_witness :
  let acts := [ActAdd (line 1 "a"); ActTick; ActPost; ActAdd (line 2 "b")] in
  ∃ b, batcher_run acts NewLogBatcher = Some b ∧ b_flushed b = [[line 1 "a"]] ∧
  (∃ b', batcher_run [ActTick; ActAdd (line 3 "c"); ActPost] b = Some b' ∧
     b_flushed b' = [[line 1 "a"]; [line 2 "b"]]) ∧
  (∃ b', batcher_run [ActFlush; ActTick; ActPost; ActDone] b = Some b' ∧ b_phase b' = Stopped ∧
     mjoin (b_flushed b') = [line 1 "a"; line 2 "b"]).
Proof.
  intros acts. destruct (batcher_run acts NewLogBatcher) as [b|] eqn:Hr; [|discriminate].
  exists b. pose proof (batcher_delivers acts b Hr) as (_ & Htick & Hflush).
  assert (b = {| b_buf := [line 2 "b"]; b_done := false; b_phase := Selecting; b_flushed := [[line 1 "a"]] |}) as Hb
    by (injection Hr as <-; reflexivity).
  split; [reflexivity|]. split; [by rewrite Hb|]. split.
  - destruct (Htick [line 3 "c"]) as (b' & Hb' & Hf & _); [by rewrite Hb..|].
    exists b'. split; [exact Hb'|]. rewrite Hf, Hb. reflexivity.
  - destruct (batcher_run [ActFlush; ActTick; ActPost; ActDone] b) as [b'|] eqn:Hr'; [|by rewrite Hb in Hr'].
    exists b'. destruct (Hflush [ActTick; ActPost; ActDone] b' Hr' eq_refl) as (_ & _ & Hall).
    assert (b_phase b' = Stopped) as Hst by (rewrite Hb in Hr'; injection Hr' as <-; reflexivity).
    split; [reflexivity|]. split; [exact Hst|]. exact (Hall Hst).
Defined.

Definition newline : string := String (Ascii.ascii_of_N 10) EmptyString.

(** Two lines on one pipe; one line on each. *)
Definition two_lines : PlaybookEnd :=
  {| pb_stdout := "PLAY [all]" +:+ newline +:+ "ok: [web1]" +:+ newline; pb_stderr := EmptyString;
     pb_schedule := []; pb_wait := WaitOk |}.
Definition both_pipes : PlaybookEnd :=
  {| pb_stdout := "PLAY [all]" +:+ newline; pb_stderr := "warning" +:+ newline;
     pb_schedule := []; pb_wait := WaitOk |}.

(** ** The listener *)

Definition dispatch (t : nat) (id : uuid) : Act := Receive t (Ok (sample_payload id "KEY")).
Definition go (t : nat) : Act := Go t [] clean_host.

(** One job runs, another one is refused for lack of capacity; the first is
    cancelled. *)
Definition one_job : list Act := [dispatch 0 8; go 0; go 0; go 0; dispatch 1 16; go 1].
Definition after_one_job : Server := default (AgentServer.New 0) (srv_run "/tmp/aop" one_job (AgentServer.New 1)).

Lemma one_job_reach P :
  permitted "/tmp/aop" P one_job (AgentServer.New 1) → srv_reach "/tmp/aop" P (AgentServer.New 1) after_one_job.
Proof.
  intros Hp. apply (srv_run_reach "/tmp/aop" P (AgentServer.New 1) one_job (AgentServer.New 1));
    [constructor|exact Hp|vm_compute; reflexivity].
Qed.

Lemma count_is_running_witness :
  srv_reach "/tmp/aop" (λ _ _, True) (AgentServer.New 1) after_one_job ∧ RunningJobs after_one_job = 1%Z ∧
  RunningJobs after_one_job = Z.of_nat (num_threads counted (srv_threads after_one_job)).
Proof.
  assert (srv_reach "/tmp/aop" (λ _ _, True) (AgentServer.New 1) after_one_job) as Hr
    by (apply one_job_reach; vm_compute; repeat split).
  split; [exact Hr|]. split; [vm_compute; reflexivity|]. exact (count_is_running "/tmp/aop" 1 after_one_job Hr).
Defined.

Lemma capacity_if_serial_witness :
  srv_reach "/tmp/aop" serial (AgentServer.New 1) after_one_job ∧
  srv_responses after_one_job = [(0, StatusAccepted); (1, StatusServiceUnavailable)] ∧
  (RunningJobs after_one_job <= Z.max 0 1)%Z.
Proof.
  assert (srv_reach "/tmp/aop" serial (AgentServer.New 1) after_one_job) as Hr
    by (apply one_job_reach; vm_compute; repeat split).
  split; [exact Hr|]. split; [vm_compute; reflexivity|]. exact (capacity_if_serial "/tmp/aop" 1 after_one_job Hr).
Defined.

(** Two requests that pass the check before either is counted exceed the capacity. *)
Example dispatch_race :
  RunningJobs <$> srv_run "/tmp/aop" [dispatch 0 8; dispatch 1 16; go 0; go 1; go 0; go 1; go 0; go 1]
    (AgentServer.New 1) = Some 2%Z.
Proof. vm_compute. reflexivity. Qed.

Definition whole_job : list Act := [dispatch 0 8; go 0; go 0; go 0; go 0; go 0].
Definition after_whole_job : Server := default (AgentServer.New 0) (srv_run "/tmp/aop" whole_job (AgentServer.New 1)).

Lemma posted_results_terminal_witness :
  srv_reach "/tmp/aop" (λ _ _, True) (AgentServer.New 1) after_whole_job ∧
  (λ ir, Result_Status ir.2) <$> srv_results after_whole_job = [JobStatusSuccess] ∧
  Forall (λ ir, IsTerminal (Result_Status ir.2) = true) (srv_results after_whole_job).
Proof.
  assert (srv_reach "/tmp/aop" (λ _ _, True) (AgentServer.New 1) after_whole_job) as Hr.
  { apply (srv_run_reach "/tmp/aop" _ (AgentServer.New 1) whole_job (AgentServer.New 1));
      [constructor|vm_compute; repeat split|vm_compute; reflexivity]. }
  split; [exact Hr|]. split; [vm_compute; reflexivity|]. exact (posted_results_terminal "/tmp/aop" 1 after_whole_job Hr).
Defined.

(** ** The client *)

Definition sample_client : Client := AgentClient.New "http://api".
Definition sample_register : prog ClientEv (result unit * Client) :=
  Register sample_client "join" "edge-1" "http://edge-1:9000" ∅ 2.
Definition register_answer : ClientResponse :=
  {| cs_status := StatusCreated; cs_registered := Ok (100%N, issued_token) |}.
Definition registered_client : Client :=
  {| Client_base := "http://api"; Client_token := issued_token; Client_agentID := 100 |}.
Definition sent_registration : ClientRequest := {|
  cr_method := "POST"; cr_url := "http://api/agents/register";
  cr_headers := <[ "X-Registration-Token" := "join" ]> {[ "Content-Type" := "application/json" ]};
  cr_body := RegisterJson "edge-1" "http://edge-1:9000" ∅ 2 |}.
Definition received_registration : Request := {|
  req_params := ∅; req_query := ∅; req_headers := cr_headers sent_registration; req_body := "{}";
  req_user := None; req_agent := None |}.
Definition registration : Response * (list Answer * World) :=
  exec (RegisterAgent sample_api_cfg received_registration) [sample_answer; sample_answer] empty_world.

Lemma registration_db_ok : db_ok (w_db registration.2.2).
Proof.
  apply (exec_respects (keeps db_ok) (RegisterAgent sample_api_cfg received_registration));
    [|exact empty_db_ok].
  eapply issues_respects; [apply api_stmt_ok|].
  apply (Vocab.route_issues sample_api_cfg register_route). right. left.
Qed.

(** The registration in a running system, and a heartbeat of the agent after it. *)
Definition heartbeat_route : Route := Post AgentGroup "/agent/heartbeat" (Auth.AgentHeartbeat sample_api_cfg).
Definition heartbeat_request : Request := {|
  req_params := ∅; req_query := ∅; req_headers := setBearer registered_client; req_body := "{}";
  req_user := None; req_agent := None |}.
Definition serve_registration : prog Ev unit := ignore (serve sample_api_cfg register_route received_registration).
Definition serve_heartbeat : prog Ev unit := ignore (serve sample_api_cfg heartbeat_route heartbeat_request).
Definition session_start : World * list (prog Ev unit) :=
  ((exec serve_registration [sample_answer; sample_answer] empty_world).2.2,
   [Ret (exec serve_registration [sample_answer; sample_answer] empty_world).1]).
Definition session_later : World * list (prog Ev unit) :=
  ((exec serve_heartbeat [] session_start.1).2.2, session_start.2 ++ [Ret (exec serve_heartbeat [] session_start.1).1]).

Lemma session_start_reach : reachable empty_world session_start.
Proof. apply reachable_run, (spawn_request sample_api_cfg register_route). right. left. Qed.

Lemma session_later_reach : sys_reach perform Spawned time_passes session_start session_later.
Proof.
  unfold sys_reach. eapply rtc_l.
  - apply (step_spawn perform Spawned time_passes _ session_start.2 serve_heartbeat).
    apply (spawn_request sample_api_cfg heartbeat_route), elem_of_app. right. apply elem_of_app. right. left.
  - apply (run_sys_reach perform quiet_answer Spawned time_passes serve_heartbeat [] session_start.1 session_start.2 []).
Qed.

Lemma agent_session_witness :
  client_run sample_register [Ok register_answer] = ((Ok (), registered_client), [sent_registration]) ∧
  delivered "http://api" "/agents/register" sent_registration received_registration ∧
  answered registration.1 register_answer ∧
  (λ row, Agent_Status (AgentRow_Agent row)) <$> db_agents (w_db session_start.1) !! 100%N = Some AgentStatusOffline ∧
  (λ row, Agent_Status (AgentRow_Agent row)) <$> db_agents (w_db session_later.1) !! 100%N = Some AgentStatusOnline ∧
  ∃ a, Agent_ID a = 100%N ∧ Agent_Name a = "edge-1" ∧ Agent_Address a = "http://edge-1:9000" ∧
    ∀ p ans2 cr' r', client_call registered_client p → cr' ∈ (client_run p ans2).2 →
      req_headers r' = cr_headers cr' →
      (exec (RequireAgent r') [sample_answer] session_later.1).1 = Some (with_agent r' a).
Proof.
  assert (client_run sample_register [Ok register_answer] = ((Ok (), registered_client), [sent_registration])) as Hc
    by (vm_compute; reflexivity).
  assert (delivered "http://api" "/agents/register" sent_registration received_registration) as Hd
    by (split; vm_compute; reflexivity).
  assert (registration.1 = respond StatusCreated (BRegistered 100 issued_token)) as He by (vm_compute; reflexivity).
  assert (answered registration.1 register_answer) as Ha.
  { rewrite He. split; [reflexivity|]. intros id token [= <- <-]. reflexivity. }
  assert (Forall faultless [sample_answer]) as Hf by (repeat constructor).
  assert (db_agents (w_db session_start.1) !! 100%N = db_agents (w_db registration.2.2) !! 100%N) as Hsame
    by (vm_compute; reflexivity).
  split; [exact Hc|]. split; [exact Hd|]. split; [exact Ha|]. split; [vm_compute; reflexivity|].
  split; [vm_compute; reflexivity|].
  exact (proj2 (agent_session sample_api_cfg sample_client "join" "edge-1" "http://edge-1:9000" ∅ 2 register_answer
    registered_client sent_registration received_registration [sample_answer; sample_answer] empty_world
    empty_world session_start session_later [sample_answer] Hc Hd Ha empty_db_ok session_start_reach Hsame
    session_later_reach Hf)).
Defined.

(** A database with one job, dispatched to the registered agent. *)
Definition dispatched_job : Job := sample_job 8 0 JobStatusDispatched (Some 100%N).
Definition registered_row : AgentRow :=
  default (sample_agent 100 1 0) (db_agents (w_db registration.2.2) !! 100%N).
Definition plain_template : JobTemplate := Build_JobTemplate 6 "deploy" "" 4 "site.yml" None ∅ 0 0.
Definition assigned_db : Db :=
  set_jobs {[ 8%N := dispatched_job ]} (set_job_templates {[ 6%N := plain_template ]}
    (set_projects {[ 4%N := sample_project ]} (set_agents {[ 100%N := registered_row ]} empty_db))).
Definition assigned_world : World := MkWorld assigned_db sample_now [].

(** One agent, and one job that runs the template. *)
Definition deployment (agent : uuid) (row : AgentRow) (j : Job) : Db :=
  set_jobs {[ 8%N := j ]} (set_job_templates {[ 6%N := plain_template ]}
    (set_projects {[ 4%N := sample_project ]} (set_agents {[ agent := row ]} empty_db))).

Lemma deployment_ok agent row j :
  Agent_ID (AgentRow_Agent row) = agent → Job_ID j = 8%N → Job_TemplateID j = 6%N → Job_WorkflowRunID j = None →
  (Job_AgentID j = None ∨ Job_AgentID j = Some agent) → job_ok j → db_ok (deployment agent row j).
Proof.
  intros Ha Hj Ht Hw Hag Hok.
  constructor; intros ?; intros; simpl in *; simplify_map_eq; try done; try (by eexists); try (by vm_compute).
  - rewrite Ht. by eexists.
  - destruct Hag; simplify_map_eq. by eexists.
Qed.

Lemma assigned_db_ok : db_ok assigned_db.
Proof. apply deployment_ok; [vm_compute; reflexivity|done..|by right|]. split; vm_compute; naive_solver. Qed.

Definition sent_result : ClientRequest := {|
  cr_method := "POST"; cr_url := "http://api/agent/jobs/8/result"; cr_headers := setBearer registered_client;
  cr_body := ResultJson JobStatusSuccess 0 ∅ |}.
Definition received_result : Request := {|
  req_params := {[ "job_id" := "8" ]}; req_query := ∅; req_headers := cr_headers sent_result;
  req_body := "{facts:{}}"; req_user := None; req_agent := None |}.
Definition no_content : ClientResponse :=
  {| cs_status := StatusNoContent; cs_registered := Err (ErrText "EOF") |}.
Definition sample_post : prog ClientEv (result unit) := PostResult registered_client 8 JobStatusSuccess 0 None.

Lemma reported_result_stored_witness :
  db_ok (w_db assigned_world) ∧ (client_run sample_post [Ok no_content]).2 = [sent_result] ∧
  delivered "http://api" "/agent/jobs/{job_id}/result" sent_result received_result ∧
  (exec (as_agent Jobs.AgentPostResult received_result) [] assigned_world).1 = write_status StatusNoContent ∧
  (client_run sample_post [Ok no_content]).1 = Ok () ∧
  ∃ now j', db_jobs (w_db (exec (as_agent Jobs.AgentPostResult received_result) [] assigned_world).2.2) =
      <[8%N := j']> (db_jobs (w_db assigned_world)) ∧ (w_now assigned_world <= now)%Z ∧
    Job_Status j' = JobStatusSuccess ∧ Job_EndedAt j' = Some now ∧ Job_Facts j' = Job_Facts dispatched_job.
Proof.
  assert ((client_run sample_post [Ok no_content]).2 = [sent_result]) as Hs by (vm_compute; reflexivity).
  assert (delivered "http://api" "/agent/jobs/{job_id}/result" sent_result received_result) as Hd
    by (split; vm_compute; reflexivity).
  assert ((exec (as_agent Jobs.AgentPostResult received_result) [] assigned_world).1 = write_status StatusNoContent)
    as He by (vm_compute; reflexivity).
  split; [exact assigned_db_ok|]. split; [exact Hs|]. split; [exact Hd|]. split; [exact He|].
  assert (uuid_Parse (uuid_String 8%N) = Ok 8%N) as Hid by (vm_compute; reflexivity).
  assert (db_agents (w_db assigned_world) !! AgentID registered_client = Some registered_row) as Hrow
    by (vm_compute; reflexivity).
  assert (AgentRow_TokenHash registered_row = hashToken (Client_token registered_client)) as Hh
    by (vm_compute; reflexivity).
  assert (Client_token registered_client ≠ EmptyString) as Hne by (vm_compute; discriminate).
  assert (db_jobs (w_db assigned_world) !! 8%N = Some dispatched_job) as Hj by (vm_compute; reflexivity).
  pose proof (reported_result_stored registered_client registered_row dispatched_job 8%N JobStatusSuccess 0
    sent_result no_content received_result [] assigned_world (List.Forall_nil _) assigned_db_ok
    Hid Hrow Hh Hne Hj eq_refl eq_refl Hs Hd) as Hr.
  destruct (exec (as_agent Jobs.AgentPostResult received_result) [] assigned_world) as [resp [ans' w']].
  cbn [fst] in He. subst resp. apply Hr. split; [reflexivity|]. intros id token [=].
Defined.

(** ** The output of a job *)

(** The lines are batched in two, and posted for the job assigned to the agent. *)
Definition two_batches : list BatcherAct :=
  [ActAdd (line 1 "PLAY [all]"); ActTick; ActPost; ActAdd (line 2 "ok: [web1]")].
Definition flushed_batcher : LogBatcher :=
  default NewLogBatcher (batcher_run (two_batches ++ ActFlush :: [ActDone; ActPost]) NewLogBatcher).
Definition sample_tx : Tx := answer_tx sample_answer 0.

Definition sent_lines (ls : list JobLogLine) : ClientRequest := {|
  cr_method := "POST"; cr_url := "http://api/agent/jobs/8/logs"; cr_headers := setBearer registered_client;
  cr_body := LogsJson ls |}.
Definition received_lines (body : string) : Request := {|
  req_params := {[ "job_id" := "8" ]}; req_query := ∅; req_headers := setBearer registered_client; req_body := body;
  req_user := None; req_agent := None |}.
Definition one_posted : World := (exec (as_agent Jobs.AgentPostLogs (received_lines "[1]")) [] assigned_world).2.2.
Definition two_posted : World := (exec (as_agent Jobs.AgentPostLogs (received_lines "[2]")) [] one_posted).2.2.

Lemma assigned_posting : posting registered_client 8 [] assigned_world.
Proof.
  split; [exact assigned_db_ok| | |intros n; reflexivity].
  - exists registered_row. split; vm_compute; reflexivity.
  - exists dispatched_job. split; vm_compute; reflexivity.
Qed.

Lemma one_batch_posted ls body w w' bs :
  (client_run (PostLogs registered_client 8 ls) [Ok no_content]).2 = [sent_lines ls] →
  json_Decode body = Ok ls →
  posted registered_client 8 bs (exec (as_agent Jobs.AgentPostLogs (received_lines body)) [] w).2.2 w' →
  posted registered_client 8 (ls :: bs) w w'.
Proof.
  intros Hs Hb Hp. apply (posted_batch _ _ ls bs (sent_lines ls) no_content (received_lines body) []);
    [exact Hs|split; [vm_compute; reflexivity|reflexivity|exact Hb]|constructor|exact Hp].
Qed.

Lemma two_batches_posted : posted registered_client 8 (b_flushed flushed_batcher) assigned_world two_posted.
Proof.
  change (b_flushed flushed_batcher) with [[line 1 "PLAY [all]"]; [line 2 "ok: [web1]"]].
  apply (one_batch_posted _ "[1]"); [vm_compute; reflexivity..|].
  apply (one_batch_posted _ "[2]"); [vm_compute; reflexivity..|]. apply posted_none.
Qed.

Lemma output_stored_witness :
  serial_calls two_lines [true; false; true] = true ∧
  b_flushed flushed_batcher = [[line 1 "PLAY [all]"]; [line 2 "ok: [web1]"]] ∧
  posted registered_client 8 (b_flushed flushed_batcher) assigned_world two_posted ∧
  ∃ stored, GetJobLogs_sql 8 sample_tx (w_db two_posted) = Ok (stored, w_db two_posted) ∧
    stored ≡ₚ captured two_lines [true; false; true] ∧
    JobLogLine_Seq <$> stored = seqZ 1 (Z.of_nat (length (captured two_lines [true; false; true]))).
Proof.
  assert (serial_calls two_lines [true; false; true] = true) as Hs by (vm_compute; reflexivity).
  split; [exact Hs|]. split; [reflexivity|]. split; [exact two_batches_posted|].
  refine (output_stored registered_client 8%N two_lines [true; false; true] two_batches [ActDone; ActPost]
    flushed_batcher assigned_world two_posted sample_tx Hs _ _ _ _ _ _ _ assigned_posting two_batches_posted);
    [vm_compute; reflexivity..|vm_compute; discriminate].
Defined.

Definition raced_lines : list JobLogLine := [log_line 2 "PLAY [all]" "stdout"; log_line 2 "warning" "stderr"].

Lemma racing_lines_lost_witness :
  (Scan (pb_stdout both_pipes)).1 = ["PLAY [all]"] ∧ (Scan (pb_stderr both_pipes)).1 = ["warning"] ∧
  ∃ sched, captured both_pipes sched = raced_lines ∧
    ∀ w', posted registered_client 8 [captured both_pipes sched] assigned_world w' →
      GetJobLogs_sql 8 sample_tx (w_db w') = Ok ([log_line 2 "PLAY [all]" "stdout"], w_db w').
Proof.
  assert ((Scan (pb_stdout both_pipes)).1 = ["PLAY [all]"]) as Ho by (vm_compute; reflexivity).
  assert ((Scan (pb_stderr both_pipes)).1 = ["warning"]) as He by (vm_compute; reflexivity).
  split; [exact Ho|]. split; [exact He|].
  apply (racing_lines_lost registered_client 8%N both_pipes _ _ assigned_world sample_tx Ho He);
    [vm_compute; reflexivity|vm_compute; discriminate|exact assigned_posting].
Defined.
