(* ===== verification/PlatformWitnesses.v ===== *)
(** * The theorems about whole programs and the platform at concrete inputs *)
From S2P Require Import Prelude.
From S2P Require Import Prog.
From S2P Require Import Types.
From S2P Require Import Strconv.
From S2P Require Import Text.
From S2P Require Import Config.
From S2P Require Import ConfigFacts.
From S2P Require Import Db.
From S2P Require Import Hoare.
From S2P Require Import ControllerStore.
From S2P Require Import Secrets.
From S2P Require Import Selector.
From S2P Require Import Transport.
From S2P Require Import Reconciler.
From S2P Require Import ApiStore.
From S2P Require Import ApiResources.
From S2P Require Import Http.
From S2P Require Import Auth.
From S2P Require Import JobHandlers.
From S2P Require Import ResourceHandlers.
From S2P Require Import AgentInventory.
From S2P Require Import AgentRunner.
From S2P Require Import AgentServer.
From S2P Require Import AgentServerFacts.
From S2P Require Import Process.
From S2P Require Import System.
From S2P Require Import Integrity.
From S2P Require Import Liveness.
From S2P Require Import Statuses.
From S2P Require Import AgentClient.
From S2P Require Import AgentClientFacts.
From S2P Require Import Platform.
From S2P Require Import Journey.
From S2P Require Import ProcessFacts.
From S2P Require Import Samples.
From S2P Require Import Witnesses.
From S2P Require Import AgentWitnesses.

(** ** Start-up *)

Definition key_variable : string := "AOP_ENCRYPTION_KEY=" +:+ hex_EncodeToString sample_key.
Definition controller_vars : list string := ["AOP_DB_URL=postgres://db"; "AOP_API_URL=http://api"; key_variable].
Definition api_vars : list string :=
  ["AOP_DB_URL=postgres://db"; key_variable; "AOP_JWT_SECRET=secret"; "AOP_REGISTRATION_TOKEN=join"].

Definition zero_vars : list string := controller_vars ++ ["AOP_RECONCILE_INTERVAL=0s"].

Lemma nonpositive_interval_panics_witness :
  rejected zero_vars controller_rules = [] ∧
  ParseDuration (Getenv zero_vars "AOP_RECONCILE_INTERVAL") = Ok 0%Z ∧
  ∃ reconcile gs, (exec (controller_main zero_vars) [] empty_world).1 = Up (reconcile :: gs) ∧
    ∀ events ans' w', exec (reconcile events) ans' w' = (Panicked, (ans', w')).
Proof.
  assert (rejected zero_vars controller_rules = []) as Hr by (vm_compute; reflexivity).
  assert (Getenv zero_vars "AOP_RECONCILE_INTERVAL" ≠ EmptyString) as Hs by (vm_compute; discriminate).
  assert (ParseDuration (Getenv zero_vars "AOP_RECONCILE_INTERVAL") = Ok 0%Z) as Hd by (vm_compute; reflexivity).
  split; [exact Hr|]. split; [exact Hd|].
  exact (nonpositive_interval_panics zero_vars 0 [] empty_world Hr Hs Hd (Z.le_refl 0) eq_refl eq_refl).
Defined.

(** ** One deployment *)

Definition loaded {A} (r : result A) (dflt : A) : A := match r with Ok x => x | Err _ => dflt end.
Definition api_loaded : Api.Config :=
  loaded (Api.Load api_vars) (Api.Build_Config "" [] "" 0 "" "" "" 0 "" []).
Definition controller_loaded : Controller.Config := loaded (Controller.Load controller_vars) sample_controller.
Definition deployed : Response * (list Answer * World) :=
  exec (Resources.CreateCredential (handlers_config api_loaded) (sample_request [] [] "{}" (Some 1%N) None))
    [sample_answer; sample_answer] empty_world.

Lemma deployed_credential_resolves_witness :
  Api.Load api_vars = Ok api_loaded ∧ Controller.Load controller_vars = Ok controller_loaded ∧
  deployed.1 = respond StatusCreated (BCredential created_row) ∧
  Credential_EncryptedData created_row = [] ∧
  ∃ body, json_Decode "{}" = Ok body ∧
    (exec (controller_Resolve (Controller.EncryptionKey controller_loaded) (Credential_ID created_row))
       [quiet_answer] deployed.2.2).1 =
      Ok {| CredentialSecret_Kind := Resources.CredentialBody_Kind body;
            CredentialSecret_Fields := default ∅ (Resources.CredentialBody_Fields body) |}.
Proof.
  assert (Api.Load api_vars = Ok api_loaded) as Ha by (vm_compute; reflexivity).
  assert (Controller.Load controller_vars = Ok controller_loaded) as Hc by (vm_compute; reflexivity).
  assert (Getenv api_vars "AOP_ENCRYPTION_KEY" = Getenv controller_vars "AOP_ENCRYPTION_KEY") as Hk
    by (vm_compute; reflexivity).
  assert (deployed.1 = respond StatusCreated (BCredential created_row)) as Hd by (vm_compute; reflexivity).
  split; [exact Ha|]. split; [exact Hc|]. split; [exact Hd|].
  refine (deployed_credential_resolves api_vars controller_vars api_loaded controller_loaded
    (sample_request [] [] "{}" (Some 1%N) None) [sample_answer; sample_answer] empty_world created_row
    deployed.2.2 [quiet_answer] Ha Hc Hk Hd _ eq_refl).
  repeat constructor.
Defined.

(** ** Sessions *)

(** A token is the claims, in the digits of their code. *)
Definition signing_jwt : JwtLib := {|
  jwt_Sign := λ _ c, Ok (String.string_of_list_byte (Byte.x2e :: bits_of_pos
    (encode (Claims_UserID c, Claims_Email c, Claims_ExpiresAt c, Claims_IssuedAt c))));
  jwt_Parse := λ _ tok now,
    match decode (pos_of_bits (tail (String.list_byte_of_string tok))) with
    | Some (u, e, x, i) =>
        if bool_decide (now < x)%Z
        then Ok {| Claims_UserID := u; Claims_Email := e; Claims_ExpiresAt := x; Claims_IssuedAt := i |}
        else Err (ErrText "token is expired")
    | None => Err (ErrText "token is malformed")
    end |}.

Lemma signing_jwt_laws : @JwtLaws signing_jwt.
Proof.
  split.
  - by intros secret c tok [= <-].
  - intros secret [u e x i] tok now [= <-] Hnow. cbn [jwt_Parse signing_jwt]. eexists.
    rewrite String.list_byte_of_string_of_list_byte. cbn [tail].
    rewrite pos_of_bits_of_pos, decode_encode. cbn in Hnow |- *. by rewrite bool_decide_eq_true_2.
Qed.

Definition plain_bcrypt : BcryptGen := {| GenerateFromPassword := λ _ pw _, Ok pw |}.
Lemma plain_bcrypt_laws : @BcryptLaws sample_bcrypt plain_bcrypt.
Proof. split. intros salt pw cost h [= <-]. by apply bool_decide_eq_true_2. Qed.

Definition seeded_user : User := Build_User 1 "ops@example.org" "hash" 0 0.
Definition seeded_world : World := MkWorld (set_users {[ 1%N := seeded_user ]} empty_db) sample_now [].
Definition login_request : Request := sample_request [] [] "{}" None None.

Lemma seeded_db_ok : db_ok (w_db seeded_world).
Proof. constructor; intros ?; intros; simpl in *; simplify_map_eq; try done; try (by eexists). Qed.

Lemma login_session_witness :
  db_ok (w_db seeded_world) ∧
  let '(resp, (_, w1)) := exec (@Login signing_jwt _ _ sample_api_cfg login_request) [] seeded_world in
  w_db w1 = w_db seeded_world ∧
  ((∃ tok, resp = respond StatusOK (BToken tok) ∧
     ∀ r2 ans2 w2, Header r2 "Authorization" = "Bearer " +:+ tok →
       (w_now (exec (@RequireUser _ signing_jwt "secret" r2) ans2 w2).2.2 + 10 ^ 9
        <= w_now seeded_world + cfg_JWTExpiry sample_api_cfg)%Z →
       (exec (@RequireUser _ signing_jwt "secret" r2) ans2 w2).1 = Some (with_user r2 1%N, None)) ∨
   (resp = internal_error ∧ ∃ c e, @jwt_Sign signing_jwt "secret" c = Err e)).
Proof.
  split; [exact seeded_db_ok|].
  refine (@login_session _ signing_jwt _ _ signing_jwt_laws plain_bcrypt plain_bcrypt_laws sample_api_cfg []
    ["hash"] seeded_user (Build_LoginBody "ops@example.org" "hash") login_request [] seeded_world
    eq_refl seeded_db_ok _ eq_refl eq_refl eq_refl (List.Forall_nil _)).
  vm_compute. reflexivity.
Defined.

(** ** The platform *)

(** The tick's request reaches the agent, which starts the job. *)
Definition edge : string := "http://edge-2".
Definition edge_payload : JobPayload :=
  match w_sent after_tick.1 with (_, Some p) :: _ => p | _ => sample_payload 0 "" end.
Definition edge_server (n : nat) : Server :=
  default (AgentServer.New 0)
    (srv_run "/tmp/aop" (Receive 0 (Ok edge_payload) :: repeat (go 0) n) (AgentServer.New 1)).
Definition running_platform : Platform :=
  MkPlatform after_tick (<[edge := edge_server 3]> (<[edge := edge_server 2]> (<[edge := edge_server 1]>
    (<[edge := edge_server 0]> {[ edge := AgentServer.New 1 ]})))) ({[ 0 ]} ∪ ∅) [(edge, 8%N)] [].

Lemma running_reach : platform_reach (λ _, "/tmp/aop") before_tick running_platform.
Proof.
  unfold platform_reach, running_platform. etrans; [apply server_reach, tick_reachable|].
  eapply rtc_l; [apply (pl_start _ _ _ _ _ _ edge 1)|].
  eapply rtc_l; [apply (pl_deliver _ _ _ _ _ _ 0 edge edge_payload 0 (AgentServer.New 1) (edge_server 0));
    [vm_compute; reflexivity|set_solver|apply lookup_insert_eq|vm_compute; reflexivity]|].
  do 3 (eapply rtc_l; [eapply (pl_agent _ _ _ _ _ _ edge (go 0)); [reflexivity|apply lookup_insert_eq|
    vm_compute; reflexivity]|]).
  apply rtc_refl.
Qed.

Lemma job_executed_once_witness :
  w_sent before_tick = [] ∧ platform_reach (λ _, "/tmp/aop") before_tick running_platform ∧
  NoDup (pl_started running_platform).*2 ∧ NoDup (pl_reported running_platform).*2 ∧
  (∀ a1 t1 a2 t2 id, holding unreported (pl_agents running_platform) a1 t1 id →
     holding unreported (pl_agents running_platform) a2 t2 id → a1 = a2 ∧ t1 = t2) ∧
  ∀ addr id, (addr, id) ∈ pl_started running_platform →
    (∃ p, (addr +:+ "/dispatch", Some p) ∈ w_sent (pl_sys running_platform).1 ∧ JobPayload_JobID p = id) ∧
    ∃ j a, db_jobs (w_db (pl_sys running_platform).1) !! id = Some j ∧ Job_Status j ≠ JobStatusPending ∧
      Job_AgentID j = Some a ∧ has_lived before_tick (pl_sys running_platform) a addr.
Proof.
  split; [reflexivity|]. split; [exact running_reach|].
  exact (job_executed_once (λ _, "/tmp/aop") before_tick running_platform eq_refl running_reach).
Defined.

(** ** A job from its dispatch to its stored result *)

Definition journey_addr : string := "http://edge-1:9000".
(** After a heartbeat. *)
Definition journey_row : AgentRow := with_status sample_now AgentStatusOnline (Some sample_now) registered_row.
Definition journey_world : World :=
  MkWorld (set_jobs {[ 8%N := sample_pending ]} (set_job_templates {[ 6%N := plain_template ]}
    (set_projects {[ 4%N := sample_project ]} (set_agents {[ 100%N := journey_row ]} empty_db)))) sample_now [].
Definition journey_sys : World * list (prog Ev unit) :=
  ((exec sample_tick [] journey_world).2.2, [Ret (exec sample_tick [] journey_world).1]).
Definition journey_payload : JobPayload :=
  match w_sent journey_sys.1 with (_, Some p) :: _ => p | _ => sample_payload 0 "" end.
Definition journey_result : Result := (host_run (Run "/tmp/aop" journey_payload) [] clean_host).1.
Definition journey_server (acts : list Act) : Server :=
  default (AgentServer.New 0) (srv_run "/tmp/aop" acts (AgentServer.New 1)).
Definition journey_steps : list Act := replicate 5 (go 0).
Definition journey_arrived : Server := journey_server [Receive 0 (Ok journey_payload)].
Definition journey_posted : Server := journey_server (Receive 0 (Ok journey_payload) :: journey_steps).

Lemma pending_ok : job_ok sample_pending.
Proof. split; vm_compute; naive_solver. Qed.

Lemma journey_db_ok : db_ok (w_db journey_world).
Proof. apply deployment_ok; [vm_compute; reflexivity|done..|by left|apply pending_ok]. Qed.

Lemma journey_reach :
  ∃ ags dl st rp, platform_reach (λ _, "/tmp/aop") journey_world
    (MkPlatform journey_sys (<[journey_addr := journey_posted]> ags) dl st rp).
Proof.
  destruct (agent_path (λ _, "/tmp/aop") journey_steps journey_sys
    (<[journey_addr := journey_arrived]> {[ journey_addr := AgentServer.New 1 ]}) ({[ 0 ]} ∪ ∅) [] []
    journey_addr journey_arrived journey_posted) as (st & rp & Hr);
    [by apply Forall_replicate|apply lookup_insert_eq|vm_compute; reflexivity|].
  do 4 eexists. unfold platform_reach.
  etrans; [apply server_reach, reachable_run, (spawn_goroutine sample_controller sample_goroutine); left|].
  eapply rtc_l; [apply (pl_start _ _ _ _ _ _ journey_addr 1)|].
  eapply rtc_l; [|exact Hr].
  apply (pl_deliver _ _ _ _ _ _ 0 journey_addr journey_payload 0 (AgentServer.New 1) journey_arrived);
    [vm_compute; reflexivity|set_solver|apply lookup_insert_eq|vm_compute; reflexivity].
Qed.

Definition journey_stored : Response * (list Answer * World) :=
  exec (as_agent Jobs.AgentPostResult received_result) [] journey_sys.1.

Lemma result_of_run_stored_witness :
  Result_Status journey_result = JobStatusSuccess ∧
  ∃ pl, platform_reach (λ _, "/tmp/aop") journey_world pl ∧ pl_agents pl !! journey_addr = Some journey_posted ∧
    (8%N, journey_result) ∈ srv_results journey_posted ∧
    (∃ p, sent_at (pl_sys pl).1 journey_addr p ∧ JobPayload_JobID p = 8%N ∧
       result_of_run "/tmp/aop" p journey_result) ∧
    ∃ now j', db_jobs (w_db journey_stored.2.2) = <[8%N := j']> (db_jobs (w_db journey_sys.1)) ∧
      Job_Status j' = Result_Status journey_result ∧ IsTerminal (Job_Status j') = true ∧ Job_EndedAt j' = Some now.
Proof.
  split; [vm_compute; reflexivity|]. destruct journey_reach as (ags & dl & st & rp & Hr).
  eexists. split; [exact Hr|]. cbn [pl_agents pl_sys].
  assert (<[journey_addr := journey_posted]> ags !! journey_addr = Some journey_posted) as Ha by apply lookup_insert_eq.
  assert ((8%N, journey_result) ∈ srv_results journey_posted) as Hin by (vm_compute; left).
  split; [exact Ha|]. split; [exact Hin|].
  destruct (result_of_run_stored (λ _, "/tmp/aop") journey_world _ journey_addr journey_posted 8%N journey_result
    registered_client journey_row sent_result no_content received_result [] eq_refl journey_db_ok Hr Ha Hin)
    as [Hp (j & a & Hj & Hag & _ & Hres)].
  split; [exact Hp|]. cbn [pl_sys] in Hj, Hres.
  assert (Job_AgentID <$> Some j = Some (Some 100%N)) as Hid by (rewrite <-Hj; vm_compute; reflexivity).
  cbn in Hid. rewrite Hag in Hid. injection Hid as ->.
  assert (delivered "http://api" "/agent/jobs/{job_id}/result" sent_result received_result) as Hd
    by (split; vm_compute; reflexivity).
  specialize (Hres eq_refl (List.Forall_nil _) eq_refl eq_refl eq_refl).
  assert (Client_token registered_client ≠ EmptyString) as Hne by (vm_compute; discriminate).
  specialize (Hres Hne). fold journey_stored in Hres.
  assert (journey_stored.1 = write_status StatusNoContent) as He by (vm_compute; reflexivity).
  destruct journey_stored as [resp [ans' w']]. cbn [fst snd] in He |- *. subst resp.
  apply Hres; [vm_compute; reflexivity|exact Hd|]. split; [reflexivity|]. intros id token [=].
Defined.

(** The job that runs is cancelled. *)
Lemma cancel_reaches_its_job_witness :
  platform_reach (λ _, "/tmp/aop") before_tick running_platform ∧
  ∃ t' c s', runs (edge_server 3) t' 8%N c ∧ (∀ t2 id2, runs (edge_server 3) t2 id2 c → t2 = t') ∧
     srv_run "/tmp/aop" [ReceiveCancel 5 "8"; go 5] (edge_server 3) = Some s' ∧
     srv_cancelled s' = {[ c ]} ∪ srv_cancelled (edge_server 3) ∧ srv_threads s' = srv_threads (edge_server 3) ∧
     srv_responses s' = srv_responses (edge_server 3) ++ [(5, StatusAccepted)].
Proof.
  split; [exact running_reach|].
  assert (pl_agents running_platform !! edge = Some (edge_server 3)) as Ha by apply lookup_insert_eq.
  assert (srv_threads (edge_server 3) !! 5 = None) as Hf by (vm_compute; reflexivity).
  assert (uuid_Parse "8" = Ok 8%N) as Hp by (vm_compute; reflexivity).
  destruct (cancel_reaches_its_job (λ _, "/tmp/aop") before_tick running_platform edge (edge_server 3) 5 "8" 8%N
    [] clean_host eq_refl running_reach Ha Hf Hp) as [Hc|[Hno _]]; [exact Hc|].
  exfalso. apply (Hno 0 0). vm_compute. reflexivity.
Defined.

(** A dispatch with another one, that is refused, in between. *)
Definition received_dispatch : Server := default (AgentServer.New 0) (srv_run "/tmp/aop" [dispatch 0 8] (AgentServer.New 1)).
Definition its_steps : list Act := [go 0; go 0; go 0; dispatch 1 16; go 1; go 0; go 0; go 0; go 0].

Lemma dispatch_ends_witness :
  srv_threads received_dispatch !! 0 = Some (AtCapacityCheck (sample_payload 8 "KEY")) ∧
  7 ≤ own 0 its_steps ∧
  ∃ pre post s1, its_steps = pre ++ post ∧ srv_run "/tmp/aop" pre received_dispatch = Some s1 ∧ own 0 pre ≤ 7 ∧
    over "/tmp/aop" 0 (sample_payload 8 "KEY") pre s1.
Proof.
  assert (srv_threads received_dispatch !! 0 = Some (AtCapacityCheck (sample_payload 8 "KEY"))) as Ht
    by (vm_compute; reflexivity).
  assert (7 ≤ own 0 its_steps) as Ho by (vm_compute; lia).
  split; [exact Ht|]. split; [exact Ho|].
  refine (dispatch_ends "/tmp/aop" its_steps received_dispatch
    (default (AgentServer.New 0) (srv_run "/tmp/aop" its_steps received_dispatch)) 0 _ Ht _ Ho).
  vm_compute. reflexivity.
Defined.

(** The clock goes on. *)
Lemma time_later w d ts : (0 <= d)%Z →
  sys_reach perform Spawned time_passes (w, ts) (MkWorld (w_db w) (w_now w + d) (w_sent w), ts).
Proof. intros Hd. apply rtc_once, step_env. split; [done|]. split; [done|]. cbn [w_now]. lia. Qed.

(** ** A job whose agent never answers *)

Definition waiting_world : World :=
  MkWorld (set_jobs {[ 8%N := sample_pending ]} (set_job_templates {[ 6%N := plain_template ]}
    (set_projects {[ 4%N := sample_project ]} (set_agents {[ 2%N := sample_agent 2 1 sample_now ]} empty_db))))
    sample_now [].

Lemma waiting_db_ok : db_ok (w_db waiting_world).
Proof. apply deployment_ok; [done..|by left|apply pending_ok]. Qed.

Definition first_tick : prog Ev unit := @tick _ (controller_SecretsProvider sample_key) _ _ sample_cfg.
Definition dispatched_world : World := (exec first_tick [quiet_answer] waiting_world).2.2.
(** Two minutes later. *)
Definition later_world : World :=
  MkWorld (w_db dispatched_world) (w_now dispatched_world + 120000000000) (w_sent dispatched_world).

Lemma every_job_ends_witness :
  Job_Status <$> db_jobs (w_db dispatched_world) !! 8%N = Some JobStatusDispatched ∧
  reachable dispatched_world (later_world, []) ∧
  ∃ j3, db_jobs (w_db (exec first_tick [] later_world).2.2) !! Job_ID sample_pending = Some j3 ∧
    IsTerminal (Job_Status j3) = true.
Proof.
  split; [vm_compute; reflexivity|].
  assert (reachable dispatched_world (later_world, [])) as Hr.
  { unfold later_world. by apply time_later. }
  split; [exact Hr|].
  refine (every_job_ends sample_key sample_key sample_cfg sample_cfg quiet_answer [] waiting_world [sample_pending]
    (w_db waiting_world) sample_pending later_world [] [] waiting_db_ok _ _ _ Hr (List.Forall_nil _) _).
  - repeat constructor.
  - vm_compute. reflexivity.
  - left.
  - intros j2 Hj2. vm_compute in Hj2. injection Hj2 as <-. vm_compute. reflexivity.
Defined.

Lemma empty_db_typed : db_typed empty_db.
Proof. constructor; intros ? ?; simpl; by rewrite lookup_empty. Qed.

Lemma statuses_typed_witness :
  db_typed (w_db empty_world) ∧ reachable empty_world after_register ∧
  size (db_agents (w_db after_register.1)) = 1 ∧ db_typed (w_db after_register.1).
Proof.
  split; [exact empty_db_typed|]. split; [exact register_reachable|]. split; [vm_compute; reflexivity|].
  exact (statuses_typed empty_world after_register empty_db_typed register_reachable).
Defined.
