(* ===== verification/SharingWitnesses.v ===== *)
(** * The theorems about the shared host at concrete inputs *)
From S2P Require Import Prelude.
From S2P Require Import Prog.
From S2P Require Import Types.
From S2P Require Import Text.
From S2P Require Import Paths.
From S2P Require Import AgentInventory.
From S2P Require Import AgentRunner.
From S2P Require Import AgentRunnerFacts.
From S2P Require Import AgentServer.
From S2P Require Import AgentServerFacts.
From S2P Require Import Sharing.
From S2P Require Import Cancellation.
From S2P Require Import Samples.
From S2P Require Import AgentWitnesses.
From stdpp Require Import pretty.

(** ** Identifiers in decimal *)

Lemma pretty_N_char_code d : (d < 10)%N → byte_of (pretty_N_char d) = (48 + d)%N.
Proof.
  intros Hd. assert (d = 0 ∨ d = 1 ∨ d = 2 ∨ d = 3 ∨ d = 4 ∨ d = 5 ∨ d = 6 ∨ d = 7 ∨ d = 8 ∨ d = 9)%N as Hc by lia.
  by destruct Hc as [->|[->|[->|[->|[->|[->|[->|[->|[->| ->]]]]]]]]].
Qed.

Lemma digit_bounds d : (d < 10)%N → ((48 <=? 48 + d) && (48 + d <=? 57))%N = true.
Proof. intros Hd. apply andb_true_iff. rewrite !N.leb_le. lia. Qed.

(** The last digit. *)
Lemma last_digit x : byte_of (pretty_N_char (x `mod` 10)) = (48 + x `mod` 10)%N ∧
  ((48 <=? 48 + x `mod` 10) && (48 + x `mod` 10 <=? 57))%N = true.
Proof.
  assert (x `mod` 10 < 10)%N as Hd by (by apply N.mod_lt).
  split; [by apply pretty_N_char_code|by apply digit_bounds].
Qed.

Lemma parse_pretty_go x s : parse_decimal 0 (pretty_N_go x s) = parse_decimal x s.
Proof.
  revert s. induction (N.lt_wf_0 x) as [x _ IH]. intros s. destruct (decide (0 < x)%N) as [Hx|Hx].
  - rewrite pretty_N_go_step by done. rewrite IH by (by apply N.div_lt). cbn [parse_decimal].
    destruct (last_digit x) as [-> ->]. f_equal. rewrite (N.add_comm 48), N.add_sub, N.mul_comm.
    symmetry. apply N.div_mod'.
  - assert (x = 0%N) as -> by lia. by rewrite pretty_N_go_0.
Qed.

(** Nothing but digits. *)
Fixpoint numeral (s : string) : bool :=
  match s with EmptyString => true | String c s => (48 <=? byte_of c)%N && (byte_of c <=? 57)%N && numeral s end.

Lemma pretty_go_numeral x s :
  numeral s = true → s ≠ EmptyString → numeral (pretty_N_go x s) = true ∧ pretty_N_go x s ≠ EmptyString.
Proof.
  revert s. induction (N.lt_wf_0 x) as [x _ IH]. intros s Hs Hne. destruct (decide (0 < x)%N) as [Hx|Hx].
  - rewrite pretty_N_go_step by done. apply IH; [by apply N.div_lt| |done]. cbn [numeral].
    by destruct (last_digit x) as [-> ->].
  - assert (x = 0%N) as -> by lia. by rewrite pretty_N_go_0.
Qed.

Lemma pretty_numeral (u : N) : numeral (pretty u) = true ∧ pretty u ≠ EmptyString.
Proof.
  unfold pretty, pretty_N. case_decide; [done|]. rewrite pretty_N_go_step by lia.
  apply pretty_go_numeral; [|done]. cbn [numeral].
  by destruct (last_digit u) as [-> ->].
Qed.

Lemma numeral_plain s : numeral s = true → s ≠ EmptyString → plain s.
Proof.
  intros Hs Hne. split_and!; [done|by intros ->..|]. clear Hne. unfold unsplit.
  induction s as [|c s IH]; [done|]. cbn [numeral] in Hs. apply andb_true_iff in Hs as [Hc Hs].
  cbn [SplitByte]. rewrite bool_decide_eq_false_2; [by rewrite IH|]. by intros ->.
Qed.

#[export] Instance sample_uuid_laws : UuidLaws.
Proof.
  split. intros u. cbn [uuid_Parse uuid_String sample_uuid].
  assert (parse_decimal 0 (pretty u) = Ok u) as Hp.
  { unfold pretty, pretty_N. case_decide as E; [by rewrite E|]. apply parse_pretty_go. }
  destruct (pretty_numeral u) as [_ Hne]. by destruct (pretty u).
Qed.

#[export] Instance sample_uuid_text : UuidText.
Proof. split. intros u. destruct (pretty_numeral u). by apply numeral_plain. Qed.

(** ** Two jobs on one host *)

Definition arrive (t : nat) (id : uuid) : list Move := [Listen (dispatch t id); Listen (go t); Listen (go t); Start t].

(** The first job clones its repository while the second one writes its key. *)
Definition two_jobs : list Move :=
  arrive 0 8 ++ arrive 1 16 ++
  [Answered 0 8 quiet_host; Answered 1 16 quiet_host; Answered 0 8 quiet_host; Answered 0 8 good_disk;
   Answered 1 16 quiet_host].

Definition idle_agent : Agent := start 2 clean_host.
Definition sharing_agent : Agent := default idle_agent (moves "/tmp/aop" two_jobs idle_agent).

Lemma tidy_quiet id : tidy "/tmp/aop" id quiet_host.
Proof. split; [done|]. intros id' path _ Hw. destruct Hw. apply lookup_empty. Qed.

Lemma tidy_clone : tidy "/tmp/aop" 8 good_disk.
Proof.
  split; [done|]. intros id' path Hp Hw. cbn [ha_writes good_disk] in Hw. unfold cloned in Hw.
  destruct (decide (path = "/tmp/aop/8/repo/site.yml")) as [->|Hne]; [|destruct Hw; by apply lookup_singleton_ne].
  apply (id_dir_disjoint "/tmp/aop" _ _ _ Hp). vm_compute. reflexivity.
Qed.

Lemma two_jobs_reach : agent_reach "/tmp/aop" (tidy "/tmp/aop") idle_agent sharing_agent.
Proof.
  apply (moves_reach _ _ two_jobs); [|vm_compute; reflexivity].
  repeat (apply Forall_cons; split; [first [exact I|apply tidy_quiet|apply tidy_clone]|]). constructor.
Qed.

Lemma agent_refines_witness :
  agent_reach "/tmp/aop" (tidy "/tmp/aop") idle_agent sharing_agent ∧
  srv_count (ag_srv sharing_agent) = 2%Z ∧
  srv_reach "/tmp/aop" fresh_ids (AgentServer.New 2) (ag_srv sharing_agent).
Proof.
  split; [exact two_jobs_reach|]. split; [vm_compute; reflexivity|].
  exact (agent_refines "/tmp/aop" (tidy "/tmp/aop") 2 clean_host sharing_agent two_jobs_reach).
Defined.

Lemma jobs_isolated_witness :
  (∀ id, no_files "/tmp/aop" clean_host id) ∧
  h_files (ag_host sharing_agent) !! "/tmp/aop/8/id_rsa" = Some (384%Z, "KEY") ∧
  h_files (ag_host sharing_agent) !! "/tmp/aop/16/id_rsa" = Some (384%Z, "KEY") ∧
  (∀ t p ctx, srv_threads (ag_srv sharing_agent) !! t = Some (Executing p ctx) →
     as_if_alone "/tmp/aop" (tidy "/tmp/aop") clean_host sharing_agent t p) ∧
  (∀ id, idle (ag_srv sharing_agent) id → no_files "/tmp/aop" (ag_host sharing_agent) id).
Proof.
  assert (∀ id, no_files "/tmp/aop" clean_host id) as Hc by (intros id path _; apply lookup_empty).
  split; [exact Hc|]. split; [vm_compute; reflexivity|]. split; [vm_compute; reflexivity|].
  exact (jobs_isolated "/tmp/aop" 2 clean_host sharing_agent Hc two_jobs_reach).
Defined.

(** ** A job cancelled while its playbook runs *)

Definition told : HostAnswer := {|
  ha_mkdir := Ok (); ha_removeall := Ok (); ha_remove := Ok (); ha_write := Ok ();
  ha_partial := None; ha_kept := ∅; ha_command := Ok (); ha_writes := ∅;
  ha_end := {| pb_stdout := "ok"; pb_stderr := EmptyString; pb_schedule := []; pb_wait := WaitOk |};
  ha_cancelled := true |}.

Definition until_cancelled : list Move :=
  arrive 0 8 ++ replicate 6 (Answered 0 8 quiet_host) ++ [Listen (ReceiveCancel 1 "8"); Listen (go 1)].
Definition until_reported : list Move := replicate 5 (Answered 0 8 told) ++ [Return 0].

Definition cancelled_agent : Agent := default idle_agent (moves "/tmp/aop" until_cancelled idle_agent).
Definition reporting_agent : Agent := default idle_agent (moves "/tmp/aop" until_reported cancelled_agent).
Definition left_to_do : prog HostEv Result := default (Ret failed) (ag_runs cancelled_agent !! 0).

Lemma cancelled_agent_reach : agent_reach "/tmp/aop" (λ _ _, True) idle_agent cancelled_agent.
Proof. apply (moves_reach _ _ until_cancelled); [by repeat constructor|vm_compute; reflexivity]. Qed.

Lemma reporting_agent_reach : agent_reach "/tmp/aop" (λ _ _, True) cancelled_agent reporting_agent.
Proof. apply (moves_reach _ _ until_reported); [by repeat constructor|vm_compute; reflexivity]. Qed.

(** The run comes to ask about its context. *)
Definition asks (p : prog HostEv Result) : bool := match p with Vis CtxErr _ => true | _ => false end.

Lemma asks_not p : all_events not_asking p → asks p = false.
Proof. destruct p as [r|X [] k]; cbn; try done. by intros []. Qed.

(** The playbook exits with 0 all the same. *)
Lemma cancel_honoured_witness :
  srv_threads (ag_srv cancelled_agent) !! 0 = Some (Executing (sample_payload 8 "KEY") 0) ∧
  0 ∈ srv_cancelled (ag_srv cancelled_agent) ∧ ¬ all_events not_asking left_to_do ∧
  srv_threads (ag_srv reporting_agent) !! 0 =
    Some (AtReport (sample_payload 8 "KEY") 0 (Build_Result JobStatusCancelled 0)) ∧
  called_off (Build_Result JobStatusCancelled 0).
Proof.
  assert (srv_threads (ag_srv cancelled_agent) !! 0 = Some (Executing (sample_payload 8 "KEY") 0)) as Ht
    by (vm_compute; reflexivity).
  assert (0 ∈ srv_cancelled (ag_srv cancelled_agent)) as Hc by (vm_compute; reflexivity).
  assert (¬ all_events not_asking left_to_do) as Hn.
  { intros Hall. apply (alone_events _ _ (replicate 2 told) clean_host), asks_not in Hall.
    revert Hall. vm_compute. discriminate. }
  assert (ag_runs cancelled_agent !! 0 = Some left_to_do) as Hq by (vm_compute; reflexivity).
  assert (srv_threads (ag_srv reporting_agent) !! 0 =
    Some (AtReport (sample_payload 8 "KEY") 0 (Build_Result JobStatusCancelled 0))) as Hr by (vm_compute; reflexivity).
  split; [exact Ht|]. split; [exact Hc|]. split; [exact Hn|]. split; [exact Hr|].
  exact (proj1 (cancel_honoured "/tmp/aop" (λ _ _, True) 2 clean_host cancelled_agent reporting_agent 0 _ 0 left_to_do
    cancelled_agent_reach Ht Hc Hq Hn reporting_agent_reach 0 _ _ Hr)).
Defined.
