(* ===== verification/GrainWitnesses.v ===== *)
(** * The theorems about the platform at the grain of host interactions, at concrete inputs *)
From S2P Require Import Prelude.
From S2P Require Import Prog.
From S2P Require Import Types.
From S2P Require Import Strconv.
From S2P Require Import Text.
From S2P Require Import Config.
From S2P Require Import ConfigFacts.
From S2P Require Import Db.
From S2P Require Import Hoare.
From S2P Require Import ControllerStore.
From S2P Require Import Secrets.
From S2P Require Import Selector.
From S2P Require Import Transport.
From S2P Require Import Reconciler.
From S2P Require Import ApiStore.
From S2P Require Import ApiResources.
From S2P Require Import Http.
From S2P Require Import Auth.
From S2P Require Import JobHandlers.
From S2P Require Import ResourceHandlers.
From S2P Require Import AgentInventory.
From S2P Require Import AgentRunner.
From S2P Require Import AgentServer.
From S2P Require Import AgentServerFacts.
From S2P Require Import Process.
From S2P Require Import System.
From S2P Require Import Integrity.
From S2P Require Import Liveness.
From S2P Require Import Statuses.
From S2P Require Import AgentClient.
From S2P Require Import AgentClientFacts.
From S2P Require Import Platform.
From S2P Require Import Journey.
From S2P Require Import ProcessFacts.
From S2P Require Import Samples.
From S2P Require Import Witnesses.
From S2P Require Import AgentWitnesses.
From S2P Require Import Paths.
From S2P Require Import AgentRunnerFacts.
From S2P Require Import Sharing.
From S2P Require Import Grain.
From S2P Require Import Cancellation.
From S2P Require Import PlatformWitnesses.
From S2P Require Import SharingWitnesses.
From stdpp Require Import functions.

(** The tick's request reaches the agent, which starts the job and writes its
    vault password. *)
Definition edge_dir (addr : string) : string := "/tmp/aop".
Definition edge_hosts (addr : string) : Host := clean_host.
(** os.RemoveAll may fail, but not for the job 8. *)
Definition edge_answers (addr : string) (id : uuid) (a : HostAnswer) : Prop :=
  keeps_out (edge_dir addr) id a ∧ (id = 8%N → removeall_ok a).
Definition edge_moves : list Move := [Listen (go 0); Listen (go 0); Start 0] ++ replicate 3 (Answered 0 8 quiet_host).
Definition edge_arrived : Agent := MkAgent (edge_server 0) ∅ clean_host.
Definition edge_running : Agent := default edge_arrived (moves "/tmp/aop" edge_moves edge_arrived).

Definition arrived_grain : Grain :=
  MkGrain after_tick (<[edge := (edge_server 0, ∅)]> {[ edge := (AgentServer.New 1, ∅) ]}) edge_hosts ({[ 0 ]} ∪ ∅) [] [].

Lemma arrived_reach : grain_reach edge_dir edge_answers before_tick edge_hosts arrived_grain.
Proof.
  unfold grain_reach, arrived_grain. etrans.
  { assert (∀ sys sys', sys_reach perform Spawned time_passes sys sys' →
      rtc (grain_step edge_dir edge_answers) (MkGrain sys ∅ edge_hosts ∅ [] []) (MkGrain sys' ∅ edge_hosts ∅ [] [])) as Hs.
    { intros sys sys' Hr. induction Hr as [|s1 s2 s3 Hs _ IH]; [apply rtc_refl|]. eapply rtc_l; [by apply gr_server|done]. }
    apply Hs, tick_reachable. }
  eapply rtc_l; [apply (gr_start _ _ _ _ _ _ _ _ edge 1)|].
  apply rtc_once. apply (gr_deliver _ _ _ _ _ _ _ _ 0 edge edge_payload 0 (AgentServer.New 1) ∅ (edge_server 0));
    [vm_compute; reflexivity|set_solver|apply lookup_insert_eq|vm_compute; reflexivity].
Qed.

(** What a computation yields, without normalising it. *)
Lemma Some_default {X} (m : option X) d : match m with Some _ => true | None => false end = true → m = Some (default d m).
Proof. by destruct m. Qed.

(** The agent moves on, from a state of the platform to another. *)
Lemma edge_path ms g s' :
  is_Some (gr_agents g !! edge) → Forall (λ m, allowed (edge_answers edge) m ∧ move_dispatches m = false) ms →
  moves "/tmp/aop" ms (agent_at g edge) = Some s' →
  ∃ g', rtc (grain_step edge_dir edge_answers) g g' ∧ agent_at g' edge = s' ∧ is_Some (gr_agents g' !! edge).
Proof. apply (grain_moves edge_dir edge_answers ms g edge s'). Qed.

Lemma tidy_told id : tidy "/tmp/aop" id told.
Proof. split; [done|]. intros id' path _ Hw. destruct Hw. apply lookup_empty. Qed.

Lemma tidy_allowed addr id a : tidy (edge_dir addr) id a → edge_answers addr id a.
Proof. by intros [? ?]. Qed.

Ltac allowed_moves :=
  cbn [app replicate];
  repeat (constructor; [split; [first [exact I|apply tidy_allowed, tidy_quiet|apply tidy_allowed, tidy_told]|
    reflexivity]|]); constructor.

Lemma edge_running_reach :
  ∃ g, grain_reach edge_dir edge_answers before_tick edge_hosts g ∧ agent_at g edge = edge_running ∧
    is_Some (gr_agents g !! edge).
Proof.
  destruct (edge_path edge_moves arrived_grain edge_running) as (g & Hr & Hg & Ha).
  - eexists. apply lookup_insert_eq.
  - unfold edge_moves. allowed_moves.
  - apply Some_default. vm_compute. reflexivity.
  - exists g. split; [|exact (conj Hg Ha)]. pose proof arrived_reach as H0. unfold grain_reach in *. by etrans.
Qed.

(** Its vault password is on the disk while the job runs, and its directory holds
    what it would had the job run alone; no other job has files. *)
Lemma grain_refines_witness :
  ∃ g, grain_reach edge_dir edge_answers before_tick edge_hosts g ∧
    srv_count (ag_srv (agent_at g edge)) = 1%Z ∧ platform_reach edge_dir before_tick (forget g).
Proof.
  destruct edge_running_reach as (g & Hr & Hg & _). exists g. split; [exact Hr|].
  split; [rewrite Hg; vm_compute; reflexivity|]. exact (grain_refines edge_dir edge_answers before_tick edge_hosts g Hr).
Defined.

Lemma platform_isolates_witness :
  ∃ g, grain_reach edge_dir edge_answers before_tick edge_hosts g ∧
    h_files (ag_host (agent_at g edge)) !! "/tmp/aop/8/vault_pass.txt" = Some (384%Z, "s3cret") ∧
    (∀ addr t p ctx, srv_threads (ag_srv (agent_at g addr)) !! t = Some (Executing p ctx) →
       as_if_alone (edge_dir addr) (edge_answers addr) (edge_hosts addr) (agent_at g addr) t p) ∧
    (∀ addr, idle (ag_srv (agent_at g addr)) 8 → ¬ interrupted g addr 8 →
       no_files (edge_dir addr) (gr_hosts g addr) 8).
Proof.
  destruct edge_running_reach as (g & Hr & Hg & _). exists g. split; [exact Hr|].
  split; [rewrite Hg; vm_compute; reflexivity|].
  destruct (platform_isolates edge_dir edge_answers before_tick edge_hosts g) as [Halone Hidle];
    [reflexivity|by intros addr id a [Ha _]|by intros addr id path _; apply lookup_empty|exact Hr|].
  split; [exact Halone|]. intros addr Hid Hn. apply (Hidle addr 8%N Hid Hn). by intros a [_ Ha]; apply Ha.
Defined.

(** An agent that stops, even on a signal, leaves the secrets of the jobs it ran
    on the disk, and nothing removes them when it starts again. *)
Lemma secret_outlives_agent capacity :
  ∃ g, grain_reach edge_dir edge_answers before_tick edge_hosts g ∧
    ag_srv (agent_at g edge) = AgentServer.New capacity ∧
    h_files (gr_hosts g edge) !! "/tmp/aop/8/vault_pass.txt" = Some (384%Z, "s3cret").
Proof.
  destruct edge_running_reach as ([sys ags hosts dl st rp] & Hr & Hg & _).
  exists (MkGrain sys (<[edge := (AgentServer.New capacity, ∅)]> (delete edge ags)) hosts dl st rp). split.
  - eapply rtc_r; [|apply gr_start]. eapply rtc_r; [exact Hr|apply gr_stop].
  - rewrite agent_at_insert, decide_True by done. split; [done|]. cbn [gr_hosts].
    change (hosts edge) with (ag_host (agent_at (MkGrain sys ags hosts dl st rp) edge)). rewrite Hg. by vm_compute.
Qed.

(** The job is cancelled before its playbook starts; it goes on until the playbook
    is due, which then starts and is killed. *)
Definition killed : HostAnswer := {|
  ha_mkdir := Ok (); ha_removeall := Ok (); ha_remove := Ok (); ha_write := Ok ();
  ha_partial := None; ha_kept := ∅; ha_command := Ok (); ha_writes := ∅;
  ha_end := {| pb_stdout := "ok"; pb_stderr := EmptyString; pb_schedule := []; pb_wait := WaitErr |};
  ha_cancelled := true |}.

Definition edge_told : list Move :=
  [Listen (ReceiveCancel 1 "8"); Listen (go 1)] ++ replicate 2 (Answered 0 8 killed).
Definition edge_rest : list Move := replicate 6 (Answered 0 8 killed) ++ [Return 0].
Definition edge_cancelled : Agent := default edge_arrived (moves "/tmp/aop" edge_told edge_running).
Definition edge_reporting : Agent := default edge_arrived (moves "/tmp/aop" edge_rest edge_cancelled).
Definition edge_left : prog HostEv Result := default (Ret failed) (ag_runs edge_cancelled !! 0).

Lemma cancellation_honoured_witness :
  ∃ g g' q, grain_reach edge_dir edge_answers before_tick edge_hosts g ∧
    srv_threads (ag_srv (agent_at g edge)) !! 0 = Some (Executing edge_payload 0) ∧
    ag_runs (agent_at g edge) !! 0 = Some q ∧ playbook_due q ∧
    rtc (grain_step edge_dir edge_answers) g g' ∧
    srv_threads (ag_srv (agent_at g' edge)) !! 0 =
      Some (AtReport edge_payload 0 (Build_Result JobStatusCancelled (-1))) ∧
    Result_Status (Build_Result JobStatusCancelled (-1)) = JobStatusCancelled.
Proof.
  destruct edge_running_reach as (g0 & Hr0 & Hg0 & Ha0).
  destruct (edge_path edge_told g0 edge_cancelled) as (g & Hr & Hg & Ha);
    [done|unfold edge_told; allowed_moves|rewrite Hg0; apply Some_default; vm_compute; reflexivity|].
  destruct (edge_path edge_rest g edge_reporting) as (g' & Hr' & Hg' & _);
    [done|unfold edge_rest; allowed_moves|rewrite Hg; apply Some_default; vm_compute; reflexivity|].
  assert (grain_reach edge_dir edge_answers before_tick edge_hosts g) as Hreach
    by (unfold grain_reach in *; by etrans).
  assert (srv_threads (ag_srv (agent_at g edge)) !! 0 = Some (Executing edge_payload 0)) as Ht
    by (rewrite Hg; vm_compute; reflexivity).
  assert (0 ∈ srv_cancelled (ag_srv (agent_at g edge))) as Hc by (rewrite Hg; vm_compute; reflexivity).
  assert (ag_runs (agent_at g edge) !! 0 = Some edge_left) as Hq
    by (rewrite Hg; apply Some_default; vm_compute; reflexivity).
  assert (¬ all_events not_asking edge_left) as Hn.
  { intros Hall. apply (alone_events _ _ (replicate 3 killed) clean_host), asks_not in Hall.
    revert Hall. vm_compute. discriminate. }
  assert (playbook_due edge_left) as Hdue by (vm_compute; exact I).
  assert (srv_threads (ag_srv (agent_at g' edge)) !! 0 =
    Some (AtReport edge_payload 0 (Build_Result JobStatusCancelled (-1)))) as Ht'
    by (rewrite Hg'; vm_compute; reflexivity).
  exists g, g', edge_left. split; [exact Hreach|]. split; [exact Ht|]. split; [exact Hq|]. split; [exact Hdue|].
  split; [exact Hr'|]. split; [exact Ht'|].
  exact (proj1 (cancellation_honoured edge_dir edge_answers before_tick edge_hosts g g' edge 0 edge_payload 0 edge_left
    eq_refl Hreach Ht Hc Hq Hn Hr' edge 0 edge_payload 0 _ Ht' eq_refl) Hdue).
Defined.
