(* ===== verification/AccessWitnesses.v ===== *)
(** * The theorems about access, the queue, messages and lifetimes at concrete inputs *)
From S2P Require Import Prelude.
From S2P Require Import Prog.
From S2P Require Import Types.
From S2P Require Import Db.
From S2P Require Import Hoare.
From S2P Require Import Lifecycle.
From S2P Require Import Secrets.
From S2P Require Import Reconciler.
From S2P Require Import ReconcilerFacts.
From S2P Require Import ApiStore.
From S2P Require Import Http.
From S2P Require Import Auth.
From S2P Require Import JobHandlers.
From S2P Require Import Server.
From S2P Require Import System.
From S2P Require Import Integrity.
From S2P Require Import Registry.
From S2P Require Import Dormant.
From S2P Require Import Queue.
From S2P Require Import Access.
From S2P Require Import Lifetime.
From S2P Require Import Messages.
From S2P Require Import Samples.
From S2P Require Import Witnesses.
From S2P Require Import AgentWitnesses.
From S2P Require Import PlatformWitnesses.

Definition result_route : Route := Post AgentGroup "/agent/jobs/{job_id}/result" Jobs.AgentPostResult.

Lemma result_route_agent : result_route ∈ agent_routes sample_api_cfg.
Proof. right. right. left. Qed.

Lemma result_route_served : result_route ∈ routes sample_api_cfg.
Proof. apply elem_of_app. right. apply elem_of_app. right. exact result_route_agent. Qed.

(** A user lists the jobs with a stored API token, which is then touched. *)
Definition list_route : Route := Get UserGroup "/jobs" Jobs.ListJobs.
Definition list_served : Served * (list Answer * World) :=
  exec (serve sample_api_cfg list_route token_request) [] before_tick.

Lemma list_route_served : list_route ∈ routes sample_api_cfg.
Proof. apply elem_of_app. right. apply elem_of_app. left. do 27 right. left. Qed.

Lemma changes_need_credential_witness :
  list_route ∈ routes sample_api_cfg ∧
  resp_status list_served.1.1 = StatusOK ∧ list_served.1.2 = [touch 20] ∧
  APIToken_LastUsedAt <$> db_api_tokens (w_db (exec (touch 20) [] list_served.2.2).2.2) !! 20%N = Some (Some sample_now) ∧
  let '((resp, started), (_, w')) := list_served in
  (w_db w' = w_db before_tick ∨
   (route_method list_route ≠ "GET" ∧ credential sample_api_cfg list_route token_request before_tick w')) ∧
  (route_guard list_route = Public ∨ resp = unauthorized ∨
   credential sample_api_cfg list_route token_request before_tick w') ∧
  (∀ g, g ∈ started → ∃ id, route_guard list_route = UserGroup ∧ token_presented token_request (w_db before_tick) id ∧
     ∀ ans2 w2, only_touched id (w_db w2) (w_db (exec g ans2 w2).2.2)).
Proof.
  split; [exact list_route_served|]. split; [vm_compute; reflexivity|]. split; [vm_compute; reflexivity|].
  split; [vm_compute; reflexivity|]. unfold list_served.
  exact (changes_need_credential sample_api_cfg list_route token_request [] before_tick list_route_served).
Defined.

(** The agent's report. *)
Definition after_report : World := (exec (serve sample_api_cfg result_route received_result) [] assigned_world).2.2.

Lemma agent_confined_witness :
  result_route ∈ agent_routes sample_api_cfg ∧ db_ok (w_db assigned_world) ∧
  Job_Status <$> db_jobs (w_db after_report) !! 8%N = Some JobStatusSuccess ∧
  (w_db after_report = w_db assigned_world ∨
   ∃ a, agent_authenticated received_result (w_db assigned_world) a ∧
     confined a (w_db assigned_world) (w_db after_report)).
Proof.
  split; [exact result_route_agent|]. split; [exact assigned_db_ok|]. split; [vm_compute; reflexivity|].
  pose proof (agent_confined sample_api_cfg result_route received_result [] assigned_world result_route_agent
    assigned_db_ok) as Hc. unfold after_report. destruct (exec _ _ _) as [resp [ans' w']]. exact Hc.
Defined.

(** A second after the job was created, the first tick takes it. *)
Definition queued_world : World := MkWorld (w_db waiting_world) (sample_now + 10 ^ 9) [].
Definition taken_world : World := (exec first_tick [quiet_answer] queued_world).2.2.

Lemma one_round : rounds 1 (queued_world, []) (taken_world, []).
Proof.
  unfold taken_world, first_tick.
  refine (rounds_S 0 (queued_world, []) queued_world [] sample_key sample_cfg quiet_answer [] _ (rtc_refl _ _) _
    (rounds_O _ _ (rtc_refl _ _))).
  by repeat constructor.
Qed.

Lemma no_starvation_witness :
  db_ok (w_db queued_world) ∧ size (waiting sample_now (w_db queued_world)) = 1 ∧
  rounds 1 (queued_world, []) (taken_world, []) ∧
  ∃ j', db_jobs (w_db taken_world) !! 8%N = Some j' ∧ Job_Status j' ≠ JobStatusPending.
Proof.
  assert (size (waiting sample_now (w_db queued_world)) = 1) as Hs by (vm_compute; reflexivity).
  split; [exact waiting_db_ok|]. split; [exact Hs|]. split; [exact one_round|].
  refine (no_starvation 1 queued_world (taken_world, []) 8 sample_pending waiting_db_ok _ _ _ one_round).
  - vm_compute. reflexivity.
  - vm_compute. reflexivity.
  - change (Job_CreatedAt sample_pending) with sample_now. rewrite Hs. apply le_S_n. repeat constructor.
Defined.

(** ** A request to run a template *)

Definition job_request : Request := sample_request [] [("Authorization", "Bearer session")] "{}" None None.
Definition job_served : Served * (list Answer * World) :=
  exec (serve sample_api_cfg job_route job_request) [sample_answer; sample_answer; sample_answer] waiting_world.
Definition requested_job : Job :=
  match resp_body job_served.1.1 with BJob j => j | _ => sample_pending end.
(** A second later; after a tick; two minutes after that. *)
Definition asked_world : World :=
  MkWorld (w_db job_served.2.2) (w_now job_served.2.2 + 10 ^ 9) (w_sent job_served.2.2).
Definition answered_world : World := (exec first_tick [quiet_answer] asked_world).2.2.
Definition forgotten_world : World :=
  MkWorld (w_db answered_world) (w_now answered_world + 120000000000) (w_sent answered_world).

Lemma asked_reachable : reachable job_served.2.2 (asked_world, []).
Proof. unfold asked_world. by apply time_later. Qed.

Lemma forgotten_reachable : sys_reach perform Spawned time_passes (answered_world, []) (forgotten_world, []).
Proof. unfold forgotten_world. by apply time_later. Qed.

Lemma answered_round : rounds 1 (asked_world, []) (answered_world, []).
Proof.
  unfold answered_world, first_tick.
  refine (rounds_S 0 (asked_world, []) asked_world [] sample_key sample_cfg quiet_answer [] _ (rtc_refl _ _) _
    (rounds_O _ _ (rtc_refl _ _))).
  by repeat constructor.
Qed.

Lemma requested_job_ends_witness :
  db_ok (w_db waiting_world) ∧ resp_status job_served.1.1 = StatusCreated ∧
  job_served.1.1 = respond StatusCreated (BJob requested_job) ∧
  (∃ j3, db_jobs (w_db answered_world) !! Job_ID requested_job = Some j3 ∧ Job_Status j3 ≠ JobStatusPending) ∧
  ∃ j5, db_jobs (w_db (exec first_tick [] forgotten_world).2.2) !! Job_ID requested_job = Some j5 ∧
    IsTerminal (Job_Status j5) = true ∧ job_evolves requested_job j5.
Proof.
  assert (resp_status job_served.1.1 = StatusCreated) as Hst by (vm_compute; reflexivity).
  split; [exact waiting_db_ok|]. split; [exact Hst|].
  pose proof (requested_job_ends sample_api_cfg job_request [sample_answer; sample_answer; sample_answer] waiting_world
    waiting_db_ok) as Hr.
  fold job_served in Hr. rewrite (surjective_pairing job_served), (surjective_pairing job_served.1),
    (surjective_pairing job_served.2) in Hr.
  cbv beta iota in Hr. destruct (Hr Hst) as (j & Hresp & _ & _ & _ & _ & Hend). clear Hr.
  assert (requested_job = j) as Ej by (unfold requested_job; by rewrite Hresp).
  split; [by rewrite Ej|]. rewrite <-Ej in Hend. clear Ej Hresp.
  assert (Job_CreatedAt requested_job < w_now asked_world)%Z as Hnow by (vm_compute; reflexivity).
  assert (size (waiting (Job_CreatedAt requested_job) (w_db asked_world)) ≤ 50 * 1) as Hsize
    by (apply Nat.leb_le; vm_compute; reflexivity).
  destruct (Hend 1 (asked_world, []) (answered_world, []) forgotten_world [] sample_key sample_cfg []
    asked_reachable Hnow Hsize answered_round) as [H3 H5].
  split; [exact H3|]. refine (H5 forgotten_reachable (List.Forall_nil _) _).
  intros j4 Hj4. vm_compute in Hj4. injection Hj4 as <-. vm_compute. reflexivity.
Defined.

(** ** What is sent for it *)

Definition sent_world : World * list (prog Ev unit) :=
  ((exec sample_tick [] waiting_world).2.2, [Ret (exec sample_tick [] waiting_world).1]).
Definition sent_payload : JobPayload :=
  match w_sent sent_world.1 with (_, Some p) :: _ => p | _ => sample_payload 0 "" end.

Lemma sent_reachable : reachable waiting_world sent_world.
Proof. apply reachable_run, (spawn_goroutine sample_controller sample_goroutine). left. Qed.

Lemma dispatched_as_requested_witness :
  db_ok (w_db waiting_world) ∧ w_sent waiting_world = [] ∧ reachable waiting_world sent_world ∧
  ("http://edge-2/dispatch", Some sent_payload) ∈ w_sent sent_world.1 ∧
  JobPayload_Playbook sent_payload = "site.yml" ∧
  ∃ key cfg j tmpl project dbt dbp dbh dbc creds,
    db_jobs (w_db sent_world.1) !! JobPayload_JobID sent_payload = Some j ∧
    (passed waiting_world sent_world dbt ∧ db_job_templates dbt !! Job_TemplateID j = Some tmpl) ∧
    (passed waiting_world sent_world dbp ∧ db_projects dbp !! JobTemplate_ProjectID tmpl = Some project) ∧
    passed waiting_world sent_world dbh ∧
    (passed waiting_world sent_world dbc ∧
     credentials_of key dbc (JobTemplate_CredentialID tmpl) = Some creds) ∧
    sent_payload = payload_from cfg j tmpl project (project_hosts dbh (JobTemplate_ProjectID tmpl)) creds.
Proof.
  assert (w_sent sent_world.1 = [("http://edge-2/dispatch", Some sent_payload)]) as Hs by (vm_compute; reflexivity).
  assert (("http://edge-2/dispatch", Some sent_payload) ∈ w_sent sent_world.1) as Hin by (rewrite Hs; left).
  split; [exact waiting_db_ok|]. split; [reflexivity|]. split; [exact sent_reachable|]. split; [exact Hin|].
  split; [vm_compute; reflexivity|].
  exact (dispatched_as_requested waiting_world sent_world _ sent_payload waiting_db_ok eq_refl sent_reachable Hin).
Defined.

(** ** A job cancelled by its user while its agent runs it *)

Definition tick_job : Job := default sample_pending (db_jobs (w_db after_tick.1) !! 8%N).

Lemma no_cancel_sent_witness :
  w_sent before_tick = [] ∧ reachable before_tick after_tick ∧
  Forall dispatch_message (w_sent after_tick.1) ∧
  let '(resp, (_, w1)) := exec (Jobs.CancelJob cancel_request) [sample_answer] after_tick.1 in
  let '(_, (_, w2)) := exec (Jobs.AgentPostResult result_request) [sample_answer] w1 in
  resp = write_status StatusNoContent ∧
  Job_Status <$> db_jobs (w_db w1) !! 8%N = Some JobStatusCancelled ∧
  Job_Status <$> db_jobs (w_db w2) !! 8%N = Some JobStatusSuccess.
Proof.
  pose proof tick_reachable as Hr. split; [reflexivity|]. split; [exact Hr|].
  destruct (no_cancel_sent before_tick after_tick eq_refl Hr) as [Hsent Hres]. split; [exact Hsent|].
  assert (Forall faultless [sample_answer]) as Ha by (repeat constructor).
  assert (db_jobs (w_db after_tick.1) !! 8%N = Some tick_job) as Hj by (vm_compute; reflexivity).
  assert (IsTerminal (Job_Status tick_job) = false) as Hn by (vm_compute; reflexivity).
  assert (Job_AgentID tick_job = Some (Agent_ID agent_2)) as Hag by (vm_compute; reflexivity).
  assert (uuid_Parse (URLParam cancel_request "id") = Ok 8%N) as Hc by (vm_compute; reflexivity).
  assert (uuid_Parse (URLParam result_request "job_id") = Ok 8%N) as Hid by (vm_compute; reflexivity).
  exact (Hres 8%N tick_job agent_2 cancel_request [sample_answer] result_request
    (Jobs.Build_ResultBody JobStatusSuccess 0 {[ "version" := JStr "2" ]}) [sample_answer]
    Hj Hn Hag Hc Ha eq_refl Hid eq_refl eq_refl Ha).
Defined.

(** ** An agent over a tick *)

Definition tick_agent (s : World * list (prog Ev unit)) : option AgentRow := db_agents (w_db s.1) !! 2%N.

Lemma registry_permanent_witness :
  reachable before_tick (before_tick, []) ∧
  sys_reach perform Spawned time_passes (before_tick, []) after_tick ∧
  ∃ r r', tick_agent (before_tick, []) = Some r ∧ Agent_Status (AgentRow_Agent r) = AgentStatusOnline ∧
    tick_agent after_tick = Some r' ∧ agent_kept r r'.
Proof.
  assert (reachable before_tick (before_tick, [])) as Hr by apply rtc_refl.
  assert (sys_reach perform Spawned time_passes (before_tick, []) after_tick) as Hs by exact tick_reachable.
  split; [exact Hr|]. split; [exact Hs|].
  assert (tick_agent (before_tick, []) = Some (sample_agent 2 1 sample_now)) as Ha by (vm_compute; reflexivity).
  destruct (registry_permanent before_tick (before_tick, []) after_tick 2%N _ Hr Hs Ha) as (r' & Hr' & Hk).
  exists (sample_agent 2 1 sample_now), r'. split; [exact Ha|]. split; [vm_compute; reflexivity|]. split; [exact Hr'|exact Hk].
Defined.

Lemma nothing_recorded_witness :
  reachable before_tick after_tick ∧ dormant (w_db before_tick) (w_db after_tick.1) ∧
  db_job_status_events (w_db after_tick.1) = ∅.
Proof.
  pose proof tick_reachable as Hr. split; [exact Hr|].
  destruct (nothing_recorded before_tick after_tick Hr) as (Hd & He & _).
  split; [exact Hd|]. apply He. reflexivity.
Defined.
